(* ===== verification/_CoqProject ===== *)
-Q . S2P
Prelude.v
JsNumber.v
JsText.v
Events.v
Http.v
Schema.v
Sql.v
Fixtures.v
Checkout.v
Publisher.v
Relay.v
Consumer.v
Pipeline.v
Token.v
Auth.v
Async.v
Limits.v
Storage.v
StorageSim.v
Files.v
Cursor.v
Orders.v
OrdersApi.v
Worker.v
Retry.v
Redis.v
RedisSim.v
RateLimit.v
Cache.v
SingleFlight.v
Session.v
Cdn.v
Migrations.v
Env.v
Seed.v
ProductCard.v
Isolation.v
Race.v
Oversell.v
RepeatableRead.v
RetryDemo.v
AuthApi.v
Recovery.v
FilesApi.v
Mq.v
OutboxDemos.v
WorkersDemo.v
MqDemos.v
RedisDemos.v
Report.v
NPlusOne.v
CdnDemo.v
