(* ===== verification/Prelude.v ===== *)
(** * Marketplace API: a verified model of its core

    The program (src/src, cited below as src) is a TypeScript service on NestJS, Postgres (TypeORM
    and pg), RabbitMQ, Redis and an S3-compatible store, with the acceptance
    scripts (demo-*.ts) that run its parts together.  This library models its
    own logic, proves it correct and keeps everything the repository does not
    contain as parameters with stated laws.

    ** How the parts interact

    A client posts an order to the HTTP edge ([OrdersApi]); the checkout
    ([Checkout]) takes stock and money and writes order, item, job, idempotency
    key and outbox event in one Postgres transaction ([Sql] on [Schema]).  The
    relay ([Relay]) publishes outbox rows ([Publisher]) and marks them; the
    consumer ([Consumer]) applies each [order.placed] event ([Events]) to the
    receipts, once.  [Pipeline] composes the four into one transition system
    with the broker, and [Recovery] brings it to rest.  [Worker] empties
    [job_queue]; [Retry] repeats turned-away transactions.  Users log in through
    [Auth] with tokens of [Token], over HTTP in [AuthApi]; [Files] hands out
    presigned uploads against the store of [Storage] within the limits of
    [Limits], over HTTP in [FilesApi]; [Orders] is the in-memory catalogue and
    order API with its guards, SSE stream and WebSocket rooms, on [Cursor]
    pagination and [Http] answers.  [RateLimit], [Cache] and [Session] work on
    the shared Redis of [Redis]; [Cdn] is the edge in front of the bucket.

    ** Files

    - [Prelude]: tactics, list and map lemmas.  [JsNumber], [JsText]: the parts
      of JavaScript the source computes with: binary64 numbers, [Number(text)],
      number printing, base64url, [split] and [join], case folding.
    - [Schema]: rows of src/entities and src/migrations, one record per table,
      the constraints as [db_ok].  [Sql]: the state, exception and fault monad
      of a transaction (BEGIN, COMMIT, ROLLBACK; a COMMIT may be lost).
      [Fixtures]: concrete data for the witnesses.
    - [Migrations]: the DDL of src/migrations as operations on a catalogue, and
      the meaning of a catalogue on the rows of [Schema].
    - [Env]: src/config/env.schema.ts.
    - [Events], [Publisher], [Relay], [Consumer], [Checkout], [Worker], [Retry]:
      src/messaging/*.ts, src/outbox/relay.ts, src/checkout.ts,
      src/queue-worker.ts, src/concurrency/lib.ts; [Pipeline] and [Recovery]
      compose them.
    - [Isolation], [Race], [Oversell]: READ COMMITTED, the checkout as a session
      of it, and the sale of src/demo-race.ts.  [RepeatableRead], [RetryDemo]:
      REPEATABLE READ under [withRetry] and src/demo-retry.ts.
    - [Seed]: src/seed.ts.  [ProductCard]: src/redis/product-card.ts.  [Report]:
      src/report.ts.  [NPlusOne]: src/query-count-logger.ts, src/demo-nplus1.ts.
    - [Token], [Auth], [AuthApi]: src/auth, src/demo-auth.ts, src/demo-reuse.ts,
      src/demo-rbac.ts.
    - [Async]: awaited calls on a world that others change between any two of
      them; [Storage], [StorageSim], [Files], [FilesApi] (with
      src/files/client-mpu.ts, src/demo-multipart.ts), [Redis], [RedisSim],
      [Cache], [Session], [RateLimit] and the demonstrations use it.
    - [SingleFlight]: the [get] of [Cache] as a program, any number of them
      interleaved.  [RedisDemos]: src/demo-ratelimit.ts, src/demo-session.ts.
    - [Http], [Cursor], [Orders], [OrdersApi], [Cdn], [CdnDemo]: src/common,
      src/products, src/orders, src/auth/auth.guard.ts,
      src/outbox/orders-api.ts, src/cdn, src/demo-cdn.ts.
    - [Mq], [OutboxDemos], [MqDemos], [WorkersDemo]: the world of the messaging
      scripts, and src/demo-crash-write.ts, src/demo-crash-relay.ts,
      src/demo-publish.ts, src/demo-duplicate.ts, src/demo-dlq.ts,
      src/demo-outbox.ts, src/demo-workers.ts.

    A definition has the name of the function it models (a TypeScript method
    [C.m] is [m] in the file of its class, a statement of a long function has a
    name of its own and the function composes them in the order of the source).

    ** State and effects

    The database is the record [db] of tables (maps from primary keys to rows).
    A transaction is a function of the database, a clock and a fault oracle
    [φ]: any statement may fail, executed or not, and so may COMMIT.  Where two
    requests interleave the model has a schedule or a step relation, and the
    theorems quantify over all of them:

    - inside one request: the schedule of [Async] says what fails and what
      everyone else does before each awaited call;
    - between transactions: [Isolation] and [RepeatableRead] run the statements
      of any number of sessions one at a time, with row locks, snapshots,
      first-updater-wins, lost connections and lost answers of COMMIT; a token
      transaction of [Auth] runs at once, except that its UPDATE of a session
      misses the rows [ae_missed] that others insert while it is under way;
    - between components: the transition systems of [Pipeline], [Worker],
      [RateLimit] (histories) and [SingleFlight];
    - beside a script: in [Mq] the consumer and the relay act before each
      awaited call and, in rounds, while the script sleeps; a wait is given as
      many rounds in which everybody acts as the theorem names, nothing else is
      assumed of the schedule.

    ** What the theorems show

    Theorems that are numbered claims carry their number in the comment; the
    others are in the same files.

    - Selling: [checkout_refines] (decision table), [checkout_atomic],
      [checkout_once_per_key], [checkout_conserves],
      [checkout_charges_exact_cents]; at the HTTP edge [api_outcome] and
      [api_retries]; at the same time [checkout_serializable],
      [checkouts_end], [sale_exact] and [race_demo_passes].
    - Retrying: [withRetry_once], [retries_serializable], [adjusts_add_up],
      [retry_demo_passes].
    - Announcing: [pipeline_no_loss], [pipeline_receipts_exact] and
      [pipeline_recovers] for the whole path; [relay_never_loses],
      [relay_pass_prefix], [relayUntilEmpty_drains],
      [applyOrderPlaced_refines], [ack_after_effect], [deliveries_apply_once]
      and [outbox_event_accepted] for its parts; the scripts
      [crash_write_passes], [crash_relay_passes], [publish_passes],
      [duplicate_passes], [dlq_passes] and [outbox_passes].
    - Jobs: [jobs_exactly_once], [runWorker_drains], [workers_pass].
    - Sessions: [reuse_revokes_family], [logout_ends_session],
      [single_live_token], [refresh_token_single_use], [refresh_rotates],
      [key_rotation_overlap]; the scripts [demo_auth_passes],
      [demo_reuse_passes] and [demo_rbac_passes].
    - Files: [part_plan_valid], [commit_verified], [resume_completes],
      [commit_refuses_incomplete], [intent_idempotent], [files_ownership],
      [crash_resume_completes], [demo_multipart_passes].
    - HTTP layer: [pages_cover], [sse_resume], [serve_guarded],
      [ws_confidential], [filter_answers].
    - Redis and edge: [sliding_window_exact], [retry_after_sufficient],
      [ratelimit_passes], [cache_never_drops], [cache_lock_respected],
      [single_flight], [warm_reads], [session_rolling],
      [session_middleware_sound], [session_passes],
      [edge_serves_public_fresh], [demo_cdn_passes].
    - Data: [schema_enforces], [migrations_revert],
      [entities_match_migrations], [seed_reruns], [product_card_exact],
      [report_exact], [naive_grows]; configuration: [validate_exact],
      [validate_typed], [validated_service_starts].

    Defects found while modelling: [exact_balance_refused],
    [family_race_leaves_live_token], [unroutable_never_thrown],
    [empty_key_conflict], [garbage_cursor_accepted], [zero_limit_admits],
    [malformed_url_rejects], [overlap_reported_late] and
    [corrupt_entry_drops].

    Where a guarantee has an edge the theorem states it: the last 100 events of
    [sse_resume], the dead-letter queue of [pipeline_recovers], the snapshot of
    [reuse_revokes_family] and [logout_ends_session], the texts under the key of
    [cache_never_drops], the waiting time of [single_flight], the rows a
    transaction owns ([owns_rows]) of [retries_serializable], what the schema
    leaves to the program ([program_keeps]) of [schema_enforces].

    ** Fuel and bounds

    Every loop that needs fuel gets a number that is proved enough:
    [listAllParts] runs [pages_fuel] = [MAX_PARTS] + 1 pages; [runWorker] the
    number of new jobs + 1 rounds; [relayUntilEmpty] and the drain of [Mq] one
    pass more than there are unpublished rows; the cache's waiting loop
    [wait_fuel] = waitMs / pollMs + 2 polls; the wipe of [CdnDemo] one listing
    more than there are objects; [decode_uri] its length + 1; a cursor walk the
    number of elements; number printing tries the 42 decimal positions from
    [10^20] down.  Money is an integral number of hundredths within
    [numeric(12,2)]; [int4] and [bigint] ranges are those of Postgres; times are
    integral milliseconds.

    ** Parameters

    [PgText] (input of ids from text), the values [next] of identity columns of
    the seeded tables, [EventLib] (SHA-1, zod's string formats), [Zod] and
    [KeyDetails] (URLs, zod's messages, key parsing), [JwtLib], [JwtText] and
    [CryptoLib] (jsonwebtoken, node:crypto), [Hmac], [Routing], [Broker],
    [BrokerDepth] and [Amqp] (RabbitMQ), [S3], [S3Put] and [Bucket] (the store
    and its SDK), [Redis] and [RedisInspect] (server and ioredis); the forged
    token of the access-control script, SHA-256, the JSON codec of cached and
    session values, the text of zod's messages and [String] of a number that is
    not an integer are arguments.  Each class has its laws in a separate class
    and an instance in the witnesses ([StorageSim], [RedisSim], the [fix_*]
    sections).

    ** Simplifications

    Log lines, printed values nobody checks and timers that only delay are left
    out.  A delivery that the background consumer handles in [Mq], and a relay
    pass of the background relay, is one turn; a child process of a script runs
    up to its end or its death within one awaited step.  The request body of the
    HTTP edge is the JSON value it denotes, the bytes of an uploaded part are
    their number.  Rows without ORDER BY, and ties of one, come in the order of
    the maps.  Dead-lettering loses no message ([BrokerLaws]); the sorted-set
    commands of the limiter are not refused for memory ([RedisLaws]), since its
    instance evicts instead; an idempotency key has no NUL byte.

    ** Not modelled, and why

    - src/main.ts, the modules, src/data-source.ts, connection options, health
      probes and process entry points: framework wiring without a state or a
      decision of its own.
    - src/redis/clients.ts, src/redis/config.ts, src/redis/queue.ts,
      src/demo-queue.ts: options and calls of BullMQ and ioredis; deduplication,
      backoff and scheduling are BullMQ's own code.
    - src/demo-cache.ts, src/demo-upload.ts: what they observe is which key an
      LRU instance evicts, and which signed URL S3 refuses; the cache and the
      upload service they call are modelled.
    - The relation loading of src/demo-nplus1.ts (how many statements TypeORM
      sends), the port probe and the lifecycle rule of src/files/demo-lib.ts.
    - RxJS, socket.io and Nest's dependency injection are third-party code;
      [Orders] keeps the events they carry.
    - DDL that no statement depends on (indexes without UNIQUE) appears in
      [Migrations] only; scripts/ next to src/src is deployment tooling. *)
From stdpp Require Export base gmap strings list fin_maps sorting.
From Stdlib Require Export ZArith Lia.

#[global] Set Default Goal Selector "!".
#[global] Open Scope Z_scope.

(** ** Exceptions and results

    What a TypeScript function of the project may throw.  [PgError] carries the
    SQLSTATE code of the driver error, [HttpError] a Nest [HttpException]
    (status, problem code, detail), [SdkError] an object thrown by the S3 SDK
    (its [name], [Code], [message] and HTTP status, where it has them),
    [JsError] any other [Error]. *)

Inductive exn :=
| PgError (code : string)
| HttpError (status : Z) (code : option string) (detail : string)
| SdkError (name Code message : option string) (httpStatusCode : option Z)
| JsError (msg : string).

#[export] Instance exn_eq_dec : EqDecision exn.
Proof. solve_decision. Defined.

Inductive result (A : Type) :=
| Ok (a : A)
| Err (e : exn).
Arguments Ok {A} a.
Arguments Err {A} e.

#[export] Instance result_eq_dec {A} `{EqDecision A} : EqDecision (result A).
Proof. solve_decision. Defined.

Definition rbind {A B} (x : result A) (f : A → result B) : result B :=
  match x with Ok a => f a | Err e => Err e end.

Declare Scope res_scope.
Delimit Scope res_scope with res.
Notation "x <-! c ;; k" := (rbind c (λ x, k))
  (at level 100, c at next level, right associativity) : res_scope.

(** [Array.prototype.slice(from, to)]: negative indices count from the end and
    both bounds are clamped to [0, length]. *)
Definition js_clamp (len i : Z) : Z :=
  if i <? 0 then Z.max 0 (len + i) else Z.min i len.

Definition js_slice {A} (l : list A) (from to : Z) : list A :=
  let len := Z.of_nat (length l) in
  let a := js_clamp len from in
  let b := js_clamp len to in
  take (Z.to_nat (b - a)) (drop (Z.to_nat a) l).

(** A nullable text used as a condition: the empty text is falsy. *)
Definition truthy (s : option string) : option string :=
  match s with Some "" => None | _ => s end.

Definition sumZ {A} (f : A → Z) (l : list A) : Z := foldr (λ x acc, f x + acc) 0 l.

Lemma sumZ_app {A} (f : A → Z) l k : sumZ f (l ++ k) = sumZ f l + sumZ f k.
Proof. induction l; simpl; lia. Qed.

Lemma js_slice_nonneg {A} (l : list A) a n :
  0 ≤ a → 0 ≤ n → js_slice l a (a + n) = take (Z.to_nat n) (drop (Z.to_nat a) l).
Proof.
  intros Ha Hn. unfold js_slice, js_clamp.
  destruct (Z.ltb_spec a 0); [lia|]. destruct (Z.ltb_spec (a + n) 0); [lia|].
  destruct (decide (a ≤ Z.of_nat (length l))) as [Hle|Hgt].
  - rewrite (Z.min_l a) by lia.
    destruct (decide (a + n ≤ Z.of_nat (length l))).
    + rewrite Z.min_l by lia. f_equal. lia.
    + rewrite Z.min_r by lia. rewrite !take_ge; rewrite ?length_drop; [done|lia..].
  - rewrite !drop_ge by lia. by rewrite !take_nil.
Qed.

(** Case analysis on every boolean test or [decide] in sight. *)
Ltac case_all :=
  repeat first
    [ case_decide
    | match goal with
      | |- context [if ?b then _ else _] => destruct b eqn:?
      | |- context [match ?x with _ => _ end] => destruct x eqn:?
      end ].

(** Turn boolean comparisons of the context into propositions. *)
Ltac zify_bools :=
  repeat match goal with
  | H : (_ <? _) = true |- _ => apply Z.ltb_lt in H
  | H : (_ <? _) = false |- _ => apply Z.ltb_ge in H
  | H : (_ <=? _) = true |- _ => apply Z.leb_le in H
  | H : (_ <=? _) = false |- _ => apply Z.leb_gt in H
  | H : (_ =? _) = true |- _ => apply Z.eqb_eq in H
  | H : (_ =? _) = false |- _ => apply Z.eqb_neq in H
  | H : (_ && _) = true |- _ => apply andb_true_iff in H as [??]
  | H : (_ || _) = false |- _ => apply orb_false_iff in H as [??]
  | H : negb _ = true |- _ => apply negb_true_iff in H
  | H : negb _ = false |- _ => apply negb_false_iff in H
  end.

(** ** Lists sorted by a numeric key *)

Definition by_key {A} (f : A → Z) (p q : A) : Prop := f p < f q.

Lemma filter_none {A} (P : A → Prop) `{∀ x, Decision (P x)} (l : list A) :
  (∀ x, x ∈ l → ¬ P x) → filter P l = [].
Proof.
  induction l as [|x l IH]; intros Hl; [done|].
  rewrite filter_cons_False by (apply Hl; by left). apply IH. intros y Hy. apply Hl. by right.
Qed.
Lemma filter_all {A} (P : A → Prop) `{∀ x, Decision (P x)} (l : list A) :
  (∀ x, x ∈ l → P x) → filter P l = l.
Proof.
  induction l as [|x l IH]; intros Hl; [done|].
  rewrite filter_cons_True by (apply Hl; by left). f_equal. apply IH. intros y Hy. apply Hl. by right.
Qed.

Lemma filter_ext_in {A} (P Q : A → Prop) `{∀ x, Decision (P x), ∀ x, Decision (Q x)} (l : list A) :
  (∀ x, x ∈ l → P x ↔ Q x) → filter P l = filter Q l.
Proof.
  induction l as [|x l IH]; intros Hl; [done|]. rewrite !filter_cons.
  pose proof (Hl x ltac:(left)). rewrite IH by (intros; apply Hl; by right). repeat case_decide; tauto.
Qed.

Lemma filter_sorted {A} (R : relation A) (P : A → Prop) `{∀ x, Decision (P x)} (l : list A) :
  StronglySorted R l → StronglySorted R (filter P l).
Proof.
  induction 1 as [|x l Hl IH Hx]; [constructor|]. rewrite filter_cons. case_decide; [|done].
  constructor; [done|]. apply Forall_forall. intros y [_ Hy]%list_elem_of_filter.
  rewrite Forall_forall in Hx. by apply Hx.
Qed.

Lemma sorted_key_NoDup {A} (f : A → Z) (l : list A) : StronglySorted (by_key f) l → NoDup (f <$> l).
Proof.
  induction 1 as [|x l Hl IH Hx]; [constructor|]. cbn. constructor; [|done].
  intros (y & Hy & Hin)%list_elem_of_fmap. rewrite Forall_forall in Hx.
  specialize (Hx y Hin). unfold by_key in Hx. lia.
Qed.

(** Paging: what comes after the last element of a page that follows [m]. *)
Lemma sorted_next_page {A} (f : A → Z) (l : list A) m n p :
  StronglySorted (by_key f) l → last (take n (filter (λ q, m < f q) l)) = Some p →
  m < f p ∧ p ∈ l ∧ filter (λ q, f p < f q) l = drop n (filter (λ q, m < f q) l).
Proof.
  intros Hl Hp. set (rest := filter (λ q, m < f q) l) in *.
  assert (Hs : StronglySorted (by_key f) rest) by by apply filter_sorted.
  apply last_Some in Hp as [l' Hl'].
  assert (Hin : p ∈ rest).
  { rewrite <- (take_drop n rest), Hl'. rewrite !elem_of_app, list_elem_of_singleton. auto. }
  apply list_elem_of_filter in Hin as [Hm Hin]. split_and!; [done|done|].
  transitivity (filter (λ q, f p < f q) rest).
  { symmetry. apply list_filter_filter_l. intros; lia. }
  rewrite <- (take_drop n rest) in Hs |- * at 1. rewrite Hl' in Hs |- *.
  rewrite filter_app. apply StronglySorted_app in Hs as (Hx & Hpre & Hsuf).
  apply StronglySorted_app in Hpre as (Hy & _ & _).
  rewrite filter_app, (filter_cons_False _ p) by lia.
  rewrite filter_none, filter_nil.
  - apply filter_all. intros y Hyin.
    apply (Hx p y); [|done]. rewrite elem_of_app, list_elem_of_singleton. auto.
  - intros y Hyin. specialize (Hy y p Hyin ltac:(by apply list_elem_of_singleton)).
    unfold by_key in Hy. lia.
Qed.

Lemma sorted_max_last {A} (f : A → Z) (l : list A) p :
  StronglySorted (by_key f) l → p ∈ l → (∀ q, q ∈ l → f q ≤ f p) → last l = Some p.
Proof.
  induction 1 as [|x l Hl IH Hx]; [by intros ?%elem_of_nil|].
  rewrite Forall_forall in Hx. intros Hp Hmax. destruct l as [|y l].
  - apply list_elem_of_singleton in Hp as ->. done.
  - change (last (x :: y :: l)) with (last (y :: l)). apply IH.
    + apply elem_of_cons in Hp as [->|]; [|done].
      specialize (Hx y ltac:(left)). specialize (Hmax y ltac:(right; left)). unfold by_key in Hx. lia.
    + intros q Hq. apply Hmax. by right.
Qed.

(** A sorted list with the elements of another sorted list. *)
Lemma sorted_key_eq {A} (f : A → Z) (l k : list A) :
  StronglySorted (by_key f) l → StronglySorted (by_key f) k → (∀ x, x ∈ l ↔ x ∈ k) → l = k.
Proof.
  intros Hl Hk Hin. apply (StronglySorted_unique_strong (by_key f)); [|done|done|].
  - unfold by_key. intros; lia.
  - apply NoDup_Permutation; [..|done]; eapply NoDup_fmap_1, sorted_key_NoDup; eauto.
Qed.

Lemma sorted_key_inj {A} (f : A → Z) (l : list A) x y :
  StronglySorted (by_key f) l → x ∈ l → y ∈ l → f x = f y → x = y.
Proof.
  intros Hl [i Hi]%list_elem_of_lookup [j Hj]%list_elem_of_lookup Hf.
  pose proof (sorted_key_NoDup f l Hl) as Hn. rewrite NoDup_alt in Hn.
  assert (i = j) as ->; [|congruence].
  apply (Hn i j (f x)); rewrite list_lookup_fmap; [by rewrite Hi|by rewrite Hj, Hf].
Qed.

Lemma sublist_sorted {A} (R : relation A) (l k : list A) :
  l `sublist_of` k → StronglySorted R k → StronglySorted R l.
Proof.
  intros Hlk. induction Hlk as [|x l k Hlk IH|x l k Hlk IH]; intros Hk; [constructor|..];
    apply StronglySorted_inv in Hk as [Hk Hx]; [|by apply IH].
  constructor; [by apply IH|]. rewrite Forall_forall in Hx |- *. intros y Hy.
  by apply Hx; eapply elem_of_sublist.
Qed.

Lemma seqZ_sorted a n : StronglySorted Z.lt (seqZ a n).
Proof.
  destruct (Z.le_gt_cases 0 n) as [Hn|]; [|rewrite seqZ_nil by lia; constructor].
  revert a. pattern n. apply natlike_ind; [..|done].
  - intros a. rewrite seqZ_nil by lia. constructor.
  - intros k Hk IH a. rewrite seqZ_cons by lia. rewrite Z.pred_succ. constructor; [apply IH|].
    apply Forall_forall. intros x Hx%elem_of_seqZ. lia.
Qed.

Lemma sumZ_Permutation {A} (f : A → Z) (l k : list A) : l ≡ₚ k → sumZ f l = sumZ f k.
Proof. unfold sumZ. induction 1; cbn [foldr]; lia. Qed.
Lemma sumZ_fmap {A B} (g : A → B) (f : B → Z) (l : list A) : sumZ f (g <$> l) = sumZ (λ x, f (g x)) l.
Proof. unfold sumZ. induction l as [|x l IH]; [done|]. cbn. by rewrite <- IH. Qed.
Lemma sumZ_ext {A} (f g : A → Z) (l : list A) : (∀ x, x ∈ l → f x = g x) → sumZ f l = sumZ g l.
Proof.
  induction l as [|x l IH]; [done|]. intros Hfg.
  change (f x + sumZ f l = g x + sumZ g l).
  rewrite (Hfg x), IH by first [by left|intros; apply Hfg; by right]. done.
Qed.
