(* ===== verification/JsNumber.v ===== *)
(** JavaScript numbers: IEEE binary64 values as the source uses them
    ([Number(text)], [*], [String(n)]), and Postgres [numeric(12,2)] amounts. *)
From S2P Require Import Prelude.
From Stdlib Require Import QArith Qabs Lqa.
#[local] Open Scope Z_scope.

(** A binary64 number: [Fin m e] is the finite value [m * 2^e].  A negative
    zero is [Fin 0 _] as well: no operation of the source tells it from zero. *)
Inductive num :=
| Fin (m e : Z)
| PInf
| NInf
| NaN.

#[export] Instance num_eq_dec : EqDecision num.
Proof. solve_decision. Defined.

(** Nearest integer of [n / d], ties to even ([d > 0]). *)
Definition round_ne (n d : Z) : Z :=
  let q := n / d in
  match 2 * (n mod d) ?= d with
  | Lt => q
  | Gt => q + 1
  | Eq => if Z.even q then q else q + 1
  end.

(** [n / (d * 2^e)] as a fraction. *)
Definition scaled (n d e : Z) : Z * Z :=
  if 0 <=? e then (n, d * 2 ^ e) else (n * 2 ^ (- e), d).

(** Exponent of the unit in the last place of the binary64 numbers around
    [n / d]: 53 significant bits, subnormals from [2^-1074] on. *)
Definition bexp (n d : Z) : Z :=
  let k := Z.log2 n - Z.log2 d in
  let '(a, b) := scaled n d k in
  Z.max (-1074) ((if b <=? a then k else k - 1) - 52).

(** The binary64 number nearest to the nonnegative rational [n / d]. *)
Definition rnd_pos (n d : Z) : num :=
  if n =? 0 then Fin 0 0 else
  let e := bexp n d in
  let '(a, b) := scaled n d e in
  let m := round_ne a b in
  let '(m', e') := if 2 ^ 53 <=? m then (2 ^ 52, e + 1) else (m, e) in
  if m' =? 0 then Fin 0 0 else
  if 971 <? e' then PInf else Fin m' e'.

Definition num_opp (x : num) : num :=
  match x with Fin m e => Fin (- m) e | PInf => NInf | NInf => PInf | NaN => NaN end.

Definition rnd (n d : Z) : num :=
  if n <? 0 then num_opp (rnd_pos (- n) d) else rnd_pos n d.

(** A finite value as a fraction with positive denominator. *)
Definition frac (m e : Z) : Z * Z := if 0 <=? e then (m * 2 ^ e, 1) else (m, 2 ^ (- e)).

(** [x * y] on numbers (finite operands, the only ones the source multiplies;
    any other operand gives [NaN]). *)
Definition num_mul (x y : num) : num :=
  match x, y with
  | Fin m1 e1, Fin m2 e2 => let '(n, d) := frac (m1 * m2) (e1 + e2) in rnd n d
  | _, _ => NaN
  end.

(** An integer as a number. *)
Definition num_of_Z (z : Z) : num := rnd z 1.

(** [Number.isInteger(x)] with the integer it is. *)
Definition num_to_Z (x : num) : option Z :=
  match x with
  | Fin m e => let '(n, d) := frac m e in if n mod d =? 0 then Some (n / d) else None
  | _ => None
  end.

(** [Number(text)] of a Postgres [numeric(12,2)] value: the column holds an
    integral number of hundredths [c], its text reads as [c / 100]
    (src/entities/numeric.transformer.ts, src/checkout.ts). *)
Definition num_of_cents (c : Z) : num := rnd c 100.

(** A decimal literal: [dcoef / 10^dscale]. *)
Record decimal := Dec { dcoef : Z; dscale : Z }.

(** [String(x)] for [|x| < 1e21]: the shortest decimal that reads back as [x]
    (ECMAScript Number::toString), searched from the largest power of ten. *)
Fixpoint shortest (fuel : nat) (n d : Z) (x : num) (p : Z) : Z * Z :=
  let s := if 0 <=? p then round_ne n (d * 10 ^ p) else round_ne (n * 10 ^ (- p)) d in
  let back := if 0 <=? p then rnd (s * 10 ^ p) 1 else rnd s (10 ^ (- p)) in
  match fuel with
  | O => (s, p)
  | S f => if bool_decide (back = x) then (s, p) else shortest f n d x (p - 1)
  end.

Definition num_text (x : num) : option decimal :=
  match x with
  | Fin m e =>
      let '(n, d) := frac m e in
      let '(s, p) := shortest 42 n d x 20 in
      Some (if 0 <=? p then Dec (s * 10 ^ p) 0 else Dec s (- p))
  | _ => None
  end.

(** *** numeric(12,2) columns, in hundredths *)

(** Rounding to two decimals on assignment: half away from zero. *)
Definition round_haz (n d : Z) : Z :=
  if n <? 0 then - ((2 * (- n) + d) / (2 * d)) else (2 * n + d) / (2 * d).

Definition numeric_max : Z := 10 ^ 12.

(** Assign the rational [n / d] to a [numeric(12,2)] column; [None] is
    "numeric field overflow" (SQLSTATE 22003). *)
Definition to_numeric (n d : Z) : option Z :=
  let c := round_haz (100 * n) d in
  if Z.abs c <? numeric_max then Some c else None.

(** [balance >= $1] and [balance - $1] for a column of [c] hundredths. *)
Definition numeric_ge (c : Z) (x : decimal) : bool :=
  100 * dcoef x <=? c * 10 ^ dscale x.
Definition numeric_sub (c : Z) (x : decimal) : option Z :=
  to_numeric (c * 10 ^ dscale x - 100 * dcoef x) (100 * 10 ^ dscale x).
Definition numeric_of (x : decimal) : option Z := to_numeric (dcoef x) (10 ^ dscale x).

Example num_01_times_3 : num_text (num_mul (num_of_cents 10) (num_of_Z 3)) = Some (Dec 30000000000000004 17).
Proof. vm_compute. reflexivity. Qed.
Example num_text_12_34 : num_text (num_of_cents 1234) = Some (Dec 1234 2).
Proof. vm_compute. reflexivity. Qed.
Example num_text_300 : num_text (num_of_cents 30000) = Some (Dec 300 0).
Proof. vm_compute. reflexivity. Qed.

(** ** Rounding error of binary64 *)

Lemma round_ne_half n d : 0 < d → 2 * Z.abs (round_ne n d * d - n) ≤ d.
Proof.
  intros Hd. unfold round_ne.
  pose proof (Z.div_mod n d ltac:(lia)). pose proof (Z.mod_pos_bound n d Hd).
  destruct (Z.compare_spec (2 * (n mod d)) d); [destruct (Z.even _)|..]; nia.
Qed.

Lemma round_ne_exact n d : 0 < d → round_ne (n * d) d = n.
Proof.
  intros Hd. unfold round_ne. rewrite Z.mod_mul, Z.div_mul by lia.
  destruct (Z.compare_spec (2 * 0) d); lia.
Qed.

(** [2^k <= n / d]. *)
Definition ge_pow (n d k : Z) : Prop :=
  if 0 <=? k then d * 2 ^ k ≤ n else d ≤ n * 2 ^ (- k).

Lemma ge_pow_scaled n d e j :
  0 ≤ j → ge_pow n d (e + j) ↔ 2 ^ j * (scaled n d e).2 ≤ (scaled n d e).1.
Proof.
  intros Hj. unfold ge_pow, scaled.
  destruct (Z.leb_spec 0 e); simpl; destruct (Z.leb_spec 0 (e + j)); try lia.
  - rewrite Z.pow_add_r by lia. nia.
  - assert (Hp : 2 ^ j = 2 ^ (e + j) * 2 ^ (- e)) by (rewrite <- Z.pow_add_r by lia; f_equal; lia).
    rewrite Hp. assert (0 < 2 ^ (- e)) by (apply Z.pow_pos_nonneg; lia). nia.
  - assert (Hp : 2 ^ (- e) = 2 ^ j * 2 ^ (- (e + j))) by (rewrite <- Z.pow_add_r by lia; f_equal; lia).
    rewrite Hp. assert (0 < 2 ^ j) by (apply Z.pow_pos_nonneg; lia). nia.
Qed.

Lemma scaled_pos n d e : 0 < n → 0 < d → 0 < (scaled n d e).1 ∧ 0 < (scaled n d e).2.
Proof.
  intros. unfold scaled. destruct (Z.leb_spec 0 e); simpl; split; try lia;
    apply Z.mul_pos_pos; try lia; apply Z.pow_pos_nonneg; lia.
Qed.

Lemma ge_pow_log n d : 0 < n → 0 < d →
  let k := Z.log2 n - Z.log2 d in ge_pow n d (k - 1) ∧ ¬ ge_pow n d (k + 1).
Proof.
  intros Hn Hd k.
  pose proof (Z.log2_spec n Hn) as [Hn1 Hn2]. pose proof (Z.log2_spec d Hd) as [Hd1 Hd2].
  pose proof (Z.log2_nonneg n). pose proof (Z.log2_nonneg d).
  set (ln := Z.log2 n) in *. set (ld := Z.log2 d) in *.
  rewrite Z.pow_succ_r in Hn2, Hd2 by lia.
  split; unfold ge_pow.
  - destruct (Z.leb_spec 0 (k - 1)) as [Hk|Hk].
    + assert (Hp : 2 ^ ln = 2 ^ (k - 1) * (2 * 2 ^ ld)).
      { rewrite <- Z.pow_succ_r, <- Z.pow_add_r by lia. f_equal. lia. }
      assert (0 < 2 ^ (k - 1)) by (apply Z.pow_pos_nonneg; lia). nia.
    + assert (Hp : 2 * 2 ^ ld = 2 ^ ln * 2 ^ (- (k - 1))).
      { rewrite <- Z.pow_succ_r, <- Z.pow_add_r by lia. f_equal. lia. }
      assert (0 < 2 ^ (- (k - 1))) by (apply Z.pow_pos_nonneg; lia). nia.
  - destruct (Z.leb_spec 0 (k + 1)) as [Hk|Hk].
    + assert (Hp : 2 * 2 ^ ln = 2 ^ (k + 1) * 2 ^ ld).
      { rewrite <- Z.pow_succ_r, <- Z.pow_add_r by lia. f_equal. lia. }
      assert (0 < 2 ^ (k + 1)) by (apply Z.pow_pos_nonneg; lia). nia.
    + assert (Hp : 2 ^ ld = 2 * 2 ^ ln * 2 ^ (- (k + 1))).
      { rewrite <- Z.pow_succ_r, <- Z.pow_add_r by lia. f_equal. lia. }
      assert (0 < 2 ^ (- (k + 1))) by (apply Z.pow_pos_nonneg; lia). nia.
Qed.

(** In the normal range the scaled significand has exactly 53 bits. *)
Lemma bexp_spec n d : 0 < n → 0 < d →
  let '(a, b) := scaled n d (bexp n d) in
  a < 2 ^ 53 * b ∧ (ge_pow n d (-1022) → 2 ^ 52 * b ≤ a).
Proof.
  intros Hn Hd. destruct (ge_pow_log n d Hn Hd) as [Hlo Hhi].
  unfold bexp. set (k := Z.log2 n - Z.log2 d) in *.
  destruct (scaled n d k) as [a0 b0] eqn:Hs.
  set (k' := if b0 <=? a0 then k else k - 1).
  assert (Hk : ge_pow n d k' ∧ ¬ ge_pow n d (k' + 1)).
  { pose proof (ge_pow_scaled n d k 0 ltac:(lia)) as H0.
    rewrite Hs, Z.add_0_r, Z.mul_1_l in H0. cbn [fst snd] in H0.
    subst k'. destruct (Z.leb_spec b0 a0).
    - split; [tauto|done].
    - split; [done|]. replace (k - 1 + 1) with k by lia. rewrite H0. lia. }
  destruct Hk as [Hk1 Hk2].
  destruct (scaled n d (Z.max (-1074) (k' - 52))) as [a b] eqn:Hab.
  set (e := Z.max (-1074) (k' - 52)) in *.
  assert (He : e = k' - 52 ∨ (e = -1074 ∧ k' < -1022)) by lia.
  pose proof (ge_pow_scaled n d e) as Hsc. rewrite Hab in Hsc. cbn [fst snd] in Hsc.
  assert (Hmono : ∀ i j, 0 ≤ i ≤ j → ge_pow n d (e + j) → ge_pow n d (e + i)).
  { intros i j Hij. rewrite !Hsc by lia. intros.
    assert (2 ^ i ≤ 2 ^ j) by (apply Z.pow_le_mono_r; lia).
    pose proof (scaled_pos n d e Hn Hd) as Hpos. rewrite Hab in Hpos. cbn [fst snd] in Hpos. nia. }
  destruct He as [He|[He Hk']].
  - replace k' with (e + 52) in Hk1 by lia. rewrite Hsc in Hk1 by lia.
    replace (k' + 1) with (e + 53) in Hk2 by lia. rewrite Hsc in Hk2 by lia. lia.
  - assert (Hnot : ¬ ge_pow n d (e + 52)).
    { destruct (decide (0 ≤ k' + 1 - e)).
      - intros Hg. apply Hk2. replace (k' + 1) with (e + (k' + 1 - e)) by lia.
        apply (Hmono _ 52); [lia|done].
      - intros Hg. exfalso. apply (Hmono 0 52) in Hg; [|lia]. rewrite Hsc in Hg by lia.
        apply Hk2. clear -Hg Hab n0 Hn Hd He.
        assert (ge_pow n d e) as Hge.
        { rewrite <- (Z.add_0_r e), (ge_pow_scaled n d e 0), Hab by lia. simpl. lia. }
        unfold ge_pow in *. rewrite He in Hge, n0. simpl (0 <=? -1074) in Hge.
        destruct (Z.leb_spec 0 (k' + 1)); [lia|].
        etrans; [exact Hge|]. apply Z.mul_le_mono_nonneg_l; [lia|]. apply Z.pow_le_mono_r; lia. }
    split; [|intros Hg; exfalso; apply Hnot; by replace (e + 52) with (-1022) by lia].
    rewrite Hsc in Hnot by lia. change (2 ^ 53) with (2 * 2 ^ 52).
    pose proof (scaled_pos n d e Hn Hd) as Hpos. rewrite Hab in Hpos. cbn [fst snd] in Hpos. lia.
Qed.

Lemma frac_pos m e : 0 < (frac m e).2.
Proof. unfold frac. destruct (Z.leb_spec 0 e); simpl; [lia|]. apply Z.pow_pos_nonneg; lia. Qed.

(** [frac m e] is within a relative [2^-53] of [n / d]. *)
Definition close (n d m e : Z) : Prop :=
  let '(vn, vd) := frac m e in 2 ^ 53 * Z.abs (vn * d - n * vd) ≤ n * vd.

Lemma close_scaled n d m e : 0 < d →
  let '(a, b) := scaled n d e in 2 ^ 53 * Z.abs (m * b - a) ≤ a → close n d m e.
Proof.
  intros Hd. unfold close, scaled, frac. destruct (Z.leb_spec 0 e); intros Hle.
  - replace (m * 2 ^ e * d - n * 1) with (m * (d * 2 ^ e) - n) by ring. lia.
  - exact Hle.
Qed.

Lemma close_carry n d e : close n d (2 ^ 53) e → close n d (2 ^ 52) (e + 1).
Proof.
  unfold close, frac. destruct (Z.leb_spec 0 e), (Z.leb_spec 0 (e + 1)); try lia; intros H'.
  - rewrite Z.pow_add_r by lia. replace (2 ^ 52 * (2 ^ e * 2 ^ 1) * d) with (2 ^ 53 * 2 ^ e * d) by ring. lia.
  - assert (e = -1) as -> by lia. simpl in *. lia.
  - replace (- e) with (- (e + 1) + 1) in H' by lia. rewrite Z.pow_add_r in H' by lia.
    set (q := 2 ^ (- (e + 1))) in *.
    replace (2 ^ 53 * d - n * (q * 2 ^ 1)) with (2 * (2 ^ 52 * d - n * q)) in H' by ring.
    rewrite Z.abs_mul in H'. lia.
Qed.

(** [rnd_pos] on the normal range: a positive finite value, correctly rounded. *)
Lemma rnd_pos_close n d :
  0 < n → 0 < d → ge_pow n d (-1022) → n < 2 ^ 1000 * d →
  ∃ m e, rnd_pos n d = Fin m e ∧ 0 < m ∧ close n d m e.
Proof.
  intros Hn Hd Hnorm Hbig. unfold rnd_pos.
  destruct (Z.eqb_spec n 0); [lia|].
  pose proof (bexp_spec n d Hn Hd) as Hb. set (e := bexp n d) in *.
  pose proof (scaled_pos n d e Hn Hd) as Hpos.
  pose proof (ge_pow_scaled n d e 52 ltac:(lia)) as Hge.
  pose proof (close_scaled n d (round_ne (scaled n d e).1 (scaled n d e).2) e Hd) as Hcl.
  destruct (scaled n d e) as [a b]. cbn [fst snd] in *.
  destruct Hb as [Hlt Hle]. specialize (Hle Hnorm).
  pose proof (round_ne_half a b ltac:(lia)) as Hhalf. set (m := round_ne a b) in *.
  assert (He : e ≤ 948).
  { apply Z.nlt_ge. intros He. apply Hge in Hle. unfold ge_pow in Hle.
    destruct (Z.leb_spec 0 (e + 52)); [|lia].
    assert (2 ^ 1000 ≤ 2 ^ (e + 52)) by (apply Z.pow_le_mono_r; lia). nia. }
  assert (Hm : 2 ^ 52 ≤ m ≤ 2 ^ 53) by nia.
  assert (Hc : close n d m e) by (apply Hcl; nia).
  destruct (Z.leb_spec (2 ^ 53) m) as [Hm'|Hm'].
  - assert (m = 2 ^ 53) as Hmeq by lia. rewrite Hmeq in Hc.
    destruct (Z.eqb_spec (2 ^ 52) 0); [lia|]. destruct (Z.ltb_spec 971 (e + 1)); [lia|].
    exists (2 ^ 52), (e + 1). split_and!; [done|lia|by apply close_carry].
  - destruct (Z.eqb_spec m 0); [lia|]. destruct (Z.ltb_spec 971 e); [lia|]. eauto with lia.
Qed.

Lemma rnd_nonneg n d : 0 ≤ n → rnd n d = rnd_pos n d.
Proof. intros. unfold rnd. destruct (Z.ltb_spec n 0); [lia|done]. Qed.

(** Integers below [2^53] are represented exactly. *)
Lemma rnd_int_exact n : 0 ≤ n < 2 ^ 53 → num_to_Z (rnd n 1) = Some n.
Proof.
  intros Hn. rewrite rnd_nonneg by lia. unfold rnd_pos.
  destruct (Z.eqb_spec n 0) as [->|Hn0]; [done|].
  pose proof (bexp_spec n 1 ltac:(lia) ltac:(lia)) as Hb. set (e := bexp n 1) in *.
  assert (Hnorm : ge_pow n 1 (-1022)).
  { unfold ge_pow. change (0 <=? -1022) with false. cbv beta iota.
    assert (0 < 2 ^ (- -1022)) by (apply Z.pow_pos_nonneg; lia). nia. }
  assert (He : e ≤ 0).
  { apply Z.nlt_ge. intros He. unfold scaled in Hb. destruct (Z.leb_spec 0 e); [|lia].
    destruct Hb as [_ Hb]. specialize (Hb Hnorm).
    assert (2 ^ 1 ≤ 2 ^ e) by (apply Z.pow_le_mono_r; lia). lia. }
  assert (Hs : scaled n 1 e = (n * 2 ^ (- e), 1)).
  { unfold scaled. destruct (Z.leb_spec 0 e); [|done].
    assert (He0 : e = 0) by lia. rewrite He0. simpl. f_equal; lia. }
  rewrite Hs in *. destruct Hb as [Hlt _].
  pose proof (round_ne_exact (n * 2 ^ (- e)) 1 ltac:(lia)) as Hr. rewrite Z.mul_1_r in Hr. rewrite Hr.
  assert (0 < 2 ^ (- e)) by (apply Z.pow_pos_nonneg; lia).
  destruct (Z.leb_spec (2 ^ 53) (n * 2 ^ (- e))); [lia|].
  destruct (Z.eqb_spec (n * 2 ^ (- e)) 0); [nia|]. destruct (Z.ltb_spec 971 e); [lia|].
  unfold num_to_Z, frac. destruct (Z.leb_spec 0 e).
  - assert (He0 : e = 0) by lia. rewrite He0. simpl. rewrite !Z.mul_1_r, Z.mod_1_r, Z.div_1_r. done.
  - rewrite Z.mod_mul, Z.div_mul by lia. done.
Qed.

(** ** Amounts: the float detour of the checkout is exact to the cent *)

Definition frQ (n d : Z) : Q := n # Z.to_pos d.
Definition ulpQ : Q := 1 # 9007199254740992.

Lemma frQ_le_iff n1 d1 n2 d2 : 0 < d1 → 0 < d2 → (frQ n1 d1 <= frQ n2 d2)%Q ↔ n1 * d2 ≤ n2 * d1.
Proof. intros. unfold frQ, Qle. simpl. rewrite !Z2Pos.id by lia. done. Qed.

Lemma frQ_eq n1 d1 n2 d2 : 0 < d1 → 0 < d2 → n1 * d2 = n2 * d1 → (frQ n1 d1 == frQ n2 d2)%Q.
Proof. intros. unfold frQ, Qeq. simpl. rewrite !Z2Pos.id by lia. done. Qed.

Lemma frQ_mul n1 d1 n2 d2 : 0 < d1 → 0 < d2 → (frQ n1 d1 * frQ n2 d2 == frQ (n1 * n2) (d1 * d2))%Q.
Proof. intros. unfold frQ, Qeq. simpl. rewrite Pos2Z.inj_mul, !Z2Pos.id by nia. ring. Qed.

Definition numQ (m e : Z) : Q := let '(n, d) := frac m e in frQ n d.

Lemma close_numQ n d m e : 0 < d → close n d m e →
  (frQ n d - frQ n d * ulpQ <= numQ m e <= frQ n d + frQ n d * ulpQ)%Q.
Proof.
  intros Hd. unfold close, numQ. pose proof (frac_pos m e) as Hp.
  destruct (frac m e) as [vn vd]. simpl in Hp. intros Hc.
  assert (H1 : (frQ n d - frQ n d * ulpQ == frQ (n * (2 ^ 53 - 1)) (d * 2 ^ 53))%Q).
  { unfold frQ, ulpQ, Qeq. cbn -[Z.mul Z.to_pos Z.pow]. rewrite !Pos2Z.inj_mul, !Z2Pos.id by lia. lia. }
  assert (H2 : (frQ n d + frQ n d * ulpQ == frQ (n * (2 ^ 53 + 1)) (d * 2 ^ 53))%Q).
  { unfold frQ, ulpQ, Qeq. cbn -[Z.mul Z.to_pos Z.pow]. rewrite !Pos2Z.inj_mul, !Z2Pos.id by lia. lia. }
  rewrite H1, H2, !frQ_le_iff by lia. lia.
Qed.

Lemma pow2_split a b c : 0 ≤ b → 0 ≤ c → a = b + c → 2 ^ a = 2 ^ b * 2 ^ c.
Proof. intros ?? ->. by apply Z.pow_add_r. Qed.

Lemma num_mul_frac m1 e1 m2 e2 :
  let '(n, d) := frac (m1 * m2) (e1 + e2) in (frQ n d == numQ m1 e1 * numQ m2 e2)%Q.
Proof.
  unfold numQ. pose proof (frac_pos m1 e1) as H1. pose proof (frac_pos m2 e2) as H2.
  pose proof (frac_pos (m1 * m2) (e1 + e2)) as H3.
  destruct (frac m1 e1) as [n1 d1] eqn:E1, (frac m2 e2) as [n2 d2] eqn:E2,
    (frac (m1 * m2) (e1 + e2)) as [n d] eqn:E. simpl in *.
  rewrite frQ_mul by lia. apply frQ_eq; [lia|nia|].
  unfold frac in *.
  destruct (Z.leb_spec 0 e1), (Z.leb_spec 0 e2), (Z.leb_spec 0 (e1 + e2)); try lia;
    simplify_eq/=; rewrite ?Z.mul_1_r, ?Z.mul_1_l.
  - rewrite (pow2_split (e1 + e2) e1 e2) by lia. ring.
  - rewrite (pow2_split e1 (e1 + e2) (- e2)) by lia. ring.
  - rewrite (pow2_split (- e2) (- (e1 + e2)) e1) by lia. ring.
  - rewrite (pow2_split e2 (e1 + e2) (- e1)) by lia. ring.
  - rewrite (pow2_split (- e1) (- (e1 + e2)) e2) by lia. ring.
  - rewrite (pow2_split (- (e1 + e2)) (- e1) (- e2)) by lia. ring.
Qed.

(** What the digit search returns: the nearest decimal at some power of ten,
    which reads back as the number unless the search ran down to [10^-22]. *)
Lemma shortest_spec fuel n d x p :
  0 < d → p - Z.of_nat fuel = -22 →
  let '(s, p') := shortest fuel n d x p in
  -22 ≤ p' ≤ p ∧
  (if 0 <=? p' then 2 * Z.abs (s * (d * 10 ^ p') - n) ≤ d * 10 ^ p'
   else 2 * Z.abs (s * d - n * 10 ^ (- p')) ≤ d) ∧
  ((if 0 <=? p' then rnd (s * 10 ^ p') 1 else rnd s (10 ^ (- p'))) = x ∨ p' = -22).
Proof.
  intros Hd. revert p.
  assert (Hnear : ∀ p, let s := if 0 <=? p then round_ne n (d * 10 ^ p) else round_ne (n * 10 ^ (- p)) d in
    if 0 <=? p then 2 * Z.abs (s * (d * 10 ^ p) - n) ≤ d * 10 ^ p
    else 2 * Z.abs (s * d - n * 10 ^ (- p)) ≤ d).
  { intros p s. subst s. destruct (Z.leb_spec 0 p); apply round_ne_half; [|done].
    apply Z.mul_pos_pos; [done|]. by apply Z.pow_pos_nonneg. }
  induction fuel as [|f IH]; intros p Hp; cbn -[Z.pow Z.leb].
  - assert (p = -22) as -> by lia. split; [lia|]. split; [apply (Hnear (-22))|by right].
  - case_bool_decide as Hb.
    + split; [lia|]. split; [apply Hnear|]. left. exact Hb.
    + specialize (IH (p - 1) ltac:(lia)). destruct (shortest f n d x (p - 1)) as [s p'].
      destruct IH as (? & ? & ?). split_and!; try done; lia.
Qed.

Lemma round_ne_nonneg n d : 0 ≤ n → 0 < d → 0 ≤ round_ne n d.
Proof.
  intros. unfold round_ne. assert (0 ≤ n / d) by (apply Z.div_pos; lia).
  destruct (_ ?= _); [destruct (Z.even _)|..]; lia.
Qed.

Lemma rnd_pos_nonneg n d m e : 0 ≤ n → 0 < d → rnd_pos n d = Fin m e → 0 ≤ m.
Proof.
  intros Hn Hd. unfold rnd_pos. destruct (Z.eqb_spec n 0); [intros; simplify_eq; lia|].
  pose proof (scaled_pos n d (bexp n d) ltac:(lia) Hd) as Hpos.
  destruct (scaled n d (bexp n d)) as [a b]. cbn [fst snd] in Hpos.
  pose proof (round_ne_nonneg a b ltac:(lia) ltac:(lia)).
  destruct (2 ^ 53 <=? round_ne a b); repeat case_match; intros; simplify_eq; lia.
Qed.

(** A positive result comes from a positive operand. *)
Lemma rnd_pos_inv n d m e : 0 < d → rnd n d = Fin m e → 0 < m → 0 < n.
Proof.
  intros Hd Hr Hm. unfold rnd in Hr. destruct (Z.ltb_spec n 0) as [Hn|Hn].
  - destruct (rnd_pos (- n) d) as [m' e'| | |] eqn:Hp; simplify_eq/=.
    apply rnd_pos_nonneg in Hp; lia.
  - destruct (decide (n = 0)) as [->|]; [|lia]. cbv in Hr. simplify_eq. lia.
Qed.

Lemma num_of_Z_exact q : 0 < q < 2 ^ 53 →
  ∃ m e, num_of_Z q = Fin m e ∧ 0 < m ∧ (numQ m e == inject_Z q)%Q.
Proof.
  intros Hq. pose proof (rnd_int_exact q ltac:(lia)) as Hex. unfold num_of_Z.
  destruct (rnd q 1) as [m e| | |] eqn:Hr; try done. exists m, e.
  split; [done|]. unfold num_to_Z, numQ in *. pose proof (frac_pos m e) as Hd.
  assert (Hm : m ≤ 0 → (frac m e).1 ≤ 0).
  { unfold frac. destruct (Z.leb_spec 0 e); simpl; [|lia].
    assert (0 < 2 ^ e) by by apply Z.pow_pos_nonneg. nia. }
  destruct (frac m e) as [n d]. simpl in *.
  destruct (Z.eqb_spec (n mod d) 0) as [Hmod|]; [|done]. injection Hex as Hex.
  pose proof (Z.div_mod n d ltac:(lia)) as Hdm. split; [nia|].
  unfold frQ, Qeq. simpl. rewrite Z2Pos.id by lia. nia.
Qed.

(** *** The amount the checkout charges

    [amount c q] is the JavaScript product [Number(price) * quantity] for a
    price of [c] hundredths, as the text the driver sends to Postgres. *)
Definition amount (c q : Z) : option decimal := num_text (num_mul (num_of_cents c) (num_of_Z q)).

Lemma ge_pow_frQ n d : 0 < n → 0 < d → (frQ 1 (10 ^ 40) <= frQ n d)%Q → ge_pow n d (-1022).
Proof.
  intros Hn Hd. rewrite frQ_le_iff by lia. intros Hle. unfold ge_pow.
  change (0 <=? -1022) with false. cbv beta iota.
  assert (10 ^ 40 ≤ 2 ^ (- -1022)) by (vm_compute; discriminate).
  assert (n * 10 ^ 40 ≤ n * 2 ^ (- -1022)) by (apply Z.mul_le_mono_nonneg_l; lia). lia.
Qed.

Lemma lt_pow_frQ n d : 0 < n → 0 < d → (frQ n d <= frQ (10 ^ 40) 1)%Q → n < 2 ^ 1000 * d.
Proof.
  intros Hn Hd. rewrite frQ_le_iff by lia. intros Hle.
  assert (10 ^ 40 < 2 ^ 1000) by (vm_compute; reflexivity). nia.
Qed.

(** Rounding a positive rational of a sane magnitude, in rationals. *)
Lemma rnd_Q n d : 0 < n → 0 < d →
  (frQ 1 (10 ^ 40) <= frQ n d <= frQ (10 ^ 40) 1)%Q →
  ∃ m e, rnd n d = Fin m e ∧ 0 < m ∧
    (frQ n d - frQ n d * ulpQ <= numQ m e <= frQ n d + frQ n d * ulpQ)%Q.
Proof.
  intros Hn Hd [Hlo Hhi].
  destruct (rnd_pos_close n d Hn Hd) as (m & e & Hr & Hm & Hc);
    [by apply ge_pow_frQ|by apply lt_pow_frQ|].
  exists m, e. rewrite rnd_nonneg by lia. split_and!; [done|done|..]; by apply close_numQ.
Qed.

(** The text of a positive number differs from it by at most its own rounding
    error (or half a unit of the 22nd decimal). *)
Lemma num_text_close m e :
  0 < m → (1 # 1000 <= numQ m e <= inject_Z (10 ^ 20))%Q →
  ∃ x, num_text (Fin m e) = Some x ∧ 0 ≤ dscale x ∧
    let S := frQ (dcoef x) (10 ^ dscale x) in
    (numQ m e - numQ m e * (2 * ulpQ) - (1 # 10000000000000000000000) <= S <= numQ m e + numQ m e * (2 * ulpQ) + (1 # 10000000000000000000000))%Q.
Proof.
  intros Hm HV. unfold num_text. remember (numQ m e) as V eqn:HVeq. unfold numQ in HVeq.
  pose proof (frac_pos m e) as Hd. destruct (frac m e) as [n d] eqn:Hfr. simpl in Hd.
  pose proof (shortest_spec 42 n d (Fin m e) 20 Hd eq_refl) as Hs.
  destruct (shortest 42 n d (Fin m e) 20) as [s p].
  destruct Hs as (Hp & Hnear & Hback). eexists. split; [reflexivity|].
  destruct (Z.leb_spec 0 p) as [Hp0|Hp0]; cbn [dcoef dscale]; (split; [lia|]); cbv zeta.
  - change (10 ^ 0) with 1. assert (Hpow : 1 ≤ 10 ^ p ≤ 10 ^ 20).
    { split; [|apply Z.pow_le_mono_r; lia]. pose proof (Z.pow_pos_nonneg 10 p). lia. }
    destruct Hback as [Hback|]; [|lia].
    pose proof (rnd_pos_inv _ 1 _ _ ltac:(lia) Hback Hm) as Hspos.
    assert (Hup : (frQ (s * 10 ^ p) 1 <= V + inject_Z (10 ^ 20))%Q).
    { rewrite HVeq. unfold frQ, Qle, Qplus, inject_Z. simpl.
      rewrite Z2Pos.id, Pos.mul_1_r, Z2Pos.id by lia. nia. }
    destruct (rnd_Q (s * 10 ^ p) 1) as (m' & e' & Hr & _ & Hc); [lia|lia|split|].
    + rewrite frQ_le_iff by lia. nia.
    + eapply Qle_trans; [exact Hup|]. eapply Qle_trans; [apply Qplus_le_compat; [apply HV|apply Qle_refl]|].
      vm_compute. discriminate.
    + rewrite Hback in Hr. simplify_eq. unfold numQ in Hc. rewrite Hfr in Hc.
      unfold ulpQ in *. lra.
  - assert (Hpow : 10 ≤ 10 ^ (- p) ≤ 10 ^ 22).
    { split; [|apply Z.pow_le_mono_r; lia]. change 10 with (10 ^ 1) at 1. apply Z.pow_le_mono_r; lia. }
    destruct Hback as [Hback|Hback].
    + pose proof (rnd_pos_inv _ (10 ^ (- p)) _ _ ltac:(lia) Hback Hm) as Hspos.
      assert (Hup : (frQ s (10 ^ (- p)) <= V + 1)%Q).
      { rewrite HVeq. unfold frQ, Qle, Qplus. simpl.
        rewrite Pos.mul_1_r, !Z2Pos.id by lia. nia. }
      destruct (rnd_Q s (10 ^ (- p))) as (m' & e' & Hr & _ & Hc); [lia|lia|split|].
      * rewrite frQ_le_iff by lia. assert (10 ^ 22 ≤ 10 ^ 40) by (vm_compute; discriminate). nia.
      * eapply Qle_trans; [exact Hup|]. eapply Qle_trans; [apply Qplus_le_compat; [apply HV|apply Qle_refl]|].
        vm_compute. discriminate.
      * rewrite Hback in Hr. simplify_eq. unfold numQ in Hc. rewrite Hfr in Hc.
        unfold ulpQ in *. lra.
    + subst p. change (- (-22)) with 22 in *.
      assert (Hlow : (V - (1 # 10000000000000000000000) <= frQ s (10 ^ 22))%Q ∧ (frQ s (10 ^ 22) <= V + (1 # 10000000000000000000000))%Q).
      { rewrite HVeq. unfold frQ, Qle, Qplus, Qminus, Qopp. cbn -[Z.mul Z.pow Z.to_pos].
        rewrite !Pos2Z.inj_mul, !Z2Pos.id by lia. change (Z.pos 10000000000000000000000) with (10 ^ 22). nia. }
      unfold ulpQ in *. lra.
Qed.

(** The charged text differs from the exact product by a relative error below
    [2^-50]: one rounding for the price, one for the product, one for the text. *)
Lemma amount_rel c q :
  0 < c < numeric_max → 0 < q ≤ 2 ^ 31 →
  ∃ x, amount c q = Some x ∧ 0 ≤ dscale x ∧
    2 ^ 50 * Z.abs (100 * dcoef x - c * q * 10 ^ dscale x) ≤ c * q * 10 ^ dscale x.
Proof.
  intros Hc Hq. unfold numeric_max in Hc. unfold amount.
  destruct (rnd_Q c 100) as (m1 & e1 & Hr1 & Hm1 & Hc1); [lia|lia| |].
  { rewrite !frQ_le_iff by lia. lia. }
  destruct (num_of_Z_exact q) as (m2 & e2 & Hr2 & Hm2 & Hc2); [nia|].
  unfold num_of_cents. rewrite Hr1, Hr2. cbn [num_mul].
  pose proof (num_mul_frac m1 e1 m2 e2) as Hprod.
  pose proof (frac_pos (m1 * m2) (e1 + e2)) as Hfp.
  assert (Hn : 0 < (frac (m1 * m2) (e1 + e2)).1).
  { unfold frac. destruct (Z.leb_spec 0 (e1 + e2)); simpl; [|nia].
    assert (0 < 2 ^ (e1 + e2)) by (by apply Z.pow_pos_nonneg). nia. }
  destruct (frac (m1 * m2) (e1 + e2)) as [n d]. simpl in Hn, Hfp.
  set (X := (frQ c 100 * inject_Z q)%Q).
  assert (HX : (1 # 100 <= X <= inject_Z (10 ^ 20 - 10 ^ 19))%Q).
  { unfold X, frQ, inject_Z, Qle, Qmult. simpl. nia. }
  assert (HPq : (X - X * ulpQ <= frQ n d <= X + X * ulpQ)%Q).
  { assert (Hq0 : (0 <= inject_Z q)%Q) by (unfold Qle; simpl; lia).
    rewrite Hprod, Hc2. unfold X. destruct Hc1 as [Ha Hb].
    pose proof (Qmult_le_compat_r _ _ _ Ha Hq0) as Ha'. pose proof (Qmult_le_compat_r _ _ _ Hb Hq0) as Hb'.
    split; [eapply Qle_trans; [|exact Ha']|eapply Qle_trans; [exact Hb'|]];
      apply Qle_lteq; right; ring. }
  assert (HXe : (X == frQ (c * q) 100)%Q).
  { unfold X, frQ, inject_Z, Qeq, Qmult. simpl. lia. }
  clearbody X.
  destruct (rnd_Q n d) as (m3 & e3 & Hr3 & Hm3 & Hc3); [lia|lia| |].
  { change (frQ 1 (10 ^ 40)) with (1 # Z.to_pos (10 ^ 40)).
    split; [eapply (Qle_trans _ (1 # 1000)); [vm_compute; discriminate|]
           |eapply (Qle_trans _ (inject_Z (10 ^ 20))); [|vm_compute; discriminate]];
      change (inject_Z (10 ^ 20)) with (100000000000000000000 # 1); change (inject_Z (10 ^ 20 - 10 ^ 19)) with (90000000000000000000 # 1) in HX;
      unfold ulpQ in *; lra. }
  rewrite Hr3. change (inject_Z (10 ^ 20 - 10 ^ 19)) with (90000000000000000000 # 1) in HX.
  destruct (num_text_close m3 e3 Hm3) as (x & Hx & Hsc & HS).
  { change (inject_Z (10 ^ 20)) with (100000000000000000000 # 1). unfold ulpQ in *. lra. }
  exists x. split; [done|]. split; [done|]. cbv zeta in HS.
  assert (Hfin : (X - X * (1 # 1125899906842624) <= frQ (dcoef x) (10 ^ dscale x)
                  <= X + X * (1 # 1125899906842624))%Q).
  { unfold ulpQ in *. lra. }
  rewrite HXe in Hfin. destruct Hfin as [Hlo Hhi].
  assert (Hsp : 0 < 10 ^ dscale x) by (by apply Z.pow_pos_nonneg).
  unfold frQ, Qle, Qplus, Qminus, Qopp, Qmult in Hlo, Hhi. cbn -[Z.mul Z.pow Z.to_pos] in Hlo, Hhi.
  rewrite ?Pos2Z.inj_mul, !Z2Pos.id in Hlo, Hhi by lia.
  change (2 ^ 50) with 1125899906842624. nia.
Qed.

(** For every amount that fits [numeric(12,2)] that is less than a thousandth
    of a cent. *)
Lemma amount_close c q :
  0 < c → 0 < q ≤ 2 ^ 31 → c * q < numeric_max →
  ∃ x, amount c q = Some x ∧ 0 ≤ dscale x ∧
    1000 * Z.abs (100 * dcoef x - c * q * 10 ^ dscale x) < 10 ^ dscale x.
Proof.
  intros Hc Hq Hmax. unfold numeric_max in Hmax.
  destruct (amount_rel c q) as (x & Hx & Hs & Hrel); [unfold numeric_max; nia|done|].
  exists x. split_and!; [done|done|].
  assert (0 < 10 ^ dscale x) by (by apply Z.pow_pos_nonneg). nia.
Qed.

(** A larger amount is refused by every balance. *)
Lemma amount_too_big c q :
  0 < c < numeric_max → 0 < q ≤ 2 ^ 31 → numeric_max ≤ c * q →
  ∃ x, amount c q = Some x ∧ ∀ b, b < numeric_max → numeric_ge b x = false.
Proof.
  intros Hc Hq Hbig. unfold numeric_max in *.
  destruct (amount_rel c q) as (x & Hx & Hs & Hrel); [done|done|].
  exists x. split; [done|]. intros b Hb. unfold numeric_ge. apply Z.leb_gt.
  assert (0 < 10 ^ dscale x) by (by apply Z.pow_pos_nonneg). nia.
Qed.

Lemma round_haz_near n d k : 0 < d → 2 * Z.abs (n - k * d) < d → round_haz n d = k.
Proof.
  intros Hd Hk. unfold round_haz. destruct (Z.ltb_spec n 0).
  - assert ((2 * - n + d) / (2 * d) = - k); [|lia].
    symmetry. apply (Z.div_unique_pos _ _ _ (2 * - n + d + 2 * d * k)); nia.
  - symmetry. apply (Z.div_unique_pos _ _ _ (2 * n + d - 2 * d * k)); nia.
Qed.

Lemma to_numeric_near n d k :
  0 < d → Z.abs k < numeric_max → 2 * Z.abs (100 * n - k * d) < d → to_numeric n d = Some k.
Proof.
  intros Hd Hk Hn. unfold to_numeric. rewrite (round_haz_near _ _ k) by done.
  by destruct (Z.ltb_spec (Z.abs k) numeric_max); [|lia].
Qed.

Lemma to_numeric_bound n d k : to_numeric n d = Some k → Z.abs k < numeric_max.
Proof. unfold to_numeric. destruct (Z.ltb_spec (Z.abs (round_haz (100 * n) d)) numeric_max); intros; by simplify_eq. Qed.

Lemma amount_zero_price q : 0 < q < 2 ^ 53 → amount 0 q = Some (Dec 0 0).
Proof.
  intros Hq. destruct (num_of_Z_exact q Hq) as (m & e & Hr & _). unfold amount. rewrite Hr.
  change (num_of_cents 0) with (Fin 0 0). cbn [num_mul]. rewrite Z.mul_0_l.
  unfold frac. by destruct (0 <=? 0 + e).
Qed.

(** What a checkout of [q] units at [c] hundredths takes from a balance:
    exactly [c * q] hundredths whenever the [>=] test of the statement passes,
    and the test passes whenever the balance is at least one hundredth more. *)
Lemma amount_charge c q :
  0 ≤ c → 0 < q ≤ 2 ^ 31 → c * q < numeric_max →
  ∃ x, amount c q = Some x ∧ numeric_of x = Some (c * q) ∧
    ∀ b, 0 ≤ b < numeric_max →
      (numeric_ge b x = true → c * q ≤ b) ∧
      (c * q < b → numeric_ge b x = true) ∧
      (c * q ≤ b → numeric_sub b x = Some (b - c * q)).
Proof.
  intros Hc Hq Hmax. destruct (decide (c = 0)) as [->|Hc0].
  { rewrite amount_zero_price by lia. eexists. split; [done|]. split; [done|].
    intros b Hb. unfold numeric_ge, numeric_sub. cbn [dcoef dscale]. change (10 ^ 0) with 1.
    split_and!; [lia|intros; apply Z.leb_le; lia|].
    intros _. apply to_numeric_near; lia. }
  destruct (amount_close c q) as (x & Hx & Hs & Hclose); [lia|lia|done|].
  exists x. split; [done|]. assert (Hsp : 0 < 10 ^ dscale x) by (by apply Z.pow_pos_nonneg).
  set (D := 10 ^ dscale x) in *. split.
  { unfold numeric_of. fold D. apply to_numeric_near; lia. }
  intros b Hb. unfold numeric_ge, numeric_sub. fold D. split_and!.
  - intros Hge%Z.leb_le. nia.
  - intros Hlt. apply Z.leb_le. nia.
  - intros Hle. apply to_numeric_near; [lia|lia|].
    replace (100 * (b * D - 100 * dcoef x) - (b - c * q) * (100 * D))
      with (- (100 * (100 * dcoef x - c * q * D))) by ring.
    rewrite Z.abs_opp, Z.abs_mul. lia.
Qed.

(** [Number(text)] and back: a [numeric(12,2)] value survives the conversion
    of src/entities/numeric.transformer.ts. *)
Lemma cents_text c :
  0 ≤ c < numeric_max → ∃ x, num_text (num_of_cents c) = Some x ∧ numeric_of x = Some c.
Proof.
  intros Hc. unfold numeric_max in Hc. destruct (decide (c = 0)) as [->|Hc0].
  { exists (Dec 0 0). split; vm_compute; reflexivity. }
  destruct (rnd_Q c 100) as (m & e & Hr & Hm & Hb); [lia|lia|rewrite !frQ_le_iff by lia; lia|].
  unfold num_of_cents. rewrite Hr.
  destruct (num_text_close m e Hm) as (x & Hx & Hs & HS).
  { assert (HX : (1 # 100 <= frQ c 100 <= 10000000000 # 1)%Q) by (unfold frQ, Qle; simpl; lia).
    change (inject_Z (10 ^ 20)) with (100000000000000000000 # 1). unfold ulpQ in *. lra. }
  exists x. split; [done|]. cbv zeta in HS.
  assert (Hfin : (frQ c 100 - (1 # 1000) <= frQ (dcoef x) (10 ^ dscale x) <= frQ c 100 + (1 # 1000))%Q).
  { assert (HX : (1 # 100 <= frQ c 100 <= 10000000000 # 1)%Q) by (unfold frQ, Qle; simpl; lia).
    unfold ulpQ in *. lra. }
  destruct Hfin as [Hlo Hhi].
  assert (Hsp : 0 < 10 ^ dscale x) by (by apply Z.pow_pos_nonneg).
  unfold frQ, Qle, Qplus, Qminus, Qopp in Hlo, Hhi. cbn -[Z.mul Z.pow Z.to_pos] in Hlo, Hhi.
  change (Z.to_pos 100) with 100%positive in Hlo, Hhi.
  rewrite ?Pos2Z.inj_mul, !Z2Pos.id in Hlo, Hhi by lia.
  unfold numeric_of. apply to_numeric_near; unfold numeric_max; lia.
Qed.

(** Signs survive rounding. *)
Lemma rnd_sign n d m e : 0 ≤ n → 0 < d → rnd n d = Fin m e → 0 ≤ m.
Proof.
  intros Hn Hd. unfold rnd. rewrite (proj2 (Z.ltb_ge _ _)) by done. unfold rnd_pos.
  destruct (n =? 0); [by intros [= <- _]|].
  assert (Hs : 0 ≤ (scaled n d (bexp n d)).1 ∧ 0 < (scaled n d (bexp n d)).2).
  { unfold scaled. destruct (Z.leb_spec 0 (bexp n d)); cbn.
    - split; [done|]. apply Z.mul_pos_pos; [done|]. by apply Z.pow_pos_nonneg.
    - split; [|done]. apply Z.mul_nonneg_nonneg; [done|]. apply Z.pow_nonneg. lia. }
  destruct (scaled n d (bexp n d)) as [a b]. cbn in Hs. pose proof (round_ne_nonneg a b (proj1 Hs) (proj2 Hs)).
  destruct (2 ^ 53 <=? round_ne a b); repeat (case_match; try done); intros [= <- _]; lia.
Qed.

Lemma num_mul_sign x y m e :
  (∀ m e, x = Fin m e → 0 ≤ m) → (∀ m e, y = Fin m e → 0 ≤ m) → num_mul x y = Fin m e → 0 ≤ m.
Proof.
  intros Hx Hy. destruct x as [m1 e1| | |], y as [m2 e2| | |]; cbn; try done.
  specialize (Hx m1 e1 eq_refl). specialize (Hy m2 e2 eq_refl).
  unfold frac. destruct (Z.leb_spec 0 (e1 + e2)); intros Hr; eapply rnd_sign in Hr; try done.
  - apply Z.mul_nonneg_nonneg; [lia|]. apply Z.pow_nonneg. lia.
  - lia.
  - apply Z.pow_pos_nonneg; lia.
Qed.

(** ** [Math.ceil(a / b)] on integers

    [Math_ceil] of a finite number (no other value reaches it). *)
Definition Math_ceil (x : num) : Z :=
  match x with Fin m e => let '(n, d) := frac m e in - (- n / d) | _ => 0 end.

(** The float division followed by [Math.ceil], as the source writes it. *)
Definition ceil_div (a b : Z) : Z := Math_ceil (rnd a b).

(** A quotient that is an integer below [2^53] is represented exactly. *)
Lemma rnd_multiple_exact q b : 0 ≤ q < 2 ^ 53 → 0 < b → num_to_Z (rnd (q * b) b) = Some q.
Proof.
  intros Hn Hb0. rewrite rnd_nonneg by nia. unfold rnd_pos.
  destruct (Z.eqb_spec (q * b) 0) as [Hz|Hn0]; [assert (q = 0) as -> by nia; done|].
  pose proof (bexp_spec (q * b) b ltac:(nia) ltac:(lia)) as Hb. set (e := bexp (q * b) b) in *.
  assert (Hnorm : ge_pow (q * b) b (-1022)).
  { unfold ge_pow. change (0 <=? -1022) with false. cbv beta iota.
    assert (0 < 2 ^ (- -1022)) by (apply Z.pow_pos_nonneg; lia).
    generalize dependent (2 ^ (- -1022)). intros p Hp. assert (1 ≤ q * p) by nia. nia. }
  assert (He : e ≤ 0).
  { apply Z.nlt_ge. intros He. unfold scaled in Hb. destruct (Z.leb_spec 0 e); [|lia].
    destruct Hb as [_ Hb]. specialize (Hb Hnorm).
    assert (2 ^ 1 ≤ 2 ^ e) by (apply Z.pow_le_mono_r; lia). nia. }
  assert (Hs : scaled (q * b) b e = ((q * 2 ^ (- e)) * b, b)).
  { unfold scaled. destruct (Z.leb_spec 0 e).
    - assert (He0 : e = 0) by lia. rewrite He0. simpl. f_equal; lia.
    - f_equal. ring. }
  rewrite Hs in *. destruct Hb as [Hlt _]. rewrite round_ne_exact by lia.
  assert (0 < 2 ^ (- e)) by (apply Z.pow_pos_nonneg; lia).
  destruct (Z.leb_spec (2 ^ 53) (q * 2 ^ (- e))); [nia|].
  destruct (Z.eqb_spec (q * 2 ^ (- e)) 0); [nia|]. destruct (Z.ltb_spec 971 e); [lia|].
  unfold num_to_Z, frac. destruct (Z.leb_spec 0 e).
  - assert (He0 : e = 0) by lia. rewrite He0. simpl. rewrite !Z.mul_1_r, Z.mod_1_r, Z.div_1_r. done.
  - rewrite Z.mod_mul, Z.div_mul by lia. done.
Qed.

Lemma Math_ceil_int x z : num_to_Z x = Some z → Math_ceil x = z.
Proof.
  destruct x as [m e| | |]; try done. unfold num_to_Z, Math_ceil. pose proof (frac_pos m e).
  destruct (frac m e) as [n d]. cbn in *. destruct (Z.eqb_spec (n mod d) 0) as [Hm|]; [|done].
  intros [= <-]. rewrite Z.div_opp_l_z by lia. lia.
Qed.

(** Below [2^53] the rounding of the quotient never moves it across an
    integer: the float computation is the exact ceiling. *)
Lemma ceil_div_exact a b : 0 < a < 2 ^ 53 → 0 < b < 2 ^ 53 → ceil_div a b = - (- a / b).
Proof.
  intros Ha Hb. unfold ceil_div.
  destruct (decide (a mod b = 0)) as [Hm|Hm].
  { rewrite Z.div_opp_l_z by lia. pose proof (Z.div_mod a b ltac:(lia)) as Hd.
    rewrite Z.opp_involutive. apply Math_ceil_int.
    replace a with (a / b * b) at 1 by nia. apply rnd_multiple_exact; [|lia].
    split; [apply Z.div_pos; lia|]. assert (a / b ≤ a) by (apply Z.div_le_upper_bound; nia). lia. }
  destruct (rnd_pos_close a b) as (m & e & Hr & Hm0 & Hc); [lia|lia|..].
  { unfold ge_pow. change (0 <=? -1022) with false. cbv beta iota.
    assert (2 ^ 53 ≤ 2 ^ (- -1022)) by (apply Z.pow_le_mono_r; lia). nia. }
  { assert (2 ^ 53 ≤ 2 ^ 1000) by (apply Z.pow_le_mono_r; lia). nia. }
  rewrite rnd_nonneg, Hr by lia. unfold Math_ceil, close in *. pose proof (frac_pos m e) as Hd.
  destruct (frac m e) as [n d]. cbn in Hd.
  pose proof (Z.div_mod a b ltac:(lia)) as Hq. pose proof (Z.mod_pos_bound a b ltac:(lia)) as Hq2.
  rewrite (Z.div_opp_l_nz a b) by lia. set (q := a / b) in *.
  assert (Hx : Z.abs (n * b - a * d) < d) by nia.
  assert (Hn1 : q * d < n) by nia. assert (Hn2 : n ≤ (q + 1) * d) by nia.
  assert (- n / d = - q - 1) as ->; [|lia].
  symmetry. apply Z.div_unique with ((q + 1) * d - n); nia.
Qed.

(** ** Sums, and arithmetic on integers below [2^53] *)

Definition num_add (x y : num) : num :=
  match x, y with
  | Fin m1 e1, Fin m2 e2 =>
      let '(n1, d1) := frac m1 e1 in let '(n2, d2) := frac m2 e2 in rnd (n1 * d2 + n2 * d1) (d1 * d2)
  | NaN, _ | _, NaN | PInf, NInf | NInf, PInf => NaN
  | PInf, _ | _, PInf => PInf
  | NInf, _ | _, NInf => NInf
  end.

(** [n > x] for an integer [n]. *)
Definition Z_gt_num (n : Z) (x : num) : bool :=
  match x with
  | Fin m e => let '(a, d) := frac m e in a <? n * d
  | NInf => true
  | _ => false
  end.

Lemma num_to_Z_frac m e z : num_to_Z (Fin m e) = Some z → (frac m e).1 = z * (frac m e).2.
Proof.
  unfold num_to_Z. pose proof (frac_pos m e). destruct (frac m e) as [n d]. cbn in *.
  destruct (Z.eqb_spec (n mod d) 0); [|done]. intros [= <-]. pose proof (Z.div_mod n d ltac:(lia)). lia.
Qed.

Lemma frac_mul m1 e1 m2 e2 :
  (frac (m1 * m2) (e1 + e2)).1 * ((frac m1 e1).2 * (frac m2 e2).2) =
  (frac m1 e1).1 * (frac m2 e2).1 * (frac (m1 * m2) (e1 + e2)).2.
Proof.
  pose proof (num_mul_frac m1 e1 m2 e2) as Hq. unfold numQ in Hq.
  pose proof (frac_pos m1 e1). pose proof (frac_pos m2 e2). pose proof (frac_pos (m1 * m2) (e1 + e2)).
  destruct (frac m1 e1) as [n1 d1], (frac m2 e2) as [n2 d2], (frac (m1 * m2) (e1 + e2)) as [n d].
  cbn [fst snd] in *. rewrite frQ_mul in Hq by lia. unfold Qeq, frQ in Hq. cbn [Qnum Qden] in Hq.
  rewrite !Z2Pos.id in Hq by lia. exact Hq.
Qed.

Lemma num_mul_int x y a b :
  num_to_Z x = Some a → num_to_Z y = Some b → 0 ≤ a * b < 2 ^ 53 → num_to_Z (num_mul x y) = Some (a * b).
Proof.
  destruct x as [m1 e1| | |], y as [m2 e2| | |]; try done. intros Hx Hy Hab.
  apply num_to_Z_frac in Hx, Hy. pose proof (frac_pos m1 e1). pose proof (frac_pos m2 e2).
  cbn [num_mul]. pose proof (frac_pos (m1 * m2) (e1 + e2)) as Hd.
  assert (Hf : (frac (m1 * m2) (e1 + e2)).1 = (a * b) * (frac (m1 * m2) (e1 + e2)).2).
  { apply (Z.mul_cancel_r _ _ ((frac m1 e1).2 * (frac m2 e2).2)); [lia|].
    transitivity ((frac m1 e1).1 * (frac m2 e2).1 * (frac (m1 * m2) (e1 + e2)).2); [apply frac_mul|].
    rewrite Hx, Hy. ring. }
  destruct (frac (m1 * m2) (e1 + e2)) as [n d]. cbn in *. rewrite Hf. by apply rnd_multiple_exact.
Qed.

Lemma num_add_int x y a b :
  num_to_Z x = Some a → num_to_Z y = Some b → 0 ≤ a + b < 2 ^ 53 → num_to_Z (num_add x y) = Some (a + b).
Proof.
  destruct x as [m1 e1| | |], y as [m2 e2| | |]; try done. intros Hx Hy Hab.
  apply num_to_Z_frac in Hx, Hy. pose proof (frac_pos m1 e1). pose proof (frac_pos m2 e2).
  cbn [num_add]. destruct (frac m1 e1) as [n1 d1], (frac m2 e2) as [n2 d2]. cbn in *.
  replace (n1 * d2 + n2 * d1) with ((a + b) * (d1 * d2)) by (subst; ring). apply rnd_multiple_exact; lia.
Qed.

Lemma Z_gt_num_int n x z : num_to_Z x = Some z → Z_gt_num n x = (z <? n).
Proof.
  destruct x as [m e| | |]; try done. intros Hx%num_to_Z_frac. cbn. pose proof (frac_pos m e).
  destruct (frac m e) as [a d]. cbn in *. subst a. apply Bool.eq_iff_eq_true. rewrite !Z.ltb_lt. nia.
Qed.

(** ** [Math.floor(Math.random() * k)]

    [Math.random()] is [m / 2^53] for some [m] below [2^53]. *)
Definition Math_floor (x : num) : Z :=
  match x with Fin m e => let '(n, d) := frac m e in n / d | _ => 0 end.
Definition Math_random (m : Z) : num := Fin m (-53).

Lemma close_below n d m e k r : 0 < d → 0 < k → 0 ≤ r < 2 ^ 53 → n * 2 ^ 53 = r * k * d → close n d m e →
  (frac m e).1 < k * (frac m e).2.
Proof.
  intros Hd Hk Hr Hn. unfold close. pose proof (frac_pos m e) as Hp. destruct (frac m e) as [vn vd]. cbn in *.
  intros Hc. assert (HB : 1 < 2 ^ 53) by done. generalize dependent (2 ^ 53). intros B Hr Hn Hc HB.
  assert (H1 : B * (vn * d) ≤ (B + 1) * (n * vd)).
  { assert (Ha : vn * d - n * vd ≤ Z.abs (vn * d - n * vd)) by lia. apply (Z.mul_le_mono_nonneg_l _ _ B) in Ha; lia. }
  assert (H2 : B * B * (vn * d) ≤ (B + 1) * (r * k * d * vd)).
  { replace (r * k * d * vd) with (n * vd * B) by (rewrite <- Hn; ring).
    apply (Z.mul_le_mono_nonneg_l _ _ B) in H1; lia. }
  assert (H3 : r * k * d * vd ≤ (B - 1) * (k * d * vd)).
  { replace (r * k * d * vd) with (r * (k * d * vd)) by ring. apply Z.mul_le_mono_nonneg_r; [|lia].
    repeat apply Z.mul_nonneg_nonneg; lia. }
  assert (H4 : 0 < k * d * vd) by (repeat apply Z.mul_pos_pos; lia).
  apply (Z.mul_le_mono_nonneg_l _ _ (B + 1)) in H3; [|lia].
  apply (Z.mul_lt_mono_pos_l (B * B * d)); [repeat apply Z.mul_pos_pos; lia|]. lia.
Qed.

(** The rounding of the product never reaches [k]. *)
Lemma floor_random r k : 0 ≤ r < 2 ^ 53 → 0 < k < 2 ^ 53 →
  0 ≤ Math_floor (num_mul (Math_random r) (num_of_Z k)) < k.
Proof.
  intros Hr Hk. pose proof (rnd_int_exact k ltac:(lia)) as Hi. unfold num_of_Z.
  destruct (rnd k 1) as [m2 e2| | |]; try done. apply num_to_Z_frac in Hi.
  unfold Math_random, num_mul. pose proof (frac_mul r (-53) m2 e2) as Hf.
  pose proof (frac_pos (r * m2) (-53 + e2)) as Hd. pose proof (frac_pos m2 e2) as Hd2.
  change (frac r (-53)) with (r, 2 ^ 53) in Hf. cbn [fst snd] in Hf. rewrite Hi in Hf.
  destruct (frac (r * m2) (-53 + e2)) as [n d]. cbn [fst snd] in *.
  assert (Hn : n * 2 ^ 53 = r * k * d) by (apply (Z.mul_reg_r _ _ (frac m2 e2).2); lia). clear Hf Hi.
  destruct (decide (r = 0)) as [->|Hr0].
  { assert (n = 0) as -> by lia. change (0 ≤ 0 < k). lia. }
  assert (Hpos : 0 < n) by (assert (0 < r * k * d) by nia; lia).
  destruct (rnd_pos_close n d) as (m & e & Hrnd & Hm & Hc); [lia|lia|..].
  { unfold ge_pow. change (0 <=? -1022) with false. cbv beta iota.
    assert (2 ^ 53 ≤ 2 ^ (- -1022)) by (apply Z.pow_le_mono_r; lia).
    assert (1 ≤ r * k) by nia. nia. }
  { assert (2 ^ 106 ≤ 2 ^ 1000) by (apply Z.pow_le_mono_r; lia).
    assert (r * k < 2 ^ 106) by (change (2 ^ 106) with (2 ^ 53 * 2 ^ 53); nia). nia. }
  rewrite rnd_nonneg, Hrnd by lia. unfold Math_floor.
  pose proof (close_below n d m e k r Hd (proj1 Hk) Hr Hn Hc) as Hlt. pose proof (frac_pos m e) as Hvd.
  assert (Hvn : 0 ≤ (frac m e).1) by (unfold frac; destruct (0 <=? e); cbn; [apply Z.mul_nonneg_nonneg; lia|lia]).
  destruct (frac m e) as [vn vd]. cbn in *. split; [by apply Z.div_pos|]. by apply Z.div_lt_upper_bound; lia.
Qed.
