(* ===== verification/JsText.v ===== *)
(** JavaScript texts: [Number(text)] (ECMAScript StringToNumber), [String(n)] of
    an integer and the base64url codec of Node's [Buffer].  A text is held as
    its UTF-8 bytes. *)
From stdpp Require Import pretty.
From Stdlib Require Import Ascii.
From S2P Require Import Prelude JsNumber.
#[local] Open Scope Z_scope.

Definition byte_of (c : ascii) : Z := Z.of_N (N_of_ascii c).
Definition char_of (b : Z) : ascii := ascii_of_N (Z.to_N b).
Definition bytes_of (s : string) : list Z := byte_of <$> String.list_ascii_of_string s.
Definition text_of (bs : list Z) : string := String.string_of_list_ascii (char_of <$> bs).

(** [string.length] (UTF-16 units) of a text held as UTF-8. *)
Definition utf16_units (c : ascii) : Z :=
  let b := N_of_ascii c in
  if (b <? 128)%N then 1 else if (b <? 192)%N then 0 else if (b <? 240)%N then 1 else 2.
Definition js_length (s : string) : Z := sumZ utf16_units (String.list_ascii_of_string s).

(** ** [Number(text)] *)

(** White space and line terminators of ECMAScript, as UTF-8. *)
Definition white_space : list (list Z) :=
  [[9]; [10]; [11]; [12]; [13]; [32]; [194; 160]; [239; 187; 191]; [225; 154; 128];
   [226; 128; 168]; [226; 128; 169]; [226; 128; 175]; [226; 129; 159]; [227; 128; 128]] ++
  ((λ k, [226; 128; 128 + k]) <$> seqZ 0 11).

Definition strip_prefix (p l : list Z) : option (list Z) :=
  if bool_decide (take (length p) l = p) then Some (drop (length p) l) else None.

(** Remove leading texts of [ws]; each removal shortens the text. *)
Fixpoint trim_start (fuel : nat) (ws : list (list Z)) (l : list Z) : list Z :=
  match fuel with
  | O => l
  | S fuel =>
      match list_find (λ p, is_Some (strip_prefix p l)) ws with
      | Some (_, p) => trim_start fuel ws (drop (length p) l)
      | None => l
      end
  end.
Definition js_trim (l : list Z) : list Z :=
  let l := trim_start (length l) white_space l in
  reverse (trim_start (length l) (reverse <$> white_space) (reverse l)).

(** The longest run of digits of a base: its length and the value. *)
Definition digit_value (c : Z) : option Z :=
  if (48 <=? c) && (c <=? 57) then Some (c - 48)
  else if (97 <=? c) && (c <=? 122) then Some (c - 87)
  else if (65 <=? c) && (c <=? 90) then Some (c - 55)
  else None.
Fixpoint digits (base acc : Z) (n : nat) (l : list Z) : Z * nat * list Z :=
  match l with
  | c :: l' =>
      match digit_value c with
      | Some v => if v <? base then digits base (acc * base + v) (S n) l' else (acc, n, l)
      | None => (acc, n, l)
      end
  | [] => (acc, n, l)
  end.

(** [e[+-]digits], or nothing: the exponent and the rest. *)
Definition exponent (l : list Z) : option (Z * list Z) :=
  match l with
  | c :: l' =>
      if (c =? 101) || (c =? 69) then
        let '(neg, l'') := match l' with
          | 45 :: r => (true, r) | 43 :: r => (false, r) | _ => (false, l') end in
        let '(v, n, rest) := digits 10 0 0 l'' in
        match n with O => None | S _ => Some (if neg : bool then - v else v, rest) end
      else Some (0, l)
  | [] => Some (0, l)
  end.

(** StrUnsignedDecimalLiteral *)
Definition unsigned_decimal (l : list Z) : num :=
  if bool_decide (l = bytes_of "Infinity") then PInf else
  let '(a, n, rest) := digits 10 0 0 l in
  let '(b, m, rest) := match rest with 46 :: r => digits 10 a 0 r | _ => (a, O, rest) end in
  match (n + m)%nat, exponent rest with
  | S _, Some (e, []) =>
      let k := e - Z.of_nat m in
      if 0 <=? k then rnd (b * 10 ^ k) 1 else rnd b (10 ^ (- k))
  | _, _ => NaN
  end.

Definition radix_literal (base : Z) (l : list Z) : num :=
  match digits base 0 0 l with
  | (v, S _, []) => rnd v 1
  | _ => NaN
  end.

Definition StringToNumber (s : string) : num :=
  match js_trim (bytes_of s) with
  | [] => Fin 0 0
  | 48 :: 120 :: l | 48 :: 88 :: l => radix_literal 16 l
  | 48 :: 111 :: l | 48 :: 79 :: l => radix_literal 8 l
  | 48 :: 98 :: l | 48 :: 66 :: l => radix_literal 2 l
  | 45 :: l => num_opp (unsigned_decimal l)
  | 43 :: l => unsigned_decimal l
  | l => unsigned_decimal l
  end.

Example number_examples :
  StringToNumber "12" = num_of_Z 12 ∧ StringToNumber " 1e3 " = num_of_Z 1000 ∧
  StringToNumber "" = Fin 0 0 ∧ StringToNumber "0x1f" = num_of_Z 31 ∧ StringToNumber "1.5" = rnd 3 2 ∧
  StringToNumber "12px" = NaN ∧ StringToNumber "." = NaN ∧ StringToNumber "-3" = num_of_Z (-3).
Proof. vm_compute. done. Qed.

(** ** [Buffer]: base64url *)

Fixpoint sextets (bs : list Z) : list Z :=
  match bs with
  | a :: b :: c :: bs =>
      a / 4 :: a mod 4 * 16 + b / 16 :: b mod 16 * 4 + c / 64 :: c mod 64 :: sextets bs
  | [a; b] => [a / 4; a mod 4 * 16 + b / 16; b mod 16 * 4]
  | [a] => [a / 4; a mod 4 * 16]
  | [] => []
  end.
Fixpoint octets (ss : list Z) : list Z :=
  match ss with
  | s :: t :: u :: v :: ss => s * 4 + t / 16 :: t mod 16 * 16 + u / 4 :: u mod 4 * 64 + v :: octets ss
  | [s; t; u] => [s * 4 + t / 16; t mod 16 * 16 + u / 4]
  | [s; t] => [s * 4 + t / 16]
  | _ => []
  end.

Definition b64_char (x : Z) : Z :=
  if x <? 26 then 65 + x else if x <? 52 then 71 + x else if x <? 62 then x - 4 else if x =? 62 then 45 else 95.
(** Node reads both alphabets, stops at a padding [=] and skips every other
    character. *)
Definition b64_value (c : Z) : option Z :=
  if (65 <=? c) && (c <=? 90) then Some (c - 65)
  else if (97 <=? c) && (c <=? 122) then Some (c - 71)
  else if (48 <=? c) && (c <=? 57) then Some (c + 4)
  else if (c =? 45) || (c =? 43) then Some 62
  else if (c =? 95) || (c =? 47) then Some 63
  else None.

Definition to_base64url (bs : list Z) : string := text_of (b64_char <$> sextets bs).
Fixpoint until_padding (l : list Z) : list Z :=
  match l with [] => [] | c :: l => if c =? 61 then [] else c :: until_padding l end.
Definition from_base64url (s : string) : list Z := octets (omap b64_value (until_padding (bytes_of s))).

Lemma sextets_octets bs : Forall (λ b, 0 ≤ b < 256) bs →
  octets (sextets bs) = bs ∧ Forall (λ x, 0 ≤ x < 64) (sextets bs).
Proof.
  revert bs. fix IH 1. intros [|a [|b [|c bs]]] Hbs.
  - done.
  - apply Forall_cons in Hbs as [Ha _]. cbn.
    pose proof (Z.div_mod a 4 ltac:(lia)). pose proof (Z.mod_pos_bound a 4 ltac:(lia)).
    split; [|repeat (apply Forall_cons; split; [lia|]); constructor]. f_equal. rewrite Z.div_mul by lia. lia.
  - apply Forall_cons in Hbs as [Ha Hbs]. apply Forall_cons in Hbs as [Hb _]. cbn.
    pose proof (Z.div_mod a 4 ltac:(lia)). pose proof (Z.mod_pos_bound a 4 ltac:(lia)).
    pose proof (Z.div_mod b 16 ltac:(lia)). pose proof (Z.mod_pos_bound b 16 ltac:(lia)).
    split; [|repeat (apply Forall_cons; split; [lia|]); constructor].
    rewrite Z.div_mul, Z.div_add_l, (Z.div_small (b / 16) 16) by lia.
    rewrite (Z.add_comm (a mod 4 * 16)), Z.mod_add, (Z.mod_small (b / 16)) by lia. repeat f_equal; lia.
  - apply Forall_cons in Hbs as [Ha Hbs]. apply Forall_cons in Hbs as [Hb Hbs].
    apply Forall_cons in Hbs as [Hc Hbs]. destruct (IH bs Hbs) as [IH1 IH2]. cbn.
    pose proof (Z.div_mod a 4 ltac:(lia)). pose proof (Z.mod_pos_bound a 4 ltac:(lia)).
    pose proof (Z.div_mod b 16 ltac:(lia)). pose proof (Z.mod_pos_bound b 16 ltac:(lia)).
    pose proof (Z.div_mod c 64 ltac:(lia)). pose proof (Z.mod_pos_bound c 64 ltac:(lia)).
    split; [|repeat (apply Forall_cons; split; [lia|]); done]. rewrite IH1.
    rewrite !Z.div_add_l, (Z.div_small (b / 16) 16), (Z.div_small (c / 64) 4) by lia.
    rewrite (Z.add_comm (a mod 4 * 16)), Z.mod_add, (Z.mod_small (b / 16)) by lia.
    rewrite (Z.add_comm (b mod 16 * 4)), Z.mod_add, (Z.mod_small (c / 64)) by lia. repeat f_equal; lia.
Qed.

Lemma b64_value_char x : 0 ≤ x < 64 → b64_value (b64_char x) = Some x ∧ 0 ≤ b64_char x < 128 ∧ b64_char x ≠ 61.
Proof.
  intros Hx. unfold b64_char.
  destruct (Z.ltb_spec x 26); [|destruct (Z.ltb_spec x 52); [|destruct (Z.ltb_spec x 62);
    [|destruct (Z.eqb_spec x 62)]]]; (split; [|lia]); unfold b64_value; repeat case_match; zify_bools;
    rewrite ?orb_true_iff, ?Z.eqb_eq in *; try lia; f_equal; lia.
Qed.

Lemma byte_char b : 0 ≤ b < 256 → byte_of (char_of b) = b.
Proof. intros Hb. unfold byte_of, char_of. rewrite N_ascii_embedding by lia. lia. Qed.
Lemma bytes_text bs : Forall (λ b, 0 ≤ b < 256) bs → bytes_of (text_of bs) = bs.
Proof.
  intros Hbs. unfold bytes_of, text_of. rewrite String.list_ascii_of_string_of_list_ascii, <- list_fmap_compose.
  induction Hbs as [|b bs Hb Hbs IH]; [done|]. cbn. rewrite byte_char by done. by f_equal.
Qed.
Lemma bytes_of_bound s : Forall (λ b, 0 ≤ b < 256) (bytes_of s).
Proof.
  unfold bytes_of. apply Forall_fmap, Forall_true. intros c. unfold byte_of. cbn.
  pose proof (N_ascii_bounded c). lia.
Qed.

Lemma base64url_roundtrip bs : Forall (λ b, 0 ≤ b < 256) bs → from_base64url (to_base64url bs) = bs.
Proof.
  intros Hbs. destruct (sextets_octets bs Hbs) as [Ho Hs]. unfold from_base64url, to_base64url.
  rewrite bytes_text.
  - rewrite <- Ho at 2. f_equal. clear Ho. induction Hs as [|x xs Hx Hxs IH]; [done|]. cbn.
    destruct (b64_value_char x Hx) as (Hv & _ & Hp). destruct (Z.eqb_spec (b64_char x) 61); [done|].
    cbn [omap list_omap]. rewrite Hv. f_equal. exact IH.
  - apply Forall_fmap. eapply Forall_impl; [done|]. intros x Hx. cbn.
    pose proof (proj2 (b64_value_char x Hx)). lia.
Qed.

(** ** Reading back a decimal integer *)

Definition is_digit (c : Z) : Prop := 48 ≤ c ≤ 57.

Lemma digits_all l acc n : Forall is_digit l →
  digits 10 acc n l = (foldl (λ a c, a * 10 + (c - 48)) acc l, (n + length l)%nat, []).
Proof.
  revert acc n. induction l as [|c l IH]; intros acc n Hl; [cbn; f_equal; f_equal; lia|].
  apply Forall_cons in Hl as [Hc Hl]. unfold is_digit in Hc. cbn [digits]. unfold digit_value.
  rewrite (proj2 (Z.leb_le 48 c)), (proj2 (Z.leb_le c 57)) by lia. cbn [andb].
  rewrite (proj2 (Z.ltb_lt (c - 48) 10)) by lia. rewrite IH by done. cbn. f_equal. f_equal. lia.
Qed.

(** No white space starts (or, reversed, ends) with a visible ASCII character. *)
Definition visible (c : Z) : Prop := 33 ≤ c < 128.
Definition no_visible_start (p : list Z) : bool :=
  match p with c :: _ => (c <? 33) || (128 <=? c) | [] => false end.

Lemma trim_start_visible fuel ws l :
  forallb no_visible_start ws = true → Forall visible l → trim_start fuel ws l = l.
Proof.
  intros Hws Hl. destruct fuel as [|fuel]; [done|]. cbn.
  destruct (list_find _ ws) as [[i p]|] eqn:Hf; [|done]. exfalso.
  apply list_find_Some in Hf as (Hi & Hp & _). apply list_elem_of_lookup_2 in Hi.
  rewrite forallb_forall in Hws. specialize (Hws p ltac:(by apply list_elem_of_In)).
  unfold strip_prefix in Hp. case_bool_decide as Ht; [|by destruct Hp].
  destruct p as [|c p]; [done|]. destruct l as [|c' l]; [done|]. cbn in Ht, Hws. injection Ht as -> _.
  apply Forall_cons in Hl as [Hc _]. unfold visible in Hc.
  apply orb_true_iff in Hws as [?%Z.ltb_lt|?%Z.leb_le]; lia.
Qed.

Lemma js_trim_visible l : Forall visible l → js_trim l = l.
Proof.
  intros Hl. unfold js_trim. rewrite (trim_start_visible (length l) white_space l) by done. cbv zeta.
  rewrite trim_start_visible; [apply reverse_involutive|vm_compute; reflexivity|by apply Forall_reverse].
Qed.

Lemma js_trim_digits l : Forall is_digit l → js_trim l = l.
Proof. intros Hl. apply js_trim_visible. eapply Forall_impl; [exact Hl|]. unfold is_digit, visible. intros; lia. Qed.

Lemma js_trim_space l : js_trim (32 :: l) = js_trim l.
Proof. reflexivity. Qed.

(** [toLowerCase()] on ASCII, as the case-insensitive patterns use it. *)
Definition lower (c : Z) : Z := if (65 <=? c) && (c <=? 90) then c + 32 else c.

(** ** [text.split(sep)] and [list.join(sep)], one byte [sep] *)

Fixpoint js_split (sep : Z) (l : list Z) : list (list Z) :=
  match l with
  | [] => [[]]
  | c :: l =>
      if c =? sep then [] :: js_split sep l
      else match js_split sep l with
           | [] => [[c]]
           | x :: xs => (c :: x) :: xs
           end
  end.
Fixpoint js_join (sep : Z) (ls : list (list Z)) : list Z :=
  match ls with [] => [] | [l] => l | l :: ls => l ++ sep :: js_join sep ls end.

Lemma js_split_app sep a l : sep ∉ a → js_split sep (a ++ sep :: l) = a :: js_split sep l.
Proof.
  induction a as [|c a IH]; intros Ha; cbn; [by rewrite Z.eqb_refl|].
  apply not_elem_of_cons in Ha as [Hc Ha]. destruct (Z.eqb_spec c sep); [congruence|]. by rewrite IH.
Qed.
Lemma js_split_plain sep a : sep ∉ a → js_split sep a = [a].
Proof.
  induction a as [|c a IH]; intros Ha; cbn; [done|].
  apply not_elem_of_cons in Ha as [Hc Ha]. destruct (Z.eqb_spec c sep); [congruence|]. by rewrite IH.
Qed.

Lemma bytes_of_app a b : bytes_of (a +:+ b) = bytes_of a ++ bytes_of b.
Proof.
  unfold bytes_of. rewrite <- fmap_app. f_equal. induction a as [|c a IH]; [done|].
  change (c :: String.list_ascii_of_string (a +:+ b) = c :: String.list_ascii_of_string a ++ String.list_ascii_of_string b).
  by rewrite IH.
Qed.
Lemma text_of_bytes s : text_of (bytes_of s) = s.
Proof.
  unfold text_of, bytes_of. rewrite <- list_fmap_compose.
  rewrite (list_fmap_ext _ id (String.list_ascii_of_string s)).
  - rewrite list_fmap_id. apply String.string_of_list_ascii_of_string.
  - intros i c _. unfold compose, char_of, byte_of. cbn. by rewrite N2Z.id, ascii_N_embedding.
Qed.

(** The alphabet of base64url. *)
Lemma base64url_visible bs : Forall (λ b, 0 ≤ b < 256) bs →
  Forall (λ c, visible c ∧ c ≠ 59 ∧ c ≠ 61) (bytes_of (to_base64url bs)).
Proof.
  intros Hbs. destruct (sextets_octets bs Hbs) as [_ Hs]. unfold to_base64url. rewrite bytes_text.
  - apply Forall_fmap. eapply Forall_impl; [exact Hs|]. intros x Hx. cbn in Hx |- *. unfold b64_char, visible.
    destruct (Z.ltb_spec x 26); [lia|]. destruct (Z.ltb_spec x 52); [lia|]. destruct (Z.ltb_spec x 62); [lia|].
    destruct (Z.eqb_spec x 62); lia.
  - apply Forall_fmap. eapply Forall_impl; [exact Hs|]. intros x Hx. cbn. pose proof (proj2 (b64_value_char x Hx)). lia.
Qed.

Lemma StringToNumber_digits s : bytes_of s ≠ [] → Forall is_digit (bytes_of s) →
  StringToNumber s = rnd (foldl (λ a c, a * 10 + (c - 48)) 0 (bytes_of s)) 1.
Proof.
  intros Hne Hd. unfold StringToNumber. rewrite js_trim_digits by done.
  assert (Hu : unsigned_decimal (bytes_of s) = rnd (foldl (λ a c, a * 10 + (c - 48)) 0 (bytes_of s)) 1).
  { unfold unsigned_decimal. rewrite bool_decide_eq_false_2.
    - rewrite digits_all by done. destruct (bytes_of s) as [|c l]; [done|]. cbn. by rewrite Z.mul_1_r.
    - intros Hi. rewrite Hi in Hd. apply Forall_cons in Hd as [[_ Hc] _]. by vm_compute in Hc. }
  destruct (bytes_of s) as [|c l]; [done|]. apply Forall_cons in Hd as [Hc Hd]. unfold is_digit in Hc.
  rewrite <- Hu. destruct (Z.eq_dec c 48) as [->|Hc0].
  - destruct l as [|c' l]; [done|]. apply Forall_cons in Hd as [Hc' _]. unfold is_digit in Hc'.
    assert (c' = 48 ∨ c' = 49 ∨ c' = 50 ∨ c' = 51 ∨ c' = 52 ∨ c' = 53 ∨ c' = 54 ∨ c' = 55 ∨ c' = 56 ∨ c' = 57)
      as Hcase by lia. destruct_or!; subst; reflexivity.
  - assert (c = 49 ∨ c = 50 ∨ c = 51 ∨ c = 52 ∨ c = 53 ∨ c = 54 ∨ c = 55 ∨ c = 56 ∨ c = 57)
      as Hcase by lia. destruct_or!; subst; reflexivity.
Qed.
