(* ===== verification/Events.v ===== *)
(** The event contract [order.placed] (src/messaging/events.ts): the JSON value
    that travels through outbox, broker and consumer, its construction from an
    order, the stable [eventId] and the schema check of the consumer.

    JSON texts are represented by the value they denote; SHA-1 and the string
    formats of zod ([uuid], [datetime]) are parameters. *)
From S2P Require Import Prelude JsNumber.
From stdpp Require Import pretty.
From Stdlib Require Import Ascii.
#[local] Open Scope Z_scope.

(** ** JSON values *)

#[warnings="-register-all"]
Inductive json :=
| JNull
| JBool (b : bool)
| JNum (x : num)
| JStr (s : string)
| JArr (l : list json)
| JObj (fields : list (string * json)).

(** Property access; [None] is [undefined]. *)
Fixpoint assoc (k : string) (fields : list (string * json)) : option json :=
  match fields with
  | [] => None
  | (k', v) :: fields => if String.eqb k' k then Some v else assoc k fields
  end.

Definition jget (j : json) (k : string) : option json :=
  match j with JObj fields => assoc k fields | _ => None end.

Definition jstr (j : json) (k : string) : option string :=
  match jget j k with Some (JStr s) => Some s | _ => None end.
Definition jnum (j : json) (k : string) : option num :=
  match jget j k with Some (JNum x) => Some x | _ => None end.

(** ** ISO-8601 text of an instant ([Date.prototype.toISOString], years 0-9999) *)

Definition digit (d : Z) : ascii := ascii_of_N (Z.to_N (48 + d)).

Fixpoint pad (k : nat) (z : Z) : string :=
  match k with
  | O => ""
  | S k => pad k (z / 10) +:+ String (digit (z mod 10)) ""
  end.

(** Proleptic Gregorian date of a day number (days since 1970-01-01). *)
Definition civil (days : Z) : Z * Z * Z :=
  let z := days + 719468 in
  let era := z / 146097 in
  let doe := z mod 146097 in
  let yoe := (doe - doe / 1460 + doe / 36524 - doe / 146096) / 365 in
  let doy := doe - (365 * yoe + yoe / 4 - yoe / 100) in
  let mp := (5 * doy + 2) / 153 in
  let d := doy - (153 * mp + 2) / 5 + 1 in
  let m := if mp <? 10 then mp + 3 else mp - 9 in
  (yoe + era * 400 + (if m <=? 2 then 1 else 0), m, d).

Definition toISOString (ms : Z) : string :=
  let '(y, m, d) := civil (ms / 86400000) in
  let t := ms mod 86400000 in
  pad 4 y +:+ "-" +:+ pad 2 m +:+ "-" +:+ pad 2 d +:+ "T" +:+
  pad 2 (t / 3600000) +:+ ":" +:+ pad 2 (t / 60000 mod 60) +:+ ":" +:+
  pad 2 (t / 1000 mod 60) +:+ "." +:+ pad 3 (t mod 1000) +:+ "Z".

Example iso_example : toISOString 1785578400123 = "2026-08-01T10:00:00.123Z".
Proof. vm_compute. reflexivity. Qed.

(** ** Stable event ids *)

Definition hex_char (n : Z) : ascii :=
  if n <? 10 then ascii_of_N (Z.to_N (48 + n)) else ascii_of_N (Z.to_N (87 + n)).

Definition hex_byte (b : Z) : list ascii := [hex_char (b / 16); hex_char (b mod 16)].

Definition hex (bs : list Z) : list ascii := mjoin (hex_byte <$> bs).

(** [hex.slice(a, b)] *)
Definition sl (a b : nat) (h : list ascii) : string :=
  String.string_of_list_ascii (take (b - a) (drop a h)).

(** The bytes of a digest as the 8-4-4-4-12 text of a version-5 style UUID. *)
Definition uuid_of_digest (digest : list Z) : string :=
  let h := alter (λ b, Z.lor (Z.land b 15) 80) 6%nat digest in
  let h := alter (λ b, Z.lor (Z.land b 63) 128) 8%nat h in
  let x := hex (take 16 h) in
  sl 0 8 x +:+ "-" +:+ sl 8 12 x +:+ "-" +:+ sl 12 16 x +:+ "-" +:+ sl 16 20 x +:+ "-" +:+ sl 20 32 x.

Definition is_hex (c : ascii) : bool :=
  let n := N_of_ascii c in ((48 <=? n) && (n <=? 57) || (97 <=? n) && (n <=? 102))%N.

(** 8-4-4-4-12 groups of lower-case hex digits. *)
Definition uuid_shape (s : string) : bool :=
  let l := String.list_ascii_of_string s in
  (length l =? 36)%nat &&
  forallb (λ ic : nat * ascii,
    if bool_decide (ic.1 ∈ [8; 13; 18; 23]%nat) then Ascii.eqb ic.2 "-" else is_hex ic.2)
    (zip (seq 0 36) l).

Definition is_byte (b : Z) : Prop := 0 ≤ b < 256.

Record order_placed_data := OrderPlacedData {
  od_orderId : string;
  od_buyerId : string;
  od_productId : string;
  od_quantity : num;
  od_totalAmount : num;
}.

Record order_placed_event := OrderPlacedEvent {
  ev_eventId : string;
  ev_type : string;
  ev_occurredAt : string;
  ev_data : order_placed_data;
}.

#[export] Instance order_placed_data_eq_dec : EqDecision order_placed_data.
Proof. solve_decision. Defined.
#[export] Instance order_placed_event_eq_dec : EqDecision order_placed_event.
Proof. solve_decision. Defined.

(** An order as the outbox writer hands it to [toOrderPlacedEvent]. *)
Record placed_order := PlacedOrder {
  po_id : string;
  po_buyerId : string;
  po_productId : string;
  po_quantity : num;
  po_totalAmount : num;
  po_placedAt : Z;
}.

(** What the events code uses of third-party code: SHA-1 of a text, as bytes,
    and the [uuid] and [datetime] string checks of zod. *)
Class EventLib := {
  sha1 : string → list Z;
  zod_uuid : string → bool;
  zod_datetime : string → bool;
}.

(** Documented behaviour of that code: a SHA-1 digest has 20 bytes, zod accepts
    the canonical UUID text and the text of every instant. *)
Class EventLibLaws `{EventLib} := {
  sha1_length : ∀ s, length (sha1 s) = 20%nat;
  sha1_bytes : ∀ s, Forall is_byte (sha1 s);
  zod_uuid_shape : ∀ s, uuid_shape s = true → zod_uuid s = true;
  zod_datetime_iso : ∀ t, 0 ≤ t < 253402300800000 → zod_datetime (toISOString t) = true;
}.

Section events.
Context `{EventLib}.

Definition eventIdFor (type businessKey : string) : string :=
  uuid_of_digest (sha1 (type +:+ ":" +:+ businessKey)).

Definition buildOrderPlaced (now : Z) (data : order_placed_data) : order_placed_event :=
  OrderPlacedEvent (eventIdFor "order.placed" (od_orderId data)) "order.placed" (toISOString now) data.

Definition toOrderPlacedEvent (order : placed_order) : order_placed_event :=
  OrderPlacedEvent (eventIdFor "order.placed" (po_id order)) "order.placed"
    (toISOString (po_placedAt order))
    (OrderPlacedData (po_id order) (po_buyerId order) (po_productId order)
       (po_quantity order) (po_totalAmount order)).

(** The object literal as a JSON value ([JSON.stringify]). *)
Definition data_json (d : order_placed_data) : json :=
  JObj [("orderId", JStr (od_orderId d)); ("buyerId", JStr (od_buyerId d));
        ("productId", JStr (od_productId d)); ("quantity", JNum (od_quantity d));
        ("totalAmount", JNum (od_totalAmount d))].
Definition event_json (e : order_placed_event) : json :=
  JObj [("eventId", JStr (ev_eventId e)); ("type", JStr (ev_type e));
        ("occurredAt", JStr (ev_occurredAt e)); ("data", data_json (ev_data e))].

(** [z.number().int().positive()] and [z.number().nonnegative()] *)
Definition num_int_positive (x : num) : bool :=
  match num_to_Z x with Some z => 0 <? z | None => false end.
Definition num_nonnegative (x : num) : bool :=
  match x with Fin m _ => 0 <=? m | PInf => true | _ => false end.

Definition nonempty (s : string) : bool := negb (String.eqb s "").

(** [OrderPlacedSchema.parse]: [None] is a thrown [ZodError]. *)
Definition OrderPlacedData_parse (j : json) : option order_placed_data :=
  o ← jstr j "orderId"; guard (nonempty o = true);;
  b ← jstr j "buyerId"; guard (nonempty b = true);;
  p ← jstr j "productId"; guard (nonempty p = true);;
  q ← jnum j "quantity"; guard (num_int_positive q = true);;
  t ← jnum j "totalAmount"; guard (num_nonnegative t = true);;
  Some (OrderPlacedData o b p q t).

Definition OrderPlacedSchema_parse (j : json) : option order_placed_event :=
  id ← jstr j "eventId"; guard (zod_uuid id = true);;
  ty ← jstr j "type"; guard (ty = "order.placed");;
  oc ← jstr j "occurredAt"; guard (zod_datetime oc = true);;
  dj ← jget j "data"; d ← OrderPlacedData_parse dj;
  Some (OrderPlacedEvent id ty oc d).

(** The contract as a predicate. *)
Definition data_valid (d : order_placed_data) : Prop :=
  od_orderId d ≠ "" ∧ od_buyerId d ≠ "" ∧ od_productId d ≠ "" ∧
  num_int_positive (od_quantity d) = true ∧ num_nonnegative (od_totalAmount d) = true.
Definition event_valid (e : order_placed_event) : Prop :=
  zod_uuid (ev_eventId e) = true ∧ ev_type e = "order.placed" ∧
  zod_datetime (ev_occurredAt e) = true ∧ data_valid (ev_data e).

Lemma parse_event_json e : event_valid e → OrderPlacedSchema_parse (event_json e) = Some e.
Proof.
  destruct e as [id ty oc [o b p q t]].
  intros (Hid & Hty & Hoc & Ho & Hb & Hp & Hq & Ht); simpl in *.
  apply String.eqb_neq in Ho, Hb, Hp.
  unfold OrderPlacedSchema_parse, OrderPlacedData_parse. cbn.
  rewrite !option_guard_True by done. cbn.
  rewrite !option_guard_True by (unfold nonempty; by rewrite ?Ho, ?Hb, ?Hp). cbn.
  done.
Qed.
End events.

(** ** Shape of the generated ids *)

Lemma forallb_seqZ (P : Z → bool) lo n :
  forallb P (seqZ lo n) = true → ∀ b, lo ≤ b < lo + n → P b = true.
Proof.
  intros Hall b Hb. rewrite forallb_forall in Hall. apply Hall.
  apply list_elem_of_In, elem_of_seqZ. lia.
Qed.

Lemma hex_byte_hex b : is_byte b → is_hex (hex_char (b / 16)) = true ∧ is_hex (hex_char (b mod 16)) = true.
Proof.
  intros Hb. apply andb_true_iff.
  by apply (forallb_seqZ (λ b, is_hex (hex_char (b / 16)) && is_hex (hex_char (b mod 16))) 0 256).
Qed.

Lemma version_byte b : is_byte b → is_byte (Z.lor (Z.land b 15) 80) ∧ is_byte (Z.lor (Z.land b 63) 128).
Proof.
  intros Hb.
  assert (((0 <=? Z.lor (Z.land b 15) 80) && (Z.lor (Z.land b 15) 80 <? 256)) &&
          ((0 <=? Z.lor (Z.land b 63) 128) && (Z.lor (Z.land b 63) 128 <? 256)) = true) as Hall.
  { apply (forallb_seqZ (λ b, ((0 <=? Z.lor (Z.land b 15) 80) && (Z.lor (Z.land b 15) 80 <? 256)) &&
          ((0 <=? Z.lor (Z.land b 63) 128) && (Z.lor (Z.land b 63) 128 <? 256))) 0 256); done. }
  unfold is_byte. zify_bools. lia.
Qed.

Lemma groups_shape l :
  length l = 32%nat → forallb is_hex l = true →
  uuid_shape (sl 0 8 l +:+ "-" +:+ sl 8 12 l +:+ "-" +:+ sl 12 16 l +:+ "-" +:+ sl 16 20 l +:+ "-" +:+ sl 20 32 l) = true.
Proof.
  intros Hlen Hall. do 32 (destruct l as [|? l]; [done|]). destruct l; [|done].
  cbn [forallb] in Hall. repeat (apply andb_true_iff in Hall as [? Hall]).
  cbv -[is_hex].
  repeat match goal with H : is_hex _ = true |- _ => rewrite H; clear H end. done.
Qed.

Lemma hex_all bs : Forall is_byte bs → forallb is_hex (hex bs) = true ∧ length (hex bs) = (2 * length bs)%nat.
Proof.
  induction 1 as [|b bs Hb _ [IH IHl]]; [done|]. destruct (hex_byte_hex b Hb) as [H1 H2].
  change (hex (b :: bs)) with (hex_byte b ++ hex bs). unfold hex_byte. simpl.
  rewrite H1, H2, IH, IHl. simpl. split; [done|lia].
Qed.

Lemma uuid_of_digest_shape ds :
  (16 ≤ length ds)%nat → Forall is_byte ds → uuid_shape (uuid_of_digest ds) = true.
Proof.
  intros Hlen Hall. unfold uuid_of_digest.
  destruct (hex_all (take 16 (alter (λ b, Z.lor (Z.land b 63) 128) 8%nat
    (alter (λ b, Z.lor (Z.land b 15) 80) 6%nat ds)))) as [Hh Hl].
  - apply Forall_take, Forall_alter; [apply Forall_alter; [done|]|]; intros; by apply version_byte.
  - apply groups_shape; [|done]. rewrite Hl, length_take, !length_alter. lia.
Qed.

(** *** What the outbox writer produces is what the consumer accepts *)

Section contract.
Context `{EventLibLaws}.

Lemma eventIdFor_uuid ty k : zod_uuid (eventIdFor ty k) = true.
Proof.
  apply zod_uuid_shape, uuid_of_digest_shape; [|apply sha1_bytes].
  rewrite sha1_length. lia.
Qed.

(** C27: what [toOrderPlacedEvent] puts in the outbox is what the consumer parses:
    any order with non-empty ids, a positive integral quantity, a nonnegative
    total and a date of the years 1970 to 9999 comes back unchanged. *)
Lemma outbox_event_accepted o :
  po_id o ≠ "" → po_buyerId o ≠ "" → po_productId o ≠ "" →
  num_int_positive (po_quantity o) = true → num_nonnegative (po_totalAmount o) = true →
  0 ≤ po_placedAt o < 253402300800000 →
  OrderPlacedSchema_parse (event_json (toOrderPlacedEvent o)) = Some (toOrderPlacedEvent o).
Proof.
  intros. apply parse_event_json. split_and!; simpl; try done.
  - apply eventIdFor_uuid.
  - by apply zod_datetime_iso.
Qed.
End contract.
