(* ===== verification/Http.v ===== *)
(** HTTP answers of the API: requests and responses as data, problem+json
    (src/common/problem.ts), the exception filter of the Nest pipeline and the
    error middleware of the OpenAPI validator (src/common/problem-json.*.ts).

    A request body is the JSON value it denotes; [None] stands for a body that
    is empty or is not JSON. *)
From S2P Require Import Prelude JsNumber Events.
#[local] Open Scope Z_scope.

Record http_request := HttpRequest {
  hr_method : string;
  hr_url : string;
  hr_key : option string;
  hr_body : option json;
}.

Record http_response := HttpResponse {
  rs_status : Z;
  rs_headers : list (string * string);
  rs_body : json;
}.

(** ** src/common/problem.ts *)

Definition PROBLEM_BASE : string := "https://api.marketplace.example/problems".
Definition PROBLEM_TITLES : list (Z * string) :=
  [(400, "Некоректний запит"); (401, "Потрібна автентифікація"); (403, "Доступ заборонено");
   (404, "Ресурс не знайдено"); (409, "Конфлікт зі станом ресурсу"); (422, "Тіло не пройшло перевірку");
   (500, "Внутрішня помилка сервера")].
Definition title_of (status : Z) : string :=
  match list_find (λ p, p.1 = status) PROBLEM_TITLES with Some (_, (_, t)) => t | None => "Помилка" end.

(** [{...base, ...extra}]: a later field replaces an earlier one in its place. *)
Fixpoint obj_set (k : string) (v : json) (fields : list (string * json)) : list (string * json) :=
  match fields with
  | [] => [(k, v)]
  | (k', v') :: fields => if String.eqb k' k then (k, v) :: fields else (k', v') :: obj_set k v fields
  end.
Definition obj_spread (base extra : list (string * json)) : list (string * json) :=
  foldl (λ acc kv, obj_set kv.1 kv.2 acc) base extra.

Section problems.
(** [String(x)] of a number *)
Context (num_string : num → string).

(** [String(value)] and the elements of [Array.prototype.join]. *)
Fixpoint js_string (j : json) : string :=
  let elem := λ j, match j with JNull => "" | _ => js_string j end in
  match j with
  | JNull => "null"
  | JBool b => if b then "true" else "false"
  | JNum x => num_string x
  | JStr s => s
  | JArr l => String.concat "," (map elem l)
  | JObj _ => "[object Object]"
  end.
Definition js_join_elem (j : json) : string := match j with JNull => "" | _ => js_string j end.

Definition js_truthy (j : json) : bool :=
  match j with
  | JNull => false
  | JBool b => b
  | JNum x => match x with Fin 0 _ | NaN => false | _ => true end
  | JStr s => nonempty s
  | JArr _ | JObj _ => true
  end.

(** [writeProblem(res, req, status, detail, extra)] *)
Definition writeProblem (originalUrl : string) (status : Z) (detail : string) (extra : list (string * json))
    (headers : list (string * string)) : http_response :=
  let code := match assoc "code" extra with
              | Some JNull | None => js_string (JNum (num_of_Z status))
              | Some c => js_string c
              end in
  HttpResponse status (headers ++ [("content-type", "application/problem+json")])
    (JObj (obj_spread
      [("type", JStr (PROBLEM_BASE +:+ "/" +:+ code)); ("title", JStr (title_of status));
       ("status", JNum (num_of_Z status)); ("detail", JStr detail); ("instance", JStr originalUrl)] extra)).

(** ** src/common/problem-json.filter.ts

    What a handler throws: a Nest [HttpException] with its status and response
    body, or anything else. *)
Inductive thrown := HttpException (status : Z) (response : json) | OtherThrown (e : exn).

(** The services throw [new XException({ code?, detail })]. *)
Definition thrown_of (e : exn) : thrown :=
  match e with
  | HttpError status code detail =>
      HttpException status (JObj ((match code with Some c => [("code", JStr c)] | None => [] end) ++ [("detail", JStr detail)]))
  | _ => OtherThrown e
  end.

Definition UNEXPECTED : string := "Сталося щось непередбачене".

(** [detail] and [extra] from the body of the exception. *)
Definition problem_detail (body : json) : string :=
  match body with
  | JStr s => s
  | JObj _ =>
      match jget body "detail", jget body "message" with
      | Some (JStr d), _ => d
      | _, Some (JStr m) => m
      | _, Some (JArr l) => String.concat "; " (map js_join_elem l)
      | _, _ => UNEXPECTED
      end
  | _ => UNEXPECTED
  end.
Definition problem_extra (body : json) : list (string * json) :=
  match jget body "code" with
  | Some c => if js_truthy c then [("code", c)] else []
  | None => []
  end.

(** [ProblemJsonFilter.catch] *)
Definition ProblemJsonFilter (originalUrl : string) (exception : thrown) : http_response :=
  let status := match exception with HttpException status _ => status | OtherThrown _ => 500 end in
  let body := match exception with HttpException _ body => body | OtherThrown _ => JNull end in
  writeProblem originalUrl status (problem_detail body) (problem_extra body)
    (if status =? 401 then [("www-authenticate", "Bearer")] else []).

(** ** src/common/problem-json.middleware.ts

    [None] when the headers are already sent: the error goes to [next]. *)
Record OpenApiValidatorError := OpenApiValidatorErrorOf {
  ve_status : option Z;
  ve_message : option string;
  ve_errors : option json;
}.
Definition openApiErrorHandler (headersSent : bool) (originalUrl : string) (err : OpenApiValidatorError) :
    option http_response :=
  if headersSent then None else
  let status := default 500 (ve_status err) in
  let extra := match ve_errors err with Some e => if js_truthy e then [("errors", e)] else [] | None => [] end in
  Some (writeProblem originalUrl status (default UNEXPECTED (ve_message err)) extra []).

(** The problem document of the API. *)
Definition problem_json (url code : string) (status : Z) (detail : string) (more : list (string * json)) : json :=
  JObj ([("type", JStr (PROBLEM_BASE +:+ "/" +:+ code)); ("title", JStr (title_of status));
         ("status", JNum (num_of_Z status)); ("detail", JStr detail); ("instance", JStr url)] ++ more).

(** What the client is told.  An exception of the services becomes a problem
    document with its status, code and detail, and a 401 names its
    authentication scheme; every other exception (a database error, a failing
    SDK call, a bug) becomes one and the same 500 that says nothing about
    it. *)
Theorem filter_answers url e :
  ProblemJsonFilter url (thrown_of e) =
  match e with
  | HttpError status code detail =>
      let code := match code with Some "" => None | _ => code end in
      HttpResponse status
        ((if status =? 401 then [("www-authenticate", "Bearer")] else []) ++ [("content-type", "application/problem+json")])
        (problem_json url (default (num_string (num_of_Z status)) code) status detail
           (match code with Some c => [("code", JStr c)] | None => [] end))
  | _ => HttpResponse 500 [("content-type", "application/problem+json")]
           (problem_json url (num_string (num_of_Z 500)) 500 UNEXPECTED [])
  end.
Proof.
  destruct e as [?|status code detail|? ? ? ?|?]; try reflexivity.
  destruct code as [[|c code]|]; reflexivity.
Qed.
End problems.
