(* ===== verification/Schema.v ===== *)
(** The Postgres schema of the project: one record per row type of
    src/entities and src/migrations, the database as a record of tables, the
    CHECK / UNIQUE / FOREIGN KEY constraints as a predicate [db_ok], and the
    small pieces of the SQL type system the statements rely on ([int4] and
    [bigint] ranges, input of ids from text).

    A [bigint] key is a [Z], a [uuid] its text, a [numeric(12,2)] an integral
    number of hundredths, a [timestamptz] a number of milliseconds, a nullable
    column an [option]. *)
From S2P Require Import Prelude JsNumber Events.
From stdpp Require Import pretty.
#[local] Open Scope Z_scope.

(** ** Rows *)

Inductive role := customer | seller | admin.
#[export] Instance role_eq_dec : EqDecision role.
Proof. solve_decision. Defined.

Record user_row := UserRow {
  u_email : string;
  u_full_name : string;
  u_balance : Z;
  u_password_hash : option string;
  u_role : role;
}.

Record product_row := ProductRow {
  p_sku : string;
  p_name : string;
  p_price : Z;
  p_is_active : bool;
  p_stock : Z;
}.

(** src/entities/order.entity.ts [OrderStatus] (the data layer's statuses). *)
Inductive order_status := pending | paid | shipped | cancelled | refunded.
#[export] Instance order_status_eq_dec : EqDecision order_status.
Proof. solve_decision. Defined.

Record order_row := OrderRow {
  o_buyer_id : Z;
  o_customer_email : string;
  o_status : order_status;
  o_total_amount : Z;
  o_created_at : Z;
}.

Record order_item_row := OrderItemRow {
  oi_order_id : Z;
  oi_product_id : Z;
  oi_quantity : Z;
  oi_unit_price : Z;
}.

Inductive job_status := job_new | job_done.
#[export] Instance job_status_eq_dec : EqDecision job_status.
Proof. solve_decision. Defined.

Record job_row := JobRow {
  j_order_id : Z;
  j_kind : string;
  j_status : job_status;
  j_worker : option string;
  j_processed : Z;
}.

Record outbox_row := OutboxRow {
  ob_aggregate_type : string;
  ob_aggregate_id : string;
  ob_type : string;
  ob_payload : json;
  ob_created_at : Z;
  ob_published_at : option Z;
  ob_attempts : Z;
}.

Record receipt_row := ReceiptRow {
  rc_order_id : string;
  rc_buyer_id : string;
  rc_total_amount : Z;
}.

Record refresh_row := RefreshRow {
  rt_token_hash : string;
  rt_family_id : string;
  rt_user_id : Z;
  rt_used_at : option Z;
  rt_revoked_at : option Z;
  rt_expires_at : Z;
}.

Inductive file_status := PENDING | COMPLETED.
#[export] Instance file_status_eq_dec : EqDecision file_status.
Proof. solve_decision. Defined.

Record file_row := FileRow {
  f_id : string;
  f_key : string;
  f_owner_id : Z;
  f_status : file_status;
  f_content_type : string;
  f_size : Z;
  f_upload_id : option string;
  f_etag : option string;
  f_idempotency_key : option string;
}.

(** ** The database *)

Record db := Db {
  users : gmap Z user_row;
  products : gmap Z product_row;
  orders : gmap Z order_row;
  order_items : gmap Z order_item_row;
  job_queue : gmap Z job_row;
  idempotency_keys : gmap string (option Z);
  outbox : gmap string outbox_row;
  processed_messages : gset (string * string);
  order_receipts : gmap string receipt_row;
  refresh_tokens : gmap Z refresh_row;
  access_denylist : gmap string Z;
  files : gmap string file_row;
  (** identity sequences of orders, order_items, job_queue and refresh_tokens:
      the last value handed out; a rollback does not take values back *)
  seq_orders : Z;
  seq_items : Z;
  seq_jobs : Z;
  seq_tokens : Z;
}.

Definition set_users f d := Db (f (users d)) (products d) (orders d) (order_items d) (job_queue d) (idempotency_keys d) (outbox d) (processed_messages d) (order_receipts d) (refresh_tokens d) (access_denylist d) (files d) (seq_orders d) (seq_items d) (seq_jobs d) (seq_tokens d).
Definition set_products f d := Db (users d) (f (products d)) (orders d) (order_items d) (job_queue d) (idempotency_keys d) (outbox d) (processed_messages d) (order_receipts d) (refresh_tokens d) (access_denylist d) (files d) (seq_orders d) (seq_items d) (seq_jobs d) (seq_tokens d).
Definition set_orders f n d := Db (users d) (products d) (f (orders d)) (order_items d) (job_queue d) (idempotency_keys d) (outbox d) (processed_messages d) (order_receipts d) (refresh_tokens d) (access_denylist d) (files d) n (seq_items d) (seq_jobs d) (seq_tokens d).
Definition set_order_items f n d := Db (users d) (products d) (orders d) (f (order_items d)) (job_queue d) (idempotency_keys d) (outbox d) (processed_messages d) (order_receipts d) (refresh_tokens d) (access_denylist d) (files d) (seq_orders d) n (seq_jobs d) (seq_tokens d).
Definition set_job_queue f n d := Db (users d) (products d) (orders d) (order_items d) (f (job_queue d)) (idempotency_keys d) (outbox d) (processed_messages d) (order_receipts d) (refresh_tokens d) (access_denylist d) (files d) (seq_orders d) (seq_items d) n (seq_tokens d).
Definition set_keys f d := Db (users d) (products d) (orders d) (order_items d) (job_queue d) (f (idempotency_keys d)) (outbox d) (processed_messages d) (order_receipts d) (refresh_tokens d) (access_denylist d) (files d) (seq_orders d) (seq_items d) (seq_jobs d) (seq_tokens d).
Definition set_outbox f d := Db (users d) (products d) (orders d) (order_items d) (job_queue d) (idempotency_keys d) (f (outbox d)) (processed_messages d) (order_receipts d) (refresh_tokens d) (access_denylist d) (files d) (seq_orders d) (seq_items d) (seq_jobs d) (seq_tokens d).
Definition set_processed f d := Db (users d) (products d) (orders d) (order_items d) (job_queue d) (idempotency_keys d) (outbox d) (f (processed_messages d)) (order_receipts d) (refresh_tokens d) (access_denylist d) (files d) (seq_orders d) (seq_items d) (seq_jobs d) (seq_tokens d).
Definition set_receipts f d := Db (users d) (products d) (orders d) (order_items d) (job_queue d) (idempotency_keys d) (outbox d) (processed_messages d) (f (order_receipts d)) (refresh_tokens d) (access_denylist d) (files d) (seq_orders d) (seq_items d) (seq_jobs d) (seq_tokens d).
Definition set_tokens f n d := Db (users d) (products d) (orders d) (order_items d) (job_queue d) (idempotency_keys d) (outbox d) (processed_messages d) (order_receipts d) (f (refresh_tokens d)) (access_denylist d) (files d) (seq_orders d) (seq_items d) (seq_jobs d) n.
Definition set_denylist f d := Db (users d) (products d) (orders d) (order_items d) (job_queue d) (idempotency_keys d) (outbox d) (processed_messages d) (order_receipts d) (refresh_tokens d) (f (access_denylist d)) (files d) (seq_orders d) (seq_items d) (seq_jobs d) (seq_tokens d).
Definition set_files f d := Db (users d) (products d) (orders d) (order_items d) (job_queue d) (idempotency_keys d) (outbox d) (processed_messages d) (order_receipts d) (refresh_tokens d) (access_denylist d) (f (files d)) (seq_orders d) (seq_items d) (seq_jobs d) (seq_tokens d).

Definition empty_db : db := Db ∅ ∅ ∅ ∅ ∅ ∅ ∅ ∅ ∅ ∅ ∅ ∅ 0 0 0 0.

(** ROLLBACK to snapshot [d0]: every table as it was, the sequences as they are. *)
Definition rollback (d0 d : db) : db :=
  Db (users d0) (products d0) (orders d0) (order_items d0) (job_queue d0) (idempotency_keys d0) (outbox d0) (processed_messages d0) (order_receipts d0) (refresh_tokens d0) (access_denylist d0) (files d0) (seq_orders d) (seq_items d) (seq_jobs d) (seq_tokens d).

(** Two databases with the same rows (identity sequences may differ). *)
Definition same_rows (d d' : db) : Prop := rollback d d' = d'.

Lemma rollback_same d0 d : same_rows d0 (rollback d0 d).
Proof. done. Qed.
#[export] Instance same_rows_equiv : Equivalence same_rows.
Proof.
  split.
  - intros []. done.
  - intros [] [] H. injection H. intros; subst. done.
  - intros [] [] [] H1 H2. injection H1. injection H2. intros; subst. done.
Qed.

(** ** Types *)

Definition int4 (z : Z) : bool := (-2147483648 <=? z) && (z <=? 2147483647).
Definition int8 (z : Z) : bool := (-9223372036854775808 <=? z) && (z <=? 9223372036854775807).

(** A text parameter: Postgres has no NUL byte in [text] (SQLSTATE 22021). *)
Definition text_in (s : string) : option string :=
  if existsb (λ c, (Ascii.N_of_ascii c =? 0)%N) (String.list_ascii_of_string s) then None else Some s.

(** A [bigint] column travels as decimal text (driver pg); the cast of a text
    parameter back to [bigint] or [uuid] is Postgres code: [None] is SQLSTATE
    22P02/22003.  [to_timestamp] takes seconds to an instant ([None]: out of
    range).  A [uuid] is represented by its canonical text. *)
Class PgText := { bigint_in : string → option Z; uuid_in : string → option string;
  to_timestamp : num → option Z }.
Class PgTextLaws `{PgText} := {
  (** canonical text of a uuid is what the uuid reads back as *)
  uuid_in_canonical : ∀ s, uuid_shape s = true → uuid_in s = Some s;
  uuid_in_idem : ∀ s u, uuid_in s = Some u → uuid_in u = Some u;
  (** a parameter that reads as a bigint is a non-empty text *)
  bigint_in_text : ∀ s z, bigint_in s = Some z → s ≠ "" ∧ text_in s = Some s;
  to_timestamp_int : ∀ x z, num_to_Z x = Some z → 0 ≤ z < 2 ^ 40 → to_timestamp x = Some (1000 * z);
  bigint_in_out : ∀ z, int8 z = true → bigint_in (pretty z) = Some z;
}.

(** ** Constraints *)

Definition user_ok (u : user_row) : Prop := 0 ≤ u_balance u < numeric_max.
Definition product_ok (p : product_row) : Prop :=
  0 ≤ p_price p < numeric_max ∧ 0 ≤ p_stock p ∧ int4 (p_stock p) = true.
Definition order_ok (d : db) (o : order_row) : Prop :=
  0 ≤ o_total_amount o < numeric_max ∧ is_Some (users d !! o_buyer_id o).
Definition item_ok (d : db) (i : order_item_row) : Prop :=
  0 < oi_quantity i ∧ int4 (oi_quantity i) = true ∧ 0 ≤ oi_unit_price i < numeric_max ∧
  is_Some (orders d !! oi_order_id i) ∧ is_Some (products d !! oi_product_id i).
Definition job_ok (d : db) (j : job_row) : Prop :=
  is_Some (orders d !! j_order_id j) ∧ 0 ≤ j_processed j.
(** Committed rows only: "order_id is NULL only inside the checkout transaction". *)
Definition key_ok (d : db) (o : option Z) : Prop :=
  ∃ oid, o = Some oid ∧ is_Some (orders d !! oid).
Definition token_ok (d : db) (t : refresh_row) : Prop := is_Some (users d !! rt_user_id t).
Definition file_ok (d : db) (f : file_row) : Prop :=
  0 < f_size f ∧ is_Some (users d !! f_owner_id f).

(** A UNIQUE index over the rows of a table; [None] keys are not indexed. *)
Definition unique {K A B} `{Countable K} (key : A → option B) (m : gmap K A) : Prop :=
  ∀ i j a b k, m !! i = Some a → m !! j = Some b → key a = Some k → key b = Some k → i = j.

Record db_ok (d : db) : Prop := {
  ok_users : map_Forall (λ _, user_ok) (users d);
  ok_products : map_Forall (λ _, product_ok) (products d);
  ok_orders : map_Forall (λ _, order_ok d) (orders d);
  ok_items : map_Forall (λ _, item_ok d) (order_items d);
  ok_jobs : map_Forall (λ _, job_ok d) (job_queue d);
  ok_keys : map_Forall (λ _, key_ok d) (idempotency_keys d);
  ok_receipts : unique (λ r, Some (rc_order_id r)) (order_receipts d);
  ok_tokens : map_Forall (λ _, token_ok d) (refresh_tokens d);
  ok_token_hash : unique (λ t, Some (rt_token_hash t)) (refresh_tokens d);
  ok_files : map_Forall (λ id f, file_ok d f ∧ f_id f = id) (files d);
  ok_file_key : unique (λ f, Some (f_key f)) (files d);
  ok_file_idem : unique (λ f, (λ k, (f_owner_id f, k)) <$> f_idempotency_key f) (files d);
  ok_email : unique (λ u, Some (u_email u)) (users d);
  ok_seq_orders : ∀ i, is_Some (orders d !! i) → i ≤ seq_orders d;
  ok_seq_items : ∀ i, is_Some (order_items d !! i) → i ≤ seq_items d;
  ok_seq_jobs : ∀ i, is_Some (job_queue d !! i) → i ≤ seq_jobs d;
  ok_seq_tokens : ∀ i, is_Some (refresh_tokens d !! i) → i ≤ seq_tokens d;
}.

Lemma db_ok_empty : db_ok empty_db.
Proof.
  split; cbn; try (apply map_Forall_empty); try (intros ?; rewrite lookup_empty; by intros [? ?]);
    intros i j a b k; by rewrite lookup_empty.
Qed.
