(* ===== verification/Sql.v ===== *)
(** Running SQL from TypeScript: a state-and-exception monad over the database
    with a fault oracle, and the BEGIN / COMMIT / ROLLBACK pattern of the
    project's transactions (QueryRunner of TypeORM, PoolClient of pg). *)
From S2P Require Import Prelude Schema.
#[local] Open Scope Z_scope.

(** A fault at one round trip to the server: the promise rejects with
    [f_exn]; [f_applied] tells whether the server had executed the statement
    before the answer was lost. *)
Record fault := Fault { f_applied : bool; f_exn : exn }.

(** The oracle decides which round trips fail, by their number. *)
Definition oracle : Type := nat → option fault.
Definition no_fault : oracle := λ _, None.

Definition sql (A : Type) : Type := oracle → nat → db → result A * nat * db.

#[export] Instance sql_ret : MRet sql := λ A a φ t d, (Ok a, t, d).
#[export] Instance sql_bind : MBind sql := λ A B f m φ t d,
  match m φ t d with
  | (Ok a, t', d') => f a φ t' d'
  | (Err e, t', d') => (Err e, t', d')
  end.

Definition throw {A} (e : exn) : sql A := λ φ t d, (Err e, t, d).

(** One awaited statement.  A statement that raises leaves the rows alone. *)
Definition query {A} (stmt : db → result A * db) : sql A := λ φ t d,
  match φ t with
  | None => let '(r, d') := stmt d in (r, S t, d')
  | Some f => (Err (f_exn f), S t, if f_applied f then (stmt d).2 else d)
  end.

(** How a transaction body leaves its [try] block. *)
Inductive tx_exit (A : Type) :=
| Commit (a : A)
| Rollback (a : A).
Arguments Commit {A} a.
Arguments Rollback {A} a.

(** The pattern of checkout, claimOne, relayOnce, AuthService.refresh and
    AuthService.logout:

      connect; BEGIN
      try { body; COMMIT (or ROLLBACK on an early return) }
      catch (e) { ROLLBACK, ignoring its own failure; throw e }
      finally { release }

    A COMMIT whose answer is lost throws although the rows are committed: the
    following ROLLBACK finds no transaction. *)
Definition transaction {A} (body : sql (tx_exit A)) : sql A := λ φ t d,
  match φ t with
  | Some f => (Err (f_exn f), S t, d)
  | None =>
      match body φ (S t) d with
      | (Ok (Commit a), t', d') =>
          match φ t' with
          | None => (Ok a, S t', d')
          | Some f => (Err (f_exn f), S (S t'), if f_applied f then d' else rollback d d')
          end
      | (Ok (Rollback a), t', d') =>
          match φ t' with
          | None => (Ok a, S t', rollback d d')
          | Some f => (Err (f_exn f), S (S t'), rollback d d')
          end
      | (Err e, t', d') => (Err e, S t', rollback d d')
      end
  end.

(** Every way a transaction can end. *)
Inductive tx_outcome {A} (body : sql (tx_exit A)) (φ : oracle) (t : nat) (d : db) :
    result A → db → Prop :=
| tx_committed a t' d' :
    φ t = None → body φ (S t) d = (Ok (Commit a), t', d') → φ t' = None →
    tx_outcome body φ t d (Ok a) d'
| tx_commit_lost a t' d' f :
    φ t = None → body φ (S t) d = (Ok (Commit a), t', d') → φ t' = Some f → f_applied f = true →
    tx_outcome body φ t d (Err (f_exn f)) d'
| tx_rolled_back a t' d' :
    φ t = None → body φ (S t) d = (Ok (Rollback a), t', d') →
    tx_outcome body φ t d (Ok a) (rollback d d')
| tx_failed e d' :
    same_rows d d' → tx_outcome body φ t d (Err e) d'.

Lemma transaction_outcome {A} (body : sql (tx_exit A)) φ t d r t' d' :
  transaction body φ t d = (r, t', d') → tx_outcome body φ t d r d'.
Proof.
  unfold transaction. destruct (φ t) as [f|] eqn:Hf.
  { intros; simplify_eq. by apply tx_failed. }
  destruct (body φ (S t) d) as [[[[a|a]|e] t1] d1] eqn:Hb.
  - destruct (φ t1) as [f|] eqn:Hf1; intros; simplify_eq; [|by eapply tx_committed].
    destruct (f_applied f) eqn:Ha; [by eapply tx_commit_lost|].
    apply tx_failed, rollback_same.
  - destruct (φ t1) as [f|] eqn:Hf1; intros; simplify_eq; [|by eapply tx_rolled_back].
    apply tx_failed, rollback_same.
  - intros; simplify_eq. apply tx_failed, rollback_same.
Qed.

(** ** Inverting a run of the monad *)

Lemma bind_ok_inv {A B} (m : sql A) (f : A → sql B) φ t d b t' d' :
  (m ≫= f) φ t d = (Ok b, t', d') →
  ∃ a t1 d1, m φ t d = (Ok a, t1, d1) ∧ f a φ t1 d1 = (Ok b, t', d').
Proof.
  unfold mbind, sql_bind. destruct (m φ t d) as [[[a|e] t1] d1]; intros H; [eauto|by simplify_eq].
Qed.

Lemma ret_ok_inv {A} (a b : A) φ t d t' d' :
  (mret a : sql A) φ t d = (Ok b, t', d') → b = a ∧ t' = t ∧ d' = d.
Proof. by intros [= <- <- <-]. Qed.

Lemma query_ok_inv {A} (stmt : db → result A * db) φ t d a t' d' :
  query stmt φ t d = (Ok a, t', d') → stmt d = (Ok a, d') ∧ t' = S t.
Proof.
  unfold query. destruct (φ t); [intros; simplify_eq|].
  destruct (stmt d); intros; by simplify_eq.
Qed.

(** Every way a statement can end. *)
Lemma query_cases {A} (stmt : db → result A * db) φ t d r t' d' :
  query stmt φ t d = (r, t', d') →
  (d' = d ∧ ∃ e, r = Err e) ∨ (d' = (stmt d).2 ∧ (r = (stmt d).1 ∨ ∃ e, r = Err e)).
Proof.
  unfold query. destruct (φ t) as [f|]; [destruct (f_applied f)|]; destruct (stmt d); intros; simplify_eq/=; eauto 10.
Qed.

(** A fault changes nothing in a run that returns normally: the run without
    faults does the same. *)
Definition fault_free {A} (m : sql A) : Prop :=
  ∀ φ t d a t' d', m φ t d = (Ok a, t', d') → m no_fault t d = (Ok a, t', d').

Lemma fault_free_ret {A} (a : A) : fault_free (mret a).
Proof. intros φ t d b t' d'. done. Qed.
Lemma fault_free_throw {A} e : fault_free (throw e : sql A).
Proof. intros φ t d b t' d'. done. Qed.
Lemma fault_free_query {A} (stmt : db → result A * db) : fault_free (query stmt).
Proof.
  intros φ t d b t' d' H. apply query_ok_inv in H as [H ->]. unfold query, no_fault. by rewrite H.
Qed.
Lemma fault_free_bind {A B} (m : sql A) (f : A → sql B) :
  fault_free m → (∀ a, fault_free (f a)) → fault_free (m ≫= f).
Proof.
  intros Hm Hf φ t d b t' d' H. apply bind_ok_inv in H as (a & t1 & d1 & H1 & H2).
  apply Hm in H1. apply Hf in H2. unfold mbind, sql_bind. by rewrite H1.
Qed.

Create HintDb sqldb.
#[export] Hint Resolve fault_free_ret fault_free_throw fault_free_query : sqldb.

(** Walk a monadic program down to its statements. *)
Ltac fault_free_tac :=
  repeat first
    [ progress eauto with sqldb
    | apply fault_free_bind; [|intros ?]
    | match goal with |- fault_free (match ?x with _ => _ end) => destruct x end ].

(** Compute one step of a fault-free run. *)
Lemma bind_run {A B} (m : sql A) (f : A → sql B) φ t d a t' d' :
  m φ t d = (Ok a, t', d') → (m ≫= f) φ t d = f a φ t' d'.
Proof. unfold mbind, sql_bind. by intros ->. Qed.
Lemma bind_run_err {A B} (m : sql A) (f : A → sql B) φ t d e t' d' :
  m φ t d = (Err e, t', d') → (m ≫= f) φ t d = (Err e, t', d').
Proof. unfold mbind, sql_bind. by intros ->. Qed.
Lemma query_run {A} (stmt : db → result A * db) t d r d' :
  stmt d = (r, d') → query stmt no_fault t d = (r, S t, d').
Proof. unfold query, no_fault. by intros ->. Qed.

Lemma transaction_run {A} (body : sql (tx_exit A)) t d a t' d' :
  body no_fault (S t) d = (Ok (Commit a), t', d') → transaction body no_fault t d = (Ok a, S t', d').
Proof. unfold transaction, no_fault. by intros ->. Qed.

(** ** Relations between before and after that every statement respects *)

Section preserves.
Context (R : db → db → Prop) `{!PreOrder R}.

Definition preserves {A} (m : sql A) : Prop := ∀ φ t d r t' d', m φ t d = (r, t', d') → R d d'.

Lemma preserves_ret {A} (a : A) : preserves (mret a).
Proof. intros φ t d r t' d' [= <- <- <-]. done. Qed.
Lemma preserves_throw {A} e : preserves (throw e : sql A).
Proof. intros φ t d r t' d' [= <- <- <-]. done. Qed.
Lemma preserves_query {A} (stmt : db → result A * db) : (∀ d, R d (stmt d).2) → preserves (query stmt).
Proof.
  intros Hs φ t d r t' d'. unfold query. specialize (Hs d).
  destruct (φ t) as [f|]; [destruct (f_applied f)|]; destruct (stmt d); intros; by simplify_eq/=.
Qed.
Lemma preserves_bind {A B} (m : sql A) (f : A → sql B) :
  preserves m → (∀ a, preserves (f a)) → preserves (m ≫= f).
Proof.
  intros Hm Hf φ t d r t' d'. unfold mbind, sql_bind.
  destruct (m φ t d) as [[[a|e] t1] d1] eqn:Hr; intros Hr'.
  - etrans; [by eapply Hm|by eapply Hf].
  - simplify_eq. by eapply Hm.
Qed.
Lemma preserves_transaction {A} (body : sql (tx_exit A)) :
  (∀ d0 d, R d0 d → R d0 (rollback d0 d)) → preserves body → preserves (transaction body).
Proof.
  intros Hrb Hb φ t d r t' d'. unfold transaction.
  destruct (φ t); [intros; by simplify_eq|].
  destruct (body φ (S t) d) as [[x t1] d1] eqn:Hr. apply Hb in Hr.
  destruct x as [[a|a]|e]; repeat case_match; intros; simplify_eq; eauto.
Qed.
End preserves.

(** Identity sequences only grow, rolled back or not. *)
Definition seq_le (d d' : db) : Prop :=
  seq_orders d ≤ seq_orders d' ∧ seq_items d ≤ seq_items d' ∧
  seq_jobs d ≤ seq_jobs d' ∧ seq_tokens d ≤ seq_tokens d'.

#[export] Instance seq_le_preorder : PreOrder seq_le.
Proof. split; unfold seq_le; [intros ?; lia|intros ???; lia]. Qed.

Definition seq_mono {A} (m : sql A) : Prop := preserves seq_le m.

Lemma seq_mono_ret {A} (a : A) : seq_mono (mret a).
Proof. apply preserves_ret, _. Qed.
Lemma seq_mono_throw {A} e : seq_mono (throw e : sql A).
Proof. apply preserves_throw, _. Qed.
Lemma seq_mono_query {A} (stmt : db → result A * db) : (∀ d, seq_le d (stmt d).2) → seq_mono (query stmt).
Proof. apply preserves_query, _. Qed.
Lemma seq_mono_bind {A B} (m : sql A) (f : A → sql B) :
  seq_mono m → (∀ a, seq_mono (f a)) → seq_mono (m ≫= f).
Proof. apply preserves_bind, _. Qed.
Lemma seq_le_rollback d0 d : seq_le d0 d → seq_le d0 (rollback d0 d).
Proof. done. Qed.
Lemma seq_mono_transaction {A} (body : sql (tx_exit A)) : seq_mono body → seq_mono (transaction body).
Proof. apply preserves_transaction; [apply _|apply seq_le_rollback]. Qed.

(** No order is ever deleted. *)
Definition orders_le (d d' : db) : Prop := dom (orders d) ⊆ dom (orders d').
#[export] Instance orders_le_preorder : PreOrder orders_le.
Proof. split; unfold orders_le; [intros ?; done|intros ???; set_solver]. Qed.
Definition orders_mono {A} (m : sql A) : Prop := preserves orders_le m.
Lemma orders_mono_transaction {A} (body : sql (tx_exit A)) : orders_mono body → orders_mono (transaction body).
Proof. apply preserves_transaction; [apply _|]. intros d0 d _. by unfold orders_le. Qed.

(** Every statement of the project keeps or increments the sequences: close
    the side conditions of [seq_mono_query] by cases. *)
Ltac stmt_seq_le :=
  intros; unfold seq_le; repeat case_match; simplify_eq/=; lia.

#[export] Hint Resolve seq_mono_ret seq_mono_throw : sqldb.

Ltac seq_mono_tac :=
  repeat first
    [ progress eauto with sqldb
    | apply seq_mono_bind; [|intros ?]
    | match goal with |- seq_mono (match ?x with _ => _ end) => destruct x end
    | apply seq_mono_query; intros ? ].

(** The same walk for [orders_le]. *)
Ltac stmt_orders_le :=
  intros; unfold orders_le; repeat case_match; simplify_eq/=; set_solver.
Ltac orders_mono_tac :=
  unfold orders_mono;
  repeat first
    [ apply preserves_bind; [apply _| |intros ?]
    | apply preserves_ret, _
    | apply preserves_throw, _
    | match goal with |- preserves _ (match ?x with _ => _ end) => destruct x end
    | apply preserves_query; [apply _|intros ?] ].

(** The rows as they were, the sequences possibly advanced: what a refused or
    failed transaction leaves behind. *)
Definition untouched (d d' : db) : Prop := same_rows d d' ∧ seq_le d d'.

#[export] Instance untouched_preorder : PreOrder untouched.
Proof.
  split.
  - intros d. split; reflexivity.
  - intros d1 d2 d3 [H1 H2] [H3 H4]. split; etrans; eauto.
Qed.

Lemma untouched_rows d d' : untouched d d' →
  users d' = users d ∧ products d' = products d ∧ orders d' = orders d ∧ order_items d' = order_items d ∧
  job_queue d' = job_queue d ∧ idempotency_keys d' = idempotency_keys d ∧ outbox d' = outbox d ∧
  processed_messages d' = processed_messages d ∧ order_receipts d' = order_receipts d ∧
  refresh_tokens d' = refresh_tokens d ∧ access_denylist d' = access_denylist d ∧ files d' = files d.
Proof. intros [<- _]. done. Qed.

Lemma untouched_ok d d' : untouched d d' → db_ok d → db_ok d'.
Proof.
  intros Hu [? ? H3 H4 H5 H6 ? H8 ? H10 ? ? ? ? ? ? ?].
  destruct (untouched_rows d d' Hu) as (E1 & E2 & E3 & E4 & E5 & E6 & E7 & E8 & E9 & E10 & E11 & E12).
  destruct Hu as [_ (? & ? & ? & ?)].
  split; rewrite ?E1, ?E2, ?E3, ?E4, ?E5, ?E6, ?E7, ?E8, ?E9, ?E10, ?E11, ?E12; try done;
    try (eapply map_Forall_impl; [eassumption|]; intros ?? Hx; unfold order_ok, item_ok, job_ok, key_ok, token_ok, file_ok in *;
         rewrite ?E1, ?E2, ?E3; exact Hx);
    intros i Hi; etrans; eauto.
Qed.

(** ** Triples: from [P], a run that answers ends in [Q] and a run that throws
    ends in [E], and only throws because a round trip failed. *)

Definition triple {A} (P : db → Prop) (m : sql A) (Q : A → db → Prop) (E : db → Prop) : Prop :=
  ∀ φ t d r t' d', P d → m φ t d = (r, t', d') →
    match r with Ok a => Q a d' | Err _ => (∃ n, φ n ≠ None) ∧ E d' end.

Lemma triple_ret {A} (P : db → Prop) (a : A) (Q : A → db → Prop) E : (∀ d, P d → Q a d) → triple P (mret a) Q E.
Proof. intros HQ φ t d r t' d' HP [= <- <- <-]. auto. Qed.

Lemma triple_bind {A B} P (m : sql A) (f : A → sql B) R Q E :
  triple P m R E → (∀ a, triple (R a) (f a) Q E) → triple P (m ≫= f) Q E.
Proof.
  intros Hm Hf φ t d r t' d' HP. unfold mbind, sql_bind. destruct (m φ t d) as [[[a|e] t1] d1] eqn:Hr.
  - intros Hr'. eapply Hf; [|exact Hr']. exact (Hm _ _ _ _ _ _ HP Hr).
  - intros [= <- <- <-]. exact (Hm _ _ _ _ _ _ HP Hr).
Qed.

Lemma triple_weaken {A} (P P' : db → Prop) (m : sql A) Q Q' (E E' : db → Prop) :
  triple P' m Q' E' → (∀ d, P d → P' d) → (∀ a d, Q' a d → Q a d) → (∀ d, E' d → E d) → triple P m Q E.
Proof.
  intros Hm HP HQ HE φ t d r t' d' Hd Hr. specialize (Hm φ t d r t' d' (HP _ Hd) Hr).
  destruct r; [auto|]. by destruct Hm; auto.
Qed.

(** A statement that answers where [P] holds. *)
Lemma triple_query {A} (P : db → Prop) (stmt : db → result A * db) (Q : A → db → Prop) (E : db → Prop) :
  (∀ d, P d → ∃ a, (stmt d).1 = Ok a ∧ Q a (stmt d).2 ∧ E (stmt d).2 ∧ E d) → triple P (query stmt) Q E.
Proof.
  intros Hs φ t d r t' d' HP. unfold query. destruct (Hs d HP) as (a & Ha & HQ & HE & HE').
  destruct (stmt d) as [r0 d0]. cbn in *. subst r0.
  destruct (φ t) as [f|] eqn:Hf; intros [= <- <- <-]; [|done].
  split; [exists t; congruence|]. by destruct (f_applied f).
Qed.

(** A statement that only reads. *)
Lemma triple_read {A} (P : db → Prop) (f : db → A) (Q : A → db → Prop) (E : db → Prop) :
  (∀ d, P d → Q (f d) d) → (∀ d, P d → E d) → triple P (query (λ d, (Ok (f d), d))) Q E.
Proof. intros HQ HE. apply triple_query. intros d Hd. exists (f d). auto. Qed.
