(* ===== verification/Fixtures.v ===== *)
(** Concrete data for the examples and witnesses: a small database, a decimal
    reader for [bigint] parameters and stand-ins for the third-party string
    functions of the event contract. *)
From S2P Require Import Prelude JsNumber Events Schema Sql.
From stdpp Require Import pretty.
From Stdlib Require Import Ascii.
#[local] Open Scope Z_scope.

Fixpoint digits_val (acc : Z) (s : string) : option Z :=
  match s with
  | EmptyString => Some acc
  | String c s =>
      let n := Z.of_N (N_of_ascii c) - 48 in
      if (0 <=? n) && (n <=? 9) then digits_val (10 * acc + n) s else None
  end.

Definition read_bigint (s : string) : option Z :=
  z ← match s with
      | EmptyString => None
      | String "-" (String c s) => Z.opp <$> digits_val 0 (String c s)
      | _ => digits_val 0 s
      end;
  if int8 z then Some z else None.

(** ** The decimal reader reads what [bigint] columns print *)

Lemma digits_val_pretty x s : digits_val 0 (pretty_N_go x s) = digits_val (Z.of_N x) s.
Proof.
  revert s. induction (N.lt_wf_0 x) as [x _ IH]. intros s.
  destruct (decide (x = 0%N)) as [->|Hx]; [by rewrite pretty_N_go_0|].
  rewrite pretty_N_go_step by lia. rewrite IH by (apply N.div_lt; lia). cbn [digits_val].
  assert (Hc : Z.of_N (N_of_ascii (pretty_N_char (x mod 10))) - 48 = Z.of_N (x mod 10)).
  { pose proof (N.mod_lt x 10 ltac:(lia)). generalize dependent (x mod 10)%N. intros y Hy.
    assert (y = 0 ∨ y = 1 ∨ y = 2 ∨ y = 3 ∨ y = 4 ∨ y = 5 ∨ y = 6 ∨ y = 7 ∨ y = 8 ∨ y = 9)%N as Hcase by lia.
    destruct_or!; subst; reflexivity. }
  rewrite Hc, N2Z.inj_mod, N2Z.inj_div. change (Z.of_N 10) with 10.
  pose proof (Z.mod_pos_bound (Z.of_N x) 10 ltac:(lia)).
  rewrite (proj2 (Z.leb_le 0 (Z.of_N x mod 10))), (proj2 (Z.leb_le (Z.of_N x mod 10) 9)) by lia. cbn [andb].
  f_equal. pose proof (Z.div_mod (Z.of_N x) 10 ltac:(lia)). lia.
Qed.

Lemma digits_val_N (x : N) : digits_val 0 (pretty x) = Some (Z.of_N x).
Proof.
  unfold pretty, pretty_N. case_decide as Hx; [by subst|]. by rewrite digits_val_pretty.
Qed.

Lemma digits_val_text acc s z : digits_val acc s = Some z → text_in s = Some s.
Proof.
  revert acc. induction s as [|c s IH]; intros acc; [done|]. cbn [digits_val].
  destruct (_ && _) eqn:Hc; [|done]. intros Hs. apply IH in Hs. zify_bools.
  unfold text_in in *. cbn. destruct (existsb _ _); [done|].
  destruct (N.eqb_spec (N_of_ascii c) 0); [lia|done].
Qed.

Lemma read_unsigned s : s ≠ "" → (∃ z, digits_val 0 s = Some z) →
  read_bigint s = (z ← digits_val 0 s; if int8 z then Some z else None).
Proof.
  intros Hs [z Hz]. destruct s as [|c s]; [done|]. unfold read_bigint.
  destruct (decide (c = ascii_of_N 45)) as [->|Hc]; [by destruct s|].
  by destruct c as [[] [] [] [] [] [] [] []].
Qed.

Lemma pretty_N_nonempty (x : N) : pretty x ≠ "".
Proof. intros Hx. pose proof (digits_val_N x) as Hv. pose proof (digits_val_N 1) as H1.
  destruct (decide (x = 0%N)) as [->|]; [done|]. rewrite Hx in Hv. cbn in Hv. simplify_eq. lia.
Qed.

Lemma read_pretty z : int8 z = true → read_bigint (pretty z) = Some z.
Proof.
  intros Hz. destruct z as [|p|p].
  - reflexivity.
  - change (pretty (Z.pos p)) with (pretty (N.pos p)).
    rewrite read_unsigned; [rewrite digits_val_N; cbn -[int8]; by rewrite Hz|apply pretty_N_nonempty|].
    rewrite digits_val_N. eauto.
  - change (pretty (Z.neg p)) with (String "-" (pretty (N.pos p))).
    pose proof (pretty_N_nonempty (N.pos p)) as Hn. pose proof (digits_val_N (N.pos p)) as Hv.
    destruct (pretty (N.pos p)) as [|c s]; [done|].
    change (read_bigint _) with (z ← Z.opp <$> digits_val 0 (String c s); if int8 z then Some z else None).
    rewrite Hv. transitivity (if int8 (Z.neg p) then Some (Z.neg p) else None); [done|by rewrite Hz].
Qed.

Lemma read_text s z : read_bigint s = Some z → s ≠ "" ∧ text_in s = Some s.
Proof.
  intros Hs. split; [by intros ->|]. destruct s as [|c s]; [done|].
  destruct (decide (c = ascii_of_N 45)) as [->|Hc].
  - destruct s as [|c s]; [done|]. unfold read_bigint in Hs. cbn -[digits_val] in Hs.
    destruct (digits_val 0 (String c s)) as [v|] eqn:Hv; [|done]. apply digits_val_text in Hv.
    unfold text_in in *. cbn in *. by destruct (_ || _).
  - assert (∃ v, digits_val 0 (String c s) = Some v) as [v Hv].
    { unfold read_bigint in Hs. destruct c as [[] [] [] [] [] [] [] []]; try done;
      destruct (digits_val 0 _) as [v|]; try done; eauto. }
    by eapply digits_val_text.
Qed.

Definition fix_text : PgText := 
  {| bigint_in := read_bigint; uuid_in := λ s, if uuid_shape s then Some s else None;
     to_timestamp := λ x, Z.mul 1000 <$> num_to_Z x |}.

Lemma fix_text_laws : @PgTextLaws fix_text.
Proof.
  split; cbn.
  - by intros s ->.
  - intros s u. destruct (uuid_shape s) eqn:Hs; [|done]. intros [= <-]. by rewrite Hs.
  - apply read_text.
  - by intros x z -> _.
  - apply read_pretty.
Qed.

Definition fix_events : EventLib :=
  {| sha1 := λ s, replicate 20 (Z.of_nat (String.length s) mod 256); zod_uuid := uuid_shape; zod_datetime := λ _, true |}.

Lemma fix_events_laws : @EventLibLaws fix_events.
Proof.
  split; intros.
  - apply length_replicate.
  - apply Forall_replicate. unfold is_byte. apply Z.mod_pos_bound. lia.
  - done.
  - done.
Qed.

Definition fix_user : user_row := UserRow "ada@example.com" "Ada" 100000 (Some "scrypt$c2FsdA==$a2V5") customer.
Definition fix_product : product_row := ProductRow "SKU-1" "Keyboard" 1299 true 10.

Definition fix_db : db :=
  set_users <[1 := fix_user]> (set_products <[7 := fix_product]> empty_db).

Lemma fix_db_ok : db_ok fix_db.
Proof.
  destruct db_ok_empty. split; try done.
  - apply map_Forall_insert_2; [vm_compute; split; congruence|apply map_Forall_empty].
  - apply map_Forall_insert_2; [|apply map_Forall_empty].
    split; [vm_compute; split; congruence|]. split; [vm_compute; congruence|done].
  - intros i j a b k. cbn. rewrite !lookup_insert, !lookup_empty. repeat case_decide; naive_solver.
Qed.

(** ** Equality of JSON values *)

Fixpoint json_eqb (x y : json) : bool :=
  match x, y with
  | JNull, JNull => true
  | JBool a, JBool b => Bool.eqb a b
  | JNum a, JNum b => bool_decide (a = b)
  | JStr a, JStr b => String.eqb a b
  | JArr l, JArr k =>
      (fix go (l k : list json) : bool :=
         match l, k with
         | [], [] => true
         | a :: l, b :: k => json_eqb a b && go l k
         | _, _ => false
         end) l k
  | JObj l, JObj k =>
      (fix go (l k : list (string * json)) : bool :=
         match l, k with
         | [], [] => true
         | (i, a) :: l, (j, b) :: k => String.eqb i j && json_eqb a b && go l k
         | _, _ => false
         end) l k
  | _, _ => false
  end.

Lemma json_eqb_eq : ∀ x y, json_eqb x y = true → x = y.
Proof.
  fix IH 1. intros x y. destruct x as [|a|a|a|l|l], y as [|b|b|b|k|k]; cbn; try done.
  - by intros ->%Bool.eqb_prop.
  - by intros ->%bool_decide_eq_true.
  - by intros ->%String.eqb_eq.
  - intros Hl. f_equal. revert k Hl. induction l as [|a l IHl]; intros [|b k]; try done.
    intros [->%IH ->%IHl]%andb_true_iff. done.
  - intros Hl. f_equal. revert k Hl. induction l as [|[i a] l IHl]; intros [|[j b] k]; try done.
    intros [[->%String.eqb_eq ->%IH]%andb_true_iff ->%IHl]%andb_true_iff. done.
Qed.

(** ** The event contract on a concrete order *)

Definition fix_placed : placed_order :=
  PlacedOrder "1" "1" "7" (num_of_Z 2) (num_mul (num_of_cents 1299) (num_of_Z 2)) 1785578400123.

Lemma outbox_event_accepted_witness :
  @OrderPlacedSchema_parse fix_events (event_json (@toOrderPlacedEvent fix_events fix_placed))
    = Some (@toOrderPlacedEvent fix_events fix_placed).
Proof.
  apply (@outbox_event_accepted fix_events fix_events_laws fix_placed); [done|done|done|reflexivity|reflexivity|].
  cbn. lia.
Defined.
