(* ===== verification/Checkout.v ===== *)
(** The transactional checkout (src/checkout.ts): stock and balance decrement,
    order, order item, post-processing job, idempotency key and outbox event in
    one transaction. *)
From S2P Require Import Prelude JsNumber Events Schema Sql Fixtures.
From stdpp Require Import pretty.
#[local] Open Scope Z_scope.

Inductive CheckoutFailureReason := out_of_stock | insufficient_funds.
#[export] Instance failure_eq_dec : EqDecision CheckoutFailureReason.
Proof. solve_decision. Defined.

(** [quantity] is an integral JavaScript number. *)
Record CheckoutParams := Params {
  buyerId : string;
  productId : string;
  quantity : Z;
  idempotencyKey : option string;
}.

Inductive CheckoutResult :=
| CheckoutSuccess (orderId : string) (totalAmount : num) (replayed : bool)
| CheckoutFailure (reason : CheckoutFailureReason).
#[export] Instance checkout_result_eq_dec : EqDecision CheckoutResult.
Proof. solve_decision. Defined.

(** [CheckoutHooks.afterOutboxInsert]: returns, or throws. *)
Definition hook : Type := result unit.
Definition no_hook : hook := Ok tt.

(** What one run reads from the outside: [now()] of the transaction, [new
    Date()], [gen_random_uuid()] of the outbox row. *)
Record env := Env { now : Z; date : Z; outbox_id : string }.

(** The driver's answer to a statement: a row array, or TypeORM's
    [rows, rowCount] tuple for UPDATE ... RETURNING. *)
Inductive answer (A : Type) :=
| Rows (l : list A)
| Tuple (l : list A) (rowCount : Z).
Arguments Rows {A} l.
Arguments Tuple {A} l rowCount.

Definition unwrapReturning {A} (r : answer A) : list A :=
  match r with Tuple l _ => l | Rows l => l end.

Definition tuple {A} (l : list A) : answer A := Tuple l (Z.of_nat (length l)).

(** A JavaScript number as a [numeric] parameter. *)
Definition numeric_param (x : num) : result decimal :=
  match num_text x with Some v => Ok v | None => Err (PgError "22P02") end.

Section statements.
Context `{PgText}.

(** An id parameter compared with a [bigint] column. *)
Definition with_id {A} (id : string) (k : Z → result A * db) (d : db) : result A * db :=
  match bigint_in id with Some z => k z | None => (Err (PgError "22P02"), d) end.

(** INSERT INTO idempotency_keys (key) ... ON CONFLICT DO NOTHING RETURNING key.
    The callers pass an HTTP header or a literal, which have no NUL byte, the
    one text that Postgres would refuse here. *)
Definition claim_key (key : string) (d : db) : result (list string) * db :=
  match idempotency_keys d !! key with
  | Some _ => (Ok [], d)
  | None => (Ok [key], set_keys <[key := None]> d)
  end.

(** SELECT o.id, o.total_amount FROM idempotency_keys k JOIN orders o ... *)
Definition previous_order (key : string) (d : db) : result (list (Z * Z)) * db :=
  (Ok (match idempotency_keys d !! key with
       | Some (Some oid) =>
           match orders d !! oid with Some o => [(oid, o_total_amount o)] | None => [] end
       | _ => []
       end), d).

(** UPDATE products SET stock = stock - $1 WHERE id = $2 AND stock >= $1 RETURNING price *)
Definition take_stock (quantity : Z) (productId : string) (d : db) : result (answer Z) * db :=
  if negb (int4 quantity) then (Err (PgError "22003"), d) else
  with_id productId (λ id,
    match products d !! id with
    | Some p =>
        if quantity <=? p_stock p then
          let stock := p_stock p - quantity in
          if int4 stock then
            (Ok (tuple [p_price p]),
             set_products <[id := ProductRow (p_sku p) (p_name p) (p_price p) (p_is_active p) stock]> d)
          else (Err (PgError "22003"), d)
        else (Ok (tuple []), d)
    | None => (Ok (tuple []), d)
    end) d.

(** UPDATE users SET balance = balance - $1 WHERE id = $2 AND balance >= $1 RETURNING balance *)
Definition charge_balance (totalAmount : num) (buyerId : string) (d : db) : result (answer Z) * db :=
  match numeric_param totalAmount with
  | Err e => (Err e, d)
  | Ok x =>
      with_id buyerId (λ id,
        match users d !! id with
        | Some u =>
            if numeric_ge (u_balance u) x then
              match numeric_sub (u_balance u) x with
              | Some balance =>
                  if balance <? 0 then (Err (PgError "23514"), d) else
                  (Ok (tuple [balance]),
                   set_users <[id := UserRow (u_email u) (u_full_name u) balance (u_password_hash u) (u_role u)]> d)
              | None => (Err (PgError "22003"), d)
              end
            else (Ok (tuple []), d)
        | None => (Ok (tuple []), d)
        end) d
  end.

(** SELECT email FROM users WHERE id = $1 *)
Definition select_email (buyerId : string) (d : db) : result (list string) * db :=
  with_id buyerId (λ id,
    (Ok (match users d !! id with Some u => [u_email u] | None => [] end), d)) d.

(** INSERT INTO orders (buyer_id, customer_email, status, total_amount) VALUES (...) RETURNING id:
    the identity default, then the column type, CHECK and FOREIGN KEY constraints. *)
Definition insert_order (e : env) (buyerId customerEmail : string) (totalAmount : num) (d : db) :
    result (list Z) * db :=
  let id := seq_orders d + 1 in
  let failed code := (Err (PgError code), set_orders (λ t, t) id d) in
  match numeric_param totalAmount with
  | Err e => (Err e, d)
  | Ok x =>
      with_id buyerId (λ buyer,
        match numeric_of x with
        | None => failed "22003"
        | Some total =>
            if total <? 0 then failed "23514" else
            match users d !! buyer with
            | None => failed "23503"
            | Some _ =>
                (Ok [id], set_orders <[id := OrderRow buyer customerEmail paid total (now e)]> id d)
            end
        end) d
  end.

(** INSERT INTO order_items (order_id, product_id, quantity, unit_price) VALUES (...) *)
Definition insert_item (orderId : Z) (productId : string) (quantity : Z) (unitPrice : num) (d : db) :
    result unit * db :=
  let id := seq_items d + 1 in
  let failed code := (Err (PgError code), set_order_items (λ t, t) id d) in
  match numeric_param unitPrice with
  | Err e => (Err e, d)
  | Ok x =>
      with_id productId (λ product,
        match numeric_of x with
        | None => failed "22003"
        | Some price =>
            if (price <? 0) || (quantity <=? 0) then failed "23514" else
            match products d !! product, orders d !! orderId with
            | Some _, Some _ =>
                (Ok tt, set_order_items <[id := OrderItemRow orderId product quantity price]> id d)
            | _, _ => failed "23503"
            end
        end) d
  end.

(** INSERT INTO job_queue (order_id, kind) VALUES ($1, 'post_processing') *)
Definition insert_job (orderId : Z) (d : db) : result unit * db :=
  let id := seq_jobs d + 1 in
  match orders d !! orderId with
  | Some _ => (Ok tt, set_job_queue <[id := JobRow orderId "post_processing" job_new None 0]> id d)
  | None => (Err (PgError "23503"), set_job_queue (λ t, t) id d)
  end.

(** UPDATE idempotency_keys SET order_id = $1 WHERE key = $2 *)
Definition bind_key (orderId : Z) (key : string) (d : db) : result unit * db :=
  match idempotency_keys d !! key with
  | Some _ =>
      match orders d !! orderId with
      | Some _ => (Ok tt, set_keys <[key := Some orderId]> d)
      | None => (Err (PgError "23503"), d)
      end
  | None => (Ok tt, d)
  end.

(** INSERT INTO outbox (aggregate_type, aggregate_id, type, payload) VALUES ('Order', ...) *)
Definition insert_outbox (e : env) (orderId type : string) (payload : json) (d : db) : result unit * db :=
  match outbox d !! outbox_id e with
  | Some _ => (Err (PgError "23505"), d)
  | None => (Ok tt, set_outbox <[outbox_id e := OutboxRow "Order" orderId type payload (now e) None 0]> d)
  end.
End statements.

Section checkout.
Context `{PgText, EventLib}.

(** [rows[0]!]: a TypeError when the array is empty. *)
Definition first {A} (l : list A) : sql A :=
  match l with x :: _ => mret x | [] => throw (JsError "TypeError") end.

(** Steps 1-5: everything after the idempotency key. *)
Definition place (e : env) (h : hook) (p : CheckoutParams) : sql (tx_exit CheckoutResult) :=
  stockAnswer ← query (take_stock (quantity p) (productId p));
  match unwrapReturning stockAnswer with
  | [] => mret (Rollback (CheckoutFailure out_of_stock))
  | price :: _ =>
      let unitPrice := num_of_cents price in
      let totalAmount := num_mul unitPrice (num_of_Z (quantity p)) in
      balanceAnswer ← query (charge_balance totalAmount (buyerId p));
      match unwrapReturning balanceAnswer with
      | [] => mret (Rollback (CheckoutFailure insufficient_funds))
      | _ :: _ =>
          buyerRows ← query (select_email (buyerId p));
          let customerEmail := default "" (head buyerRows) in
          orderRows ← query (insert_order e (buyerId p) customerEmail totalAmount);
          orderId ← first orderRows;
          _ ← query (insert_item orderId (productId p) (quantity p) unitPrice);
          _ ← query (insert_job orderId);
          _ ← match idempotencyKey p with
              | Some key => query (bind_key orderId key)
              | None => mret tt
              end;
          let event := toOrderPlacedEvent
            (PlacedOrder (pretty orderId) (buyerId p) (productId p) (num_of_Z (quantity p)) totalAmount (date e)) in
          _ ← query (insert_outbox e (pretty orderId) (ev_type event) (event_json event));
          match h with
          | Ok _ => mret (Commit (CheckoutSuccess (pretty orderId) totalAmount false))
          | Err err => throw err
          end
      end
  end.

Definition checkout_body (e : env) (h : hook) (p : CheckoutParams) : sql (tx_exit CheckoutResult) :=
  match idempotencyKey p with
  | None => place e h p
  | Some key =>
      claimed ← query (claim_key key);
      match claimed with
      | [] =>
          prev ← query (previous_order key);
          row ← first prev;
          mret (Rollback (CheckoutSuccess (pretty row.1) (num_of_cents row.2) true))
      | _ :: _ => place e h p
      end
  end.

Definition checkout (e : env) (h : hook) (p : CheckoutParams) : sql CheckoutResult :=
  transaction (checkout_body e h p).
End checkout.

(** ** Specification

    What one checkout does to the rows, as a decision table. *)

(** The [balance >= $1] test with [$1] the text of the float product. *)
Definition affordable (balance price quantity : Z) : bool :=
  match amount price quantity with Some x => numeric_ge balance x | None => false end.

Section spec.
Context `{PgText, EventLib}.

Definition spec_event (e : env) (p : CheckoutParams) (oid price : Z) : order_placed_event :=
  toOrderPlacedEvent (PlacedOrder (pretty oid) (buyerId p) (productId p)
    (num_of_Z (quantity p)) (num_mul (num_of_cents price) (num_of_Z (quantity p))) (date e)).

(** The committed effects of a purchase of product [pid] (row [pr]) by buyer
    [bid] (row [u]): everything in one step. *)
Definition purchase (e : env) (p : CheckoutParams) (pid bid : Z) (pr : product_row) (u : user_row) (d : db) : db :=
  let q := quantity p in
  let total := p_price pr * q in
  let oid := seq_orders d + 1 in
  Db (<[bid := UserRow (u_email u) (u_full_name u) (u_balance u - total) (u_password_hash u) (u_role u)]> (users d))
     (<[pid := ProductRow (p_sku pr) (p_name pr) (p_price pr) (p_is_active pr) (p_stock pr - q)]> (products d))
     (<[oid := OrderRow bid (u_email u) paid total (now e)]> (orders d))
     (<[seq_items d + 1 := OrderItemRow oid pid q (p_price pr)]> (order_items d))
     (<[seq_jobs d + 1 := JobRow oid "post_processing" job_new None 0]> (job_queue d))
     (match idempotencyKey p with Some k => <[k := Some oid]> (idempotency_keys d) | None => idempotency_keys d end)
     (<[outbox_id e := OutboxRow "Order" (pretty oid) "order.placed"
          (event_json (spec_event e p oid (p_price pr))) (now e) None 0]> (outbox d))
     (processed_messages d) (order_receipts d) (refresh_tokens d) (access_denylist d) (files d)
     oid (seq_items d + 1) (seq_jobs d + 1) (seq_tokens d).

(** The order a known key already stands for. *)
Definition replay_of (p : CheckoutParams) (d : db) : option (Z * order_row) :=
  k ← idempotencyKey p; oid ← mjoin (idempotency_keys d !! k);
  o ← orders d !! oid; Some (oid, o).

Definition checkout_spec (e : env) (p : CheckoutParams) (pid bid : Z) (d : db) : CheckoutResult * db :=
  match replay_of p d with
  | Some (oid, o) => (CheckoutSuccess (pretty oid) (num_of_cents (o_total_amount o)) true, d)
  | None =>
      match products d !! pid with
      | None => (CheckoutFailure out_of_stock, d)
      | Some pr =>
          if p_stock pr <? quantity p then (CheckoutFailure out_of_stock, d) else
          match users d !! bid with
          | None => (CheckoutFailure insufficient_funds, d)
          | Some u =>
              if affordable (u_balance u) (p_price pr) (quantity p) then
                (CheckoutSuccess (pretty (seq_orders d + 1))
                   (num_mul (num_of_cents (p_price pr)) (num_of_Z (quantity p))) false,
                 purchase e p pid bid pr u d)
              else (CheckoutFailure insufficient_funds, d)
          end
      end
  end.

(** Well-formed requests, as the HTTP edge lets them through. *)
Record request_ok (p : CheckoutParams) (pid bid : Z) : Prop := {
  rq_quantity : 0 < quantity p;
  rq_int4 : int4 (quantity p) = true;
  rq_product : bigint_in (productId p) = Some pid;
  rq_buyer : bigint_in (buyerId p) = Some bid;
}.
End spec.

(** ** Affordability: the float product against exact cents *)

Lemma int4_range z : int4 z = true → -2147483648 ≤ z ≤ 2147483647.
Proof. unfold int4. intros. zify_bools. lia. Qed.

Lemma affordable_amount b c q :
  0 ≤ c < numeric_max → 0 < q ≤ 2 ^ 31 → 0 ≤ b < numeric_max →
  ∃ x, amount c q = Some x ∧ affordable b c q = numeric_ge b x ∧
    (numeric_ge b x = true →
      c * q ≤ b ∧ numeric_of x = Some (c * q) ∧ numeric_sub b x = Some (b - c * q)) ∧
    (c * q < b → numeric_ge b x = true).
Proof.
  intros Hc Hq Hb. unfold affordable.
  destruct (decide (c * q < numeric_max)) as [Hsmall|Hbig].
  - destruct (amount_charge c q) as (x & -> & Hof & Hb'); [lia..|].
    destruct (Hb' b Hb) as (H1 & H2 & H3). exists x. split_and!; try done. intros Hge. auto.
  - destruct (amount_too_big c q) as (x & -> & Hno); [unfold numeric_max in *; nia|lia|lia|].
    exists x. rewrite Hno by lia. split_and!; try done. lia.
Qed.

Section refinement.
Context `{PgText, EventLib}.

Lemma take_stock_ok p pid pr d :
  int4 (quantity p) = true → 0 < quantity p → bigint_in (productId p) = Some pid →
  products d !! pid = Some pr → product_ok pr → quantity p ≤ p_stock pr →
  take_stock (quantity p) (productId p) d =
    (Ok (tuple [p_price pr]),
     set_products <[pid := ProductRow (p_sku pr) (p_name pr) (p_price pr) (p_is_active pr) (p_stock pr - quantity p)]> d).
Proof.
  intros Hi Hq Hid Hp (_ & Hst & Hi4) Hle. unfold take_stock, with_id. rewrite Hi, Hid, Hp. cbn.
  apply int4_range in Hi4. rewrite (proj2 (Z.leb_le _ _)) by done.
  assert (int4 (p_stock pr - quantity p) = true) as ->; [|done].
  unfold int4. apply andb_true_iff. rewrite !Z.leb_le. lia.
Qed.

Lemma take_stock_none p pid d :
  int4 (quantity p) = true → bigint_in (productId p) = Some pid →
  (∀ pr, products d !! pid = Some pr → p_stock pr < quantity p) →
  take_stock (quantity p) (productId p) d = (Ok (tuple []), d).
Proof.
  intros Hi Hid Hp. unfold take_stock, with_id. rewrite Hi, Hid. cbn.
  destruct (products d !! pid) as [pr|]; [|done].
  rewrite (proj2 (Z.leb_gt _ _)); [done|by apply Hp].
Qed.

Lemma charge_ok p bid u price d x :
  bigint_in (buyerId p) = Some bid → users d !! bid = Some u →
  amount price (quantity p) = Some x → numeric_ge (u_balance u) x = true →
  numeric_sub (u_balance u) x = Some (u_balance u - price * quantity p) →
  price * quantity p ≤ u_balance u →
  charge_balance (num_mul (num_of_cents price) (num_of_Z (quantity p))) (buyerId p) d =
    (Ok (tuple [u_balance u - price * quantity p]),
     set_users <[bid := UserRow (u_email u) (u_full_name u) (u_balance u - price * quantity p) (u_password_hash u) (u_role u)]> d).
Proof.
  intros Hid Hu Hx Hge Hsub Hle. unfold charge_balance, numeric_param, with_id.
  unfold amount in Hx. rewrite Hx, Hid, Hu, Hge, Hsub.
  rewrite (proj2 (Z.ltb_ge _ _)) by lia. done.
Qed.

Lemma charge_none p bid price d x :
  bigint_in (buyerId p) = Some bid → amount price (quantity p) = Some x →
  (∀ u, users d !! bid = Some u → numeric_ge (u_balance u) x = false) →
  charge_balance (num_mul (num_of_cents price) (num_of_Z (quantity p))) (buyerId p) d = (Ok (tuple []), d).
Proof.
  intros Hid Hx Hge. unfold charge_balance, numeric_param, with_id. unfold amount in Hx. rewrite Hx, Hid.
  destruct (users d !! bid) as [u|]; [|done]. by rewrite Hge.
Qed.

(** Steps 1-5 on a database where the key, if any, is already claimed. *)
Lemma place_out_of_stock e p pid d t :
  int4 (quantity p) = true → bigint_in (productId p) = Some pid →
  (∀ pr, products d !! pid = Some pr → p_stock pr < quantity p) →
  place e no_hook p no_fault t d = (Ok (Rollback (CheckoutFailure out_of_stock)), S t, d).
Proof.
  intros Hi Hid Hp. unfold place.
  erewrite bind_run; [|apply query_run, (take_stock_none p pid d Hi Hid Hp)]. done.
Qed.

Lemma place_insufficient e p pid bid pr d t :
  request_ok p pid bid → products d !! pid = Some pr → product_ok pr → quantity p ≤ p_stock pr →
  (∀ u, users d !! bid = Some u → user_ok u ∧ affordable (u_balance u) (p_price pr) (quantity p) = false) →
  ∃ d1, place e no_hook p no_fault t d = (Ok (Rollback (CheckoutFailure insufficient_funds)), S (S t), d1)
    ∧ rollback d d1 = d.
Proof.
  intros [Hq Hi Hpid Hbid] Hp Hpok Hst Hu. pose proof (int4_range _ Hi).
  destruct (affordable_amount 0 (p_price pr) (quantity p)) as (x & Hx & _);
    [apply Hpok|lia|unfold numeric_max; lia|].
  unfold place. erewrite bind_run; [|by apply query_run, (take_stock_ok p pid pr)]. cbn [unwrapReturning tuple].
  erewrite bind_run; [|apply query_run, (charge_none p bid _ _ x Hbid Hx)]; [cbn|].
  - eexists. split; [done|]. by destruct d.
  - cbn. intros u Hu'. destruct (Hu u Hu') as [Huok Haff].
    unfold affordable in Haff. by rewrite Hx in Haff.
Qed.

Lemma place_commits e p pid bid pr u d t :
  request_ok p pid bid → products d !! pid = Some pr → product_ok pr → quantity p ≤ p_stock pr →
  users d !! bid = Some u → user_ok u → affordable (u_balance u) (p_price pr) (quantity p) = true →
  outbox d !! outbox_id e = None →
  (∀ k, idempotencyKey p = Some k → is_Some (idempotency_keys d !! k)) →
  ∃ t', place e no_hook p no_fault t d =
    (Ok (Commit (CheckoutSuccess (pretty (seq_orders d + 1))
       (num_mul (num_of_cents (p_price pr)) (num_of_Z (quantity p))) false)), t', purchase e p pid bid pr u d).
Proof.
  intros [Hq Hi Hpid Hbid] Hp Hpok Hst Hu Huok Haff Hob Hkey. pose proof (int4_range _ Hi).
  destruct (affordable_amount (u_balance u) (p_price pr) (quantity p))
    as (x & Hx & Hxa & Hxge & _); [apply Hpok|lia|done|].
  rewrite Haff in Hxa. symmetry in Hxa. destruct (Hxge Hxa) as (Hle & Hof & Hsub).
  destruct (cents_text (p_price pr)) as (y & Hy & Hyof); [apply Hpok|].
  pose proof (proj1 Hpok) as Hprice. unfold place.
  erewrite bind_run; [|by apply query_run, (take_stock_ok p pid pr)]. cbn [unwrapReturning tuple].
  erewrite bind_run; [|by apply query_run, (charge_ok p bid u _ _ x)]. cbn [unwrapReturning tuple].
  erewrite bind_run; [|apply query_run; unfold select_email, with_id; rewrite Hbid; reflexivity].
  cbn. rewrite lookup_insert_eq. cbn.
  erewrite bind_run; [|apply query_run; unfold insert_order, numeric_param, with_id; cbn].
  2:{ unfold amount in Hx. rewrite Hx, Hbid, Hof, lookup_insert_eq.
      rewrite (proj2 (Z.ltb_ge _ _)) by nia. reflexivity. }
  erewrite bind_run; [|reflexivity].
  erewrite bind_run; [|apply query_run; unfold insert_item, numeric_param, with_id; cbn].
  2:{ rewrite Hy, Hpid, Hyof, !lookup_insert_eq.
      rewrite (proj2 (Z.ltb_ge _ _)), (proj2 (Z.leb_gt _ _)) by lia. reflexivity. }
  erewrite bind_run; [|apply query_run; unfold insert_job; cbn; rewrite lookup_insert_eq; reflexivity].
  unfold purchase. destruct (idempotencyKey p) as [k|].
  - destruct (Hkey k eq_refl) as [o Hk].
    erewrite bind_run; [|apply query_run; unfold bind_key; cbn; rewrite Hk, lookup_insert_eq; reflexivity].
    erewrite bind_run; [|apply query_run; unfold insert_outbox; cbn; rewrite Hob; reflexivity].
    eexists. reflexivity.
  - erewrite bind_run; [|reflexivity].
    erewrite bind_run; [|apply query_run; unfold insert_outbox; cbn; rewrite Hob; reflexivity].
    eexists. reflexivity.
Qed.

Lemma purchase_claimed e p pid bid pr u d k v :
  idempotencyKey p = Some k →
  purchase e p pid bid pr u (set_keys <[k := v]> d) = purchase e p pid bid pr u d.
Proof. intros Hk. unfold purchase. rewrite Hk. cbn. by rewrite insert_insert_eq. Qed.

Lemma rollback_trans d d0 d1 : rollback d d0 = d → rollback d0 d1 = d0 → rollback d d1 = d.
Proof. destruct d, d0, d1. intros H1 H2. injection H1. injection H2. intros; subst. done. Qed.

(** The body of the transaction against the decision table. *)
Lemma body_spec e p pid bid d t :
  db_ok d → request_ok p pid bid → outbox d !! outbox_id e = None →
  ∃ x t' d1, checkout_body e no_hook p no_fault t d = (Ok x, t', d1) ∧
    match x with
    | Commit r => (r, d1) = checkout_spec e p pid bid d ∧ replay_of p d = None ∧
        ∃ pr u, products d !! pid = Some pr ∧ users d !! bid = Some u ∧ quantity p ≤ p_stock pr ∧
          affordable (u_balance u) (p_price pr) (quantity p) = true ∧ d1 = purchase e p pid bid pr u d
    | Rollback r => (r, rollback d d1) = checkout_spec e p pid bid d ∧
        (∀ o m, r ≠ CheckoutSuccess o m false)
    end.
Proof.
  intros Hok Hreq Hob.
  assert (Hplace : ∀ d0, products d0 = products d → users d0 = users d → outbox d0 = outbox d →
    seq_orders d0 = seq_orders d → replay_of p d = None → rollback d d0 = d →
    (∀ pr u, purchase e p pid bid pr u d0 = purchase e p pid bid pr u d) →
    (∀ k, idempotencyKey p = Some k → is_Some (idempotency_keys d0 !! k)) → ∀ t0,
    ∃ x t' d1, place e no_hook p no_fault t0 d0 = (Ok x, t', d1) ∧
    match x with
    | Commit r => (r, d1) = checkout_spec e p pid bid d ∧ replay_of p d = None ∧
        ∃ pr u, products d !! pid = Some pr ∧ users d !! bid = Some u ∧ quantity p ≤ p_stock pr ∧
          affordable (u_balance u) (p_price pr) (quantity p) = true ∧ d1 = purchase e p pid bid pr u d
    | Rollback r => (r, rollback d d1) = checkout_spec e p pid bid d ∧
        (∀ o m, r ≠ CheckoutSuccess o m false)
    end).
  { intros d0 Hprod Husers Hobx Hseq Hrep Hrb Hpur Hkeys t0. unfold checkout_spec. rewrite Hrep.
    pose proof Hreq as [Hq Hi Hpid Hbid].
    destruct (products d !! pid) as [pr|] eqn:Hp.
    2:{ rewrite (place_out_of_stock e p pid d0 t0) by (try done; rewrite Hprod, Hp; intros ? [=]).
        do 3 eexists. split; [reflexivity|]. rewrite Hrb. split; [done|]. intros ?? [=]. }
    pose proof (ok_products _ Hok _ _ Hp) as Hpok.
    destruct (Z.ltb_spec (p_stock pr) (quantity p)) as [Hlt|Hge].
    { rewrite (place_out_of_stock e p pid d0 t0) by (try done; rewrite Hprod, Hp; intros ? [= <-]; done).
      do 3 eexists. split; [reflexivity|]. rewrite Hrb. split; [done|]. intros ?? [=]. }
    assert (Hp0 : products d0 !! pid = Some pr) by (by rewrite Hprod).
    assert (Hins : (∀ u, users d0 !! bid = Some u → user_ok u ∧ affordable (u_balance u) (p_price pr) (quantity p) = false) →
      ∃ x t' d1, place e no_hook p no_fault t0 d0 = (Ok x, t', d1) ∧
        x = Rollback (CheckoutFailure insufficient_funds) ∧ rollback d d1 = d).
    { intros Hu. destruct (place_insufficient e p pid bid pr d0 t0) as (d1 & Hrun & Hd1); try done.
      do 3 eexists. split; [exact Hrun|]. split; [done|]. by apply (rollback_trans d d0). }
    destruct (users d !! bid) as [u|] eqn:Hu.
    - pose proof (ok_users _ Hok _ _ Hu) as Huok.
      destruct (affordable (u_balance u) (p_price pr) (quantity p)) eqn:Haff.
      + destruct (place_commits e p pid bid pr u d0 t0) as (t' & Hrun); try done; try congruence.
        do 3 eexists. split; [exact Hrun|]. rewrite Hseq, Hpur. split; [done|]. split; [done|]. eauto 10.
      + destruct Hins as (x & t' & d1 & Hrun & -> & Hd1).
        { intros u' Hu'. rewrite Husers, Hu in Hu'. by simplify_eq. }
        do 3 eexists. split; [exact Hrun|]. by rewrite Hd1.
    - destruct Hins as (x & t' & d1 & Hrun & -> & Hd1).
      { intros u' Hu'. by rewrite Husers, Hu in Hu'. }
      do 3 eexists. split; [exact Hrun|]. by rewrite Hd1. }
  unfold checkout_body. destruct (idempotencyKey p) as [k|] eqn:Hk.
  2:{ apply Hplace; try done; [unfold replay_of; by rewrite Hk|by destruct d]. }
  destruct (idempotency_keys d !! k) as [ko|] eqn:Hkd.
  - destruct (ok_keys _ Hok _ _ Hkd) as (oid & -> & [o Ho]).
    erewrite bind_run; [|apply query_run; unfold claim_key; rewrite Hkd; reflexivity]. cbv beta iota.
    erewrite bind_run; [|apply query_run; unfold previous_order; rewrite Hkd, Ho; reflexivity]. cbv beta iota.
    erewrite bind_run; [|reflexivity]. do 3 eexists. split; [reflexivity|].
    unfold checkout_spec, replay_of. rewrite Hk. cbn. rewrite Hkd. cbn. rewrite Ho. cbn.
    split; [by destruct d|done].
  - erewrite bind_run; [|apply query_run; unfold claim_key; rewrite Hkd; reflexivity]. cbv beta iota.
    apply Hplace; try done.
    + unfold replay_of. rewrite Hk. cbn. by rewrite Hkd.
    + by destruct d.
    + intros. by apply purchase_claimed.
    + intros k' [= <-]. cbn. rewrite lookup_insert_eq. eauto.
Qed.
End refinement.

Section checkout_facts.
Context `{PgText, EventLib}.

Lemma with_id_seq {A} id (k : Z → result A * db) d :
  (∀ z, seq_le d (k z).2) → seq_le d (with_id id k d).2.
Proof. unfold with_id. destruct (bigint_in id); intros Hk; [apply Hk|done]. Qed.

(** A checkout without faults does what its decision table says. *)
Lemma checkout_runs e p pid bid d t : db_ok d → request_ok p pid bid → outbox d !! outbox_id e = None →
  ∃ t', checkout e no_hook p no_fault t d = (Ok (checkout_spec e p pid bid d).1, t', (checkout_spec e p pid bid d).2).
Proof.
  intros Hok Hreq Hob. destruct (body_spec e p pid bid d (S t) Hok Hreq Hob) as (x & t1 & d1 & Hb & Hx).
  unfold checkout, transaction. rewrite Hb. cbn. destruct x; destruct Hx as [<- _]; eexists; reflexivity.
Qed.

Lemma checkout_seq_mono e h p : seq_mono (checkout e h p).
Proof.
  apply seq_mono_transaction. unfold checkout_body, place, first.
  seq_mono_tac; unfold claim_key, previous_order, take_stock, charge_balance, select_email,
    insert_order, insert_item, insert_job, bind_key, insert_outbox;
    repeat case_match; try apply with_id_seq; stmt_seq_le.
Qed.

Lemma body_fault_free e h p : fault_free (checkout_body e h p).
Proof. unfold checkout_body, place, first. fault_free_tac. Qed.

(** A throwing hook leaves only the early returns. *)
Lemma place_hook_err e err p φ t d x t' d' :
  place e (Err err) p φ t d = (Ok x, t', d') → ∃ r, x = Rollback (CheckoutFailure r).
Proof.
  unfold place. intros Hrun. apply bind_ok_inv in Hrun as (a & t1 & d1 & _ & Hrun).
  destruct (unwrapReturning a); [apply ret_ok_inv in Hrun as [-> _]; eauto|].
  apply bind_ok_inv in Hrun as (b & t2 & d2 & _ & Hrun).
  destruct (unwrapReturning b); [apply ret_ok_inv in Hrun as [-> _]; eauto|].
  do 7 (apply bind_ok_inv in Hrun as (? & ? & ? & _ & Hrun)). by unfold throw in Hrun.
Qed.

Lemma body_hook_err e err p φ t d x t' d' :
  checkout_body e (Err err) p φ t d = (Ok x, t', d') →
  ∃ r, x = Rollback r ∧ ∀ o m, r ≠ CheckoutSuccess o m false.
Proof.
  unfold checkout_body. intros Hrun.
  destruct (idempotencyKey p); [|apply place_hook_err in Hrun as [? ->]; eauto].
  apply bind_ok_inv in Hrun as ([|] & t1 & d1 & _ & Hrun);
    [|apply place_hook_err in Hrun as [? ->]; eauto].
  do 2 (apply bind_ok_inv in Hrun as (? & ? & ? & _ & Hrun)).
  apply ret_ok_inv in Hrun as [-> _]. eauto.
Qed.

(** One attempt, whatever fails: either nothing happened to the rows, or the
    whole purchase did. *)
Lemma checkout_all_or_nothing e h p pid bid d φ t r t' d' :
  db_ok d → request_ok p pid bid → outbox d !! outbox_id e = None →
  checkout e h p φ t d = (r, t', d') →
  (untouched d d' ∧ ∀ o m, r ≠ Ok (CheckoutSuccess o m false)) ∨
  (∃ pr u, products d !! pid = Some pr ∧ users d !! bid = Some u ∧ quantity p ≤ p_stock pr ∧
    affordable (u_balance u) (p_price pr) (quantity p) = true ∧ replay_of p d = None ∧
    d' = purchase e p pid bid pr u d ∧
    (r = Ok (CheckoutSuccess (pretty (seq_orders d + 1))
               (num_mul (num_of_cents (p_price pr)) (num_of_Z (quantity p))) false) ∨
     ∃ err, r = Err err)).
Proof.
  intros Hok Hreq Hob Hrun. pose proof (checkout_seq_mono e h p _ _ _ _ _ _ Hrun) as Hseq.
  apply transaction_outcome in Hrun.
  assert (Hcommit : ∀ a t1, checkout_body e h p φ (S t) d = (Ok (Commit a), t1, d') →
    h = Ok () ∧ checkout_body e no_hook p no_fault (S t) d = (Ok (Commit a), t1, d')).
  { intros a t1 Hb. destruct h as [[]|err]; [split; [done|by apply body_fault_free in Hb]|].
    apply body_hook_err in Hb as (? & [=] & _). }
  destruct (body_spec e p pid bid d (S t) Hok Hreq Hob) as (x & t2 & d2 & Hspec & Hx).
  assert (Hdone : ∀ a t1, checkout_body e no_hook p no_fault (S t) d = (Ok (Commit a), t1, d') →
    x = Commit a ∧ d2 = d').
  { intros a t1 Hb. rewrite Hspec in Hb. by injection Hb as -> -> ->. }
  inversion Hrun as [a t1 d1 _ Hb _|a t1 d1 f _ Hb _ _|a t1 d1 _ Hb|err d1 Hsame]; subst.
  - apply Hcommit in Hb as [_ [-> ->]%Hdone]. right.
    destruct Hx as (Hr & Hrep & pr & u & Hp & Hu & Hq & Haff & ->).
    exists pr, u. split_and!; try done. left. f_equal.
    unfold checkout_spec in Hr. rewrite Hrep, Hp, Hu, Haff in Hr.
    rewrite (proj2 (Z.ltb_ge _ _)) in Hr by done. by injection Hr.
  - apply Hcommit in Hb as [_ [-> ->]%Hdone]. right.
    destruct Hx as (_ & Hrep & pr & u & Hp & Hu & Hq & Haff & ->).
    exists pr, u. split_and!; eauto.
  - left. split; [by split|]. intros o m [= ->]. destruct h as [[]|err].
    + apply body_fault_free in Hb. change (Ok ()) with no_hook in Hb. rewrite Hspec in Hb.
      injection Hb as -> -> ->. by eapply (proj2 Hx).
    + apply body_hook_err in Hb as (? & [= <-] & Hn). by eapply Hn.
  - left. split; [by split|]. by intros ?? [=].
Qed.
End checkout_facts.

(** ** The invariant, conservation of stock and money *)

Section invariant.
Context `{PgText, EventLib}.

Lemma fresh_seq {A} (m : gmap Z A) n : (∀ i, is_Some (m !! i) → i ≤ n) → m !! (n + 1) = None.
Proof. intros Hs. apply eq_None_not_Some. intros Hi. apply Hs in Hi. lia. Qed.

Lemma insert_seq {A} (m : gmap Z A) n x :
  (∀ i, is_Some (m !! i) → i ≤ n) → ∀ i, is_Some (<[n + 1 := x]> m !! i) → i ≤ n + 1.
Proof.
  intros Hs i. rewrite lookup_insert. case_decide; [lia|]. intros Hi. apply Hs in Hi. lia.
Qed.

Lemma is_Some_insert {K A} `{Countable K} (m : gmap K A) i j x : is_Some (m !! j) → is_Some (<[i := x]> m !! j).
Proof. rewrite lookup_insert. case_decide; eauto. Qed.

Lemma purchase_ok e p pid bid pr u d :
  db_ok d → 0 < quantity p → int4 (quantity p) = true →
  products d !! pid = Some pr → users d !! bid = Some u → quantity p ≤ p_stock pr →
  affordable (u_balance u) (p_price pr) (quantity p) = true →
  db_ok (purchase e p pid bid pr u d).
Proof.
  intros Hok Hq Hi Hp Hu Hst Haff. pose proof (int4_range _ Hi).
  pose proof (ok_products _ Hok _ _ Hp) as (Hpr & Hs0 & Hs4). apply int4_range in Hs4.
  pose proof (ok_users _ Hok _ _ Hu) as Hb. unfold user_ok in Hb.
  destruct (affordable_amount (u_balance u) (p_price pr) (quantity p)) as (x & _ & Ha & Hx & _); [done|lia|done|].
  rewrite Haff in Ha. symmetry in Ha. destruct (Hx Ha) as (Hle & _). clear Hx.
  assert (0 ≤ p_price pr * quantity p) by nia.
  destruct Hok. unfold purchase. split; cbn; try done.
  - apply map_Forall_insert_2; [unfold user_ok; cbn; lia|done].
  - apply map_Forall_insert_2; [|done]. unfold product_ok; cbn. split; [lia|]. split; [lia|].
    unfold int4. apply andb_true_iff. rewrite !Z.leb_le. lia.
  - apply map_Forall_insert_2; [split; cbn; [lia|rewrite lookup_insert_eq; eauto]|].
    eapply map_Forall_impl; [eassumption|]. intros i o [? ?]. split; [done|by apply is_Some_insert].
  - apply map_Forall_insert_2.
    + split; cbn; [done|]. rewrite !lookup_insert_eq. eauto.
    + eapply map_Forall_impl; [eassumption|]. intros i o (? & ? & ? & ? & ?).
      split; [done|]. split; [done|]. split; [done|]. split; by apply is_Some_insert.
  - apply map_Forall_insert_2; [split; cbn; [rewrite lookup_insert_eq; eauto|done]|].
    eapply map_Forall_impl; [eassumption|]. intros i o (? & ?). split; [by apply is_Some_insert|done].
  - assert (Hkeys : map_Forall (λ _, key_ok (purchase e p pid bid pr u d)) (idempotency_keys d)).
    { eapply map_Forall_impl; [eassumption|]. intros i o (oid & -> & ?). exists oid.
      split; [done|]. unfold purchase; cbn. by apply is_Some_insert. }
    destruct (idempotencyKey p); [|done]. apply map_Forall_insert_2; [|done].
    eexists. split; [done|]. cbn. rewrite lookup_insert_eq. eauto.
  - eapply map_Forall_impl; [eassumption|]. intros i o Ho. by apply is_Some_insert.
  - eapply map_Forall_impl; [eassumption|]. intros i o [[? Ho] ?]. split; [|done]. split; [done|by apply is_Some_insert].
  - intros i j a b k Hia Hjb. rewrite lookup_insert in Hia, Hjb.
    assert (Hold : ∀ i c, (if decide (bid = i) then Some (UserRow (u_email u) (u_full_name u)
       (u_balance u - p_price pr * quantity p) (u_password_hash u) (u_role u)) else users d !! i) = Some c →
       ∃ c', users d !! i = Some c' ∧ u_email c' = u_email c).
    { intros i' c Hc. case_decide; simplify_eq; eauto. }
    destruct (Hold _ _ Hia) as (a' & ? & <-). destruct (Hold _ _ Hjb) as (b' & ? & <-).
    intros. by eapply (ok_email i j).
  - by apply insert_seq.
  - by apply insert_seq.
  - by apply insert_seq.
Qed.

(** Units of product [pid] on committed order items, and money spent by
    buyer [bid] on committed orders. *)
Definition sold (pid : Z) (d : db) : Z :=
  map_fold (λ _ i acc, (if decide (oi_product_id i = pid) then oi_quantity i else 0) + acc) 0 (order_items d).
Definition spent (bid : Z) (d : db) : Z :=
  map_fold (λ _ o acc, (if decide (o_buyer_id o = bid) then o_total_amount o else 0) + acc) 0 (orders d).
Definition stock_of (pid : Z) (d : db) : Z := from_option p_stock 0 (products d !! pid).
Definition balance_of (bid : Z) (d : db) : Z := from_option u_balance 0 (users d !! bid).

Lemma map_fold_sum_insert {A} (f : A → Z) (m : gmap Z A) i x :
  m !! i = None →
  map_fold (λ _ y acc, f y + acc) 0 (<[i := x]> m) = f x + map_fold (λ _ y acc, f y + acc) 0 m.
Proof. intros Hi. rewrite map_fold_insert_L; [done|intros; lia|done]. Qed.

Lemma purchase_conserves e p pid bid pr u d pid' bid' :
  db_ok d → products d !! pid = Some pr → users d !! bid = Some u →
  let d' := purchase e p pid bid pr u d in
  stock_of pid' d' + sold pid' d' = stock_of pid' d + sold pid' d ∧
  balance_of bid' d' + spent bid' d' = balance_of bid' d + spent bid' d.
Proof.
  intros Hok Hp Hu d'. unfold stock_of, sold, balance_of, spent, d', purchase; cbn.
  rewrite (map_fold_sum_insert (λ i, if decide (oi_product_id i = pid') then oi_quantity i else 0))
    by (apply fresh_seq, Hok).
  rewrite (map_fold_sum_insert (λ o, if decide (o_buyer_id o = bid') then o_total_amount o else 0))
    by (apply fresh_seq, Hok).
  cbn. rewrite !lookup_insert.
  split; (case_decide; [subst; rewrite ?Hp, ?Hu; cbn; lia|cbn; lia]).
Qed.
End invariant.

Section runs.
Context `{PgText, EventLib}.

(** A body that returns has not met its hook throwing. *)
Lemma place_ok_nohook e h p φ t d x t' d' :
  place e h p φ t d = (Ok x, t', d') → place e no_hook p φ t d = (Ok x, t', d').
Proof.
  unfold place. intros Hrun. apply bind_ok_inv in Hrun as (a & t1 & d1 & H1 & Hrun).
  rewrite (bind_run _ _ _ _ _ _ _ _ H1). destruct (unwrapReturning a); [done|].
  apply bind_ok_inv in Hrun as (b & t2 & d2 & H2 & Hrun).
  rewrite (bind_run _ _ _ _ _ _ _ _ H2). destruct (unwrapReturning b); [done|].
  do 7 (apply bind_ok_inv in Hrun as (? & ? & ? & Hi & Hrun);
        rewrite (bind_run _ _ _ _ _ _ _ _ Hi); clear Hi).
  by destruct h as [[]|].
Qed.

Lemma body_ok_nohook e h p φ t d x t' d' :
  checkout_body e h p φ t d = (Ok x, t', d') → checkout_body e no_hook p no_fault t d = (Ok x, t', d').
Proof.
  intros Hrun. apply (body_fault_free e no_hook p φ). unfold checkout_body in *.
  destruct (idempotencyKey p); [|by eapply place_ok_nohook].
  apply bind_ok_inv in Hrun as (a & t1 & d1 & H1 & Hrun).
  rewrite (bind_run _ _ _ _ _ _ _ _ H1). destruct a; [done|by eapply place_ok_nohook].
Qed.

(** A checkout that returns, whatever failed on the way, did what the
    decision table says. *)
Lemma checkout_returns_spec e h p pid bid d φ t r t' d' :
  db_ok d → request_ok p pid bid → outbox d !! outbox_id e = None →
  checkout e h p φ t d = (Ok r, t', d') → (r, d') = checkout_spec e p pid bid d.
Proof.
  intros Hok Hreq Hob Hrun. apply transaction_outcome in Hrun.
  destruct (body_spec e p pid bid d (S t) Hok Hreq Hob) as (x & t2 & d2 & Hspec & Hx).
  inversion Hrun as [a t1 d1 _ Hb _|a t1 d1 f _ Hb _ _|a t1 d1 _ Hb|err d1 Hsame]; subst;
    apply body_ok_nohook in Hb; rewrite Hspec in Hb; injection Hb as -> -> ->; apply Hx.
Qed.

(** Attempts one after the other, each with its own faults; the ids of
    [gen_random_uuid()] are fresh. *)
Inductive runs : db → list (CheckoutParams * result CheckoutResult) → db → Prop :=
| runs_nil d : runs d [] d
| runs_cons e h p pid bid φ t d r t' d1 l d2 :
    request_ok p pid bid → outbox d !! outbox_id e = None →
    checkout e h p φ t d = (r, t', d1) → runs d1 l d2 → runs d ((p, r) :: l) d2.

Lemma attempt_ok e h p pid bid φ t d r t' d' :
  db_ok d → request_ok p pid bid → outbox d !! outbox_id e = None →
  checkout e h p φ t d = (r, t', d') → db_ok d'.
Proof.
  intros Hok Hreq Hob Hrun.
  destruct (checkout_all_or_nothing _ _ _ _ _ _ _ _ _ _ _ Hok Hreq Hob Hrun)
    as [[Hu _]|(pr & u & Hp & Hu & Hq & Haff & _ & -> & _)]; [by eapply untouched_ok|].
  destruct Hreq. by eapply purchase_ok.
Qed.

Definition conserved (d d' : db) : Prop := ∀ pid bid,
  stock_of pid d' + sold pid d' = stock_of pid d + sold pid d ∧
  balance_of bid d' + spent bid d' = balance_of bid d + spent bid d.

Lemma untouched_conserved d d' : untouched d d' → conserved d d'.
Proof.
  intros Hu pid bid. destruct (untouched_rows _ _ Hu) as (E1 & E2 & E3 & E4 & _).
  unfold stock_of, sold, balance_of, spent. by rewrite E1, E2, E3, E4.
Qed.

Lemma attempt_conserves e h p pid bid φ t d r t' d' :
  db_ok d → request_ok p pid bid → outbox d !! outbox_id e = None →
  checkout e h p φ t d = (r, t', d') → conserved d d'.
Proof.
  intros Hok Hreq Hob Hrun.
  destruct (checkout_all_or_nothing _ _ _ _ _ _ _ _ _ _ _ Hok Hreq Hob Hrun)
    as [[Hu _]|(pr & u & Hp & Hu & _ & _ & _ & -> & _)]; [by apply untouched_conserved|].
  intros pid' bid'. by apply purchase_conserves.
Qed.

Lemma runs_ok d l d' : runs d l d' → db_ok d → db_ok d' ∧ conserved d d'.
Proof.
  induction 1 as [d|e h p pid bid φ t d r t' d1 l d2 Hreq Hob Hrun _ IH]; intros Hok.
  { split; [done|]. by intros pid bid. }
  destruct IH as [Hok2 Hc]; [by eapply attempt_ok|]. split; [done|].
  intros pid' bid'. destruct (Hc pid' bid') as [-> ->].
  by apply (attempt_conserves _ _ _ _ _ _ _ _ _ _ _ Hok Hreq Hob Hrun).
Qed.

(** ** Idempotency keys *)

Definition known (k : string) (oid : Z) (d : db) : Prop :=
  idempotency_keys d !! k = Some (Some oid) ∧ is_Some (orders d !! oid).

Lemma known_untouched k oid d d' : untouched d d' → known k oid d → known k oid d'.
Proof. intros Hu. destruct (untouched_rows _ _ Hu) as (_ & _ & E3 & _ & _ & E6 & _). unfold known. by rewrite E3, E6. Qed.

Lemma replay_known p k oid d :
  idempotencyKey p = Some k → known k oid d → ∃ o, replay_of p d = Some (oid, o).
Proof.
  intros Hk [Hkd [o Ho]]. exists o. unfold replay_of. rewrite Hk. cbn. rewrite Hkd. cbn. by rewrite Ho.
Qed.

(** Every attempt with a known key leaves the rows alone; when it answers, it
    answers with the known order. *)
Lemma known_runs k oid d l d' :
  runs d l d' → db_ok d → known k oid d → Forall (λ pr, idempotencyKey pr.1 = Some k) l →
  untouched d d' ∧ Forall (λ pr, ∀ r, pr.2 = Ok r → ∃ m, r = CheckoutSuccess (pretty oid) m true) l.
Proof.
  induction 1 as [d|e h p pid bid φ t d r t' d1 l d2 Hreq Hob Hrun _ IH]; intros Hok Hkn Hall.
  { split; [reflexivity|constructor]. }
  apply Forall_cons in Hall as [Hk Hall]. cbn in Hk. destruct (replay_known p k oid d Hk Hkn) as [o Hrep].
  destruct (checkout_all_or_nothing _ _ _ _ _ _ _ _ _ _ _ Hok Hreq Hob Hrun)
    as [[Hu _]|(? & ? & _ & _ & _ & _ & Hn & _)]; [|congruence].
  destruct IH as [Hu2 Hl]; [by eapply untouched_ok|by eapply known_untouched|done|].
  split; [by etrans|]. constructor; [|done]. cbn. intros r' ->.
  apply (checkout_returns_spec _ _ _ _ _ _ _ _ _ _ _ Hok Hreq Hob) in Hrun.
  unfold checkout_spec in Hrun. rewrite Hrep in Hrun. injection Hrun. eauto.
Qed.

Lemma purchase_known e p pid bid pr u d k :
  idempotencyKey p = Some k → known k (seq_orders d + 1) (purchase e p pid bid pr u d).
Proof. intros Hk. unfold known, purchase. cbn. rewrite Hk, !lookup_insert_eq. eauto. Qed.

(** Any number of attempts under one key: no row touched, or exactly one
    purchase, whose order every answer names. *)
Lemma key_runs p k d l d' :
  runs d l d' → db_ok d → idempotencyKey p = Some k → idempotency_keys d !! k = None →
  Forall (λ pr, pr.1 = p) l →
  (untouched d d' ∧ Forall (λ pr, ∀ o m b, pr.2 ≠ Ok (CheckoutSuccess o m b)) l) ∨
  (∃ e pid bid pr u d0, untouched d d0 ∧ products d0 !! pid = Some pr ∧ users d0 !! bid = Some u ∧
    untouched (purchase e p pid bid pr u d0) d' ∧
    Forall (λ pr, ∀ o m b, pr.2 = Ok (CheckoutSuccess o m b) → o = pretty (seq_orders d0 + 1)) l).
Proof.
  induction 1 as [d|e h p' pid bid φ t d r t' d1 l d2 Hreq Hob Hrun Hruns IH]; intros Hok Hk Hnone Hall.
  { left. split; [reflexivity|constructor]. }
  apply Forall_cons in Hall as [Hp Hall]. cbn in Hp. subst p'.
  pose proof (attempt_ok _ _ _ _ _ _ _ _ _ _ _ Hok Hreq Hob Hrun) as Hok1.
  assert (Hrep : replay_of p d = None) by (unfold replay_of; rewrite Hk; cbn; by rewrite Hnone).
  destruct (checkout_all_or_nothing _ _ _ _ _ _ _ _ _ _ _ Hok Hreq Hob Hrun)
    as [[Hu Hr]|(pr & u & Hpr & Hu & Hq & Haff & _ & -> & Hr)].
  - destruct (untouched_rows _ _ Hu) as (_ & _ & _ & _ & _ & E6 & _).
    assert (Hnot : ∀ o m b, r ≠ Ok (CheckoutSuccess o m b)).
    { intros o m [] ->; [|by eapply Hr].
      apply (checkout_returns_spec _ _ _ _ _ _ _ _ _ _ _ Hok Hreq Hob) in Hrun.
      unfold checkout_spec in Hrun. rewrite Hrep in Hrun. repeat case_match; simplify_eq. }
    destruct IH as [[Hu2 Hl]|(e' & pid' & bid' & pr & u & d0 & Hu0 & Hp0 & Hb0 & Hu2 & Hl)];
      [done|done|by rewrite E6|done|left|right].
    + split; [by etrans|by constructor].
    + exists e', pid', bid', pr, u, d0. split_and!; try done; [by etrans|].
      constructor; [|done]. cbn. intros o m b ->. by destruct (Hnot o m b).
  - right. exists e, pid, bid, pr, u, d. split_and!; try done.
    + eapply (known_runs k _ _ _ _ Hruns Hok1 (purchase_known _ _ _ _ _ _ _ _ Hk)).
      eapply Forall_impl; [exact Hall|]. by intros ? ->.
    + constructor.
      * cbn. intros o m b ->. destruct Hr as [[= <- _ _]|[err [=]]]. done.
      * eapply Forall_impl.
        { eapply (known_runs k _ _ _ _ Hruns Hok1 (purchase_known _ _ _ _ _ _ _ _ Hk)).
          eapply Forall_impl; [exact Hall|]. by intros ? ->. }
        intros [p' r'] Hx o m b Heq. cbn in *. subst r'. destruct (Hx _ eq_refl) as [m' [= -> _ _]]. done.
Qed.
End runs.

(** ** Properties *)

Section properties.
Context `{PgText, EventLib}.

(** C1: checkout refines its decision table.  Without faults every well-formed
    request gets an answer, and it is the answer and the database of
    [checkout_spec] (replay of a known key, out of stock, insufficient funds,
    or the whole purchase); and whatever fails on the way, an attempt that
    answers at all answers and commits what the table says. *)
Theorem checkout_refines e p pid bid d :
  db_ok d → request_ok p pid bid → outbox d !! outbox_id e = None →
  (∀ t, ∃ t', checkout e no_hook p no_fault t d =
     (Ok (checkout_spec e p pid bid d).1, t', (checkout_spec e p pid bid d).2)) ∧
  (∀ h φ t r t' d', checkout e h p φ t d = (Ok r, t', d') → (r, d') = checkout_spec e p pid bid d).
Proof.
  intros Hok Hreq Hob. split; [intros t; by apply checkout_runs|intros; by eapply checkout_returns_spec].
Qed.

(** C2: atomicity.  Whatever the requests to the server do (lost answers, lost
    COMMIT, a hook that throws between the outbox INSERT and COMMIT), an
    attempt leaves every table as it was, or performs the whole purchase:
    stock, balance, order, item, job, key and outbox event together; a fresh
    success is reported only in the second case. *)
Theorem checkout_atomic e h p pid bid d φ t r t' d' :
  db_ok d → request_ok p pid bid → outbox d !! outbox_id e = None →
  checkout e h p φ t d = (r, t', d') →
  (same_rows d d' ∧ ∀ o m, r ≠ Ok (CheckoutSuccess o m false)) ∨
  (∃ pr u, products d !! pid = Some pr ∧ users d !! bid = Some u ∧ quantity p ≤ p_stock pr ∧
    replay_of p d = None ∧ d' = purchase e p pid bid pr u d).
Proof.
  intros Hok Hreq Hob Hrun.
  destruct (checkout_all_or_nothing _ _ _ _ _ _ _ _ _ _ _ Hok Hreq Hob Hrun)
    as [[[Hs _] Hr]|(pr & u & ? & ? & ? & _ & ? & -> & _)]; [by left|right; eauto 10].
Qed.

(** C18: over any sequence of attempts, failing or not, the constraints of the
    schema hold, so no stock and no balance is ever negative, no unit and no
    cent appears or disappears: stock plus units sold and balance plus money
    spent keep their sums, for every product and every buyer. *)
Theorem checkout_conserves d l d' :
  runs d l d' → db_ok d →
  db_ok d' ∧ (∀ pid, 0 ≤ stock_of pid d') ∧ (∀ bid, 0 ≤ balance_of bid d') ∧ conserved d d'.
Proof.
  intros Hruns Hok. destruct (runs_ok _ _ _ Hruns Hok) as [Hok' Hc].
  split_and!; try done.
  - intros pid. unfold stock_of. destruct (products d' !! pid) as [pr|] eqn:Hp; [|done].
    apply (ok_products _ Hok') in Hp. apply Hp.
  - intros bid. unfold balance_of. destruct (users d' !! bid) as [u|] eqn:Hu; [|done].
    apply (ok_users _ Hok') in Hu. apply Hu.
Qed.

(** C17: any number of attempts of one intent (one idempotency key), each with
    its own faults, place and charge at most one order; every attempt that
    reports success names that order. *)
Theorem checkout_once_per_key p k d l d' :
  runs d l d' → db_ok d → idempotencyKey p = Some k → idempotency_keys d !! k = None →
  Forall (λ pr, pr.1 = p) l →
  (same_rows d d' ∧ Forall (λ pr, ∀ o m b, pr.2 ≠ Ok (CheckoutSuccess o m b)) l) ∨
  (∃ e pid bid pr u d0, same_rows d d0 ∧ products d0 !! pid = Some pr ∧ users d0 !! bid = Some u ∧
    same_rows (purchase e p pid bid pr u d0) d' ∧
    Forall (λ pr, ∀ o m b, pr.2 = Ok (CheckoutSuccess o m b) → o = pretty (seq_orders d0 + 1)) l).
Proof.
  intros Hruns Hok Hk Hn Hall.
  destruct (key_runs p k d l d' Hruns Hok Hk Hn Hall)
    as [[[Hs _] Hl]|(e & pid & bid & pr & u & d0 & [H1 _] & Hp & Hu & [H2 _] & Hl)];
    [by left|right]. exists e, pid, bid, pr, u, d0. split_and!; done.
Qed.

(** C24: the amount charged is exact although it is computed in binary64.  When
    the [balance >= $1] test with the float product passes, the price in
    cents times the quantity is at most the balance, and the row keeps exactly
    the difference; when the balance exceeds it by a cent, the test passes. *)
Theorem checkout_charges_exact_cents b c q :
  0 ≤ c < numeric_max → 0 < q ≤ 2 ^ 31 → 0 ≤ b < numeric_max →
  (affordable b c q = true → c * q ≤ b ∧ (amount c q ≫= numeric_sub b) = Some (b - c * q)) ∧
  (c * q < b → affordable b c q = true).
Proof.
  intros Hc Hq Hb. destruct (affordable_amount b c q Hc Hq Hb) as (x & -> & -> & H1 & H2).
  split; [|done]. intros Hge. destruct (H1 Hge) as (? & _ & ?). by split.
Qed.
End properties.

(** ** Witnesses *)

Section checkout_witnesses.
#[local] Existing Instance fix_text.
#[local] Existing Instance fix_events.

Definition buy : CheckoutParams := Params "1" "7" 2 (Some "k1").
Definition buy_env (n : Z) : env := Env 1000 2000 (pretty n).

Lemma buy_ok : request_ok buy 7 1.
Proof. split; vm_compute; reflexivity. Qed.

Lemma checkout_refines_witness : ∃ t',
  checkout (buy_env 0) no_hook buy no_fault 0%nat fix_db =
    (Ok (checkout_spec (buy_env 0) buy 7 1 fix_db).1, t', (checkout_spec (buy_env 0) buy 7 1 fix_db).2).
Proof. exact (proj1 (checkout_refines (buy_env 0) buy 7 1 fix_db fix_db_ok buy_ok eq_refl) 0%nat). Defined.

(** The COMMIT whose answer is lost: round trip 10, applied. *)
Definition lost_commit : oracle := λ n, if (n =? 10)%nat then Some (Fault true (JsError "ECONNRESET")) else None.
Definition after_lost : db := (checkout (buy_env 0) no_hook buy lost_commit 0%nat fix_db).2.
Definition lost_error : result CheckoutResult := Err (JsError "ECONNRESET").
Definition after_retry : db := (checkout (buy_env 1) no_hook buy no_fault 0%nat after_lost).2.

Lemma lost_commit_run :
  ∃ t', checkout (buy_env 0) no_hook buy lost_commit 0%nat fix_db = (lost_error, t', after_lost).
Proof. eexists. vm_compute. reflexivity. Qed.

Lemma retry_run : ∃ t', checkout (buy_env 1) no_hook buy no_fault 0%nat after_lost =
  (Ok (CheckoutSuccess "1" (num_mul (num_of_cents 1299) (num_of_Z 2)) true), t', after_retry).
Proof. eexists. vm_compute. reflexivity. Qed.

Lemma two_attempts : runs fix_db
  [(buy, lost_error); (buy, Ok (CheckoutSuccess "1" (num_mul (num_of_cents 1299) (num_of_Z 2)) true))] after_retry.
Proof.
  destruct lost_commit_run as [t1 H1], retry_run as [t2 H2].
  eapply runs_cons; [exact buy_ok| |exact H1|]; [reflexivity|].
  eapply runs_cons; [exact buy_ok| |exact H2|]; [vm_compute; reflexivity|]. apply runs_nil.
Qed.

(** The lost COMMIT: an error is reported, the purchase is there. *)
Lemma checkout_atomic_witness : stock_of 7 after_lost = 8 ∧
  ((same_rows fix_db after_lost ∧ ∀ o m, lost_error ≠ Ok (CheckoutSuccess o m false)) ∨
   (∃ pr u, products fix_db !! 7 = Some pr ∧ users fix_db !! 1 = Some u ∧ quantity buy ≤ p_stock pr ∧
     replay_of buy fix_db = None ∧ after_lost = purchase (buy_env 0) buy 7 1 pr u fix_db)).
Proof.
  split; [vm_compute; reflexivity|]. destruct lost_commit_run as [t' Hrun].
  exact (checkout_atomic (buy_env 0) no_hook buy 7 1 fix_db lost_commit 0%nat lost_error t' after_lost
    fix_db_ok buy_ok eq_refl Hrun).
Defined.

Lemma checkout_conserves_witness : balance_of 1 after_retry = 97402 ∧ conserved fix_db after_retry.
Proof.
  split; [vm_compute; reflexivity|].
  exact (proj2 (proj2 (proj2 (checkout_conserves fix_db _ after_retry two_attempts fix_db_ok)))).
Defined.

(** The client retries after the lost COMMIT: one order, stock taken once. *)
Lemma checkout_once_per_key_witness : stock_of 7 after_retry = 8 ∧ ∃ d0 pid bid pr u e,
  same_rows (purchase e buy pid bid pr u d0) after_retry.
Proof.
  split; [vm_compute; reflexivity|].
  destruct (checkout_once_per_key buy "k1" fix_db _ after_retry two_attempts fix_db_ok eq_refl eq_refl)
    as [[Hs _]|(e & pid & bid & pr & u & d0 & _ & _ & _ & Hs & _)].
  - repeat constructor.
  - exfalso. apply (f_equal (stock_of 7)) in Hs. vm_compute in Hs. discriminate.
  - by exists d0, pid, bid, pr, u, e.
Defined.

(** A buyer whose balance is exactly the price is refused when the float
    product rounds up: 3 units of 0.10 against a balance of 0.30 send
    [$1 = '0.30000000000000004'] and the answer is [insufficient_funds]. *)
Theorem exact_balance_refused :
  let d := set_users <[1 := UserRow "ada@example.com" "Ada" 30 None customer]>
             (set_products <[7 := ProductRow "SKU-1" "Sticker" 10 true 10]> empty_db) in
  (checkout (buy_env 0) no_hook (Params "1" "7" 3 None) no_fault 0%nat d).1.1
    = Ok (CheckoutFailure insufficient_funds).
Proof. vm_compute. reflexivity. Qed.

(** Three units of 0.10 against a balance of 0.31. *)
Lemma checkout_charges_exact_cents_witness : affordable 31 10 3 = true ∧ 10 * 3 ≤ 31.
Proof.
  assert (H : affordable 31 10 3 = true) by (vm_compute; reflexivity). split; [exact H|].
  apply (checkout_charges_exact_cents 31 10 3); [vm_compute; split; congruence|vm_compute; split; congruence|vm_compute; split; congruence|exact H].
Defined.
End checkout_witnesses.
