(* ===== verification/Publisher.v ===== *)
(** Publishing with publisher confirms (src/messaging/publisher.ts) and the
    topology the consumer declares (src/messaging/topology.ts).  RabbitMQ and
    amqplib are not part of the repository: what happens to one publication is
    an argument ([pub_fate]), how the broker routes is a class with the
    documented laws. *)
From S2P Require Import Prelude JsNumber Events.
From Stdlib Require Import Ascii.
#[local] Open Scope Z_scope.

(** ** Messages and what may happen to one publication *)

(** A message body is the JSON value of its text, [None] when the text is not JSON. *)
Record message := Message {
  m_key : string;
  m_content : option json;
  m_messageId : option string;
  m_type : option string;
}.

Inductive pub_fate :=
| NotSent (e : exn)                          (* ch.publish throws *)
| NotConfirmed (e : exn) (taken : bool) (returns : Z)   (* waitForConfirms rejects; the broker may have taken it *)
| Confirmed (returns : Z).                    (* confirm arrives, after [returns] basic.return events *)

(** The broker holds the message in some queue. *)
Definition taken (x : pub_fate) : bool :=
  match x with
  | NotSent _ => false
  | NotConfirmed _ b _ => b
  | Confirmed n => n <=? 0
  end.

Definition unroutable_error (key : string) : exn :=
  JsError ("повідомлення " +:+ key +:+ " не змаршрутизоване (basic.return)").

(** [EventPublisher.publishRaw]; the second component is the field [returned]. *)
Definition publishRaw (x : pub_fate) (msg : message) (throwIfUnroutable : bool) (returned : Z) :
    result unit * Z :=
  match x with
  | NotSent e => (Err e, returned)
  | NotConfirmed e _ n => (Err e, returned + n)
  | Confirmed n =>
      let returnedBefore := returned in
      let returned := returned + n in
      if throwIfUnroutable && (returnedBefore <? returned)
      then (Err (unroutable_error (m_key msg)), returned)
      else (Ok tt, returned)
  end.

Definition ROUTING_KEY_ORDER_PLACED : string := "order.placed".

(** The message of [publishOrderPlaced]. *)
Definition order_placed_message (event : order_placed_event) : message :=
  Message ROUTING_KEY_ORDER_PLACED (Some (event_json event)) (Some (ev_eventId event)) (Some (ev_type event)).

Definition publishOrderPlaced (x : pub_fate) (event : order_placed_event) (returned : Z) : result unit * Z :=
  publishRaw x (order_placed_message event) false returned.

(** With [throwIfUnroutable], a publication that resolves is held by a queue. *)
Lemma publishRaw_ok x msg returned returned' :
  publishRaw x msg true returned = (Ok tt, returned') → taken x = true ∧ ∃ n, x = Confirmed n ∧ n ≤ 0.
Proof.
  destruct x as [| |n]; cbn; try by intros [=].
  destruct (Z.ltb_spec returned (returned + n)); intros [= <-].
  rewrite (proj2 (Z.leb_le _ _)) by lia. eauto with lia.
Qed.

(** ** Topology *)

Inductive exchange_type := fanout | topic | direct.

Record queue_arguments := QueueArguments {
  x_dead_letter_exchange : option string;
  x_dead_letter_routing_key : option string;
  x_delivery_limit : option Z;
}.

Inductive topology_op :=
| AssertExchange (name : string) (type : exchange_type) (alternate_exchange : option string)
| AssertQueue (name : string) (arguments : queue_arguments)
| BindQueue (queue exchange key : string).

Definition EXCHANGE : string := "shop.events".
Definition WORK_QUEUE : string := "shop.order-placed".
Definition DLX : string := "shop.dlx".
Definition DLQ : string := "shop.order-placed.dlq".
Definition ALT_EXCHANGE : string := "shop.unroutable".
Definition UNROUTABLE_QUEUE : string := "shop.unroutable".
Definition DELIVERY_LIMIT : Z := 5.

Definition assertTopology : list topology_op :=
  [ AssertExchange ALT_EXCHANGE fanout None;
    AssertQueue UNROUTABLE_QUEUE (QueueArguments None None None);
    BindQueue UNROUTABLE_QUEUE ALT_EXCHANGE "";
    AssertExchange EXCHANGE topic (Some ALT_EXCHANGE);
    AssertExchange DLX direct None;
    AssertQueue DLQ (QueueArguments None None None);
    BindQueue DLQ DLX ROUTING_KEY_ORDER_PLACED;
    AssertQueue WORK_QUEUE (QueueArguments (Some DLX) (Some ROUTING_KEY_ORDER_PLACED) (Some DELIVERY_LIMIT));
    BindQueue WORK_QUEUE EXCHANGE ROUTING_KEY_ORDER_PLACED ].

(** ** How RabbitMQ routes, as documented *)

(** The queues a message published to an exchange ends up in, and the number of
    [basic.return] events of a [mandatory] publication that is confirmed. *)
Class Routing := {
  route : list topology_op → string → string → list string;
  returns : list topology_op → string → string → Z;
}.

(** No [*] and no [#]. *)
Definition no_wildcard (key : string) : Prop := Forall (λ c, c ≠ Ascii.ascii_of_N 42 ∧ c ≠ Ascii.ascii_of_N 35) (String.list_ascii_of_string key).

Class RoutingLaws `{Routing} := {
  (** a fanout exchange delivers to every bound queue *)
  route_fanout : ∀ ops e q k k' alt,
    AssertExchange e fanout alt ∈ ops → BindQueue q e k' ∈ ops → q ∈ route ops e k;
  (** an exact binding key matches on topic and direct exchanges *)
  route_exact : ∀ ops e ty q k alt,
    AssertExchange e ty alt ∈ ops → BindQueue q e k ∈ ops → no_wildcard k → q ∈ route ops e k;
  (** what no binding matches goes to the alternate exchange *)
  route_alternate : ∀ ops e ty ae q k k' alt,
    AssertExchange e ty (Some ae) ∈ ops → AssertExchange ae fanout alt ∈ ops →
    BindQueue q ae k' ∈ ops → route ops e k ≠ [];
  (** a mandatory message is returned when it reaches no queue, alternate
      exchanges included *)
  returns_unrouted : ∀ ops e k, returns ops e k = if decide (route ops e k = []) then 1 else 0;
}.

(** Find an element of an explicit list. *)
Ltac list_elem :=
  unfold assertTopology; repeat first [apply list_elem_of_here | apply list_elem_of_further].

Section routing.
Context `{RoutingLaws}.

Lemma order_placed_routed : WORK_QUEUE ∈ route assertTopology EXCHANGE ROUTING_KEY_ORDER_PLACED.
Proof.
  eapply (route_exact assertTopology EXCHANGE topic); [list_elem..|].
  unfold no_wildcard. cbn. repeat constructor; done.
Qed.

Lemma every_key_routed key : route assertTopology EXCHANGE key ≠ [].
Proof. eapply (route_alternate _ _ topic ALT_EXCHANGE UNROUTABLE_QUEUE _ ""); list_elem. Qed.

(** With the declared topology no publication is ever returned.  The
    alternate exchange takes every message no binding matches, which counts as
    routed for [mandatory]; so a confirmed publication resolves even with
    [throwIfUnroutable], whatever its routing key, and the test
    [this.returned > returnedBefore] of [publishRaw] cannot fire. *)
Theorem unroutable_never_thrown msg returned :
  publishRaw (Confirmed (returns assertTopology EXCHANGE (m_key msg))) msg true returned = (Ok tt, returned).
Proof.
  rewrite returns_unrouted, decide_False by apply every_key_routed. cbn.
  by rewrite Z.add_0_r, Z.ltb_irrefl.
Qed.
End routing.

(** A concrete router: bound queues, else those of the declared alternate exchanges. *)
Section fix_routing.
Definition is_fanout (ops : list topology_op) (e : string) : bool :=
  existsb (λ o, match o with AssertExchange n fanout _ => String.eqb n e | _ => false end) ops.
Definition bound (ops : list topology_op) (e k : string) : list string :=
  omap (λ o, match o with
    | BindQueue q e' k' => if String.eqb e' e && (is_fanout ops e || String.eqb k' k) then Some q else None
    | _ => None
    end) ops.
Definition alternates (ops : list topology_op) (e : string) : list string :=
  omap (λ o, match o with AssertExchange n _ (Some ae) => if String.eqb n e then Some ae else None | _ => None end) ops.
Definition fix_route (ops : list topology_op) (e k : string) : list string :=
  match bound ops e k with [] => alternates ops e ≫= (λ ae, bound ops ae k) | l => l end.
Definition fix_routing : Routing :=
  {| route := fix_route; returns := λ ops e k, if decide (fix_route ops e k = []) then 1 else 0 |}.

Lemma bound_elem ops e k k' q :
  BindQueue q e k' ∈ ops → is_fanout ops e = true ∨ k' = k → q ∈ bound ops e k.
Proof.
  intros Hb Hf. apply list_elem_of_omap. eexists. split; [exact Hb|]. cbn. rewrite String.eqb_refl. cbn.
  destruct Hf as [->| ->]; [done|]. by rewrite String.eqb_refl, orb_true_r.
Qed.

Lemma is_fanout_elem ops e alt : AssertExchange e fanout alt ∈ ops → is_fanout ops e = true.
Proof.
  intros He. apply existsb_exists. eexists. split; [by apply list_elem_of_In|]. apply String.eqb_refl.
Qed.

Lemma bound_route ops e k q : q ∈ bound ops e k → q ∈ fix_route ops e k.
Proof. intros Hq. unfold fix_route. destruct (bound ops e k); [set_solver|done]. Qed.

Lemma fix_routing_laws : @RoutingLaws fix_routing.
Proof.
  split; cbn.
  - intros ops e q k k' alt He Hb. apply bound_route, (bound_elem _ _ _ k'); [done|].
    left. by eapply is_fanout_elem.
  - intros ops e ty q k alt He Hb _. apply bound_route, (bound_elem _ _ _ k); auto.
  - intros ops e ty ae q k k' alt He Hae Hb. unfold fix_route.
    destruct (bound ops e k); [|done]. apply (elem_of_not_nil q), list_elem_of_bind.
    exists ae. split.
    + apply (bound_elem _ _ _ k'); [done|]. left. by eapply is_fanout_elem.
    + apply list_elem_of_omap. eexists. split; [exact He|]. cbn. by rewrite String.eqb_refl.
  - done.
Qed.

Lemma unroutable_never_thrown_witness :
  publishRaw (Confirmed (@returns fix_routing assertTopology EXCHANGE "order.lost"))
    (Message "order.lost" None None None) true 0 = (Ok tt, 0).
Proof. exact (@unroutable_never_thrown fix_routing fix_routing_laws (Message "order.lost" None None None) 0). Defined.
End fix_routing.
