(* ===== verification/Relay.v ===== *)
(** The relay of the transactional outbox (src/outbox/relay.ts): claim a batch
    of unpublished rows, publish each, then mark what was published, in one
    transaction; and the loop that drains the table. *)
From S2P Require Import Prelude JsNumber Events Schema Sql Publisher Fixtures.
From stdpp Require Import pretty sorting.
#[local] Open Scope Z_scope.

(** ** Statements *)

(** [ORDER BY created_at, id]; the canonical texts of uuids order like the uuids. *)
Definition row_le (a b : string * outbox_row) : Prop :=
  ob_created_at a.2 < ob_created_at b.2 ∨
  (ob_created_at a.2 = ob_created_at b.2 ∧ String.le a.1 b.1).
#[export] Instance row_le_dec : RelDecision row_le.
Proof. unfold RelDecision, row_le. intros a b. apply _. Defined.

Definition unpublished (r : outbox_row) : bool :=
  match ob_published_at r with None => true | Some _ => false end.

(** SELECT id, type, payload FROM outbox WHERE published_at IS NULL
    ORDER BY created_at, id LIMIT $1 FOR UPDATE SKIP LOCKED; [locked] are the
    rows other relays hold. *)
Definition candidates (locked : gset string) (d : db) : list (string * outbox_row) :=
  filter (λ x, unpublished x.2 = true ∧ x.1 ∉ locked) (map_to_list (outbox d)).
Definition claim_rows (batchSize : nat) (locked : gset string) (d : db) :
    result (list (string * outbox_row)) * db :=
  (Ok (take batchSize (merge_sort row_le (candidates locked d))), d).

Definition attempted (r : outbox_row) (published_at : option Z) : outbox_row :=
  OutboxRow (ob_aggregate_type r) (ob_aggregate_id r) (ob_type r) (ob_payload r) (ob_created_at r)
    published_at (ob_attempts r + 1).

(** [attempts + 1] leaves the range of [integer]. *)
Definition attempts_overflow (m : gmap string outbox_row) (ids : list string) : bool :=
  existsb (λ id, match m !! id with Some r => negb (int4 (ob_attempts r + 1)) | None => false end) ids.

(** UPDATE outbox SET published_at = now(), attempts = attempts + 1 WHERE id = ANY($1) *)
Definition mark_published (now : Z) (ids : list string) (d : db) : result unit * db :=
  if attempts_overflow (outbox d) ids then (Err (PgError "22003"), d) else
  (Ok tt, set_outbox (map_imap (λ id r, Some (if decide (id ∈ ids) then attempted r (Some now) else r))) d).

(** UPDATE outbox SET attempts = attempts + 1 WHERE id = $1 *)
Definition mark_failed (id : string) (d : db) : result unit * db :=
  if attempts_overflow (outbox d) [id] then (Err (PgError "22003"), d) else
  (Ok tt, set_outbox (alter (λ r, attempted r (ob_published_at r)) id) d).

(** ** One pass *)

Record RelayPass := Pass { claimed : nat; published : nat; error : option exn }.

(** [row.payload.eventId] and [JSON.stringify(row.payload)]: reading a property
    of [null] is a TypeError, raised inside the [try]. *)
Definition row_message (r : outbox_row) : result message :=
  match ob_payload r with
  | JNull => Err (JsError "TypeError")
  | j => Ok (Message (ob_type r) (Some j) (jstr j "eventId") (Some (ob_type r)))
  end.

(** How the [for] loop over the rows ends. *)
Record loop := Loop {
  l_done : list string;
  l_failed : option (string * exn);
  l_thrown : option exn;                   (* [afterPublish] throws *)
  l_sent : list (string * message * pub_fate);      (* what reached [publishRaw], by row *)
}.

Section relay.
(** [pub n]: what happens to the publication of the [n]-th row of the batch;
    [afterPublish]: the hook, [Some e] throws (or the process dies there). *)
Variables (pub : nat → pub_fate) (afterPublish : string → option exn).

Fixpoint publish_rows (n : nat) (returned : Z) (rows : list (string * outbox_row)) : loop :=
  match rows with
  | [] => Loop [] None None []
  | (id, r) :: rows =>
      match row_message r with
      | Err e => Loop [] (Some (id, e)) None []
      | Ok msg =>
          let '(x, returned) := publishRaw (pub n) msg true returned in
          match x with
          | Err e => Loop [] (Some (id, e)) None [(id, msg, pub n)]
          | Ok _ =>
              match afterPublish id with
              | Some e => Loop [id] None (Some e) [(id, msg, pub n)]
              | None =>
                  let l := publish_rows (S n) returned rows in
                  Loop (id :: l_done l) (l_failed l) (l_thrown l) ((id, msg, pub n) :: l_sent l)
              end
          end
      end
  end.

Definition relay_body (now : Z) (batchSize : nat) (locked : gset string) (returned : Z) : sql (tx_exit RelayPass) :=
  rows ← query (claim_rows batchSize locked);
  let l := publish_rows 0 returned rows in
  match l_thrown l with
  | Some e => throw e
  | None =>
      _ ← match l_done l with [] => mret tt | done => query (mark_published now done) end;
      _ ← match l_failed l with Some (id, _) => query (mark_failed id) | None => mret tt end;
      mret (Commit (Pass (length rows) (length (l_done l)) (snd <$> l_failed l)))
  end.

Definition relayOnce (now : Z) (batchSize : nat) (locked : gset string) (returned : Z) : sql RelayPass :=
  transaction (relay_body now batchSize locked returned).

(** The publications of that pass, whatever becomes of the transaction. *)
Definition relay_sent (batchSize : nat) (locked : gset string) (returned : Z) (φ : oracle) (t : nat) (d : db) :
    list (string * message * pub_fate) :=
  match φ t, φ (S t) with
  | None, None => l_sent (publish_rows 0 returned (take batchSize (merge_sort row_le (candidates locked d))))
  | _, _ => []
  end.
End relay.

(** ** Until the table is empty, and the background loop

    The surroundings of the passes: pass number [i] sees [pubs i], [hooks i],
    the clock [nows i], the rows [locks i] held elsewhere and the counter
    [counters i] of the publisher. *)
Record passes := Passes {
  pubs : nat → nat → pub_fate;
  hooks : nat → string → option exn;
  nows : nat → Z;
  locks : nat → gset string;
  counters : nat → Z;
}.

Definition relay_pass (w : passes) (batchSize i : nat) : sql RelayPass :=
  relayOnce (pubs w i) (hooks w i) (nows w i) batchSize (locks w i) (counters w i).

(** [None]: still running when the fuel is used up. *)
Fixpoint relayUntilEmpty (w : passes) (batchSize : nat) (fuel i total : nat) (φ : oracle) (t : nat) (d : db) :
    option (result nat * nat * db) :=
  match fuel with
  | O => None
  | S fuel =>
      match relay_pass w batchSize i φ t d with
      | (Err e, t, d) => Some (Err e, t, d)
      | (Ok pass, t, d) =>
          match error pass with
          | Some e => Some (Err e, t, d)
          | None =>
              let total := (total + published pass)%nat in
              if (claimed pass =? 0)%nat then Some (Ok total, t, d)
              else relayUntilEmpty w batchSize fuel (S i) total φ t d
          end
      end
  end.

(** One turn of [startRelay]: does the loop wait [intervalMs] before the next? *)
Definition tick_idle (r : result RelayPass) : bool :=
  match r with
  | Ok pass => (claimed pass =? 0)%nat || match error pass with Some _ => true | None => false end
  | Err _ => true
  end.

(** [startRelay]: the number of turns until [stop], the waits among them.  No
    turn ends the loop by an exception. *)
Fixpoint startRelay (w : passes) (batchSize : nat) (turns i : nat) (φ : oracle) (t : nat) (d : db) :
    list bool * nat * db :=
  match turns with
  | O => ([], t, d)
  | S turns =>
      let '(r, t, d) := relay_pass w batchSize i φ t d in
      let '(idles, t, d) := startRelay w batchSize turns (S i) φ t d in
      (tick_idle r :: idles, t, d)
  end.

(** ** What the loop over a batch does *)

Lemma publishRaw_result x msg b n n' : (publishRaw x msg b n).1 = (publishRaw x msg b n').1.
Proof.
  destruct x as [| |k]; cbn; try done. destruct b; cbn; [|done].
  destruct (Z.ltb_spec n (n + k)), (Z.ltb_spec n' (n' + k)); try done; lia.
Qed.

Lemma publish_done_sent pub hook rows n ret id :
  id ∈ l_done (publish_rows pub hook n ret rows) →
  ∃ r msg x, (id, r) ∈ rows ∧ row_message r = Ok msg ∧
    (id, msg, x) ∈ l_sent (publish_rows pub hook n ret rows) ∧ ∃ k, x = Confirmed k ∧ k ≤ 0.
Proof.
  revert n ret. induction rows as [|[i r] rows IH]; intros n ret; cbn; [set_solver|].
  destruct (row_message r) as [msg|e] eqn:Hm; cbn; [|set_solver].
  destruct (publishRaw (pub n) msg true ret) as [[[]|e] ret'] eqn:Hp; cbn; [|set_solver].
  apply publishRaw_ok in Hp as [_ Hk].
  assert (Hhere : ∃ r0 msg0 x, (i, r0) ∈ (i, r) :: rows ∧ row_message r0 = Ok msg0 ∧
    (i, msg0, x) = (i, msg, pub n) ∧ ∃ k, x = Confirmed k ∧ k ≤ 0).
  { exists r, msg, (pub n). split; [left|done]. }
  destruct Hhere as (r0 & msg0 & x & H1 & H2 & H3 & H4).
  destruct (hook i) as [e|]; cbn.
  - intros ->%list_elem_of_singleton. exists r0, msg0, x. rewrite H3. split_and!; try done. left.
  - intros [->|Hin]%elem_of_cons; [exists r0, msg0, x; rewrite H3; split_and!; try done; left|].
    destruct (IH _ _ Hin) as (r1 & msg1 & x1 & ? & ? & ? & ?).
    exists r1, msg1, x1. split_and!; try done; by right.
Qed.

(** The rows done are a prefix of the batch; the failed one is the next. *)
Lemma publish_rows_split pub hook rows n ret :
  let l := publish_rows pub hook n ret rows in
  ∃ rest, rows.*1 = l_done l ++ rest ∧
    (l_thrown l = None → match l_failed l with
      | None => rest = []
      | Some (id, _) => ∃ rest', rest = id :: rest'
      end).
Proof.
  revert n ret. induction rows as [|[i r] rows IH]; intros n ret; cbn; [by exists []|].
  destruct (row_message r) as [msg|e]; cbn; [|by eexists; eauto].
  destruct (publishRaw (pub n) msg true ret) as [[[]|e] ret']; cbn; [|by eexists; eauto].
  destruct (hook i) as [e|]; cbn; [by eexists|].
  destruct (IH (S n) ret') as (rest & -> & Hr). by exists rest.
Qed.

(** Every publication confirmed and every hook silent: the whole batch is done. *)
Lemma publish_rows_all pub hook rows n ret :
  (∀ i, ∃ k, pub i = Confirmed k ∧ k ≤ 0) → (∀ id, hook id = None) →
  Forall (λ x, ob_payload x.2 ≠ JNull) rows →
  let l := publish_rows pub hook n ret rows in
  l_done l = rows.*1 ∧ l_failed l = None ∧ l_thrown l = None.
Proof.
  intros Hpub Hh. revert n ret. induction rows as [|[i r] rows IH]; intros n ret Hall; [done|].
  apply Forall_cons in Hall as [Hr Hall]. cbn in *. unfold row_message.
  destruct (Hpub n) as (k & -> & Hk).
  assert (∀ msg, publishRaw (Confirmed k) msg true ret = (Ok tt, ret + k)) as Hok.
  { intros msg. cbn. by rewrite (proj2 (Z.ltb_ge _ _)) by lia. }
  destruct (ob_payload r); try done; rewrite Hok, Hh; cbn;
    destruct (IH (S n) (ret + k) Hall) as (-> & -> & ->); done.
Qed.

(** ** What a pass writes *)

Definition mark_all (now : Z) (done : list string) (m : gmap string outbox_row) : gmap string outbox_row :=
  map_imap (λ id r, Some (if decide (id ∈ done) then attempted r (Some now) else r)) m.
Definition after_pass (now : Z) (l : loop) (m : gmap string outbox_row) : gmap string outbox_row :=
  let m := mark_all now (l_done l) m in
  match l_failed l with Some (id, _) => alter (λ r, attempted r (ob_published_at r)) id m | None => m end.

Lemma mark_all_lookup now done m id :
  mark_all now done m !! id = (λ r, if decide (id ∈ done) then attempted r (Some now) else r) <$> m !! id.
Proof. unfold mark_all. rewrite map_lookup_imap. by destruct (m !! id). Qed.

Lemma mark_all_nil now m : mark_all now [] m = m.
Proof.
  apply map_eq. intros id. rewrite mark_all_lookup. destruct (m !! id); [|done]. cbn.
  rewrite decide_False; [done|set_solver].
Qed.

Lemma after_pass_lookup now l m id :
  after_pass now l m !! id = (λ r,
    let r := if decide (id ∈ l_done l) then attempted r (Some now) else r in
    match l_failed l with
    | Some (id', _) => if decide (id = id') then attempted r (ob_published_at r) else r
    | None => r
    end) <$> m !! id.
Proof.
  unfold after_pass. destruct (l_failed l) as [[id' e]|].
  - destruct (decide (id = id')) as [->|Hid].
    + rewrite lookup_alter_eq, mark_all_lookup. by destruct (m !! id').
    + rewrite lookup_alter_ne, mark_all_lookup by congruence. by destruct (m !! id).
  - rewrite mark_all_lookup. by destruct (m !! id).
Qed.

Section pass.
Variables (pub : nat → pub_fate) (hook : string → option exn).

Definition batch (batchSize : nat) (locked : gset string) (d : db) : list (string * outbox_row) :=
  take batchSize (merge_sort row_le (candidates locked d)).

(** A pass that gets through wrote [after_pass] of its loop, nothing else. *)
Lemma relay_body_ok now n locked ret φ t d x t' d' :
  relay_body pub hook now n locked ret φ t d = (Ok x, t', d') →
  let l := publish_rows pub hook 0 ret (batch n locked d) in
  φ t = None ∧ d' = set_outbox (after_pass now l) d ∧ l_thrown l = None ∧
  x = Commit (Pass (length (batch n locked d)) (length (l_done l)) (snd <$> l_failed l)).
Proof.
  intros Hrun l. unfold relay_body in Hrun. apply bind_ok_inv in Hrun as (rows & t1 & d1 & Hq & Hrun).
  assert (Hφ : φ t = None) by (unfold query in Hq; by destruct (φ t)).
  apply query_ok_inv in Hq as [[= <- <-] ->]. fold (batch n locked d) in Hrun. fold l in Hrun. clearbody l.
  split; [done|]. destruct (l_thrown l); [done|].
  apply bind_ok_inv in Hrun as ([] & t2 & d2 & H1 & Hrun).
  apply bind_ok_inv in Hrun as ([] & t3 & d3 & H2 & Hrun).
  apply ret_ok_inv in Hrun as (-> & -> & ->). split; [|done].
  unfold after_pass. destruct (l_done l) as [|i rest].
  - apply ret_ok_inv in H1 as (_ & -> & ->). unfold set_outbox. cbv beta. rewrite mark_all_nil. destruct (l_failed l) as [[id e]|].
    + apply query_ok_inv in H2 as [H2 _]. unfold mark_failed in H2. case_match; by simplify_eq.
    + apply ret_ok_inv in H2 as (_ & -> & ->). by destruct d.
  - apply query_ok_inv in H1 as [H1 _]. unfold mark_published in H1.
    destruct (attempts_overflow _ _); [by simplify_eq|]. injection H1 as <-.
    destruct (l_failed l) as [[id e]|].
    + apply query_ok_inv in H2 as [H2 _]. unfold mark_failed in H2. case_match; by simplify_eq.
    + by apply ret_ok_inv in H2 as (_ & -> & ->).
Qed.
End pass.

(** ** The batch *)

Lemma candidates_elem locked d id r :
  (id, r) ∈ candidates locked d ↔ outbox d !! id = Some r ∧ ob_published_at r = None ∧ id ∉ locked.
Proof.
  unfold candidates. rewrite list_elem_of_filter, elem_of_map_to_list. unfold unpublished. cbn.
  split; [intros [[Hp ?] ?]; by destruct (ob_published_at r)|intros (? & -> & ?); done].
Qed.

Lemma fst_nodup {A} (m : gmap string A) l :
  NoDup l → (∀ i r, (i, r) ∈ l → m !! i = Some r) → NoDup l.*1.
Proof.
  intros Hl Hm. apply NoDup_fmap_2_strong; [|done].
  intros [i r] [j r'] Hi Hj. cbn. intros ->. apply Hm in Hi, Hj. by simplify_eq.
Qed.

Lemma batch_elem n locked d id r : (id, r) ∈ batch n locked d → (id, r) ∈ candidates locked d.
Proof.
  intros (i & Hi & _)%elem_of_take. rewrite <-(merge_sort_Permutation row_le). by eapply list_elem_of_lookup_2.
Qed.

Lemma batch_nodup n locked d : NoDup (batch n locked d).*1.
Proof.
  apply (fst_nodup (outbox d)).
  - unfold batch. eapply sublist_NoDup; [|apply sublist_take].
    rewrite merge_sort_Permutation. unfold candidates. apply NoDup_filter, NoDup_map_to_list.
  - intros i r Hi%batch_elem. by apply candidates_elem in Hi as [? _].
Qed.

Lemma batch_length n locked d : length (batch n locked d) = (n `min` length (candidates locked d))%nat.
Proof. unfold batch. by rewrite length_take, (Permutation_length (merge_sort_Permutation _ _)). Qed.

#[export] Instance row_le_trans : Transitive row_le.
Proof.
  intros a b c [|[H1 H1']] [|[H2 H2']]; unfold row_le; [left; lia..|].
  right. split; [lia|]. by etrans.
Qed.
#[export] Instance row_le_total : Total row_le.
Proof.
  intros a b. unfold row_le. destruct (Z.lt_trichotomy (ob_created_at a.2) (ob_created_at b.2)) as [|[|]];
    [by left; left| |by right; left].
  destruct (total String.le a.1 b.1); [left|right]; right; split; congruence.
Qed.

(** The oldest first: the batch is sorted, and what stays behind is not older. *)
Lemma batch_oldest n locked d :
  StronglySorted row_le (batch n locked d) ∧
  ∀ x y, x ∈ batch n locked d → y ∈ candidates locked d → y ∉ batch n locked d → row_le x y.
Proof.
  pose proof (StronglySorted_merge_sort row_le (candidates locked d)) as Hs.
  unfold batch. rewrite <-(take_drop n (merge_sort row_le (candidates locked d))) in Hs.
  apply StronglySorted_app in Hs as (Hle & Ht & _). split; [done|].
  intros x y Hx Hy Hn. apply Hle; [done|].
  rewrite <-(merge_sort_Permutation row_le (candidates locked d)) in Hy.
  rewrite <-(take_drop n (merge_sort row_le (candidates locked d))) in Hy.
  by apply elem_of_app in Hy as [|].
Qed.

(** ** Outcomes of a pass *)

Lemma relay_outcome pub hook now n locked ret φ t d r t' d' :
  relayOnce pub hook now n locked ret φ t d = (r, t', d') →
  let l := publish_rows pub hook 0 ret (batch n locked d) in
  (same_rows d d' ∧ ∃ e, r = Err e) ∨
  (φ t = None ∧ φ (S t) = None ∧ d' = set_outbox (after_pass now l) d ∧ l_thrown l = None ∧
   (r = Ok (Pass (length (batch n locked d)) (length (l_done l)) (snd <$> l_failed l)) ∨ ∃ e, r = Err e)).
Proof.
  intros Hrun l. apply transaction_outcome in Hrun.
  inversion Hrun as [a t1 d1 Hφ Hb _|a t1 d1 f Hφ Hb _ _|a t1 d1 Hφ Hb|e d1 Hs]; subst.
  - apply relay_body_ok in Hb as (? & ? & ? & [= ->]). right. eauto 10.
  - apply relay_body_ok in Hb as (? & ? & ? & _). right. eauto 10.
  - by apply relay_body_ok in Hb as (? & ? & ? & ?).
  - left. eauto.
Qed.

Lemma relay_sent_pass pub hook n locked ret φ t d :
  φ t = None → φ (S t) = None →
  relay_sent pub hook n locked ret φ t d = l_sent (publish_rows pub hook 0 ret (batch n locked d)).
Proof. unfold relay_sent. by intros -> ->. Qed.

Lemma relay_seq_mono pub hook now n locked ret : seq_mono (relay_body pub hook now n locked ret).
Proof.
  unfold relay_body. seq_mono_tac; unfold claim_rows, mark_published, mark_failed; stmt_seq_le.
Qed.

(** A row of the table after a pass is the row before it, but for
    [published_at] and [attempts]. *)
Definition same_event (r r' : outbox_row) : Prop :=
  ob_aggregate_type r = ob_aggregate_type r' ∧ ob_aggregate_id r = ob_aggregate_id r' ∧
  ob_type r = ob_type r' ∧ ob_payload r = ob_payload r' ∧ ob_created_at r = ob_created_at r'.

Lemma after_pass_row now l m id r :
  m !! id = Some r → ∃ r', after_pass now l m !! id = Some r' ∧ same_event r r' ∧
    ob_published_at r' = (if decide (id ∈ l_done l) then Some now else ob_published_at r).
Proof.
  intros Hm. rewrite after_pass_lookup, Hm. cbn. eexists. split; [done|].
  destruct (decide (id ∈ l_done l)), (l_failed l) as [[id' err]|]; repeat case_decide; done.
Qed.

Lemma after_pass_none now l m id : m !! id = None → after_pass now l m !! id = None.
Proof. intros Hm. by rewrite after_pass_lookup, Hm. Qed.

Lemma same_event_refl r : same_event r r.
Proof. done. Qed.

(** What a pass may do to a row: nothing loses it or changes its event, and it
    is marked published only for a confirmed publication of that event. *)
Lemma relay_row pub hook now n locked ret φ t d r t' d' id row :
  relayOnce pub hook now n locked ret φ t d = (r, t', d') → outbox d !! id = Some row →
  ∃ row', outbox d' !! id = Some row' ∧ same_event row row' ∧
    (ob_published_at row' = ob_published_at row ∨
     (ob_published_at row = None ∧ ∃ msg k, row_message row = Ok msg ∧ k ≤ 0 ∧
        (id, msg, Confirmed k) ∈ relay_sent pub hook n locked ret φ t d)).
Proof.
  intros Hrun Hrow. apply relay_outcome in Hrun as [[Hs _]|(H1 & H2 & -> & _ & _)].
  { exists row. rewrite <-Hs. cbn. eauto using same_event_refl. }
  rewrite relay_sent_pass by done. cbn [set_outbox outbox].
  destruct (after_pass_row now (publish_rows pub hook 0 ret (batch n locked d)) _ _ _ Hrow) as (row' & Hr' & Hev & Hp).
  exists row'. split; [done|]. split; [done|]. case_decide as Hin; [right|by left].
  apply publish_done_sent in Hin as (r0 & msg & x & Hb & Hm & Hsent & k & -> & Hk).
  apply batch_elem, candidates_elem in Hb as (Ho & Hpub & _). simplify_eq. eauto 10.
Qed.

(** The table keeps its rows, the other tables and the sequences are not touched. *)
Lemma relay_frame pub hook now n locked ret φ t d r t' d' :
  relayOnce pub hook now n locked ret φ t d = (r, t', d') →
  untouched (set_outbox (λ _, outbox d') d) d' ∧ (∀ id, outbox d !! id = None → outbox d' !! id = None).
Proof.
  intros Hrun. assert (seq_le d d') as Hseq.
  { eapply (seq_mono_transaction _ (relay_seq_mono pub hook now n locked ret)). exact Hrun. }
  apply relay_outcome in Hrun as [[Hs _]|(_ & _ & -> & _ & _)].
  - assert (outbox d' = outbox d) as Ho by (rewrite <-Hs; done). rewrite Ho.
    split; [|done]. split; [by destruct d|done].
  - split; [|intros id; apply after_pass_none]. split; [|done]. by destruct d.
Qed.

Lemma publish_sent_row pub hook rows n ret id msg x :
  (id, msg, x) ∈ l_sent (publish_rows pub hook n ret rows) → ∃ r, (id, r) ∈ rows ∧ row_message r = Ok msg.
Proof.
  revert n ret. induction rows as [|[i r] rows IH]; intros n ret; cbn; [by intros ?%not_elem_of_nil|].
  assert (Hhere : ∀ m y, row_message r = Ok m → (id, msg, x) ∈ [(i, m, y)] →
    ∃ r0, (id, r0) ∈ (i, r) :: rows ∧ row_message r0 = Ok msg).
  { intros m y Hm [= -> -> ->]%list_elem_of_singleton. exists r. split; [left|done]. }
  destruct (row_message r) as [m|e] eqn:Hm; cbn; [|by intros ?%not_elem_of_nil].
  destruct (publishRaw (pub n) m true ret) as [[[]|e] ret']; cbn; [|by apply Hhere].
  destruct (hook i) as [e|]; cbn; [by apply Hhere|].
  intros [Heq|Hin]%elem_of_cons; [apply (Hhere m (pub n)); [done|rewrite Heq; left]|].
  destruct (IH _ _ Hin) as (r0 & ? & ?). exists r0. split; [by right|done].
Qed.

(** ** Draining *)

(** The rows still to publish. *)
Definition backlog (d : db) : gset string := list_to_set (candidates ∅ d).*1.

Lemma backlog_elem d id : id ∈ backlog d ↔ ∃ r, outbox d !! id = Some r ∧ ob_published_at r = None.
Proof.
  unfold backlog. rewrite elem_of_list_to_set, list_elem_of_fmap. split.
  - intros ([i r] & -> & Hin). apply candidates_elem in Hin as (? & ? & _). eauto.
  - intros (r & ? & ?). exists (id, r). split; [done|]. apply candidates_elem. set_solver.
Qed.

Lemma backlog_size d : size (backlog d) = length (candidates ∅ d).
Proof.
  unfold backlog. rewrite size_list_to_set, length_fmap; [done|].
  apply (fst_nodup (outbox d)); [apply NoDup_filter, NoDup_map_to_list|].
  intros i r Hi. by apply candidates_elem in Hi as [? _].
Qed.

(** Rows the relay can publish: an object as payload, room in [attempts]. *)
Definition relayable (d : db) : Prop := ∀ id r,
  outbox d !! id = Some r → ob_published_at r = None → ob_payload r ≠ JNull ∧ 0 ≤ ob_attempts r < 2147483647.

Lemma no_overflow d n :
  relayable d → attempts_overflow (outbox d) (batch n ∅ d).*1 = false.
Proof.
  intros Hr. unfold attempts_overflow. apply not_true_is_false. rewrite existsb_exists.
  intros (id & Hin & Hov). apply list_elem_of_In, list_elem_of_fmap in Hin as ([i r] & -> & Hin).
  apply batch_elem, candidates_elem in Hin as (Ho & Hp & _). cbn in *. rewrite Ho in Hov.
  destruct (Hr _ _ Ho Hp) as [_ ?]. unfold int4 in Hov. apply negb_true_iff, andb_false_iff in Hov.
  rewrite !Z.leb_gt in Hov. lia.
Qed.

Lemma set_outbox_id d f : (∀ m, f m = m) → set_outbox f d = d.
Proof. intros Hf. unfold set_outbox. rewrite Hf. by destruct d. Qed.

(** A pass with a healthy broker and database. *)
Lemma relay_pass_healthy pub hook now n ret t d :
  relayable d → (∀ i, ∃ k, pub i = Confirmed k ∧ k ≤ 0) → (∀ id, hook id = None) →
  ∃ t', relayOnce pub hook now n ∅ ret no_fault t d =
    (Ok (Pass (length (batch n ∅ d)) (length (batch n ∅ d)) None), t',
     set_outbox (mark_all now (batch n ∅ d).*1) d).
Proof.
  intros Hr Hpub Hh.
  destruct (publish_rows_all pub hook (batch n ∅ d) 0 ret Hpub Hh) as (Hd & Hf & Ht).
  { apply Forall_forall. intros [i r] Hin%batch_elem. apply candidates_elem in Hin as (Ho & Hp & _).
    by apply (Hr i r). }
  unfold relayOnce, transaction, relay_body. cbn -[set_outbox].
  erewrite bind_run; [|by apply query_run]. fold (batch n ∅ d). rewrite Ht, Hf, Hd, length_fmap. cbn -[set_outbox].
  pose proof (no_overflow d n Hr) as Hov. destruct ((batch n ∅ d).*1) as [|i rest].
  - eexists. rewrite (set_outbox_id d (mark_all now []) (mark_all_nil now)). reflexivity.
  - erewrite bind_run; [|apply query_run; unfold mark_published; rewrite Hov; reflexivity].
    eexists. reflexivity.
Qed.

Lemma relayable_marked now l d :
  relayable d → relayable (set_outbox (mark_all now l) d).
Proof.
  intros Hr id r. cbn. rewrite mark_all_lookup. intros (r0 & Ho & Heq)%fmap_Some Hp.
  case_decide; subst; [done|]. by apply (Hr id).
Qed.

Lemma backlog_marked now l d :
  backlog (set_outbox (mark_all now l) d) = backlog d ∖ list_to_set l.
Proof.
  apply set_eq. intros id. rewrite elem_of_difference, elem_of_list_to_set, !backlog_elem. cbn.
  rewrite mark_all_lookup. split.
  - intros (r & (r0 & Ho & Heq)%fmap_Some & Hp). case_decide; subst; [done|]. eauto.
  - intros [(r & Ho & Hp) Hn]. exists r. rewrite Ho. cbn. by rewrite decide_False.
Qed.

Lemma backlog_pass now n d :
  size (backlog (set_outbox (mark_all now (batch n ∅ d).*1) d)) = (size (backlog d) - length (batch n ∅ d))%nat.
Proof.
  rewrite backlog_marked, size_difference.
  - by rewrite size_list_to_set, length_fmap by apply batch_nodup.
  - intros id. rewrite elem_of_list_to_set, list_elem_of_fmap. intros ([i r] & -> & Hin).
    apply batch_elem, candidates_elem in Hin as (? & ? & _). apply backlog_elem. eauto.
Qed.

Record healthy (w : passes) : Prop := {
  healthy_pub : ∀ i j, ∃ k, pubs w i j = Confirmed k ∧ k ≤ 0;
  healthy_hook : ∀ i id, hooks w i id = None;
  healthy_locks : ∀ i, locks w i = ∅;
}.

(** Nothing but the two columns of the relay changes. *)
Lemma mark_all_others now l d : set_outbox (λ _, outbox d) (set_outbox (mark_all now l) d) = d.
Proof. by destruct d. Qed.

Lemma relay_drains w n fuel i total t d :
  healthy w → (0 < n)%nat → relayable d → (size (backlog d) < fuel)%nat →
  ∃ t' d', relayUntilEmpty w n fuel i total no_fault t d = Some (Ok (total + size (backlog d))%nat, t', d') ∧
    backlog d' = ∅ ∧ set_outbox (λ _, outbox d) d' = d.
Proof.
  intros Hw Hn. destruct Hw as [Hpub Hhook Hlock].
  revert i total t d. induction fuel as [|fuel IH]; intros i total t d Hr Hf; [lia|]. cbn [relayUntilEmpty].
  unfold relay_pass. rewrite Hlock.
  destruct (relay_pass_healthy (pubs w i) (hooks w i) (nows w i) n (counters w i) t d Hr (Hpub i) (Hhook i)) as [t' ->].
  cbn [error published claimed]. pose proof (batch_length n ∅ d) as Hlen. rewrite <-backlog_size in Hlen.
  pose proof (backlog_pass (nows w i) n d) as Hsize.
  set (d1 := set_outbox (mark_all (nows w i) (batch n ∅ d).*1) d) in *.
  destruct (Nat.eqb_spec (length (batch n ∅ d)) 0) as [H0|H0].
  - exists t', d1. split_and!.
    + do 4 f_equal. lia.
    + apply leibniz_equiv, size_empty_iff. lia.
    + apply mark_all_others.
  - destruct (IH (S i) (total + length (batch n ∅ d))%nat t' d1) as (t2 & d2 & -> & Hb & Hd).
    + by apply relayable_marked.
    + lia.
    + exists t2, d2. split_and!; [do 4 f_equal; lia|done|].
      transitivity (set_outbox (λ _, outbox d) (set_outbox (λ _, outbox d1) d2)); [done|].
      rewrite Hd. apply mark_all_others.
Qed.

(** ** Properties *)

(** C19: no loss.  Whatever fails in a pass (publications, hooks, statements,
    the COMMIT or its answer), no row of the outbox disappears or changes its
    event, and a row becomes published only if the broker confirmed its message
    in that very pass. *)
Theorem relay_never_loses pub hook now n locked ret φ t d r t' d' id row :
  relayOnce pub hook now n locked ret φ t d = (r, t', d') → outbox d !! id = Some row →
  ∃ row', outbox d' !! id = Some row' ∧ same_event row row' ∧
    (ob_published_at row' = ob_published_at row ∨
     (ob_published_at row = None ∧ ∃ msg k, row_message row = Ok msg ∧ k ≤ 0 ∧
        (id, msg, Confirmed k) ∈ relay_sent pub hook n locked ret φ t d)).
Proof. apply relay_row. Qed.

(** One pass marks a prefix of the batch.  A pass that returns has taken the
    oldest free rows in order of [created_at, id], marked exactly those before
    the first publication that failed, counted one attempt for that one, left it
    unpublished, and touched no other row. *)
Theorem relay_pass_prefix pub hook now n locked ret φ t d pass t' d' :
  relayOnce pub hook now n locked ret φ t d = (Ok pass, t', d') →
  ∃ done rest, (batch n locked d).*1 = done ++ rest ∧
    StronglySorted row_le (batch n locked d) ∧
    (∀ x y, x ∈ batch n locked d → y ∈ candidates locked d → y ∉ batch n locked d → row_le x y) ∧
    claimed pass = length (done ++ rest) ∧ published pass = length done ∧
    (error pass = None ↔ rest = []) ∧
    ∀ id, outbox d' !! id = (λ r,
      if decide (id ∈ done) then attempted r (Some now)
      else if decide (head rest = Some id) then attempted r (ob_published_at r) else r) <$> outbox d !! id.
Proof.
  intros Hrun. apply relay_outcome in Hrun as [[_ [? [=]]]|(_ & _ & -> & Ht & [[= ->]|[? [=]]])].
  destruct (publish_rows_split pub hook (batch n locked d) 0 ret) as (rest & Hsplit & Hnext).
  specialize (Hnext Ht). set (l := publish_rows pub hook 0 ret (batch n locked d)) in *.
  destruct (batch_oldest n locked d) as [Hsort Hold].
  exists (l_done l), rest. split; [done|]. split; [done|]. split; [done|]. cbn.
  split; [by rewrite <-Hsplit, length_fmap|]. split; [done|]. split.
  - destruct (l_failed l) as [[id e]|]; [destruct Hnext as [rest' ->]|subst]; cbn; naive_solver.
  - intros id. rewrite after_pass_lookup. destruct (outbox d !! id) as [r|]; [|done]. cbn. f_equal.
    pose proof (batch_nodup n locked d) as Hnd. rewrite Hsplit in Hnd. apply NoDup_app in Hnd as (_ & Hdis & _).
    destruct (l_failed l) as [[id' e]|].
    + destruct Hnext as [rest' ->]. cbn. repeat case_decide; simplify_eq; try done.
      exfalso. apply (Hdis id'); [done|left].
    + subst rest. cbn. by repeat case_decide.
Qed.

(** C23: draining terminates.  With a broker that confirms and a database that
    answers, [relayUntilEmpty] needs at most one pass more than there are
    unpublished rows; it returns their number, nothing is left to publish, and
    only the outbox columns of the relay have changed. *)
Theorem relayUntilEmpty_drains w n i total t d fuel :
  healthy w → (0 < n)%nat → relayable d → (size (backlog d) < fuel)%nat →
  ∃ t' d', relayUntilEmpty w n fuel i total no_fault t d = Some (Ok (total + size (backlog d))%nat, t', d') ∧
    backlog d' = ∅ ∧ set_outbox (λ _, outbox d) d' = d.
Proof. apply relay_drains. Qed.

(** ** Witnesses *)

Section relay_witnesses.
Definition pending_row (at_ : Z) : outbox_row :=
  OutboxRow "Order" "1" "order.placed" (JObj [("eventId", JStr "e1")]) at_ None 0.
Definition two_rows : db :=
  set_outbox (λ _, <["b" := pending_row 5]> (<["a" := pending_row 9]> ∅)) fix_db.

(** The first publication is confirmed, the second loses its confirm. *)
Definition flaky : nat → pub_fate := λ n,
  if (n =? 0)%nat then Confirmed 0 else NotConfirmed (JsError "nack") true 0.

Definition flaky_run : result RelayPass * nat * db :=
  relayOnce flaky (λ _, None) 77 50 ∅ 0 no_fault 0%nat two_rows.

Lemma relay_never_loses_witness :
  flaky_run.1.1 = Ok (Pass 2 1 (Some (JsError "nack"))) ∧
  ∃ row', outbox flaky_run.2 !! "b" = Some row' ∧ same_event (pending_row 5) row'.
Proof.
  split; [vm_compute; reflexivity|].
  destruct (relay_never_loses flaky (λ _, None) 77 50%nat ∅ 0 no_fault 0%nat two_rows
    flaky_run.1.1 flaky_run.1.2 flaky_run.2 "b" (pending_row 5)) as (row' & H1 & H2 & _);
    [vm_compute; reflexivity|vm_compute; reflexivity|].
  exists row'. split; [exact H1|exact H2].
Defined.

Lemma relay_pass_prefix_witness :
  ∃ done rest, (batch 50 ∅ two_rows).*1 = done ++ rest ∧ length done = 1%nat ∧ length (done ++ rest) = 2%nat.
Proof.
  destruct (relay_pass_prefix flaky (λ _, None) 77 50%nat ∅ 0 no_fault 0%nat two_rows
    (Pass 2 1 (Some (JsError "nack"))) flaky_run.1.2 flaky_run.2) as (done & rest & H1 & _ & _ & H2 & H3 & _);
    [vm_compute; reflexivity|].
  exists done, rest. split; [exact H1|]. split; [exact (eq_sym H3)|exact (eq_sym H2)].
Defined.

Definition calm : passes := Passes (λ _ _, Confirmed 0) (λ _ _, None) (λ _, 77) (λ _, ∅) (λ _, 0).

Lemma calm_healthy : healthy calm.
Proof. split; cbn; [|done|done]. intros _ _. exists 0. done. Qed.

Lemma two_rows_relayable : relayable two_rows.
Proof.
  intros id r Ho _. unfold two_rows in Ho. cbn in Ho.
  apply lookup_insert_Some in Ho as [[_ <-]|[_ Ho]]; [split; [done|vm_compute; split; congruence]|].
  apply lookup_insert_Some in Ho as [[_ <-]|[_ Ho]]; [split; [done|vm_compute; split; congruence]|].
  by rewrite lookup_empty in Ho.
Qed.

Lemma relayUntilEmpty_drains_witness : ∃ t' d',
  relayUntilEmpty calm 1 3 0 0 no_fault 0 two_rows = Some (Ok 2%nat, t', d') ∧ backlog d' = ∅.
Proof.
  destruct (relayUntilEmpty_drains calm 1 0 0 0 two_rows 3 calm_healthy) as (t' & d' & H1 & H2 & _).
  - lia.
  - exact two_rows_relayable.
  - vm_compute. lia.
  - exists t', d'. split; [|exact H2]. rewrite H1. do 4 f_equal.
Defined.
End relay_witnesses.
