(* ===== verification/Consumer.v ===== *)
(** The consumer of [order.placed] (src/messaging/consumer.ts): the idempotent
    effect in one transaction, and the handling of one delivery, acknowledged
    after the effect.  The hooks of [ConsumerHooks] are a trace. *)
From S2P Require Import Prelude JsNumber Events Schema Sql Checkout Publisher Fixtures.
From stdpp Require Import pretty.
#[local] Open Scope Z_scope.

Definition CONSUMER_NAME : string := "order-receipts".

Section consumer.
Context `{PgText, EventLib}.

(** ** Statements *)

(** INSERT INTO processed_messages (message_id, consumer) VALUES ($1, $2)
    ON CONFLICT DO NOTHING RETURNING message_id *)
Definition insert_processed (message_id consumer : string) (d : db) : result (list string) * db :=
  match uuid_in message_id with
  | None => (Err (PgError "22P02"), d)
  | Some id =>
      if decide ((id, consumer) ∈ processed_messages d) then (Ok [], d)
      else (Ok [id], set_processed (λ s, {[ (id, consumer) ]} ∪ s) d)
  end.

(** INSERT INTO order_receipts (event_id, order_id, buyer_id, total_amount) VALUES (...)
    ON CONFLICT DO NOTHING RETURNING event_id: the primary key event_id and the
    unique index on order_id both count as conflicts. *)
Definition receipt_conflict (id order_id : string) (d : db) : bool :=
  bool_decide (is_Some (order_receipts d !! id) ∨
    map_Exists (λ _ r, rc_order_id r = order_id) (order_receipts d)).
Definition insert_receipt (event_id order_id buyer_id : string) (total_amount : num) (d : db) :
    result (list string) * db :=
  match uuid_in event_id, text_in order_id, text_in buyer_id, numeric_param total_amount with
  | None, _, _, _ => (Err (PgError "22P02"), d)
  | _, None, _, _ | _, _, None, _ => (Err (PgError "22021"), d)
  | _, _, _, Err e => (Err e, d)
  | Some id, Some order_id, Some buyer_id, Ok x =>
      match numeric_of x with
      | None => (Err (PgError "22003"), d)
      | Some total =>
          if receipt_conflict id order_id d then (Ok [], d)
          else (Ok [id], set_receipts <[id := ReceiptRow order_id buyer_id total]> d)
      end
  end.

(** ** The effect *)

Definition nonnil {A} (l : list A) : bool := match l with [] => false | _ :: _ => true end.

Definition apply_body (e : order_placed_event) : sql (tx_exit bool) :=
  seen ← query (insert_processed (ev_eventId e) CONSUMER_NAME);
  match seen with
  | [] => mret (Commit false)
  | _ :: _ =>
      rows ← query (insert_receipt (ev_eventId e) (od_orderId (ev_data e)) (od_buyerId (ev_data e))
                      (od_totalAmount (ev_data e)));
      mret (Commit (nonnil rows))
  end.

Definition applyOrderPlaced (e : order_placed_event) : sql bool := transaction (apply_body e).

(** ** One delivery *)

Inductive settlement := Ack | Reject (requeue : bool).

Inductive hook_event :=
| onRecv (eventId : option string) (redelivered : bool)
| onEffect (eventId : string)
| onSkip (eventId : string)
| onAcked (eventId : string).

Record ConsumerStats := Stats { delivered : Z; applied : Z; skipped : Z; acked : Z; rejected : Z }.

(** What one call of [handle] leaves behind.  [h_settled] is what reached the
    broker; [h_unhandled]: the promise of [handle] rejects, and nothing catches it. *)
Record handled := Handled {
  h_stats : ConsumerStats;
  h_trace : list hook_event;
  h_settled : option settlement;
  h_unhandled : bool;
}.

(** [open]: the channel accepts a settlement (a closed one throws). *)
Definition handle (open : bool) (msg : message) (redelivered : bool) (s : ConsumerStats)
    (φ : oracle) (t : nat) (d : db) : handled * nat * db :=
  let s := Stats (delivered s + 1) (applied s) (skipped s) (acked s) (rejected s) in
  let recv := onRecv (m_messageId msg) redelivered in
  match m_content msg ≫= OrderPlacedSchema_parse with
  | None =>
      let s := Stats (delivered s) (applied s) (skipped s) (acked s) (rejected s + 1) in
      if open then (Handled s [recv] (Some (Reject false)) false, t, d)
      else (Handled s [recv] None true, t, d)
  | Some event =>
      let requeue := if open then Some (Reject true) else None in
      match applyOrderPlaced event φ t d with
      | (Err _, t, d) => (Handled s [recv] requeue false, t, d)
      | (Ok applied', t, d) =>
          let s := if applied'
            then Stats (delivered s) (applied s + 1) (skipped s) (acked s) (rejected s)
            else Stats (delivered s) (applied s) (skipped s + 1) (acked s) (rejected s) in
          let tr := [recv; if applied' then onEffect (ev_eventId event) else onSkip (ev_eventId event)] in
          if open then
            (Handled (Stats (delivered s) (applied s) (skipped s) (acked s + 1) (rejected s))
               (tr ++ [onAcked (ev_eventId event)]) (Some Ack) false, t, d)
          else (Handled s tr None false, t, d)
      end
  end.

(** ** Specification: one event, applied at most once *)

Definition receipt_of (e : order_placed_event) (total : Z) : receipt_row :=
  ReceiptRow (od_orderId (ev_data e)) (od_buyerId (ev_data e)) total.

(** [id] is the stored form of the event id, [total] the stored amount. *)
Definition apply_spec (e : order_placed_event) (id : string) (total : Z) (d : db) : bool * db :=
  if decide ((id, CONSUMER_NAME) ∈ processed_messages d) then (false, d) else
  let d := set_processed (λ s, {[ (id, CONSUMER_NAME) ]} ∪ s) d in
  if receipt_conflict id (od_orderId (ev_data e)) d then (false, d)
  else (true, set_receipts <[id := receipt_of e total]> d).

(** Events Postgres can store. *)
Record storable (e : order_placed_event) (id : string) (total : Z) : Prop := {
  st_id : uuid_in (ev_eventId e) = Some id;
  st_order : text_in (od_orderId (ev_data e)) = Some (od_orderId (ev_data e));
  st_buyer : text_in (od_buyerId (ev_data e)) = Some (od_buyerId (ev_data e));
  st_total : num_text (od_totalAmount (ev_data e)) ≫= numeric_of = Some total;
}.

(** ** The effect meets its specification *)

Lemma apply_body_run e id total t d :
  storable e id total → ∃ t',
  apply_body e no_fault t d = (Ok (Commit (apply_spec e id total d).1), t', (apply_spec e id total d).2).
Proof.
  intros [Hid Ho Hb Ht]. unfold apply_body, apply_spec.
  destruct (decide ((id, CONSUMER_NAME) ∈ processed_messages d)) as [Hin|Hin].
  - erewrite bind_run; [|apply query_run; unfold insert_processed; rewrite Hid, decide_True by done; reflexivity].
    eexists. reflexivity.
  - erewrite bind_run; [|apply query_run; unfold insert_processed; rewrite Hid, decide_False by done; reflexivity].
    cbn [nonnil]. unfold numeric_param.
    destruct (num_text (od_totalAmount (ev_data e))) as [x|] eqn:Hx; [cbn in Ht|done].
    destruct (receipt_conflict id _ _) eqn:Hc;
      (erewrite bind_run; [|apply query_run; unfold insert_receipt, numeric_param;
                            rewrite Hid, Ho, Hb, Hx, Ht, Hc; reflexivity]); eexists; reflexivity.
Qed.

Lemma apply_body_fault_free e : fault_free (apply_body e).
Proof. unfold apply_body. fault_free_tac. Qed.

Lemma apply_outcome e id total φ t d r t' d' :
  storable e id total → applyOrderPlaced e φ t d = (r, t', d') →
  (same_rows d d' ∧ (∃ err, r = Err err)) ∨
  (d' = (apply_spec e id total d).2 ∧ (r = Ok (apply_spec e id total d).1 ∨ ∃ err, r = Err err)).
Proof.
  intros Hst Hrun. apply transaction_outcome in Hrun.
  destruct (apply_body_run e id total (S t) d Hst) as [t1 Hspec].
  inversion Hrun as [a t2 d1 _ Hb _|a t2 d1 f _ Hb _ _|a t2 d1 _ Hb|err d1 Hs]; subst.
  - apply apply_body_fault_free in Hb. rewrite Hspec in Hb. injection Hb as -> -> ->. right. eauto.
  - apply apply_body_fault_free in Hb. rewrite Hspec in Hb. injection Hb as -> -> ->. right. eauto.
  - apply apply_body_fault_free in Hb. by rewrite Hspec in Hb.
  - left. eauto.
Qed.

Lemma apply_seq_mono e : seq_mono (applyOrderPlaced e).
Proof.
  apply seq_mono_transaction. unfold apply_body.
  seq_mono_tac; unfold insert_processed, insert_receipt; stmt_seq_le.
Qed.

(** Whatever the event, a run that returns has marked it processed. *)
Lemma apply_ok_processed e φ t d b t' d' :
  applyOrderPlaced e φ t d = (Ok b, t', d') →
  ∃ id, uuid_in (ev_eventId e) = Some id ∧ (id, CONSUMER_NAME) ∈ processed_messages d' ∧
    ((id, CONSUMER_NAME) ∈ processed_messages d → b = false ∧ d' = d) ∧
    ((id, CONSUMER_NAME) ∉ processed_messages d → receipt_conflict id (od_orderId (ev_data e)) d' = true).
Proof.
  intros Hrun. apply transaction_outcome in Hrun.
  inversion Hrun as [a t2 d1 _ Hb _|a t2 d1 f _ Hb _ _|a t2 d1 _ Hb|err d1 Hs]; subst.
  2:{ apply bind_ok_inv in Hb as (seen & t3 & d3 & _ & Hb). destruct seen; [by apply ret_ok_inv in Hb as [[=] _]|].
      by apply bind_ok_inv in Hb as (? & ? & ? & _ & [[=] _]%ret_ok_inv). }
  apply bind_ok_inv in Hb as (seen & t3 & d3 & H1 & Hb). apply query_ok_inv in H1 as [H1 _].
  unfold insert_processed in H1. destruct (uuid_in (ev_eventId e)) as [id|] eqn:Hid; [|done].
  exists id. split; [done|]. case_decide as Hin; simplify_eq.
  { apply ret_ok_inv in Hb as ([= ->] & _ & ->). split_and!; try done. }
  apply bind_ok_inv in Hb as (rows & t4 & d4 & H2 & Hb). apply ret_ok_inv in Hb as ([= ->] & _ & ->).
  apply query_ok_inv in H2 as [H2 _]. unfold insert_receipt in H2. rewrite Hid in H2.
  destruct (text_in (od_orderId (ev_data e))) as [o|] eqn:Ho; [|done].
  destruct (text_in (od_buyerId (ev_data e))) as [b'|]; [|done].
  destruct (numeric_param _) as [x|]; [|done]. destruct (numeric_of x) as [total|]; [|done].
  assert (o = od_orderId (ev_data e)) as -> by (unfold text_in in Ho; destruct (existsb _ _); congruence).
  destruct (receipt_conflict id (od_orderId (ev_data e)) _) eqn:Hc; simplify_eq; cbn.
  - split; [set_solver|]. split; [done|]. intros _. exact Hc.
  - split; [set_solver|]. split; [done|]. intros _. apply bool_decide_eq_true_2. left.
    cbn. rewrite lookup_insert_eq. eauto.
Qed.
End consumer.

(** ** Sequences of deliveries *)

Section deliveries.
Context `{PgText, EventLib}.

(** Deliveries one after the other, in any order and with repetitions, each
    with its own faults. *)
Inductive deliveries : db → list (message * handled) → db → Prop :=
| deliveries_nil d : deliveries d [] d
| deliveries_cons open msg red s φ t d h t' d1 l d2 :
    handle open msg red s φ t d = (h, t', d1) → deliveries d1 l d2 → deliveries d ((msg, h) :: l) d2.

(** The marks of the inbox and the receipts, as far as they only grow. *)
Definition effects_le (d d' : db) : Prop :=
  processed_messages d ⊆ processed_messages d' ∧ order_receipts d ⊆ order_receipts d'.

#[export] Instance effects_le_preorder : PreOrder effects_le.
Proof. split; [done|]. intros ??? [??] [??]. split; etrans; eauto. Qed.

Lemma insert_processed_le m c d : effects_le d (insert_processed m c d).2.
Proof. unfold insert_processed. repeat case_match; try done. split; cbn; set_solver. Qed.

Lemma insert_processed_receipts m c d : order_receipts (insert_processed m c d).2 = order_receipts d.
Proof. unfold insert_processed. by repeat case_match. Qed.

Lemma insert_receipt_le a b c x d : effects_le d (insert_receipt a b c x d).2.
Proof.
  unfold insert_receipt. repeat case_match; try done. split; [done|]. cbn.
  apply insert_subseteq, eq_None_not_Some. intros Hs.
  match goal with H : receipt_conflict _ _ _ = false |- _ =>
    apply bool_decide_eq_false in H; apply H; by left end.
Qed.

Lemma unique_insert_receipt id o b total d :
  receipt_conflict id o d = false → unique (λ r, Some (rc_order_id r)) (order_receipts d) →
  unique (λ r, Some (rc_order_id r)) (<[id := ReceiptRow o b total]> (order_receipts d)).
Proof.
  intros Hc Hu i j x y k. rewrite !lookup_insert. apply bool_decide_eq_false in Hc.
  assert (Hno : ∀ i r, order_receipts d !! i = Some r → rc_order_id r ≠ o).
  { intros i' r Hr Heq. apply Hc. right. by exists i', r. }
  intros Hi Hj Hx Hy. apply (inj Some) in Hx, Hy. subst k.
  destruct (decide (id = i)) as [<-|], (decide (id = j)) as [<-|]; try done.
  - exfalso. simplify_eq/=. by eapply Hno.
  - exfalso. simplify_eq/=. by eapply Hno.
  - by eapply (Hu i j _ _ _ Hi Hj); f_equal.
Qed.

(** A property of databases that every statement of the effect keeps. *)
Definition receipts_unique (d : db) : Prop := unique (λ r, Some (rc_order_id r)) (order_receipts d).

Definition keeps_unique (d d' : db) : Prop := receipts_unique d → receipts_unique d'.
#[export] Instance keeps_unique_preorder : PreOrder keeps_unique.
Proof. split; [by intros ??|]. intros ??? H1 H2 ?. by apply H2, H1. Qed.

Lemma insert_receipt_unique a b c x d : receipts_unique d → receipts_unique (insert_receipt a b c x d).2.
Proof.
  unfold receipts_unique, insert_receipt. intros Hu. repeat case_match; try done. cbn.
  by apply unique_insert_receipt.
Qed.

(** The statements run by [apply_body] on the way to any of its outcomes. *)
Lemma apply_steps (P : db → db → Prop) `{!PreOrder P} e :
  (∀ m c d, P d (insert_processed m c d).2) → (∀ a b c x d, P d (insert_receipt a b c x d).2) →
  (∀ d d', same_rows d d' → P d d') →
  ∀ φ t d r t' d', applyOrderPlaced e φ t d = (r, t', d') → P d d'.
Proof.
  intros Hp Hr Hs φ t d r t' d' Hrun. apply transaction_outcome in Hrun.
  assert (Hbody : ∀ x t1 d1, apply_body e φ (S t) d = (Ok x, t1, d1) → P d d1).
  { intros x t1 d1 Hb. apply bind_ok_inv in Hb as (seen & t3 & d3 & H1 & Hb).
    apply query_ok_inv in H1 as [H1 _]. pose proof (Hp (ev_eventId e) CONSUMER_NAME d) as Hp1. rewrite H1 in Hp1.
    destruct seen; [by apply ret_ok_inv in Hb as (_ & _ & ->)|].
    apply bind_ok_inv in Hb as (rows & t4 & d4 & H2 & Hb). apply ret_ok_inv in Hb as (_ & _ & ->).
    apply query_ok_inv in H2 as [H2 _]. etrans; [exact Hp1|].
    pose proof (Hr (ev_eventId e) (od_orderId (ev_data e)) (od_buyerId (ev_data e)) (od_totalAmount (ev_data e)) d3) as Hr1.
    by rewrite H2 in Hr1. }
  inversion Hrun as [a t2 d1 _ Hb _|a t2 d1 f _ Hb _ _|a t2 d1 _ Hb|err d1 Hsame]; subst; eauto.
  apply Hs. apply rollback_same.
Qed.

Lemma same_rows_effects d d' : same_rows d d' → effects_le d d'.
Proof. intros <-. done. Qed.

Lemma handle_effects open msg red s φ t d h t' d' :
  handle open msg red s φ t d = (h, t', d') → effects_le d d' ∧ (receipts_unique d → receipts_unique d').
Proof.
  unfold handle. destruct (m_content msg ≫= _) as [e|].
  2:{ destruct open; intros; simplify_eq; done. }
  destruct (applyOrderPlaced e φ t d) as [[r t1] d1] eqn:Hrun.
  assert (effects_le d d1 ∧ (receipts_unique d → receipts_unique d1)) as Hd1.
  { split.
    - eapply (apply_steps effects_le); eauto using insert_processed_le, insert_receipt_le, same_rows_effects.
    - eapply (apply_steps keeps_unique); [..|exact Hrun].
      + intros m c d0. unfold keeps_unique, receipts_unique. by rewrite insert_processed_receipts.
      + intros a b c x d0 Hd. by apply insert_receipt_unique.
      + intros d0 d0' <-. by intros ?. }
  destruct r as [b|]; [destruct b, open|]; intros; by simplify_eq.
Qed.

Lemma deliveries_effects d l d' :
  deliveries d l d' → effects_le d d' ∧ (receipts_unique d → receipts_unique d').
Proof.
  induction 1 as [|open msg red s φ t d h t' d1 l d2 Hh _ [IH1 IH2]]; [done|].
  apply handle_effects in Hh as [H1 H2]. split; [by etrans|auto].
Qed.

(** A delivery reports an effect only for an event not marked before. *)
Lemma handle_effect_new open msg red s φ t d h t' d' eid :
  handle open msg red s φ t d = (h, t', d') → onEffect eid ∈ h_trace h →
  ∃ id, uuid_in eid = Some id ∧ (id, CONSUMER_NAME) ∉ processed_messages d ∧
    (id, CONSUMER_NAME) ∈ processed_messages d'.
Proof.
  unfold handle. destruct (m_content msg ≫= _) as [e|].
  2:{ destruct open; intros Hh Hin; simplify_eq/=; set_solver. }
  destruct (applyOrderPlaced e φ t d) as [[[b|err] t1] d1] eqn:Hrun.
  2:{ intros Hh Hin. simplify_eq/=. set_solver. }
  destruct (apply_ok_processed _ _ _ _ _ _ _ Hrun) as (id & Hid & Hin' & Hold & _).
  destruct b.
  - intros Hh Hin. assert (d' = d1 ∧ eid = ev_eventId e) as [-> ->].
    { destruct open; simplify_eq/=; split; try done; set_solver. }
    exists id. split; [done|]. split; [|done]. intros H1. by destruct (Hold H1).
  - intros Hh Hin. exfalso. destruct open; simplify_eq/=; set_solver.
Qed.

Definition reports (eid : string) (x : message * handled) : Prop := onEffect eid ∈ h_trace x.2.
#[export] Instance hook_event_eq_dec : EqDecision hook_event.
Proof. solve_decision. Defined.
#[export] Instance reports_dec eid x : Decision (reports eid x).
Proof. unfold reports. apply _. Defined.

Lemma reports_none eid id d l d' :
  uuid_in eid = Some id → (id, CONSUMER_NAME) ∈ processed_messages d → deliveries d l d' →
  filter (reports eid) l = [].
Proof.
  intros Hid Hin Hl. induction Hl as [|open msg red s φ t d h t' d1 l d2 Hh _ IH]; [done|].
  rewrite filter_cons_False.
  - apply IH. by apply (handle_effects _ _ _ _ _ _ _ _ _ _ Hh).
  - intros Hr. destruct (handle_effect_new _ _ _ _ _ _ _ _ _ _ _ Hh Hr) as (id' & ? & ? & _). by simplify_eq.
Qed.

Lemma reports_once eid d l d' : deliveries d l d' → (length (filter (reports eid) l) ≤ 1)%nat.
Proof.
  induction 1 as [|open msg red s φ t d h t' d1 l d2 Hh Hl IH]; [cbn; lia|].
  destruct (decide (reports eid (msg, h))) as [Hr|Hr].
  - rewrite filter_cons_True by done.
    destruct (handle_effect_new _ _ _ _ _ _ _ _ _ _ _ Hh Hr) as (id & Hid & _ & Hin).
    rewrite (reports_none eid id d1 l d2) by done. done.
  - by rewrite filter_cons_False.
Qed.
End deliveries.

(** ** Properties *)

Section properties.
Context `{PgText, EventLib}.

(** The effect refines its specification.  On an event Postgres can store,
    [applyOrderPlaced] marks the message and writes the receipt in one step,
    unless the message is marked (nothing changes) or the order has a receipt
    (only the mark is written); under faults it does this or nothing; doing it
    again changes nothing and answers [false]. *)
Theorem applyOrderPlaced_refines e id total d :
  storable e id total →
  (∀ t, ∃ t', applyOrderPlaced e no_fault t d = (Ok (apply_spec e id total d).1, t', (apply_spec e id total d).2)) ∧
  (∀ φ t r t' d', applyOrderPlaced e φ t d = (r, t', d') →
     (∃ err, r = Err err ∧ (same_rows d d' ∨ d' = (apply_spec e id total d).2)) ∨
     (r = Ok (apply_spec e id total d).1 ∧ d' = (apply_spec e id total d).2)) ∧
  apply_spec e id total (apply_spec e id total d).2 = (false, (apply_spec e id total d).2).
Proof.
  intros Hst. split; [|split].
  - intros t. destruct (apply_body_run e id total (S t) d Hst) as [t1 Hb].
    unfold applyOrderPlaced, transaction. rewrite Hb. cbn. eauto.
  - intros φ t r t' d' Hrun. destruct (apply_outcome e id total φ t d r t' d' Hst Hrun)
      as [[? [err ->]]|[-> [->|[err ->]]]]; eauto 10.
  - unfold apply_spec at 1. rewrite decide_True; [done|].
    unfold apply_spec. case_decide; [done|]. destruct (receipt_conflict _ _ _); cbn; set_solver.
Qed.

(** Acknowledged only after the effect.  A delivery is acked only when its
    event is valid and marked in the database, and the first time only with
    its receipt (of that event or that order) present; it is dropped to the
    dead-letter exchange exactly when the body does not meet the contract, and
    then no row changes. *)
Theorem ack_after_effect open msg red s φ t d h t' d' :
  handle open msg red s φ t d = (h, t', d') →
  (h_settled h = Some Ack → ∃ e id, m_content msg ≫= OrderPlacedSchema_parse = Some e ∧
     uuid_in (ev_eventId e) = Some id ∧ (id, CONSUMER_NAME) ∈ processed_messages d' ∧
     ((id, CONSUMER_NAME) ∉ processed_messages d → receipt_conflict id (od_orderId (ev_data e)) d' = true)) ∧
  (h_settled h = Some (Reject false) ↔ open = true ∧ m_content msg ≫= OrderPlacedSchema_parse = None) ∧
  (m_content msg ≫= OrderPlacedSchema_parse = None → d' = d).
Proof.
  unfold handle. destruct (m_content msg ≫= OrderPlacedSchema_parse) as [e|].
  2:{ destruct open; intros [= <- <- <-]; cbn; (split; [by intros [=]|split; [naive_solver|done]]). }
  destruct (applyOrderPlaced e φ t d) as [[[b|err] t1] d1] eqn:Hrun.
  2:{ destruct open; intros [= <- <- <-]; cbn; (split; [by intros [=]|split; [naive_solver|done]]). }
  destruct (apply_ok_processed _ _ _ _ _ _ _ Hrun) as (id & Hid & Hin & _ & Hr).
  destruct open; intros [= <- <- <-]; cbn; (split; [|split; [naive_solver|done]]); [|by intros [=]].
  intros _. eauto 10.
Qed.

(** At least once, applied at most once.  Over any sequence of deliveries
    (repetitions, redeliveries, closed channels, failing statements), an event
    is reported as applied at most once, marks and receipts are never taken
    back, and no order ever has two receipts. *)
Theorem deliveries_apply_once d l d' :
  deliveries d l d' → db_ok d →
  (∀ eid, (length (filter (reports eid) l) ≤ 1)%nat) ∧
  processed_messages d ⊆ processed_messages d' ∧ order_receipts d ⊆ order_receipts d' ∧
  receipts_unique d'.
Proof.
  intros Hl Hok. destruct (deliveries_effects d l d' Hl) as [[Hp Hr] Hu].
  split; [|split; [done|split; [done|apply Hu, Hok]]]. intros eid. by eapply reports_once.
Qed.
End properties.

(** ** Witnesses *)

Section consumer_witnesses.
#[local] Existing Instance fix_text.
#[local] Existing Instance fix_events.

Definition fix_event : order_placed_event :=
  toOrderPlacedEvent (PlacedOrder "1" "1" "7" (num_of_Z 2) (num_mul (num_of_cents 1299) (num_of_Z 2)) 2000).
Definition fix_message : message := order_placed_message fix_event.

Lemma fix_storable : storable fix_event (ev_eventId fix_event) 2598.
Proof. split; vm_compute; reflexivity. Qed.

Lemma applyOrderPlaced_refines_witness : ∃ t' d',
  applyOrderPlaced fix_event no_fault 0%nat fix_db = (Ok true, t', d').
Proof.
  destruct (applyOrderPlaced_refines fix_event (ev_eventId fix_event) 2598 fix_db fix_storable) as [H _].
  destruct (H 0%nat) as [t' Ht]. exists t', (apply_spec fix_event (ev_eventId fix_event) 2598 fix_db).2.
  rewrite Ht. vm_compute. reflexivity.
Defined.

Definition no_stats : ConsumerStats := Stats 0 0 0 0 0.
Definition first_delivery : handled * nat * db := handle true fix_message false no_stats no_fault 0%nat fix_db.
Definition second_delivery : handled * nat * db := handle true fix_message true no_stats no_fault 0%nat first_delivery.2.

Lemma ack_after_effect_witness : h_settled first_delivery.1.1 = Some Ack ∧
  ∃ e id, m_content fix_message ≫= OrderPlacedSchema_parse = Some e ∧
    (id, CONSUMER_NAME) ∈ processed_messages first_delivery.2.
Proof.
  assert (Ha : h_settled first_delivery.1.1 = Some Ack) by (vm_compute; reflexivity).
  split; [exact Ha|].
  destruct (ack_after_effect true fix_message false no_stats no_fault 0%nat fix_db
    first_delivery.1.1 first_delivery.1.2 first_delivery.2) as [H _]; [vm_compute; reflexivity|].
  destruct (H Ha) as (e & id & H1 & _ & H2 & _). exists e, id. split; [exact H1|exact H2].
Defined.

Lemma two_deliveries : deliveries fix_db
  [(fix_message, first_delivery.1.1); (fix_message, second_delivery.1.1)] second_delivery.2.
Proof.
  apply (deliveries_cons true fix_message false no_stats no_fault 0%nat fix_db
    first_delivery.1.1 first_delivery.1.2 first_delivery.2); [vm_compute; reflexivity|].
  apply (deliveries_cons true fix_message true no_stats no_fault 0%nat first_delivery.2
    second_delivery.1.1 second_delivery.1.2 second_delivery.2); [vm_compute; reflexivity|].
  apply deliveries_nil.
Qed.

Lemma deliveries_apply_once_witness :
  h_settled second_delivery.1.1 = Some Ack ∧ receipts_unique second_delivery.2.
Proof.
  split; [vm_compute; reflexivity|].
  exact (proj2 (proj2 (proj2 (deliveries_apply_once fix_db _ second_delivery.2 two_deliveries fix_db_ok)))).
Defined.
End consumer_witnesses.
