(* ===== verification/Pipeline.v ===== *)
(** The whole path of an order event: checkout (src/checkout.ts), relay
    (src/outbox/relay.ts), broker, consumer (src/messaging/consumer.ts), as a
    step relation on the database and the broker's queues.  RabbitMQ is a class
    with the documented behaviour of its quorum queues. *)
From S2P Require Import Prelude JsNumber Events Schema Sql Fixtures Checkout Publisher Relay Consumer.
From stdpp Require Import pretty relations.
#[local] Open Scope Z_scope.

(** ** The broker *)

(** [holds b q m]: queue [q] has a copy of [m], ready or handed out and not yet
    settled.  [accept m b]: the broker takes a publication to [EXCHANGE];
    [settle s m b]: a delivery of [m] from the work queue is acked or rejected.

    The laws idealise one point: dead-lettering loses nothing ([reject_keeps]).
    RabbitMQ moves a rejected message to the dead-letter exchange without
    confirms of its own unless the queue has the [at-least-once] strategy,
    which topology.ts does not ask for, so that a broker that fails during the
    move, or a missing dead-letter queue, could lose the message. *)
Class Broker := {
  bstate : Type;
  holds : bstate → string → message → Prop;
  accept : message → bstate → bstate;
  settle : settlement → message → bstate → bstate;
}.

Class BrokerLaws `{Broker} := {
  accept_routed : ∀ b m, m_key m = ROUTING_KEY_ORDER_PLACED → holds (accept m b) WORK_QUEUE m;
  accept_keeps : ∀ b m q m', holds b q m' → holds (accept m b) q m';
  accept_only : ∀ b m m', holds (accept m b) WORK_QUEUE m' → m' = m ∨ holds b WORK_QUEUE m';
  (** an ack removes that delivery, a reject without requeue moves it to the
      dead-letter queue, a requeue leaves it or, at the delivery limit, moves it *)
  settle_keeps : ∀ b s m m', holds b WORK_QUEUE m' → m' ≠ m → holds (settle s m b) WORK_QUEUE m';
  reject_keeps : ∀ b r m, holds b WORK_QUEUE m →
    holds (settle (Reject r) m b) WORK_QUEUE m ∨ holds (settle (Reject r) m b) DLQ m;
  settle_dlq : ∀ b s m m', holds b DLQ m' → holds (settle s m b) DLQ m';
  settle_only : ∀ b s m m', holds (settle s m b) WORK_QUEUE m' → holds b WORK_QUEUE m';
}.

(** ** Steps *)

Section pipeline.
Context `{PgText, EventLib, Broker}.

Record system := System { sdb : db; sbroker : bstate }.

Definition broker_takes (sent : list (string * message * pub_fate)) (b : bstate) : bstate :=
  foldl (λ b x, if taken x.2 then accept x.1.2 b else b) b sent.

Definition broker_settles (s : option settlement) (msg : message) (b : bstate) : bstate :=
  match s with Some s => settle s msg b | None => b end.

(** One attempt to buy, one pass of a relay, one delivery; each with any faults. *)
Inductive step : system → system → Prop :=
| step_checkout e h p pid bid φ t r t' d d' b :
    request_ok p pid bid → outbox d !! outbox_id e = None → int8 (seq_orders d + 1) = true →
    0 ≤ date e < 253402300800000 →
    checkout e h p φ t d = (r, t', d') → step (System d b) (System d' b)
| step_relay pub hook now n locked ret φ t r t' d d' b :
    relayOnce pub hook now n locked ret φ t d = (r, t', d') →
    step (System d b) (System d' (broker_takes (relay_sent pub hook n locked ret φ t d) b))
| step_deliver open msg red s φ t h t' d d' b :
    holds b WORK_QUEUE msg → handle open msg red s φ t d = (h, t', d') →
    step (System d b) (System d' (broker_settles (h_settled h) msg b)).

(** ** What the outbox row of an order looks like *)

Definition event_id (oid : Z) : string := eventIdFor "order.placed" (pretty oid).

(** [ev] announces order [oid]: accepted by the consumer, storable, with the
    total of the order. *)
Record announces (ev : order_placed_event) (oid : Z) (o : order_row) : Prop := {
  an_id : ev_eventId ev = event_id oid;
  an_order : od_orderId (ev_data ev) = pretty oid;
  an_buyer : bigint_in (od_buyerId (ev_data ev)) = Some (o_buyer_id o);
  an_valid : event_valid ev;
  an_storable : storable ev (event_id oid) (o_total_amount o);
}.

Definition row_announces (row : outbox_row) (ev : order_placed_event) (oid : Z) (o : order_row) : Prop :=
  announces ev oid o ∧ ob_type row = "order.placed" ∧ ob_payload row = event_json ev.

Definition receipted (oid : Z) (o : order_row) (d : db) : Prop :=
  ∃ rc, order_receipts d !! event_id oid = Some rc ∧ rc_order_id rc = pretty oid ∧
    bigint_in (rc_buyer_id rc) = Some (o_buyer_id o) ∧ rc_total_amount rc = o_total_amount o.

(** SHA-1 does not collide on the orders of the table. *)
Definition collision_free (d : db) : Prop := ∀ i j,
  is_Some (orders d !! i) → is_Some (orders d !! j) → event_id i = event_id j → i = j.

(** Where the announcement of an order is. *)
Definition accounted (s : system) (id : string) (row : outbox_row) (ev : order_placed_event) (oid : Z) (o : order_row) : Prop :=
  ob_published_at row = None ∨ holds (sbroker s) WORK_QUEUE (order_placed_message ev) ∨
  holds (sbroker s) DLQ (order_placed_message ev) ∨ receipted oid o (sdb s).

Record invariant (s : system) : Prop := {
  inv_db : db_ok (sdb s);
  (** every order has its row, and the announcement is somewhere *)
  inv_orders : ∀ oid o, orders (sdb s) !! oid = Some o → ∃ id row ev,
    outbox (sdb s) !! id = Some row ∧ row_announces row ev oid o ∧ accounted s id row ev oid o;
  (** every row is the row of an order *)
  inv_rows : ∀ id row, outbox (sdb s) !! id = Some row → ∃ ev oid o,
    orders (sdb s) !! oid = Some o ∧ row_announces row ev oid o;
  (** everything in the work queue announces an order *)
  inv_queue : ∀ m, holds (sbroker s) WORK_QUEUE m → ∃ ev oid o,
    orders (sdb s) !! oid = Some o ∧ announces ev oid o ∧ m = order_placed_message ev;
  (** a mark means a receipt, a receipt means an order *)
  inv_marks : ∀ eid, (eid, CONSUMER_NAME) ∈ processed_messages (sdb s) → ∃ oid o,
    orders (sdb s) !! oid = Some o ∧ eid = event_id oid ∧ receipted oid o (sdb s);
  inv_receipts : ∀ id rc, order_receipts (sdb s) !! id = Some rc → ∃ oid o,
    orders (sdb s) !! oid = Some o ∧ id = event_id oid ∧ receipted oid o (sdb s);
}.

(** ** Announcements *)

Context `{!PgTextLaws, !EventLibLaws, !BrokerLaws}.

Lemma announced_message row ev oid o msg :
  row_announces row ev oid o → row_message row = Ok msg → msg = order_placed_message ev.
Proof.
  intros (Ha & Ht & Hp) Hm. unfold row_message in Hm. rewrite Hp, Ht in Hm.
  unfold order_placed_message, ROUTING_KEY_ORDER_PLACED. destruct (an_valid _ _ _ Ha) as (_ & -> & _).
  cbn in Hm. by injection Hm.
Qed.

Lemma announced_parse ev oid o :
  announces ev oid o → m_content (order_placed_message ev) ≫= OrderPlacedSchema_parse = Some ev.
Proof. intros Ha. cbn. apply parse_event_json, Ha. Qed.

Lemma num_nonnegative_amount c q : 0 ≤ c → 0 < q → (∃ x, amount c q = Some x) →
  num_nonnegative (num_mul (num_of_cents c) (num_of_Z q)) = true.
Proof.
  intros Hc Hq [x Hx]. unfold amount in Hx.
  destruct (num_mul (num_of_cents c) (num_of_Z q)) as [m e| | |] eqn:Hm; try done.
  apply Z.leb_le. eapply num_mul_sign; [..|exact Hm].
  - intros m' e'. by apply rnd_sign.
  - intros m' e'. apply rnd_sign; lia.
Qed.

Lemma purchase_announces e p pid bid pr u d :
  db_ok d → request_ok p pid bid → products d !! pid = Some pr → users d !! bid = Some u →
  affordable (u_balance u) (p_price pr) (quantity p) = true →
  int8 (seq_orders d + 1) = true → 0 ≤ date e < 253402300800000 →
  let oid := seq_orders d + 1 in
  announces (spec_event e p oid (p_price pr)) oid (OrderRow bid (u_email u) paid (p_price pr * quantity p) (now e)).
Proof.
  intros Hok [Hq Hi Hpid Hbid] Hp Hu Haff Hseq Hdate oid. pose proof (int4_range _ Hi).
  pose proof (ok_products _ Hok _ _ Hp) as Hpr. pose proof (ok_users _ Hok _ _ Hu) as Hb.
  destruct (affordable_amount (u_balance u) (p_price pr) (quantity p)) as (x & Hx & Ha & Hge & _);
    [apply Hpr|lia|apply Hb|]. rewrite Haff in Ha. symmetry in Ha. destruct (Hge Ha) as (_ & Hof & _).
  destruct (bigint_in_text _ _ Hbid) as [Hb0 Hb1]. destruct (bigint_in_text _ _ Hpid) as [Hp0 _].
  destruct (bigint_in_text _ _ (bigint_in_out _ Hseq)) as [Ho0 Ho1].
  assert (num_int_positive (num_of_Z (quantity p)) = true) as Hqi.
  { unfold num_int_positive, num_of_Z. rewrite rnd_int_exact by lia. apply Z.ltb_lt. lia. }
  assert (num_nonnegative (num_mul (num_of_cents (p_price pr)) (num_of_Z (quantity p))) = true) as Htot.
  { apply num_nonnegative_amount; [apply Hpr|done|eauto]. }
  split; cbn; try done.
  - split_and!; cbn; try done; [apply eventIdFor_uuid|by apply zod_datetime_iso].
  - split; cbn; try done.
    + apply uuid_in_canonical, uuid_of_digest_shape; [rewrite sha1_length; lia|apply sha1_bytes].
    + unfold amount in Hx. rewrite Hx. done.
Qed.

(** ** The invariant is kept *)

(** By what leaves the rows alone, *)
Lemma inv_untouched d d' b : untouched d d' → invariant (System d b) → invariant (System d' b).
Proof.
  intros Hu [Hok Ho Hr Hq Hm Hrc]. destruct (untouched_rows _ _ Hu) as (_ & _ & E3 & _ & _ & _ & E7 & E8 & E9 & _).
  split; unfold accounted, receipted in *; cbn in *; rewrite ?E3, ?E7, ?E8, ?E9; try done.
  by eapply untouched_ok.
Qed.

Lemma receipted_le oid o d d' : order_receipts d ⊆ order_receipts d' → receipted oid o d → receipted oid o d'.
Proof. intros Hle (rc & Hrc & ?). exists rc. split; [by eapply lookup_weaken|done]. Qed.

(** by a purchase, *)
Lemma inv_purchase e p pid bid pr u d b :
  request_ok p pid bid → outbox d !! outbox_id e = None → int8 (seq_orders d + 1) = true →
  0 ≤ date e < 253402300800000 → products d !! pid = Some pr → users d !! bid = Some u →
  quantity p ≤ p_stock pr → affordable (u_balance u) (p_price pr) (quantity p) = true →
  invariant (System d b) → invariant (System (purchase e p pid bid pr u d) b).
Proof.
  intros Hreq Hob Hseq Hdate Hp Hu Hst Haff [Hok Ho Hr Hq Hm Hrc]. cbn in *.
  pose proof (purchase_announces e p pid bid pr u d Hok Hreq Hp Hu Haff Hseq Hdate) as Ha. cbn in Ha.
  assert (Hnew : orders d !! (seq_orders d + 1) = None) by (apply fresh_seq, Hok).
  assert (Hold : ∀ oid o, orders d !! oid = Some o →
    orders (purchase e p pid bid pr u d) !! oid = Some o).
  { intros oid o Hoid. cbn. rewrite lookup_insert_ne; [done|]. intros <-. congruence. }
  split; cbn [sdb sbroker].
  - destruct Hreq. by eapply purchase_ok.
  - intros oid o. cbn [orders purchase]. rewrite lookup_insert. case_decide as Hid.
    + subst oid. intros [= <-]. exists (outbox_id e). do 2 eexists.
      split; [cbn; by rewrite lookup_insert_eq|]. split; [split; [exact Ha|done]|by left].
    + intros Hoid. destruct (Ho _ _ Hoid) as (id & row & ev & Hrow & Hann & Hacc).
      exists id, row, ev. split; [|done]. cbn. rewrite lookup_insert_ne; [done|congruence].
  - intros id row. cbn [outbox purchase]. rewrite lookup_insert. case_decide as Hid.
    + intros [= <-]. eexists _, (seq_orders d + 1), _.
      split; [cbn; by rewrite lookup_insert_eq|]. split; [exact Ha|done].
    + intros Hrow. destruct (Hr _ _ Hrow) as (ev & oid & o & Hoid & Hann). exists ev, oid, o. eauto.
  - intros m Hm'. destruct (Hq _ Hm') as (ev & oid & o & ? & ? & ?). exists ev, oid, o. eauto.
  - intros eid Hin. destruct (Hm _ Hin) as (oid & o & ? & ? & ?). exists oid, o. eauto.
  - intros id rc Hl. destruct (Hrc _ _ Hl) as (oid & o & ? & ? & ?). exists oid, o. eauto.
Qed.

(** by a pass of the relay, whose publications the broker takes or not, *)
Lemma takes_keeps sent b q m : holds b q m → holds (broker_takes sent b) q m.
Proof.
  revert b. induction sent as [|[[i m'] x] sent IH]; intros b Hm; [done|]. cbn.
  apply IH. destruct (taken x); [by apply accept_keeps|done].
Qed.

Lemma takes_sent sent b id msg k :
  (id, msg, Confirmed k) ∈ sent → k ≤ 0 → m_key msg = ROUTING_KEY_ORDER_PLACED →
  holds (broker_takes sent b) WORK_QUEUE msg.
Proof.
  intros Hin Hk Hkey. revert b. induction sent as [|[[i m'] x] sent IH]; intros b; [set_solver|].
  apply elem_of_cons in Hin as [[= <- <- <-]|Hin]; cbn; [|by apply IH].
  rewrite (proj2 (Z.leb_le _ _)) by done. by apply takes_keeps, accept_routed.
Qed.

Lemma takes_only sent b m :
  holds (broker_takes sent b) WORK_QUEUE m → holds b WORK_QUEUE m ∨ ∃ id x, (id, m, x) ∈ sent.
Proof.
  revert b. induction sent as [|[[i m'] x] sent IH]; intros b; [auto|]. cbn.
  intros [Hh|(id & y & Hin)]%IH; [|right; exists id, y; by right].
  destruct (taken x); [|auto]. apply accept_only in Hh as [->|Hh]; [|auto].
  right. exists i, x. left.
Qed.

Lemma sent_announced pub hook n locked ret φ t d id msg x :
  (id, msg, x) ∈ relay_sent pub hook n locked ret φ t d →
  (∀ id row, outbox d !! id = Some row → ∃ ev oid o, orders d !! oid = Some o ∧ row_announces row ev oid o) →
  ∃ ev oid o, orders d !! oid = Some o ∧ announces ev oid o ∧ msg = order_placed_message ev.
Proof.
  intros Hin Hr. unfold relay_sent in Hin.
  destruct (φ t); [set_solver|]. destruct (φ (S t)); [set_solver|].
  apply publish_sent_row in Hin as (row & Hin & Hm).
  apply batch_elem, candidates_elem in Hin as (Hrow & _). destruct (Hr _ _ Hrow) as (ev & oid & o & Hoid & Hann).
  exists ev, oid, o. split; [done|]. split; [apply Hann|by eapply announced_message].
Qed.

Lemma same_event_announces row row' ev oid o :
  same_event row row' → row_announces row ev oid o → row_announces row' ev oid o.
Proof. intros (_ & _ & E1 & E2 & _) (? & ? & ?). split; [done|]. by rewrite <-E1, <-E2. Qed.

Lemma inv_relay pub hook now n locked ret φ t r t' d d' b :
  relayOnce pub hook now n locked ret φ t d = (r, t', d') → invariant (System d b) →
  invariant (System d' (broker_takes (relay_sent pub hook n locked ret φ t d) b)).
Proof.
  intros Hrun [Hok Ho Hr Hq Hm Hrc]. cbn in *.
  destruct (relay_frame _ _ _ _ _ _ _ _ _ _ _ _ Hrun) as [Hfr Hdom].
  pose proof (untouched_rows _ _ Hfr) as (_ & _ & E3 & _ & _ & _ & _ & E8 & E9 & _). cbn in E3, E8, E9.
  split; unfold accounted, receipted in *; cbn; rewrite ?E3, ?E8, ?E9; try done.
  - eapply untouched_ok; [exact Hfr|]. destruct Hok. by split.
  - intros oid o Hoid. destruct (Ho _ _ Hoid) as (id & row & ev & Hrow & Hann & Hacc).
    destruct (relay_row _ _ _ _ _ _ _ _ _ _ _ _ id row Hrun Hrow) as (row' & Hr' & Hev & Hpub).
    exists id, row', ev. split; [done|]. split; [by eapply same_event_announces|].
    destruct Hpub as [->|(_ & msg & k & Hmsg & Hk & Hsent)].
    + destruct Hacc as [?|[?|[?|?]]]; eauto using takes_keeps.
    + right. left. rewrite <-(announced_message _ _ _ _ _ Hann Hmsg).
      eapply takes_sent; [done|done|]. by rewrite (announced_message _ _ _ _ _ Hann Hmsg).
  - intros id row' Hr'. destruct (outbox d !! id) as [row|] eqn:Hrow; [|by rewrite Hdom in Hr'].
    destruct (relay_row _ _ _ _ _ _ _ _ _ _ _ _ id row Hrun Hrow) as (row2 & Hr2 & Hev & _). simplify_eq.
    destruct (Hr _ _ Hrow) as (ev & oid & o & ? & ?). exists ev, oid, o. eauto using same_event_announces.
  - intros m [Hh|(id & x & Hin)]%takes_only; [by apply Hq|].
    by eapply sent_announced.
Qed.

(** and by a delivery. *)
Lemma apply_receipted ev oid o d :
  announces ev oid o → orders d !! oid = Some o → collision_free d →
  (∀ eid, (eid, CONSUMER_NAME) ∈ processed_messages d → ∃ oid o,
     orders d !! oid = Some o ∧ eid = event_id oid ∧ receipted oid o d) →
  (∀ id rc, order_receipts d !! id = Some rc → ∃ oid o,
     orders d !! oid = Some o ∧ id = event_id oid ∧ receipted oid o d) →
  receipted oid o (apply_spec ev (event_id oid) (o_total_amount o) d).2.
Proof.
  intros Ha Hoid Hcf Hm Hrc.
  assert (Hsame : ∀ oid' o', orders d !! oid' = Some o' → event_id oid = event_id oid' → oid' = oid ∧ o' = o).
  { intros oid' o' Ho' He. assert (oid = oid') as <- by (eapply Hcf; eauto). split; congruence. }
  unfold apply_spec. case_decide as Hin.
  { destruct (Hm _ Hin) as (oid' & o' & Ho' & He & Hr). destruct (Hsame _ _ Ho' He) as [-> ->]. done. }
  destruct (receipt_conflict _ _ _) eqn:Hc; cbn.
  - apply bool_decide_eq_true in Hc as [[rc Hl]|(id & rc & Hl & Hid)]; cbn in Hl.
    + destruct (Hrc _ _ Hl) as (oid' & o' & Ho' & He & Hr). by destruct (Hsame _ _ Ho' He) as [-> ->].
    + destruct (Hrc _ _ Hl) as (oid' & o' & Ho' & -> & Hr).
      assert (oid' = oid) as ->; [|congruence || (by simplify_eq)].
      destruct Hr as (rc' & Hl' & Hid' & _). rewrite Hl in Hl'. simplify_eq.
      rewrite (an_order _ _ _ Ha) in Hid. apply (inj pretty). congruence.
  - eexists. split; [cbn; by rewrite lookup_insert_eq|]. cbn. split_and!; [apply Ha|apply Ha|done].
Qed.

(** What the effect of an event does to the tables. *)
Lemma apply_spec_frame ev id total d :
  let d' := (apply_spec ev id total d).2 in
  (db_ok d → db_ok d') ∧ orders d' = orders d ∧ outbox d' = outbox d ∧
  order_receipts d ⊆ order_receipts d' ∧
  (∀ eid, (eid, CONSUMER_NAME) ∈ processed_messages d' → eid = id ∨ (eid, CONSUMER_NAME) ∈ processed_messages d) ∧
  (∀ i rc, order_receipts d' !! i = Some rc → i = id ∨ order_receipts d !! i = Some rc).
Proof.
  unfold apply_spec. case_decide; [by split_and!; auto|].
  destruct (receipt_conflict _ _ _) eqn:Hc; cbn.
  - split_and!; try done; [|set_solver|auto]. intros []. by split.
  - split_and!; try done.
    + intros []. split; try done. cbn. by apply unique_insert_receipt.
    + apply insert_subseteq, eq_None_not_Some. intros Hs.
      apply bool_decide_eq_false in Hc. apply Hc. by left.
    + set_solver.
    + intros i rc. rewrite lookup_insert. case_decide; auto.
Qed.

Lemma inv_apply ev oid o d b :
  announces ev oid o → orders d !! oid = Some o → collision_free d → invariant (System d b) →
  let d' := (apply_spec ev (event_id oid) (o_total_amount o) d).2 in
  invariant (System d' b) ∧ receipted oid o d'.
Proof.
  intros Ha Hoid Hcf [Hok Ho Hr Hq Hm Hrc] d'. cbn in *.
  pose proof (apply_receipted ev oid o d Ha Hoid Hcf Hm Hrc) as Hrec. fold d' in Hrec. split; [|done].
  destruct (apply_spec_frame ev (event_id oid) (o_total_amount o) d) as (Hok' & E3 & E7 & Hle & Hm' & Hrc').
  fold d' in Hok', E3, E7, Hle, Hm', Hrc'. clearbody d'.
  split; unfold accounted in *; cbn [sdb sbroker] in *; rewrite ?E3, ?E7; eauto.
  - intros oid' o' Ho'. destruct (Ho _ _ Ho') as (id & row & ev' & ? & ? & Hacc). exists id, row, ev'.
    split; [done|]. split; [done|]. destruct Hacc as [?|[?|[?|?]]]; eauto using receipted_le.
  - intros eid [->|Hin]%Hm'; [by exists oid, o|]. destruct (Hm _ Hin) as (oid' & o' & ? & ? & ?).
    exists oid', o'. eauto using receipted_le.
  - intros id rc [->|Hl]%Hrc'; [by exists oid, o|]. destruct (Hrc _ _ Hl) as (oid' & o' & ? & ? & ?).
    exists oid', o'. eauto using receipted_le.
Qed.

Lemma same_message ev ev' oid o oid' o' :
  announces ev oid o → announces ev' oid' o' → order_placed_message ev = order_placed_message ev' → ev = ev' ∧ oid = oid'.
Proof.
  intros Ha Ha' He. assert (Some ev = Some ev') as [= <-].
  { rewrite <-(announced_parse _ _ _ Ha), <-(announced_parse _ _ _ Ha'). by rewrite He. }
  split; [done|]. apply (inj pretty). by rewrite <-(an_order _ _ _ Ha), <-(an_order _ _ _ Ha').
Qed.

Lemma inv_settles ev oid o d b s :
  announces ev oid o → orders d !! oid = Some o → holds b WORK_QUEUE (order_placed_message ev) →
  s ≠ Some Ack ∨ receipted oid o d → invariant (System d b) →
  invariant (System d (broker_settles s (order_placed_message ev) b)).
Proof.
  intros Ha Hoid Hh Hs [Hok Ho Hr Hq Hm Hrc]. destruct s as [s|]; [|by split]. cbn [broker_settles] in *.
  split; try done; unfold accounted in *; cbn in *.
  - intros oid' o' Ho'. destruct (Ho _ _ Ho') as (id & row & ev' & ? & Hann & Hacc). exists id, row, ev'.
    split; [done|]. split; [done|]. destruct Hacc as [?|[Hw|[Hd|?]]]; auto using settle_dlq.
    destruct (decide (oid' = oid)) as [->|Hne].
    + assert (o' = o) as -> by congruence. destruct s as [|r].
      * destruct Hs as [?|?]; [done|auto].
      * destruct (decide (ev' = ev)) as [->|Hdiff]; [destruct (reject_keeps b r _ Hh); auto|].
        right. left. apply settle_keeps; [done|]. intros He. apply Hdiff.
        by eapply same_message; [apply Hann|..].
    + right. left. apply settle_keeps; [done|]. intros He. apply Hne. by eapply same_message; [apply Hann|..].
  - intros m Hw%settle_only. by apply Hq.
Qed.

Lemma inv_deliver open msg red s φ t h t' d d' b :
  holds b WORK_QUEUE msg → handle open msg red s φ t d = (h, t', d') → collision_free d →
  invariant (System d b) → invariant (System d' (broker_settles (h_settled h) msg b)).
Proof.
  intros Hh Hrun Hcf Hinv. destruct (inv_queue _ Hinv _ Hh) as (ev & oid & o & Hoid & Ha & ->).
  unfold handle in Hrun. rewrite (announced_parse _ _ _ Ha) in Hrun.
  destruct (applyOrderPlaced ev φ t d) as [[r t1] d1] eqn:Happ.
  assert (d' = d1) as -> by (destruct r as [[]|]; [destruct open|destruct open|]; congruence).
  pose proof (apply_seq_mono _ _ _ _ _ _ _ Happ) as Hseq.
  destruct (inv_apply ev oid o d b Ha Hoid Hcf Hinv) as [Hinv' Hrec].
  destruct (apply_outcome _ _ _ _ _ _ _ _ _ (an_storable _ _ _ Ha) Happ) as [[Hs [err ->]]|[-> Hr]].
  - eapply inv_settles; [done| |done|left; destruct open; simplify_eq/=; done|].
    + rewrite <-Hoid. cbn. by rewrite <-Hs.
    + apply (inv_untouched d); [by split|done].
  - eapply inv_settles; [done| |done|by right|done].
    by rewrite (proj1 (proj2 (apply_spec_frame ev (event_id oid) (o_total_amount o) d))).
Qed.

(** Orders are never taken back, so collisions are a matter of the last state. *)
Lemma checkout_orders_mono e h p : orders_mono (checkout e h p).
Proof.
  apply orders_mono_transaction. unfold checkout_body, place, first. orders_mono_tac;
    unfold claim_key, previous_order, take_stock, charge_balance, select_email,
      insert_order, insert_item, insert_job, bind_key, insert_outbox, with_id; stmt_orders_le.
Qed.

Lemma apply_orders_mono e : orders_mono (applyOrderPlaced e).
Proof.
  apply orders_mono_transaction. unfold apply_body. orders_mono_tac;
    unfold insert_processed, insert_receipt; stmt_orders_le.
Qed.

Lemma step_orders s s' : step s s' → orders_le (sdb s) (sdb s').
Proof.
  intros [e h p pid bid φ t r t' d d' b _ _ _ _ Hrun|
    pub hook now n locked ret φ t r t' d d' b Hrun|open msg red st φ t h t' d d' b _ Hrun]; cbn.
  - by eapply checkout_orders_mono.
  - destruct (relay_frame _ _ _ _ _ _ _ _ _ _ _ _ Hrun) as [Hfr _].
    unfold orders_le. pose proof (untouched_rows _ _ Hfr) as (_ & _ & -> & _). done.
  - unfold handle in Hrun. destruct (m_content msg ≫= _) as [ev|];
      [|destruct open; simplify_eq; done].
    destruct (applyOrderPlaced ev φ t d) as [[r t1] d1] eqn:Happ.
    assert (d' = d1) as -> by (destruct r as [[]|]; [destruct open|destruct open|]; congruence).
    by eapply apply_orders_mono.
Qed.

Lemma step_invariant s s' : step s s' → collision_free (sdb s) → invariant s → invariant s'.
Proof.
  intros Hstep Hcf Hinv. destruct Hstep as [e h p pid bid φ t r t' d d' b Hreq Hob Hseq Hdate Hrun|
    pub hook now n locked ret φ t r t' d d' b Hrun|open msg red s φ t h t' d d' b Hh Hrun].
  - destruct (checkout_all_or_nothing _ _ _ _ _ _ _ _ _ _ _ (inv_db _ Hinv) Hreq Hob Hrun)
      as [[Hu _]|(pr & u & Hp & Hu & Hq & Haff & _ & -> & _)]; [by eapply inv_untouched|].
    by eapply inv_purchase.
  - by eapply inv_relay.
  - by eapply inv_deliver.
Qed.

Lemma collision_free_le d d' : orders_le d d' → collision_free d' → collision_free d.
Proof.
  intros Hle Hcf i j Hi Hj. apply Hcf; apply elem_of_dom, Hle, elem_of_dom; done.
Qed.

Lemma steps_invariant s s' : rtc step s s' → collision_free (sdb s') → invariant s → invariant s'.
Proof.
  intros Hsteps Hcf. assert (orders_le (sdb s) (sdb s') ∧ (invariant s → invariant s')) as [_ ?]; [|done].
  induction Hsteps as [s|s1 s2 s3 Hstep _ IH].
  - split; [reflexivity|auto].
  - destruct (IH Hcf) as [Hle IH']. clear IH. pose proof (step_orders _ _ Hstep). split; [by etrans|].
    intros Hinv. apply IH'. eapply step_invariant; [done| |done].
    eapply collision_free_le; [|done]. by etrans.
Qed.
End pipeline.

(** ** Properties *)

Section properties.
Context `{PgTextLaws, EventLibLaws, BrokerLaws}.

(** The system before the first order. *)
Definition start (s : system) : Prop :=
  db_ok (sdb s) ∧ orders (sdb s) = ∅ ∧ outbox (sdb s) = ∅ ∧ processed_messages (sdb s) = ∅ ∧
  order_receipts (sdb s) = ∅ ∧ ∀ m, ¬ holds (sbroker s) WORK_QUEUE m.

Lemma start_invariant s : start s → invariant s.
Proof.
  intros (Hok & Eo & Eb & Ep & Er & Hq). split; [done| | | | |].
  - intros oid o. by rewrite Eo, lookup_empty.
  - intros id row. by rewrite Eb, lookup_empty.
  - intros m Hm. by destruct (Hq m).
  - intros eid. rewrite Ep. set_solver.
  - intros id rc. by rewrite Er, lookup_empty.
Qed.

(** C8: no order is forgotten.  After any interleaving of checkouts, relay
    passes and deliveries, with any faults (lost commits, lost confirms,
    crashes between publish and mark or between effect and ack, redeliveries),
    the announcement of every order is still to be published, or in the work
    queue, or dead-lettered, or the order has its receipt; so when the first
    three are empty every order has its receipt. *)
Theorem pipeline_no_loss s0 s :
  start s0 → rtc step s0 s → collision_free (sdb s) →
  (∀ oid o, orders (sdb s) !! oid = Some o → ∃ id row ev,
     outbox (sdb s) !! id = Some row ∧ row_announces row ev oid o ∧
     (ob_published_at row = None ∨ holds (sbroker s) WORK_QUEUE (order_placed_message ev) ∨
      holds (sbroker s) DLQ (order_placed_message ev) ∨ receipted oid o (sdb s))) ∧
  ((∀ id row, outbox (sdb s) !! id = Some row → ob_published_at row ≠ None) →
   (∀ m, ¬ holds (sbroker s) WORK_QUEUE m ∧ ¬ holds (sbroker s) DLQ m) →
   ∀ oid o, orders (sdb s) !! oid = Some o → receipted oid o (sdb s)).
Proof.
  intros Hstart Hsteps Hcf. pose proof (steps_invariant _ _ Hsteps Hcf (start_invariant _ Hstart)) as Hinv.
  split; [apply Hinv|]. intros Hpub Hq oid o Hoid.
  destruct (inv_orders _ Hinv _ _ Hoid) as (id & row & ev & Hrow & _ & [Hn|[Hw|[Hd|?]]]); [| | |done].
  - by destruct (Hpub _ _ Hrow).
  - by destruct (proj1 (Hq _) Hw).
  - by destruct (proj2 (Hq _) Hd).
Qed.

(** C9: every receipt is right and single.  Whatever is delivered how many
    times, a receipt belongs to a placed order, names its buyer and its total
    to the cent (through the float in the event), and no two receipts name the
    same order. *)
Theorem pipeline_receipts_exact s0 s :
  start s0 → rtc step s0 s → collision_free (sdb s) →
  (∀ id rc, order_receipts (sdb s) !! id = Some rc → ∃ oid o,
     orders (sdb s) !! oid = Some o ∧ rc_order_id rc = pretty oid ∧
     bigint_in (rc_buyer_id rc) = Some (o_buyer_id o) ∧ rc_total_amount rc = o_total_amount o) ∧
  (∀ i j a b, order_receipts (sdb s) !! i = Some a → order_receipts (sdb s) !! j = Some b →
     rc_order_id a = rc_order_id b → i = j).
Proof.
  intros Hstart Hsteps Hcf. pose proof (steps_invariant _ _ Hsteps Hcf (start_invariant _ Hstart)) as Hinv.
  split.
  - intros id rc Hrc. destruct (inv_receipts _ Hinv _ _ Hrc) as (oid & o & Ho & -> & rc' & Hrc' & ? & ? & ?).
    simplify_eq. eauto 10.
  - intros i j a b Hi Hj Heq. eapply (ok_receipts _ (inv_db _ Hinv) i j); [done|done|done|by rewrite Heq].
Qed.
End properties.

(** ** A concrete broker and a concrete run *)

Section pipeline_witnesses.
#[local] Existing Instance fix_text.
#[local] Existing Instance fix_events.
#[local] Existing Instance fix_text_laws.
#[local] Existing Instance fix_events_laws.

Definition message_eqb (m m' : message) : bool :=
  String.eqb (m_key m) (m_key m') && bool_decide (m_messageId m = m_messageId m') &&
  bool_decide (m_type m = m_type m') &&
  match m_content m, m_content m' with
  | Some x, Some y => json_eqb x y
  | None, None => true
  | _, _ => false
  end.

Lemma message_eqb_eq m m' : message_eqb m m' = true → m = m'.
Proof.
  destruct m as [k c i t], m' as [k' c' i' t']. unfold message_eqb. cbn.
  intros [[[->%String.eqb_eq ->%bool_decide_eq_true]%andb_true_iff ->%bool_decide_eq_true]%andb_true_iff Hc]%andb_true_iff.
  destruct c, c'; try done. by apply json_eqb_eq in Hc as ->.
Qed.

(** Queues as one list: an ack drops the first copy of the message from the
    work queue, a reject without requeue moves it to the dead-letter queue, a
    requeue leaves it. *)
Fixpoint drop_first (m : message) (l : list (string * message)) : list (string * message) :=
  match l with
  | [] => []
  | (q, m') :: l =>
      if String.eqb q WORK_QUEUE && message_eqb m' m then l else (q, m') :: drop_first m l
  end.

Definition fix_broker : Broker := {|
  bstate := list (string * message);
  holds b q m := (q, m) ∈ b;
  accept m b := (if String.eqb (m_key m) ROUTING_KEY_ORDER_PLACED then WORK_QUEUE else UNROUTABLE_QUEUE, m) :: b;
  settle s m b :=
    match s with
    | Ack => drop_first m b
    | Reject true => b
    | Reject false => (DLQ, m) :: drop_first m b
    end;
|}.

Lemma drop_first_keeps m l q m' : (q, m') ∈ l → (q ≠ WORK_QUEUE ∨ m' ≠ m) → (q, m') ∈ drop_first m l.
Proof.
  intros Hin Hne. induction l as [|[q0 m0] l IH]; [done|]. cbn.
  destruct (String.eqb q0 WORK_QUEUE && message_eqb m0 m) eqn:He.
  - apply andb_true_iff in He as [->%String.eqb_eq ->%message_eqb_eq].
    apply elem_of_cons in Hin as [[= -> ->]|]; [|done]. by destruct Hne.
  - apply elem_of_cons in Hin as [->|]; [left|right; auto].
Qed.

Lemma drop_first_only m l x : x ∈ drop_first m l → x ∈ l.
Proof.
  induction l as [|[q0 m0] l IH]; [done|]. cbn. case_match; [by right|].
  intros [->|Hin]%elem_of_cons; [left|right; auto].
Qed.

Lemma fix_broker_laws : @BrokerLaws fix_broker.
Proof.
  split; cbn.
  - intros b m ->. rewrite String.eqb_refl. left.
  - intros b m q m' Hin. by right.
  - intros b m m' [Heq|Hin]%elem_of_cons; [left; congruence|by right].
  - intros b [|[]] m m' Hin Hne; [|done|right]; apply drop_first_keeps; auto.
  - intros b [] m Hin; [by left|right; left].
  - intros b [|[]] m m' Hin; [|done|right]; apply drop_first_keeps; auto; by left.
  - intros b [|[]] m m'; [apply drop_first_only|done|].
    intros [[=]|Hin]%elem_of_cons. by eapply drop_first_only.
Qed.
#[local] Existing Instance fix_broker.
#[local] Existing Instance fix_broker_laws.

(** Buy, lose the answer of the COMMIT, relay, relay again, deliver twice. *)
Definition relayed (d : db) : result RelayPass * nat * db :=
  relayOnce (λ _, Confirmed 0) (λ _, None) 77 50 ∅ 0 no_fault 0%nat d.
Definition relayed_sent (d : db) := relay_sent (λ _, Confirmed 0) (λ _, None) 50 ∅ 0 no_fault 0%nat d.

Definition no_messages : @bstate fix_broker := @nil (string * message).
Definition s0 : system := System fix_db no_messages.
Definition s1 : system := System after_lost no_messages.
Definition s2 : system := System (relayed after_lost).2 (broker_takes (relayed_sent after_lost) no_messages).
Definition bought : message := snd (List.hd (WORK_QUEUE, Message "" None None None) (sbroker s2)).
Definition delivery : handled * nat * db := handle true bought false no_stats no_fault 0%nat (sdb s2).
Definition s3 : system := System delivery.2 (broker_settles (h_settled delivery.1.1) bought (sbroker s2)).

Lemma s0_start : start s0.
Proof.
  split; [exact fix_db_ok|]. split_and!; try reflexivity. intros m. cbn. apply not_elem_of_nil.
Qed.

Lemma s0_steps : rtc step s0 s3.
Proof.
  eapply rtc_l; [|eapply rtc_l; [|eapply rtc_l; [|apply rtc_refl]]].
  - destruct lost_commit_run as [t Hrun].
    apply (step_checkout (buy_env 0) no_hook buy 7 1 lost_commit 0%nat lost_error t fix_db after_lost no_messages);
      [exact buy_ok|reflexivity|reflexivity|vm_compute; split; congruence|exact Hrun].
  - apply (step_relay (λ _, Confirmed 0) (λ _, None) 77 50 ∅ 0 no_fault 0%nat
      (relayed after_lost).1.1 (relayed after_lost).1.2 after_lost (relayed after_lost).2 no_messages).
    vm_compute. reflexivity.
  - apply (step_deliver true bought false no_stats no_fault 0%nat delivery.1.1 delivery.1.2).
    + vm_compute. left.
    + vm_compute. reflexivity.
Qed.

Lemma s3_collision_free : collision_free (sdb s3).
Proof.
  assert (H : ∀ i, is_Some (orders (sdb s3) !! i) → i = 1).
  { intros i [o Ho]. assert (orders (sdb s3) = {[ 1 := OrderRow 1 "ada@example.com" paid 2598 1000 ]}) as E
      by (vm_compute; reflexivity).
    rewrite E in Ho. by apply lookup_singleton_Some in Ho as [-> _]. }
  intros i j Hi Hj _. by rewrite (H i Hi), (H j Hj).
Qed.

(** The lost answer notwithstanding, the order has its receipt, and the queue is empty. *)
Lemma pipeline_no_loss_witness : sbroker s3 = [] ∧ receipted 1 (OrderRow 1 "ada@example.com" paid 2598 1000) (sdb s3).
Proof.
  assert (Hb : sbroker s3 = []) by (vm_compute; reflexivity). split; [exact Hb|].
  apply (proj2 (pipeline_no_loss s0 s3 s0_start s0_steps s3_collision_free)).
  - intros id row Hrow.
    assert (Hall : map_Forall (λ _ r, ob_published_at r ≠ None) (outbox (sdb s3))).
    { apply (bool_decide_eq_true_1 _). vm_compute. reflexivity. }
    exact (Hall id row Hrow).
  - intros m. rewrite Hb. split; apply not_elem_of_nil.
  - vm_compute. reflexivity.
Defined.

Lemma pipeline_receipts_exact_witness : ∃ rc,
  order_receipts (sdb s3) !! event_id 1 = Some rc ∧ rc_total_amount rc = 2598.
Proof.
  destruct (order_receipts (sdb s3) !! event_id 1) as [rc|] eqn:Hrc; [|vm_compute in Hrc; discriminate].
  exists rc. split; [reflexivity|].
  destruct (proj1 (pipeline_receipts_exact s0 s3 s0_start s0_steps s3_collision_free) (event_id 1) rc Hrc)
    as (oid & o & Ho & _ & _ & ->).
  assert (E : orders (sdb s3) = {[ 1 := OrderRow 1 "ada@example.com" paid 2598 1000 ]}) by (vm_compute; reflexivity).
  rewrite E in Ho. apply lookup_singleton_Some in Ho as [_ <-]. reflexivity.
Defined.
End pipeline_witnesses.
