(* ===== verification/Token.v ===== *)
(** Access tokens and passwords: src/auth/token.service.ts,
    src/auth/auth.types.ts and src/auth/password.ts.  jsonwebtoken and
    node:crypto are classes with their documented behaviour. *)
From S2P Require Import Prelude JsNumber Events Schema Fixtures.
From stdpp Require Import pretty countable.
From Stdlib Require Import Ascii.
#[local] Open Scope Z_scope.

(** ** Roles *)

Definition role_text (r : role) : string :=
  match r with customer => "customer" | seller => "seller" | admin => "admin" end.

(** [ROLES.includes(role)], with the role it is. *)
Definition role_of (s : string) : option role :=
  if String.eqb s "customer" then Some customer
  else if String.eqb s "seller" then Some seller
  else if String.eqb s "admin" then Some admin
  else None.

Lemma role_of_text r : role_of (role_text r) = Some r.
Proof. by destruct r. Qed.

(** What the guard puts in [req.user]. *)
Record AuthUser := AuthUserOf {
  au_id : string;
  au_role : role;
  au_jti : string;
  au_exp : num;
  au_fid : string;
}.

(** ** JSON Web Tokens *)

Definition ISSUER : string := "marketplace-api".
Definition AUDIENCE : string := "marketplace-clients".
Definition ALLOWED_ALGORITHMS : list string := ["ES256"].

(** The first argument and the options [TokenService.sign] gives [jwt.sign]. *)
Record sign_options := SignOptions {
  so_role : string;
  so_fid : string;
  so_algorithm : string;
  so_keyid : string;
  so_subject : string;
  so_issuer : string;
  so_audience : string;
  so_expiresIn : Z;
  so_jwtid : string;
}.

Record verify_options := VerifyOptions {
  vo_algorithms : list string;
  vo_issuer : string;
  vo_audience : string;
}.

(** Outcomes of [jwt.verify]: the payload, [TokenExpiredError], any other error. *)
Inductive jwt_result :=
| JwtPayload (payload : json)
| JwtExpired
| JwtInvalid.

(** jsonwebtoken, and the key objects of node:crypto.  Times are milliseconds.
    [jwt_decode_kid]: [decoded?.header.kid]; [jwt_decode]: the unverified payload. *)
Class JwtLib := {
  private_key : Type;
  public_key : Type;
  key_pair : private_key → public_key → Prop;
  createPrivateKey : string → option private_key;
  createPublicKey : string → option public_key;
  fromB64 : string → string;
  jwt_sign : private_key → sign_options → Z → string;
  jwt_decode : string → option json;
  jwt_decode_kid : string → option string;
  jwt_verify : public_key → verify_options → Z → string → jwt_result;
}.

(** The payload of a signed token: the claims and the registered ones. *)
Definition signed_payload (o : sign_options) (now : Z) : json :=
  let iat := now / 1000 in
  JObj [("role", JStr (so_role o)); ("fid", JStr (so_fid o)); ("iat", JNum (num_of_Z iat));
        ("exp", JNum (num_of_Z (iat + so_expiresIn o))); ("aud", JStr (so_audience o));
        ("iss", JStr (so_issuer o)); ("sub", JStr (so_subject o)); ("jti", JStr (so_jwtid o))].

(** Instants whose seconds are exact as numbers. *)
Definition sane_exp (o : sign_options) (now : Z) : Prop := 0 ≤ now / 1000 + so_expiresIn o < 2 ^ 53.

Class JwtLaws `{JwtLib} := {
  decode_signed : ∀ sk o now, jwt_decode (jwt_sign sk o now) = Some (signed_payload o now);
  decode_kid_signed : ∀ sk o now, jwt_decode_kid (jwt_sign sk o now) = Some (so_keyid o);
  verify_signed : ∀ sk pk o now vo now',
    key_pair sk pk → so_algorithm o ∈ vo_algorithms vo → so_issuer o = vo_issuer vo →
    so_audience o = vo_audience vo → sane_exp o now →
    jwt_verify pk vo now' (jwt_sign sk o now) =
      if now' / 1000 <? now / 1000 + so_expiresIn o then JwtPayload (signed_payload o now) else JwtExpired;
  (** what [verify] returns is what [decode] reads *)
  verify_decodes : ∀ pk vo now token p, jwt_verify pk vo now token = JwtPayload p → jwt_decode token = Some p;
  (** a verified token has not expired *)
  verify_unexpired : ∀ pk vo now token p x z,
    jwt_verify pk vo now token = JwtPayload p → jnum p "exp" = Some x → num_to_Z x = Some z → now / 1000 < z;
}.

(** ** TokenService *)

Inductive token_error := TokenExpired | TokenInvalid (message : string).

Section token.
Context `{JwtLib}.

Record VerifiedClaims := Claims { c_sub : string; c_role : role; c_jti : string; c_exp : num; c_fid : string }.

Record TokenService := Service {
  privateKey : private_key;
  kid : string;
  verifyKeys : gmap string public_key;
  accessTtlSec : Z;
}.

(** [sign]: the token, its [jti] (the argument) and its [exp], read back. *)
Definition sign (s : TokenService) (now : Z) (jti sub : string) (r : role) (fid : string) :
    string * string * option num :=
  let token := jwt_sign (privateKey s)
    (SignOptions (role_text r) fid "ES256" (kid s) sub ISSUER AUDIENCE (accessTtlSec s) jti) now in
  (token, jti, p ← jwt_decode token; jnum p "exp").

(** [typeof] checks on the payload. *)
Definition claims_of (p : json) : option VerifiedClaims :=
  sub ← jstr p "sub"; jti ← jstr p "jti"; exp ← jnum p "exp"; fid ← jstr p "fid";
  r ← jstr p "role" ≫= role_of;
  Some (Claims sub r jti exp fid).

Definition verify (s : TokenService) (now : Z) (token : string) : token_error + VerifiedClaims :=
  let key := k ← jwt_decode_kid token; if String.eqb k "" then None else verifyKeys s !! k in
  match key with
  | None => inl (TokenInvalid "невідомий kid")
  | Some key =>
      match jwt_verify key (VerifyOptions ALLOWED_ALGORITHMS ISSUER AUDIENCE) now token with
      | JwtExpired => inl TokenExpired
      | JwtInvalid => inl (TokenInvalid "підпис або клейми не пройшли перевірку")
      | JwtPayload (JStr _) => inl (TokenInvalid "payload не обʼєкт")
      | JwtPayload p =>
          match claims_of p with
          | Some c => inr c
          | None => inl (TokenInvalid "відсутні обовʼязкові клейми")
          end
      end
  end.

Record token_config := TokenConfig {
  JWT_KID : string;
  JWT_PRIVATE_KEY : string;
  JWT_PUBLIC_KEY : string;
  JWT_PREVIOUS_KID : option string;
  JWT_PREVIOUS_PUBLIC_KEY : option string;
  ACCESS_TOKEN_TTL_SEC : Z;
}.

Definition key_mismatch : exn :=
  JsError "JWT_PUBLIC_KEY не відповідає JWT_PRIVATE_KEY (або JWT_KID) — пара ключів розсинхронізована".

Definition key_or_throw {A} (k : option A) : result A :=
  match k with Some k => Ok k | None => Err (JsError "ERR_OSSL") end.

(** The constructor, with the token it signs and verifies at start. *)
Definition TokenService_new (c : token_config) (now : Z) (probe : string) : result TokenService :=
  (sk <-! key_or_throw (createPrivateKey (fromB64 (JWT_PRIVATE_KEY c)));;
   pk <-! key_or_throw (createPublicKey (fromB64 (JWT_PUBLIC_KEY c)));;
   keys <-! match truthy (JWT_PREVIOUS_KID c), truthy (JWT_PREVIOUS_PUBLIC_KEY c) with
            | Some prevKid, Some prevPub =>
                rbind (key_or_throw (createPublicKey (fromB64 prevPub)))
                  (λ k, Ok (<[prevKid := k]> {[ JWT_KID c := pk ]}))
            | _, _ => Ok {[ JWT_KID c := pk ]}
            end;;
   let s := Service sk (JWT_KID c) keys (ACCESS_TOKEN_TTL_SEC c) in
   match verify s now (sign s now probe "0" customer probe).1.1 with
   | inr _ => Ok s
   | inl _ => Err key_mismatch
   end)%res.

(** ** Facts *)

Context `{!JwtLaws}.

Definition sane_ttl (s : TokenService) (now : Z) : Prop := 0 ≤ now / 1000 + accessTtlSec s < 2 ^ 53.

(** A token of service [s] seen by service [v] that knows its key. *)
Lemma verify_sign s v pk now now' jti sub r fid :
  key_pair (privateKey s) pk → kid s ≠ "" → verifyKeys v !! kid s = Some pk → sane_ttl s now →
  verify v now' (sign s now jti sub r fid).1.1 =
    if now' / 1000 <? now / 1000 + accessTtlSec s
    then inr (Claims sub r jti (num_of_Z (now / 1000 + accessTtlSec s)) fid) else inl TokenExpired.
Proof.
  intros Hpair Hkid Hkey Httl. unfold verify, sign. cbn [fst]. rewrite decode_kid_signed. cbn.
  apply String.eqb_neq in Hkid. rewrite Hkid, Hkey.
  rewrite (verify_signed _ pk) by (try done; by left).
  destruct (_ <? _); [|done]. unfold claims_of. cbn. by rewrite role_of_text.
Qed.

Lemma verify_claims v now token c :
  verify v now token = inr c → ∃ p, jwt_decode token = Some p ∧ claims_of p = Some c.
Proof.
  unfold verify. destruct (_ ≫= _) as [k|]; [|done].
  destruct (jwt_verify _ _ _ _) as [p| |] eqn:Hv; try done. apply verify_decodes in Hv.
  destruct p; try done; destruct (claims_of _) as [c'|] eqn:Hcl; try done; intros [= <-]; eauto.
Qed.

Lemma verify_same v v' now now' token c c' :
  verify v now token = inr c → verify v' now' token = inr c' → c = c'.
Proof. intros (p & Hp & Hc)%verify_claims (p' & Hp' & Hc')%verify_claims. congruence. Qed.

Lemma verify_not_expired v now token c z :
  verify v now token = inr c → num_to_Z (c_exp c) = Some z → now / 1000 < z.
Proof.
  unfold verify. destruct (_ ≫= _) as [k|]; [|done].
  destruct (jwt_verify _ _ _ _) as [p| |] eqn:Hv; try done.
  assert (∀ c, claims_of p = Some c → num_to_Z (c_exp c) = Some z → now / 1000 < z) as Hc.
  { intros c'. unfold claims_of. destruct (jstr p "sub"), (jstr p "jti"); try done. cbn.
    destruct (jnum p "exp") as [x|] eqn:Hx; [|done]. destruct (jstr p "fid"); [|done]. cbn.
    destruct (jstr p "role" ≫= role_of); [|done]. intros [= <-] Hz. by eapply verify_unexpired. }
  destruct p; try done; destruct (claims_of _) as [c'|] eqn:Hcl; try done; intros [= <-]; eauto.
Qed.
End token.

(** ** Passwords *)

(** scrypt, the random salt and base64 are node:crypto and Buffer. *)
Class CryptoLib := {
  scrypt : string → list Z → nat → list Z;
  base64 : list Z → string;
  unbase64 : string → list Z;
}.

Definition has_dollar (s : string) : bool :=
  existsb (λ c, (N_of_ascii c =? 36)%N) (String.list_ascii_of_string s).

Class CryptoLaws `{CryptoLib} := {
  scrypt_length : ∀ p s n, length (scrypt p s n) = n;
  unbase64_base64 : ∀ b, Forall is_byte b → unbase64 (base64 b) = b;
  scrypt_bytes : ∀ p s n, Forall is_byte (scrypt p s n);
  base64_text : ∀ b, b ≠ [] → Forall is_byte b → base64 b ≠ "" ∧ has_dollar (base64 b) = false;
}.

Definition KEYLEN : nat := 64.

(** [s.split('$')] *)
Fixpoint split_dollar (s : string) : list string :=
  match s with
  | EmptyString => [EmptyString]
  | String c s =>
      if (N_of_ascii c =? 36)%N then EmptyString :: split_dollar s
      else match split_dollar s with
           | [] => [String c EmptyString]
           | x :: l => String c x :: l
           end
  end.

Section password.
Context `{CryptoLib}.

Definition hashPassword (salt : list Z) (password : string) : string :=
  let key := scrypt password salt KEYLEN in
  "scrypt$" +:+ base64 salt +:+ "$" +:+ base64 key.

(** [dummy]: the stand-in hash of the process. *)
Definition verifyPassword (dummy password : string) (stored : option string) : bool :=
  let hash := default dummy stored in
  match split_dollar hash with
  | scheme :: saltB64 :: keyB64 :: _ =>
      if negb (String.eqb scheme "scrypt") || String.eqb saltB64 "" || String.eqb keyB64 "" then false else
      let expected := unbase64 keyB64 in
      let actual := scrypt password (unbase64 saltB64) (length expected) in
      let match_ := bool_decide (actual = expected) in
      bool_decide (is_Some stored) && match_
  | _ => false
  end.

Lemma split_dollar_plain a s : has_dollar a = false → split_dollar (a +:+ String "$" s) = a :: split_dollar s.
Proof.
  induction a as [|c a IH]; intros Ha; [done|]. unfold has_dollar in *.
  change (String c a +:+ String "$" s) with (String c (a +:+ String "$" s)).
  cbn [split_dollar String.list_ascii_of_string existsb] in Ha |- *.
  apply orb_false_iff in Ha as [-> Ha]. by rewrite (IH Ha).
Qed.

Lemma split_dollar_last a : has_dollar a = false → split_dollar a = [a].
Proof.
  induction a as [|c a IH]; intros Ha; [done|]. unfold has_dollar in *.
  cbn [String.append split_dollar String.list_ascii_of_string existsb] in Ha |- *.
  apply orb_false_iff in Ha as [-> Ha]. by rewrite (IH Ha).
Qed.

Context `{!CryptoLaws}.

Lemma verify_hashed dummy salt p p' :
  salt ≠ [] → Forall is_byte salt →
  verifyPassword dummy p' (Some (hashPassword salt p)) = bool_decide (scrypt p' salt KEYLEN = scrypt p salt KEYLEN).
Proof.
  intros Hs Hb. set (key := scrypt p salt KEYLEN).
  assert (Hk : key ≠ []) by (intros Hk; pose proof (scrypt_length p salt KEYLEN) as Hl; fold key in Hl; by rewrite Hk in Hl).
  destruct (base64_text salt Hs Hb) as [Hs1 Hs2], (base64_text key Hk (scrypt_bytes _ _ _)) as [Hk1 Hk2].
  unfold verifyPassword, hashPassword. cbv zeta. fold key. cbn [default from_option id].
  change ("scrypt$" +:+ base64 salt +:+ "$" +:+ base64 key) with ("scrypt" +:+ String "$" (base64 salt +:+ String "$" (base64 key))).
  rewrite split_dollar_plain by done. rewrite split_dollar_plain by done. rewrite split_dollar_last by done.
  apply String.eqb_neq in Hs1, Hk1. rewrite Hs1, Hk1. cbn [negb orb String.eqb].
  rewrite !unbase64_base64 by (try done; apply scrypt_bytes).
  assert (length key = KEYLEN) as -> by apply scrypt_length. done.
Qed.
End password.

(** ** Properties *)

Section properties.
Context `{JwtLaws}.

Lemma new_service c now probe v :
  TokenService_new c now probe = Ok v → kid v = JWT_KID c ∧ accessTtlSec v = ACCESS_TOKEN_TTL_SEC c ∧
  (∀ prev pub k, truthy (JWT_PREVIOUS_KID c) = Some prev → truthy (JWT_PREVIOUS_PUBLIC_KEY c) = Some pub →
     createPublicKey (fromB64 pub) = Some k → verifyKeys v !! prev = Some k).
Proof.
  unfold TokenService_new, rbind, key_or_throw.
  destruct (createPrivateKey _) as [sk|]; [|done]. destruct (createPublicKey (fromB64 (JWT_PUBLIC_KEY c))) as [pk|]; [|done].
  destruct (truthy (JWT_PREVIOUS_KID c)) as [prev|]; [|destruct (verify _ _ _); [done|]; intros [= <-]; cbn; by split_and!].
  destruct (truthy (JWT_PREVIOUS_PUBLIC_KEY c)) as [pub|];
    [|destruct (verify _ _ _); [done|]; intros [= <-]; cbn; by split_and!].
  destruct (createPublicKey (fromB64 pub)) as [k|] eqn:Hk; [|done].
  destruct (verify _ _ _); [done|]. intros [= <-]. cbn. split_and!; try done.
  intros prev' pub' k' [= <-] [= <-] Hk'. rewrite lookup_insert_eq. congruence.
Qed.

(** C25: keys rotate without logging anyone out.  A token signed before the
    rotation is accepted, with the claims it was signed with, by a service that
    starts with the old key as its previous one, until the token expires and
    not a second longer. *)
Theorem key_rotation_overlap old pk c now0 probe v now now' jti sub r fid pub :
  TokenService_new c now0 probe = Ok v →
  truthy (JWT_PREVIOUS_KID c) = Some (kid old) → truthy (JWT_PREVIOUS_PUBLIC_KEY c) = Some pub →
  createPublicKey (fromB64 pub) = Some pk → key_pair (privateKey old) pk → sane_ttl old now →
  verify v now' (sign old now jti sub r fid).1.1 =
    if now' / 1000 <? now / 1000 + accessTtlSec old
    then inr (Claims sub r jti (num_of_Z (now / 1000 + accessTtlSec old)) fid) else inl TokenExpired.
Proof.
  intros (_ & _ & Hkeys)%new_service Hprev Hpub Hpk Hpair Httl.
  apply (verify_sign old v pk); [done| |by eapply Hkeys|done].
  intros Hk. rewrite Hk in Hprev. unfold truthy in Hprev. by destruct (JWT_PREVIOUS_KID c) as [[]|].
Qed.
End properties.

Section password_properties.
Context `{CryptoLaws}.

(** A stored hash accepts exactly the passwords with the same scrypt key
    under its salt, the hashed one among them; a user without a hash accepts
    none, not even the password of the stand-in hash. *)
Theorem verifyPassword_hashPassword dummy salt p p' :
  salt ≠ [] → Forall is_byte salt →
  (verifyPassword dummy p' (Some (hashPassword salt p)) = true ↔ scrypt p' salt KEYLEN = scrypt p salt KEYLEN) ∧
  verifyPassword dummy p (Some (hashPassword salt p)) = true ∧
  verifyPassword dummy p' None = false.
Proof.
  intros Hs Hb. rewrite !verify_hashed by done. split; [apply bool_decide_eq_true|].
  split; [by apply bool_decide_eq_true|].
  unfold verifyPassword. cbv zeta. destruct (split_dollar _) as [|? [|? [|? ?]]]; try done. by case_match.
Qed.
End password_properties.

(** ** Concrete libraries *)

Section fix_jwt.
Definition unhex_char (c : ascii) : Z :=
  let n := Z.of_N (N_of_ascii c) in if n <? 58 then n - 48 else n - 87.
Fixpoint unhex (s : list ascii) : list Z :=
  match s with a :: b :: s => 16 * unhex_char a + unhex_char b :: unhex s | _ => [] end.

Lemma unhex_hex b : Forall is_byte b → unhex (hex b) = b.
Proof.
  induction 1 as [|x b Hx _ IH]; [done|]. change (hex (x :: b)) with (hex_byte x ++ hex b). cbn.
  rewrite IH. f_equal.
  assert ((16 * unhex_char (hex_char (x / 16)) + unhex_char (hex_char (x mod 16)) =? x) = true) as He.
  { by apply (forallb_seqZ (λ x, 16 * unhex_char (hex_char (x / 16)) + unhex_char (hex_char (x mod 16)) =? x) 0 256). }
  by apply Z.eqb_eq in He.
Qed.

Lemma hex_no_dollar l : forallb is_hex l = true → has_dollar (String.string_of_list_ascii l) = false.
Proof.
  induction l as [|c l IH]; [done|]. cbn [forallb]. intros [Hc Hl]%andb_true_iff.
  unfold has_dollar in *. cbn [String.string_of_list_ascii String.list_ascii_of_string existsb].
  rewrite (IH Hl), orb_false_r. apply N.eqb_neq. intros He. unfold is_hex in Hc. rewrite He in Hc. done.
Qed.

(** A text as the hex of its bytes, and back. *)
Definition field (s : string) : string :=
  String.string_of_list_ascii (hex ((λ c, Z.of_N (N_of_ascii c)) <$> String.list_ascii_of_string s)).
Definition unfield (s : string) : string :=
  String.string_of_list_ascii ((λ z, ascii_of_N (Z.to_N z)) <$> unhex (String.list_ascii_of_string s)).

Lemma bytes_ok s : Forall is_byte ((λ c, Z.of_N (N_of_ascii c)) <$> String.list_ascii_of_string s).
Proof.
  apply Forall_fmap, Forall_true. intros c. unfold is_byte. cbn. pose proof (N_ascii_bounded c). lia.
Qed.
Lemma unfield_field s : unfield (field s) = s.
Proof.
  unfold unfield, field. rewrite String.list_ascii_of_string_of_list_ascii, unhex_hex by apply bytes_ok.
  rewrite <-(String.string_of_list_ascii_of_string s) at 2. f_equal. rewrite <-list_fmap_compose.
  rewrite <-(list_fmap_id (String.list_ascii_of_string s)) at 2. apply list_fmap_ext. intros i c _. cbn.
  by rewrite N2Z.id, ascii_N_embedding.
Qed.
Lemma field_no_dollar s : has_dollar (field s) = false.
Proof. apply hex_no_dollar, hex_all, bytes_ok. Qed.

(** Nonnegative integers as decimal texts, the others with a sign. *)
Definition int_text (z : Z) : string := if z <? 0 then "-" +:+ pretty (Z.to_N (- z)) else "+" +:+ pretty (Z.to_N z).
Definition int_read (s : string) : option Z :=
  match s with
  | String c s => if Ascii.eqb c "-" then Z.opp <$> digits_val 0 s else digits_val 0 s
  | EmptyString => None
  end.
Lemma int_read_text z : int_read (int_text z) = Some z.
Proof.
  unfold int_text, int_read. destruct (Z.ltb_spec z 0).
  - change (Z.opp <$> digits_val 0 (pretty (Z.to_N (- z))) = Some z).
    rewrite digits_val_N. cbn. f_equal. lia.
  - change (digits_val 0 (pretty (Z.to_N z)) = Some z).
    rewrite digits_val_N. cbn. f_equal. lia.
Qed.

Fixpoint join_dollar (l : list string) : string :=
  match l with
  | [] => ""
  | [x] => field x
  | x :: l => field x +:+ String "$" (join_dollar l)
  end.
Lemma split_join x l : split_dollar (join_dollar (x :: l)) = field <$> (x :: l).
Proof.
  revert x. induction l as [|y l IH]; intros x.
  - apply split_dollar_last, field_no_dollar.
  - change (join_dollar (x :: y :: l)) with (field x +:+ String "$" (join_dollar (y :: l))).
    rewrite split_dollar_plain by apply field_no_dollar. by rewrite IH.
Qed.

Definition token_text (sk : string) (o : sign_options) (now : Z) : string :=
  join_dollar [sk; so_role o; so_fid o; so_algorithm o; so_keyid o; so_subject o; so_issuer o; so_audience o;
    so_jwtid o; int_text (so_expiresIn o); int_text now].
Definition token_read (s : string) : option (string * sign_options * Z) :=
  match unfield <$> split_dollar s with
  | [sk; r; f; a; k; su; i; au; j; e; n] =>
      e ← int_read e; n ← int_read n; Some (sk, SignOptions r f a k su i au e j, n)
  | _ => None
  end.

Lemma token_read_text sk o now : token_read (token_text sk o now) = Some (sk, o, now).
Proof.
  unfold token_read, token_text. rewrite split_join. rewrite <-list_fmap_compose.
  rewrite (list_fmap_ext _ id) by (intros i x _; apply unfield_field). rewrite list_fmap_id.
  cbv beta iota. rewrite !int_read_text. cbn. by destruct o.
Qed.

Definition sane_exp_bool (o : sign_options) (now : Z) : bool :=
  (0 <=? now / 1000 + so_expiresIn o) && (now / 1000 + so_expiresIn o <? 2 ^ 53).

(** Tokens that carry their signing key: good enough to satisfy the laws. *)
Definition fix_jwt : JwtLib := {|
  private_key := string; public_key := string; key_pair := eq;
  createPrivateKey s := Some s; createPublicKey s := Some s; fromB64 s := s;
  jwt_sign := token_text;
  jwt_decode t := x ← token_read t; Some (signed_payload x.1.2 x.2);
  jwt_decode_kid t := x ← token_read t; Some (so_keyid x.1.2);
  jwt_verify pk vo now t :=
    match token_read t with
    | Some (sk, o, iat) =>
        if bool_decide (sk = pk ∧ so_algorithm o ∈ vo_algorithms vo ∧ so_issuer o = vo_issuer vo ∧
                        so_audience o = vo_audience vo) && sane_exp_bool o iat
        then if now / 1000 <? iat / 1000 + so_expiresIn o then JwtPayload (signed_payload o iat) else JwtExpired
        else JwtInvalid
    | None => JwtInvalid
    end;
|}.

Lemma fix_jwt_laws : @JwtLaws fix_jwt.
Proof.
  split; cbn -[token_read token_text signed_payload].
  - intros sk o now. by rewrite token_read_text.
  - intros sk o now. by rewrite token_read_text.
  - intros sk pk o now vo now' Hk Ha Hi Hau [H1 H2]. rewrite token_read_text.
    rewrite bool_decide_eq_true_2 by done. unfold sane_exp_bool.
    by rewrite (proj2 (Z.leb_le _ _)), (proj2 (Z.ltb_lt _ _)) by done.
  - intros pk vo now t p. destruct (token_read t) as [[[sk o] iat]|]; [|done].
    destruct (_ && _); [|done]. destruct (_ <? _); [|done]. by intros [= <-].
  - intros pk vo now t p x z. destruct (token_read t) as [[[sk o] iat]|]; [|done].
    destruct (_ && _) eqn:Hs; [|done]. destruct (Z.ltb_spec (now / 1000) (iat / 1000 + so_expiresIn o)); [|done].
    intros [= <-]. unfold jnum. cbn. intros [= <-].
    apply andb_true_iff in Hs as [_ Hs]. unfold sane_exp_bool in Hs. zify_bools.
    unfold num_of_Z. rewrite rnd_int_exact by lia. intros [= <-]. done.
Qed.

Definition fix_crypto : CryptoLib := {|
  scrypt p s n := replicate n (Z.of_nat (String.length p + length s) mod 256);
  base64 b := String.string_of_list_ascii (hex b);
  unbase64 s := unhex (String.list_ascii_of_string s);
|}.

Lemma fix_crypto_laws : @CryptoLaws fix_crypto.
Proof.
  split; cbn.
  - intros. apply length_replicate.
  - intros b Hb. rewrite String.list_ascii_of_string_of_list_ascii. by apply unhex_hex.
  - intros. apply Forall_replicate. unfold is_byte. apply Z.mod_pos_bound. lia.
  - intros b Hb Hall. destruct (hex_all b Hall) as [Hh Hl]. split; [|by apply hex_no_dollar].
    destruct b as [|x b]; [done|]. done.
Qed.
End fix_jwt.

Section token_witnesses.
#[local] Existing Instance fix_jwt.
#[local] Existing Instance fix_jwt_laws.
#[local] Existing Instance fix_crypto.
#[local] Existing Instance fix_crypto_laws.

Definition old_service : TokenService := Service "key-1" "k1" {[ "k1" := "key-1" ]} 900.
Definition new_config : token_config := TokenConfig "k2" "key-2" "key-2" (Some "k1") (Some "key-1") 900.
Definition new_service_run : result TokenService := TokenService_new new_config 5000 "probe".
Definition new_svc : TokenService := match new_service_run with Ok v => v | Err _ => old_service end.

Lemma new_svc_starts : new_service_run = Ok new_svc.
Proof.
  assert (H : match new_service_run with Ok _ => true | Err _ => false end = true) by (vm_compute; reflexivity).
  unfold new_svc. by destruct new_service_run.
Qed.

Lemma key_rotation_overlap_witness :
  verify new_svc 60000 (sign old_service 5000 "j" "42" seller "f").1.1
    = inr (Claims "42" seller "j" (num_of_Z 905) "f").
Proof.
  assert (Httl : sane_ttl old_service 5000) by (vm_compute; split; congruence).
  pose proof (key_rotation_overlap old_service "key-1" new_config 5000 "probe" new_svc 5000 60000 "j" "42" seller "f" "key-1"
    new_svc_starts eq_refl eq_refl eq_refl eq_refl Httl) as H.
  exact H.
Defined.

Lemma verifyPassword_hashPassword_witness :
  verifyPassword "scrypt$00$00" "secret" (Some (hashPassword [1; 2; 3] "secret")) = true.
Proof.
  apply (verifyPassword_hashPassword "scrypt$00$00" [1; 2; 3] "secret" "secret"); [done|].
  repeat constructor; unfold is_byte; lia.
Defined.
End token_witnesses.
