(* ===== verification/Auth.v ===== *)
(** Sessions: login, refresh with rotation and reuse detection, logout with the
    denylist, authentication of access tokens (src/auth/auth.service.ts). *)
From S2P Require Import Prelude JsNumber Events Schema Sql Fixtures Token.
From stdpp Require Import pretty.
#[local] Open Scope Z_scope.

Definition unauthorized (code detail : string) : exn := HttpError 401 (Some code) detail.
Definition BAD_REFRESH : exn := unauthorized "invalid-refresh-token" "refresh-токен недійсний".
Definition BAD_CREDENTIALS : exn := unauthorized "invalid-credentials" "невірний email або пароль".

Record TokenPair := Pair {
  access_token : string;
  refresh_token : string;
  token_type : string;
  expires_in : Z;
}.

(** What one call reads from the outside: [now()] of Postgres, [Date.now()],
    the random refresh token and the random UUID of the access token.

    A call takes effect when it commits; the rows it locks, and those it then
    reads by their keys, are as they are at that moment.  Only the UPDATE of a
    whole family depends on an earlier one: under READ COMMITTED it looks for its
    rows in the snapshot of its start, and misses those that other transactions
    have inserted since.  [ae_missed] are the ids of the rows it misses. *)
Record auth_env := AuthEnv { ae_now : Z; ae_date : Z; ae_raw : string; ae_jti : string; ae_missed : gset Z }.

(** HMAC-SHA-256 with the pepper. *)
Class Hmac := { hmac : string → string → string }.

Section statements.
Context `{PgText}.

(** SELECT id::text, role, password_hash FROM users WHERE email = $1 *)
Definition select_login (email : string) (d : db) : result (list (Z * user_row)) * db :=
  match text_in email with
  | None => (Err (PgError "22021"), d)
  | Some email => (Ok (filter (λ x, u_email x.2 = email) (map_to_list (users d))), d)
  end.

(** SELECT ... FROM refresh_tokens WHERE token_hash = $1 FOR UPDATE *)
Definition select_token (hash : string) (d : db) : result (list (Z * refresh_row)) * db :=
  (Ok (filter (λ x, rt_token_hash x.2 = hash) (map_to_list (refresh_tokens d))), d).

Definition revoked (now : Z) (t : refresh_row) : refresh_row :=
  RefreshRow (rt_token_hash t) (rt_family_id t) (rt_user_id t) (rt_used_at t) (Some now) (rt_expires_at t).

Definition revocable (family : string) (t : refresh_row) : bool :=
  bool_decide (rt_family_id t = family ∧ rt_revoked_at t = None).

(** UPDATE refresh_tokens SET revoked_at = now() WHERE family_id = $1 AND revoked_at IS NULL.
    The rows [missed] by the statement's snapshot stay as they are; the others
    are judged as they are when the statement has locked them. *)
Definition revoke_family (missed : gset Z) (family : string) (now : Z) (d : db) : result nat * db :=
  (Ok (length (filter (λ x, x.1 ∉ missed ∧ revocable family x.2 = true) (map_to_list (refresh_tokens d)))),
   set_tokens (map_imap (λ id t, Some (if decide (id ∉ missed ∧ revocable family t = true) then revoked now t else t)))
     (seq_tokens d) d).

(** SELECT role FROM users WHERE id = $1 *)
Definition select_role (user_id : Z) (d : db) : result (list role) * db :=
  (Ok (match users d !! user_id with Some u => [u_role u] | None => [] end), d).

Definition used (now : Z) (t : refresh_row) : refresh_row :=
  RefreshRow (rt_token_hash t) (rt_family_id t) (rt_user_id t) (Some now) (rt_revoked_at t) (rt_expires_at t).

(** UPDATE refresh_tokens SET used_at = now() WHERE id = $1 *)
Definition mark_used (id now : Z) (d : db) : result unit * db :=
  (Ok tt, set_tokens (alter (used now) id) (seq_tokens d) d).

(** INSERT INTO refresh_tokens (token_hash, family_id, user_id, expires_at)
    VALUES ($1, $2, $3, now() + make_interval(secs => $4)) *)
Definition insert_token (hash family : string) (user_id ttlSec now : Z) (d : db) : result unit * db :=
  let id := seq_tokens d + 1 in
  let failed code := (Err (PgError code), set_tokens (λ t, t) id d) in
  match uuid_in family with
  | None => (Err (PgError "22P02"), d)
  | Some family =>
      if bool_decide (map_Exists (λ _ t, rt_token_hash t = hash) (refresh_tokens d)) then failed "23505" else
      match users d !! user_id with
      | None => failed "23503"
      | Some _ =>
          (Ok tt, set_tokens <[id := RefreshRow hash family user_id None None (now + 1000 * ttlSec)]> id d)
      end
  end.

(** INSERT INTO access_denylist (jti, expires_at) VALUES ($1, to_timestamp($2)) ON CONFLICT (jti) DO NOTHING *)
Definition insert_denied (jti : string) (exp : num) (d : db) : result unit * db :=
  match uuid_in jti, to_timestamp exp with
  | None, _ => (Err (PgError "22P02"), d)
  | _, None => (Err (PgError "22008"), d)
  | Some jti, Some t =>
      match access_denylist d !! jti with
      | Some _ => (Ok tt, d)
      | None => (Ok tt, set_denylist <[jti := t]> d)
      end
  end.

(** SELECT 1 FROM access_denylist WHERE jti = $1 *)
Definition select_denied (jti : string) (d : db) : result nat * db :=
  match uuid_in jti with
  | None => (Err (PgError "22P02"), d)
  | Some jti => (Ok (match access_denylist d !! jti with Some _ => 1%nat | None => 0%nat end), d)
  end.

(** DELETE FROM access_denylist WHERE expires_at < now() *)
Definition delete_expired (now : Z) (d : db) : result nat * db :=
  (Ok (size (filter (λ x, x.2 < now) (access_denylist d))),
   set_denylist (filter (λ x, ¬ x.2 < now)) d).
End statements.

Section auth.
Context `{PgText, JwtLib, CryptoLib, Hmac}.

(** The fields of [AuthService]. *)
Record AuthService := Auth {
  tokens : TokenService;
  pepper : string;
  refreshTtlSec : Z;
  dummy : string;
}.

Variable s : AuthService.

Definition hash (rawToken : string) : string := hmac (pepper s) rawToken.

Definition issue (e : auth_env) (userId : Z) (r : role) (familyId : string) : sql TokenPair :=
  _ ← query (insert_token (hash (ae_raw e)) familyId userId (refreshTtlSec s) (ae_now e));
  let access := sign (tokens s) (ae_date e) (ae_jti e) (pretty userId) r familyId in
  mret (Pair access.1.1 (ae_raw e) "Bearer" (accessTtlSec (tokens s))).

(** [family]: the [randomUUID()] of the new session. *)
Definition login (e : auth_env) (family email password : string) : sql TokenPair :=
  rows ← query (select_login email);
  let user := head rows in
  let ok := verifyPassword (dummy s) password (user ≫= λ x, u_password_hash x.2) in
  match user, ok with
  | Some (id, u), true => issue e id (u_role u) family
  | _, _ => throw BAD_CREDENTIALS
  end.

Definition refresh_body (e : auth_env) (rawToken : string) : sql (tx_exit (result TokenPair)) :=
  rows ← query (select_token (hash rawToken));
  match rows with
  | [] => mret (Commit (Err BAD_REFRESH))
  | (id, row) :: _ =>
      match rt_revoked_at row, rt_used_at row with
      | Some _, _ => mret (Commit (Err BAD_REFRESH))
      | None, Some _ =>
          (* the row of the SELECT is locked: no snapshot misses it *)
          _ ← query (revoke_family (ae_missed e ∖ {[id]}) (rt_family_id row) (ae_now e));
          mret (Commit (Err BAD_REFRESH))
      | None, None =>
          if rt_expires_at row <=? ae_date e then mret (Commit (Err BAD_REFRESH)) else
          user ← query (select_role (rt_user_id row));
          match user with
          | [] => mret (Commit (Err BAD_REFRESH))
          | r :: _ =>
              _ ← query (mark_used id (ae_now e));
              newPair ← issue e (rt_user_id row) r (rt_family_id row);
              mret (Commit (Ok newPair))
          end
      end
  end.

(** [ROLLBACK] after [COMMIT]: a no-op whose failure is ignored. *)
Definition late_rollback : sql unit := λ φ t d, (Ok tt, S t, d).

Definition refresh (e : auth_env) (rawToken : string) : sql TokenPair :=
  r ← transaction (refresh_body e rawToken);
  match r with
  | Ok newPair => mret newPair
  | Err err => _ ← late_rollback; throw err
  end.

Definition logout (e : auth_env) (user : AuthUser) : sql unit :=
  transaction (
    match uuid_in (au_fid user) with
    | None => query (λ d, (Err (PgError "22P02"), d))
    | Some family =>
        _ ← query (revoke_family (ae_missed e) family (ae_now e));
        _ ← query (insert_denied (au_jti user) (au_exp user));
        mret (Commit tt)
    end).

Definition authenticate (date : Z) (token : string) : sql AuthUser :=
  match verify (tokens s) date token with
  | inl TokenExpired => throw (unauthorized "token-expired" "токен протух")
  | inl (TokenInvalid m) => throw (unauthorized "invalid-token" m)
  | inr c =>
      n ← query (select_denied (c_jti c));
      match n with
      | O => mret (AuthUserOf (c_sub c) (c_role c) (c_jti c) (c_exp c) (c_fid c))
      | S _ => throw (unauthorized "token-revoked" "токен відкликано (логаут)")
      end
  end.

Definition purgeDenylist (now : Z) : sql nat := query (delete_expired now).
End auth.

(** The lookup by the unique column [token_hash]. *)
Lemma select_token_single d h i row :
  refresh_tokens d !! i = Some row → rt_token_hash row = h →
  unique (λ t, Some (rt_token_hash t)) (refresh_tokens d) → select_token h d = (Ok [(i, row)], d).
Proof.
  intros Hi Hh Hu. unfold select_token. do 2 f_equal. apply Permutation_singleton_r.
  rewrite <-(map_to_list_delete _ i row Hi).
  rewrite filter_cons_True by done. f_equiv. apply Permutation_nil_r, elem_of_nil_inv.
  intros [j y] [Hy Hin%elem_of_map_to_list]%list_elem_of_filter.
  apply lookup_delete_Some in Hin as [Hne Hj]. apply Hne.
  by apply (Hu i j row y h Hi Hj); f_equal.
Qed.

(** ** What any call may do to the sessions *)

Definition live (t : refresh_row) : Prop := rt_used_at t = None ∧ rt_revoked_at t = None.

(** A row keeps its identity; used and revoked are for ever. *)
Definition row_le (t t' : refresh_row) : Prop :=
  rt_token_hash t = rt_token_hash t' ∧ rt_family_id t = rt_family_id t' ∧
  (rt_used_at t ≠ None → rt_used_at t' ≠ None) ∧ (rt_revoked_at t ≠ None → rt_revoked_at t' ≠ None).

Lemma row_le_refl t : row_le t t.
Proof. done. Qed.
Lemma row_le_live t t' : row_le t t' → live t' → live t.
Proof.
  intros (_ & _ & Hu & Hr) [Hu' Hr']. split.
  - destruct (rt_used_at t); [|done]. by destruct Hu.
  - destruct (rt_revoked_at t); [|done]. by destruct Hr.
Qed.

Section change.
Context `{PgText}.

(** Rows are never lost; at most one is new, with a new hash, in a new family
    or in the family of the live token it replaces; a denylist entry leaves
    only after its expiry. *)
Record auth_change (now : Z) (d d' : db) : Prop := {
  ch_old : ∀ i t, refresh_tokens d !! i = Some t → ∃ t', refresh_tokens d' !! i = Some t' ∧ row_le t t';
  ch_new : ∀ i t, refresh_tokens d' !! i = Some t → refresh_tokens d !! i = None →
    i = seq_tokens d' ∧ seq_tokens d < i ∧ uuid_in (rt_family_id t) = Some (rt_family_id t) ∧
    (∀ j t', refresh_tokens d !! j = Some t' → rt_token_hash t' ≠ rt_token_hash t) ∧
    ((∀ j t', refresh_tokens d !! j = Some t' → rt_family_id t' ≠ rt_family_id t) ∨
     ∃ j t1 t2, refresh_tokens d !! j = Some t1 ∧ live t1 ∧ rt_family_id t1 = rt_family_id t ∧
       refresh_tokens d' !! j = Some t2 ∧ ¬ live t2);
  ch_seq : seq_tokens d ≤ seq_tokens d';
  ch_deny : ∀ jti x, access_denylist d !! jti = Some x →
    access_denylist d' !! jti = Some x ∨ (access_denylist d' !! jti = None ∧ x < now);
}.

Record auth_inv (d : db) : Prop := {
  ai_hash : unique (λ t, Some (rt_token_hash t)) (refresh_tokens d);
  ai_live : ∀ i j a b, refresh_tokens d !! i = Some a → refresh_tokens d !! j = Some b →
    rt_family_id a = rt_family_id b → live a → live b → i = j;
  ai_seq : ∀ i, is_Some (refresh_tokens d !! i) → i ≤ seq_tokens d;
  ai_family : ∀ i t, refresh_tokens d !! i = Some t → uuid_in (rt_family_id t) = Some (rt_family_id t);
}.

Lemma change_row now d d' i t' :
  auth_change now d d' → refresh_tokens d' !! i = Some t' →
  (∃ t, refresh_tokens d !! i = Some t ∧ row_le t t') ∨ refresh_tokens d !! i = None.
Proof.
  intros Hc Hi. destruct (refresh_tokens d !! i) as [t|] eqn:Ht; [left|by right].
  destruct (ch_old _ _ _ Hc _ _ Ht) as (t2 & ? & ?). simplify_eq. eauto.
Qed.

Lemma change_inv now d d' : auth_change now d d' → auth_inv d → auth_inv d'.
Proof.
  intros Hc [Hh Hl Hs Hf]. split.
  - intros i j a b k Hi Hj [= <-] [= Hab].
    destruct (change_row _ _ _ _ _ Hc Hi) as [(a0 & Ha0 & Hla & _)|Ha0];
      destruct (change_row _ _ _ _ _ Hc Hj) as [(b0 & Hb0 & Hlb & _)|Hb0].
    + apply (Hh i j a0 b0 (rt_token_hash a)); try done; congruence.
    + destruct (ch_new _ _ _ Hc _ _ Hj Hb0) as (_ & _ & _ & Hn & _). destruct (Hn _ _ Ha0). congruence.
    + destruct (ch_new _ _ _ Hc _ _ Hi Ha0) as (_ & _ & _ & Hn & _). destruct (Hn _ _ Hb0). congruence.
    + destruct (ch_new _ _ _ Hc _ _ Hi Ha0) as [-> _]. by destruct (ch_new _ _ _ Hc _ _ Hj Hb0) as [-> _].
  - (* at most one live row per family *)
    assert (Hmix : ∀ i j a b, refresh_tokens d' !! i = Some a → refresh_tokens d' !! j = Some b →
      refresh_tokens d !! i = None → is_Some (refresh_tokens d !! j) →
      rt_family_id a = rt_family_id b → live b → i = j).
    { intros i j a b Hi Hj Hin [b0 Hb0] Hfam Hlb. exfalso.
      destruct (ch_old _ _ _ Hc _ _ Hb0) as (b' & Hb' & Hle). simplify_eq.
      destruct (ch_new _ _ _ Hc _ _ Hi Hin) as (_ & _ & _ & _ & [Hfresh|(k & t1 & t2 & Hk & Hlk & Hfk & Hk' & Hnl)]).
      - apply (Hfresh _ _ Hb0). destruct Hle as (_ & -> & _). done.
      - assert (k = j) as ->; [|by simplify_eq].
        apply (Hl k j t1 b0); [done|done| |done|by eapply row_le_live].
        destruct Hle as (_ & -> & _). congruence. }
    intros i j a b Hi Hj Hfam Hla Hlb.
    destruct (refresh_tokens d !! i) as [a0|] eqn:Ha0; destruct (refresh_tokens d !! j) as [b0|] eqn:Hb0.
    + destruct (ch_old _ _ _ Hc _ _ Ha0) as (a' & Ha' & Hlea), (ch_old _ _ _ Hc _ _ Hb0) as (b' & Hb' & Hleb).
      simplify_eq. apply (Hl i j a0 b0); try done; [|by eapply row_le_live..].
      destruct Hlea as (_ & -> & _), Hleb as (_ & -> & _). done.
    + symmetry. eapply Hmix; eauto.
    + eapply Hmix; eauto.
    + destruct (ch_new _ _ _ Hc _ _ Hi Ha0) as [-> _]. by destruct (ch_new _ _ _ Hc _ _ Hj Hb0) as [-> _].
  - intros i [t Hi]. destruct (change_row _ _ _ _ _ Hc Hi) as [(t0 & Ht0 & _)|Hn].
    + etrans; [apply Hs; eauto|apply Hc].
    + destruct (ch_new _ _ _ Hc _ _ Hi Hn) as [-> _]. done.
  - intros i t Hi. destruct (change_row _ _ _ _ _ Hc Hi) as [(t0 & Ht0 & _ & <- & _)|Hn]; [by eapply Hf|].
    by apply (ch_new _ _ _ Hc _ _ Hi Hn).
Qed.

(** A family all of whose tokens are revoked. *)
Definition dead (family : string) (d : db) : Prop :=
  (∃ i t, refresh_tokens d !! i = Some t ∧ rt_family_id t = family) ∧
  ∀ i t, refresh_tokens d !! i = Some t → rt_family_id t = family → rt_revoked_at t ≠ None.

Lemma change_dead now family d d' : auth_change now d d' → dead family d → dead family d'.
Proof.
  intros Hc [(i & t & Hi & Hf) Hall]. split.
  - destruct (ch_old _ _ _ Hc _ _ Hi) as (t' & Hi' & _ & Heq & _). exists i, t'. split; [done|congruence].
  - intros j t' Hj Hf'. destruct (change_row _ _ _ _ _ Hc Hj) as [(t0 & Ht0 & _ & Heq & _ & Hr)|Hn].
    + apply Hr. eapply Hall; [done|congruence].
    + destruct (ch_new _ _ _ Hc _ _ Hj Hn) as (_ & _ & _ & _ & [Hfresh|(k & t1 & t2 & Hk & [_ Hlr] & Hfk & _)]).
      * destruct (Hfresh _ _ Hi). congruence.
      * destruct (Hall _ _ Hk); [congruence|done].
Qed.

(** A token that was exchanged or revoked. *)
Definition spent (h : string) (d : db) : Prop :=
  ∃ i t, refresh_tokens d !! i = Some t ∧ rt_token_hash t = h ∧ ¬ live t.

Lemma change_spent now h d d' : auth_change now d d' → spent h d → spent h d'.
Proof.
  intros Hc (i & t & Hi & Hh & Hl). destruct (ch_old _ _ _ Hc _ _ Hi) as (t' & Hi' & Hle).
  exists i, t'. split; [done|]. split; [destruct Hle; congruence|]. intros Hl'. by eapply Hl, row_le_live.
Qed.

(** ** The statements as changes *)

Lemma change_untouched now d d' : untouched d d' → auth_change now d d'.
Proof.
  intros Hu. destruct (untouched_rows _ _ Hu) as (_ & _ & _ & _ & _ & _ & _ & _ & _ & E10 & E11 & _).
  destruct Hu as [_ (_ & _ & _ & Hs)]. split; rewrite ?E10, ?E11; eauto using row_le_refl; try lia.
  intros i t Hi Hn. congruence.
Qed.

(** Rewriting every row to a later one, the denylist untouched or purged. *)
Lemma change_rows now d d' (f : Z → refresh_row → refresh_row) :
  (∀ i, refresh_tokens d' !! i = f i <$> refresh_tokens d !! i) → (∀ i t, row_le t (f i t)) →
  seq_tokens d ≤ seq_tokens d' →
  (∀ jti x, access_denylist d !! jti = Some x →
     access_denylist d' !! jti = Some x ∨ (access_denylist d' !! jti = None ∧ x < now)) →
  auth_change now d d'.
Proof.
  intros Hf Hle Hs Hd. split; [|intros i t; rewrite Hf|done|done].
  - intros i t Hi. exists (f i t). rewrite Hf, Hi. done.
  - intros Hi Hn. by rewrite Hn in Hi.
Qed.

Lemma revoke_lookup missed family now d i :
  refresh_tokens (revoke_family missed family now d).2 !! i =
    (λ t, if decide (i ∉ missed ∧ revocable family t = true) then revoked now t else t) <$> refresh_tokens d !! i.
Proof. cbn. rewrite map_lookup_imap. by destruct (refresh_tokens d !! i). Qed.

Lemma change_revoke now' missed family now d : auth_change now' d (revoke_family missed family now d).2.
Proof.
  eapply change_rows; [apply revoke_lookup| |done|auto].
  intros i t. cbv beta. destruct (decide _); [by repeat split|apply row_le_refl].
Qed.

(** A row of the family that the statement sees is revoked afterwards. *)
Lemma revoke_seen missed family now d i t :
  refresh_tokens d !! i = Some t → rt_family_id t = family → i ∉ missed →
  ∃ t', refresh_tokens (revoke_family missed family now d).2 !! i = Some t' ∧ rt_token_hash t' = rt_token_hash t ∧
    rt_family_id t' = family ∧ rt_revoked_at t' ≠ None.
Proof.
  intros Hi Hf Hm. eexists. split; [by rewrite revoke_lookup, Hi|]. case_decide as Hd; [done|]. split_and!; [done..|].
  intros Hr. apply Hd. split; [done|]. by apply bool_decide_eq_true_2.
Qed.

(** When the statement sees all of the family, the family is dead. *)
Definition all_seen (missed : gset Z) (family : string) (d : db) : Prop :=
  ∀ i t, refresh_tokens d !! i = Some t → rt_family_id t = family → i ∉ missed.

Lemma revoke_all_dead missed family now d :
  (∃ i t, refresh_tokens d !! i = Some t ∧ rt_family_id t = family) → all_seen missed family d →
  dead family (revoke_family missed family now d).2.
Proof.
  intros (i & t & Hi & Hf) Hall. split.
  - destruct (revoke_seen missed family now d i t) as (t' & Hi' & _ & Hf' & _); eauto.
  - intros j t' Hj Hf'. pose proof Hj as Hj'. rewrite revoke_lookup in Hj'. apply fmap_Some in Hj' as (t0 & Ht0 & ->).
    assert (rt_family_id t0 = family) as Hf0 by (revert Hf'; by case_decide).
    destruct (revoke_seen missed family now d j t0) as (t1 & Ht1 & _ & _ & Hr); [eauto..|]. by simplify_eq.
Qed.
End change.

Section calls.
Context `{PgTextLaws, JwtLib, CryptoLib, Hmac}.

(** ** Issuing and rotating *)

Lemma insert_token_ok h family uid ttl now d d' :
  insert_token h family uid ttl now d = (Ok tt, d') → ∃ fam,
  uuid_in family = Some fam ∧ (∀ j t, refresh_tokens d !! j = Some t → rt_token_hash t ≠ h) ∧
  d' = set_tokens <[seq_tokens d + 1 := RefreshRow h fam uid None None (now + 1000 * ttl)]> (seq_tokens d + 1) d.
Proof.
  unfold insert_token. destruct (uuid_in family) as [fam|]; [|done]. case_bool_decide as Hex; [done|].
  destruct (users d !! uid); [|done]. intros [= <-]. exists fam. split; [done|]. split; [|done].
  intros j t Hj Hh. apply Hex. by exists j, t.
Qed.

Lemma insert_token_err h family uid ttl now d d' e :
  insert_token h family uid ttl now d = (Err e, d') → untouched d d'.
Proof.
  unfold insert_token. repeat case_match; intros [= <- <-]; try reflexivity;
    (split; [by destruct d|unfold seq_le; cbn; lia]).
Qed.

Definition fresh_family (family : string) (d : db) : Prop := ∀ fam i t,
  uuid_in family = Some fam → refresh_tokens d !! i = Some t → rt_family_id t ≠ fam.

Lemma fresh_id d : auth_inv d → refresh_tokens d !! (seq_tokens d + 1) = None.
Proof. intros Hi. apply eq_None_not_Some. intros Hs%(ai_seq _ Hi). lia. Qed.

Lemma change_issue now' h family uid ttl now d d' :
  auth_inv d → fresh_family family d → insert_token h family uid ttl now d = (Ok tt, d') → auth_change now' d d'.
Proof.
  intros Hi Hf (fam & Hfam & Hh & ->)%insert_token_ok. pose proof (fresh_id d Hi) as Hid.
  split; cbn.
  - intros i t Ht. exists t. rewrite lookup_insert_ne by congruence. done.
  - intros i t. rewrite lookup_insert. case_decide; [|congruence]. intros [= <-] _. subst. cbn.
    split; [done|]. split; [lia|]. split; [by eapply uuid_in_idem|]. split; [done|].
    left. intros j t' Ht'. by eapply Hf.
  - lia.
  - auto.
Qed.

Lemma change_rotate now' h id row uid ttl now d d' :
  auth_inv d → refresh_tokens d !! id = Some row → live row →
  insert_token h (rt_family_id row) uid ttl now (mark_used id now d).2 = (Ok tt, d') →
  auth_change now' d d' ∧ refresh_tokens d' !! id = Some (used now row).
Proof.
  intros Hi Hrow Hl (fam & Hfam & Hh & ->)%insert_token_ok. pose proof (fresh_id d Hi) as Hid.
  rewrite (ai_family _ Hi _ _ Hrow) in Hfam. injection Hfam as <-. cbn in Hh |- *.
  assert (Hused : <[seq_tokens d + 1 := RefreshRow h (rt_family_id row) uid None None (now + 1000 * ttl)]>
    (alter (used now) id (refresh_tokens d)) !! id = Some (used now row)).
  { rewrite lookup_insert_ne by congruence. by rewrite lookup_alter_eq, Hrow. }
  split; [|done]. split; cbn.
  - intros i t Ht. rewrite lookup_insert_ne by congruence.
    destruct (decide (i = id)) as [->|]; [rewrite lookup_alter_eq, Ht|rewrite lookup_alter_ne, Ht by done]; cbn.
    + eexists. split; [done|]. by repeat split.
    + by exists t.
  - intros i t. rewrite lookup_insert. case_decide as Hid'.
    2:{ intros Ht Hn. destruct (decide (i = id)) as [->|]; [congruence|].
        rewrite lookup_alter_ne in Ht by done. congruence. }
    intros [= <-] _. subst i. cbn. split; [done|]. split; [lia|]. split; [by eapply ai_family|]. split.
    + intros j t' Ht'. destruct (decide (j = id)) as [->|].
      * apply (Hh id (used now t')). by rewrite lookup_alter_eq, Ht'.
      * apply (Hh j t'). by rewrite lookup_alter_ne.
    + right. exists id, row, (used now row). split_and!; try done. by intros [? _].
  - lia.
  - auto.
Qed.

(** ** The calls as changes *)

Variable s : AuthService.

Lemma select_token_row h d id row rest :
  filter (λ x, rt_token_hash x.2 = h) (map_to_list (refresh_tokens d)) = (id, row) :: rest →
  refresh_tokens d !! id = Some row ∧ rt_token_hash row = h.
Proof.
  intros Hl. assert (Hin : (id, row) ∈ filter (λ x, rt_token_hash x.2 = h) (map_to_list (refresh_tokens d)))
    by (rewrite Hl; left).
  apply list_elem_of_filter in Hin as [Hh Hin%elem_of_map_to_list]. done.
Qed.

(** The ways out of the body of [refresh]. *)
Inductive refresh_exit (e : auth_env) (rawToken : string) (d : db) : result TokenPair → db → Prop :=
| re_refused : refresh_exit e rawToken d (Err BAD_REFRESH) d
| re_reuse id row :
    refresh_tokens d !! id = Some row → rt_token_hash row = hash s rawToken →
    rt_revoked_at row = None → rt_used_at row ≠ None →
    refresh_exit e rawToken d (Err BAD_REFRESH) (revoke_family (ae_missed e ∖ {[id]}) (rt_family_id row) (ae_now e) d).2
| re_rotated id row d' pair :
    refresh_tokens d !! id = Some row → rt_token_hash row = hash s rawToken → live row →
    ae_date e < rt_expires_at row →
    insert_token (hash s (ae_raw e)) (rt_family_id row) (rt_user_id row) (refreshTtlSec s) (ae_now e)
      (mark_used id (ae_now e) d).2 = (Ok tt, d') →
    refresh_token pair = ae_raw e →
    refresh_exit e rawToken d (Ok pair) d'.

Lemma refresh_body_exit e rawToken φ t d x t' d' :
  refresh_body s e rawToken φ t d = (Ok x, t', d') → ∃ r, x = Commit r ∧ refresh_exit e rawToken d r d'.
Proof.
  intros Hrun. apply bind_ok_inv in Hrun as (rows & t1 & d1 & Hq & Hrun).
  apply query_ok_inv in Hq as [[= <- <-] ->].
  destruct (filter _ _) as [|[id row] rest] eqn:Hl.
  { apply ret_ok_inv in Hrun as (-> & _ & ->). eauto using re_refused. }
  apply select_token_row in Hl as [Hrow Hh].
  destruct (rt_revoked_at row) as [rv|] eqn:Hr.
  { apply ret_ok_inv in Hrun as (-> & _ & ->). eauto using re_refused. }
  destruct (rt_used_at row) as [us|] eqn:Hu.
  { apply bind_ok_inv in Hrun as (n & t2 & d2 & Hq & Hrun). apply query_ok_inv in Hq as [Hq ->].
    apply ret_ok_inv in Hrun as (-> & _ & ->). eexists. split; [done|].
    replace d2 with (revoke_family (ae_missed e ∖ {[id]}) (rt_family_id row) (ae_now e) d).2 by (by rewrite Hq).
    eapply re_reuse; eauto. by rewrite Hu. }
  destruct (Z.leb_spec (rt_expires_at row) (ae_date e)).
  { apply ret_ok_inv in Hrun as (-> & _ & ->). eauto using re_refused. }
  apply bind_ok_inv in Hrun as (roles & t2 & d2 & Hq & Hrun). apply query_ok_inv in Hq as [[= <- <-] ->].
  destruct (users d !! rt_user_id row) as [u|].
  2:{ apply ret_ok_inv in Hrun as (-> & _ & ->). eauto using re_refused. }
  apply bind_ok_inv in Hrun as ([] & t3 & d3 & Hq & Hrun). apply query_ok_inv in Hq as [[= <-] ->].
  apply bind_ok_inv in Hrun as (pair & t4 & d4 & Hi & Hrun). apply ret_ok_inv in Hrun as (-> & _ & ->).
  apply bind_ok_inv in Hi as ([] & t5 & d5 & Hq & Hi). apply query_ok_inv in Hq as [Hq ->].
  apply ret_ok_inv in Hi as (-> & _ & ->). eexists. split; [done|].
  eapply (re_rotated e rawToken d id row); eauto. by split.
Qed.

(** A refresh, whatever fails: nothing, or one of the exits; a pair is handed
    out only by a rotation. *)
Lemma refresh_outcome e rawToken φ t d r t' d' :
  refresh s e rawToken φ t d = (r, t', d') →
  (untouched d d' ∧ ∃ err, r = Err err) ∨
  (∃ x, refresh_exit e rawToken d x d' ∧ (r = x ∨ ∃ err, r = Err err)).
Proof.
  intros Hrun. unfold refresh in Hrun.
  destruct (transaction (refresh_body s e rawToken) φ t d) as [[x t1] d1] eqn:Htx.
  assert (d' = d1 ∧ (r = match x with Ok y => y | Err err => Err err end)) as [-> ->].
  { unfold mbind, sql_bind in Hrun. rewrite Htx in Hrun.
    destruct x as [[pair|err]|err]; [by injection Hrun|by injection Hrun|by injection Hrun]. }
  assert (seq_le d d1) as Hseq.
  { assert (seq_mono (transaction (refresh_body s e rawToken))) as Hm; [|by eapply Hm].
    apply seq_mono_transaction. unfold refresh_body, issue.
    seq_mono_tac; unfold select_token, revoke_family, select_role, mark_used, insert_token; stmt_seq_le. }
  apply transaction_outcome in Htx.
  inversion Htx as [a t2 d2 _ Hb _|a t2 d2 f _ Hb _ _|a t2 d2 _ Hb|err d2 Hs]; subst.
  - apply refresh_body_exit in Hb as (y & [= ->] & Hx). right. eauto.
  - apply refresh_body_exit in Hb as (y & [= ->] & Hx). right. eauto.
  - by apply refresh_body_exit in Hb as (y & [=] & _).
  - left. split; [by split|eauto].
Qed.

Lemma refresh_exit_change now e rawToken d r d' :
  auth_inv d → refresh_exit e rawToken d r d' → auth_change now d d'.
Proof.
  intros Hi [|id row Hrow Hh _ _|id row d1 pair Hrow Hh Hl _ Hins _].
  - apply change_untouched. reflexivity.
  - apply change_revoke.
  - by eapply change_rotate.
Qed.

Lemma query_read {A} (stmt : db → result A * db) φ t d r t' d' :
  (stmt d).2 = d → query stmt φ t d = (r, t', d') → d' = d.
Proof. intros Hs Hq. apply query_cases in Hq as [[-> _]|[-> _]]; done. Qed.

Lemma select_login_read email d : (select_login email d).2 = d.
Proof. unfold select_login. by case_match. Qed.

(** A login: nothing, or a new token in the new family; a pair is handed out
    only for the right password of the user with that address. *)
Lemma login_outcome e family email password φ t d r t' d' :
  login s e family email password φ t d = (r, t', d') →
  (untouched d d' ∧ ∃ err, r = Err err) ∨
  (∃ id u, users d !! id = Some u ∧ u_email u = email ∧
     verifyPassword (dummy s) password (u_password_hash u) = true ∧
     insert_token (hash s (ae_raw e)) family id (refreshTtlSec s) (ae_now e) d = (Ok tt, d')).
Proof.
  unfold login, mbind, sql_bind. intros Hrun.
  destruct (query (select_login email) φ t d) as [[[rows|err] t1] d1] eqn:Hq.
  2:{ pose proof (query_read _ _ _ _ _ _ _ (select_login_read _ _) Hq) as ->. simplify_eq.
      left. split; [reflexivity|eauto]. }
  apply query_ok_inv in Hq as [Hq ->]. pose proof (f_equal snd Hq) as Hd. rewrite select_login_read in Hd. cbn in Hd. subst d1.
  destruct (head rows) as [[id u]|] eqn:Hhead.
  2:{ unfold throw in Hrun. simplify_eq/=. left. split; [reflexivity|eauto]. }
  cbn in Hrun. destruct (verifyPassword _ _ _) eqn:Hv.
  2:{ unfold throw in Hrun. simplify_eq/=. left. split; [reflexivity|eauto]. }
  assert (users d !! id = Some u ∧ u_email u = email) as [Hu He].
  { unfold select_login, text_in in Hq. destruct (existsb _ _); [done|]. injection Hq as <-.
    destruct (filter _ _) as [|x l] eqn:Hl; [done|]. cbn in Hhead. injection Hhead as ->.
    assert (Hin : (id, u) ∈ filter (λ x, u_email x.2 = email) (map_to_list (users d))) by (rewrite Hl; left).
    by apply list_elem_of_filter in Hin as [? Hin%elem_of_map_to_list]. }
  unfold issue, mbind, sql_bind in Hrun.
  destruct (query (insert_token _ _ _ _ _) φ (S t) d) as [[x t2] d2] eqn:Hi.
  assert (d' = d2 ∧ (x = Ok tt ∨ ∃ err, r = Err err)) as [-> Hx].
  { destruct x as [[]|err]; unfold mret, sql_ret in Hrun; by simplify_eq; eauto. }
  apply query_cases in Hi as [[-> [err ->]]|[-> Hr]].
  { left. split; [reflexivity|]. destruct Hx as [[=]|?]; done. }
  destruct (insert_token _ _ _ _ _ d) as [[[]|err] d3] eqn:Hins.
  - right. exists id, u. done.
  - left. split; [by eapply insert_token_err|]. destruct Hx as [->|?]; [|done]. by destruct Hr as [[=]|[? [=]]].
Qed.

Lemma login_change now e family email password φ t d r t' d' :
  auth_inv d → fresh_family family d → login s e family email password φ t d = (r, t', d') → auth_change now d d'.
Proof.
  intros Hi Hf Hrun. destruct (login_outcome _ _ _ _ _ _ _ _ _ _ Hrun) as [[Hu _]|(id & u & _ & _ & _ & Hins)].
  - by apply change_untouched.
  - by eapply change_issue.
Qed.

Lemma refresh_change now e rawToken φ t d r t' d' :
  auth_inv d → refresh s e rawToken φ t d = (r, t', d') → auth_change now d d'.
Proof.
  intros Hi Hrun. destruct (refresh_outcome _ _ _ _ _ _ _ _ Hrun) as [[Hu _]|(x & Hx & _)].
  - by apply change_untouched.
  - by eapply refresh_exit_change.
Qed.

(** What a logout that gets through commits. *)
Definition logged_out (e : auth_env) (user : AuthUser) (d d' : db) : Prop := ∃ family jti x,
  uuid_in (au_fid user) = Some family ∧ uuid_in (au_jti user) = Some jti ∧ to_timestamp (au_exp user) = Some x ∧
  d' = (insert_denied (au_jti user) (au_exp user) (revoke_family (ae_missed e) family (ae_now e) d).2).2.

Lemma logout_outcome e user φ t d r t' d' :
  logout e user φ t d = (r, t', d') →
  (untouched d d' ∧ ∃ err, r = Err err) ∨ logged_out e user d d'.
Proof.
  intros Hrun. assert (seq_le d d') as Hseq.
  { assert (seq_mono (logout e user)) as Hm; [|by eapply Hm].
    apply seq_mono_transaction. destruct (uuid_in (au_fid user)).
    - seq_mono_tac; unfold revoke_family, insert_denied; stmt_seq_le.
    - apply seq_mono_query. stmt_seq_le. }
  apply transaction_outcome in Hrun.
  assert (Hbody : ∀ x t1 d1, match uuid_in (au_fid user) with
      | None => query (λ d, (Err (PgError "22P02"), d))
      | Some family =>
          _ ← query (revoke_family (ae_missed e) family (ae_now e));
          _ ← query (insert_denied (au_jti user) (au_exp user));
          mret (Commit tt)
      end φ (S t) d = (Ok x, t1, d1) → x = Commit tt ∧ logged_out e user d d1).
  { intros x t1 d1. destruct (uuid_in (au_fid user)) as [family|] eqn:Hf.
    2:{ intros Hq. by apply query_ok_inv in Hq as [[=] _]. }
    intros Hb. apply bind_ok_inv in Hb as (n & t2 & d2 & Hq1 & Hb). apply query_ok_inv in Hq1 as [Hq1 ->].
    apply bind_ok_inv in Hb as ([] & t3 & d3 & Hq2 & Hb). apply query_ok_inv in Hq2 as [Hq2 ->].
    apply ret_ok_inv in Hb as (-> & _ & ->). split; [done|]. exists family.
    assert (d2 = (revoke_family (ae_missed e) family (ae_now e) d).2) as -> by (by rewrite Hq1).
    pose proof (f_equal snd Hq2) as Hd. cbn in Hd. unfold insert_denied in Hq2.
    destruct (uuid_in (au_jti user)) as [jti|]; [|done]. destruct (to_timestamp (au_exp user)) as [x|]; [|done].
    exists jti, x. split_and!; done. }
  inversion Hrun as [a t2 d2 _ Hb _|a t2 d2 f _ Hb _ _|a t2 d2 _ Hb|err d2 Hs]; subst.
  - right. by apply Hbody in Hb as [_ ?].
  - right. by apply Hbody in Hb as [_ ?].
  - by apply Hbody in Hb as [[=] _].
  - left. split; [by split|eauto].
Qed.

Lemma insert_denied_tokens jti x d : refresh_tokens (insert_denied jti x d).2 = refresh_tokens d ∧
  seq_tokens (insert_denied jti x d).2 = seq_tokens d.
Proof. unfold insert_denied. by repeat case_match. Qed.

Lemma insert_denied_keeps jti x d j y :
  access_denylist d !! j = Some y → access_denylist (insert_denied jti x d).2 !! j = Some y.
Proof.
  unfold insert_denied. repeat case_match; try done. cbn. intros Hj. rewrite lookup_insert_ne; [done|congruence].
Qed.

Lemma logout_change now e user φ t d r t' d' : logout e user φ t d = (r, t', d') → auth_change now d d'.
Proof.
  intros Hrun. destruct (logout_outcome _ _ _ _ _ _ _ _ Hrun) as [[Hu _]|(family & jti & x & _ & _ & _ & ->)].
  - by apply change_untouched.
  - destruct (insert_denied_tokens (au_jti user) (au_exp user) (revoke_family (ae_missed e) family (ae_now e) d).2) as [Et Es].
    apply (change_rows _ _ _ (λ i t, if decide (i ∉ ae_missed e ∧ revocable family t = true) then revoked (ae_now e) t else t)).
    + intros i. rewrite Et. apply revoke_lookup.
    + intros i u. destruct (decide _); [by repeat split|apply row_le_refl].
    + by rewrite Es.
    + intros j y Hj. left. by apply insert_denied_keeps.
Qed.

Lemma purge_change now φ t d r t' d' : purgeDenylist now φ t d = (r, t', d') → auth_change now d d'.
Proof.
  intros Hq. apply query_cases in Hq as [[-> _]|[-> _]]; [by apply change_untouched|].
  apply (change_rows _ _ _ (λ _ t, t)); cbn; [intros i; by destruct (_ !! i)|intros; apply row_le_refl|lia|].
  intros jti x Hx. destruct (decide (x < now)).
  - right. split; [|done]. apply map_lookup_filter_None. right. intros y Hy. cbn. intros Hn. congruence.
  - left. apply map_lookup_filter_Some. split; done.
Qed.
End calls.

(** ** Sessions over time *)

Section sessions.
Context `{PgTextLaws, JwtLaws, CryptoLib, Hmac}.
Variable s : AuthService.

(** Calls one after the other, each with its own faults, on one clock
    (milliseconds); the UUID of a new session is new. *)
Inductive auth_step : Z * db → Z * db → Prop :=
| as_login n n' e family email password φ t r t' d d' :
    n ≤ n' → fresh_family family d →
    login s e family email password φ t d = (r, t', d') → auth_step (n, d) (n', d')
| as_refresh n n' e raw φ t r t' d d' :
    n ≤ n' → refresh s e raw φ t d = (r, t', d') → auth_step (n, d) (n', d')
| as_logout n n' e user φ t r t' d d' :
    n ≤ n' → logout e user φ t d = (r, t', d') → auth_step (n, d) (n', d')
| as_purge n n' φ t r t' d d' :
    n ≤ n' → purgeDenylist n' φ t d = (r, t', d') → auth_step (n, d) (n', d').

Lemma step_change x y : auth_step x y → auth_inv x.2 → x.1 ≤ y.1 ∧ auth_change y.1 x.2 y.2.
Proof.
  intros [n n' e family email password φ t r t' d d' Hn Hf Hrun|n n' e raw φ t r t' d d' Hn Hrun|
    n n' e user φ t r t' d d' Hn Hrun|n n' φ t r t' d d' Hn Hrun] Hi; cbn in *; (split; [done|]).
  - by eapply login_change.
  - by eapply refresh_change.
  - by eapply logout_change.
  - by eapply purge_change.
Qed.

Lemma auth_steps_ind (P : Z * db → Prop) x y :
  rtc auth_step x y → auth_inv x.2 → P x →
  (∀ x y, x.1 ≤ y.1 → auth_inv x.2 → auth_change y.1 x.2 y.2 → P x → P y) → auth_inv y.2 ∧ P y.
Proof.
  intros Hsteps Hi Hp Hstep. induction Hsteps as [|x y z Hxy _ IH]; [done|].
  destruct (step_change _ _ Hxy Hi) as [Hn Hc]. apply IH; [by eapply change_inv|by eapply Hstep].
Qed.

(** A spent token is refused for ever, so is every token of a dead family. *)
Lemma refresh_spent e raw φ t d r t' d' :
  auth_inv d → spent (hash s raw) d → refresh s e raw φ t d = (r, t', d') → ∃ err, r = Err err.
Proof.
  intros Hi (i & row & Hrow & Hh & Hl) Hrun.
  destruct (refresh_outcome s _ _ _ _ _ _ _ _ Hrun) as [[_ ?]|(x & Hx & [->|?])]; [done| |done].
  destruct Hx as [|id row' Hrow' Hh' _ _|id row' d1 pair Hrow' Hh' Hl' _ _ _]; eauto.
  exfalso. apply Hl. assert (i = id) as ->; [|by simplify_eq].
  apply (ai_hash _ Hi i id row row' (hash s raw)); congruence.
Qed.

(** No call with the token [raw] ever gets a new pair from [y] on. *)
Definition refused (raw : string) (y : Z * db) : Prop := ∀ z e φ t r t' d',
  rtc auth_step y z → refresh s e raw φ t z.2 = (r, t', d') → ∃ err, r = Err err.

Lemma spent_refused raw y : auth_inv y.2 → spent (hash s raw) y.2 → refused raw y.
Proof.
  intros Hi Hsp z e φ t r t' d' Hsteps Hrun.
  destruct (auth_steps_ind (λ z, spent (hash s raw) z.2) y z Hsteps Hi Hsp) as [Hz Hspz]; [|by eapply refresh_spent].
  intros u v _ _ Huv. by eapply change_spent.
Qed.

Lemma dead_spent family d i row :
  dead family d → refresh_tokens d !! i = Some row → rt_family_id row = family → spent (rt_token_hash row) d.
Proof.
  intros [_ Hall] Hi Hf. exists i, row. split; [done|]. split; [done|]. intros [_ Hr]. by eapply Hall.
Qed.

(** No token a session has, now or later, is ever exchanged. *)
Definition session_over (family : string) (y : Z * db) : Prop := ∀ z i row raw,
  rtc auth_step y z → refresh_tokens z.2 !! i = Some row → rt_family_id row = family → rt_token_hash row = hash s raw → refused raw z.

Lemma dead_over family y : auth_inv y.2 → dead family y.2 → session_over family y.
Proof.
  intros Hi Hd z i row raw Hsteps Hrow Hf Hh.
  destruct (auth_steps_ind (λ z, dead family z.2) y z Hsteps Hi Hd) as [Hz Hdz]; [intros u v _ _ Huv; by eapply change_dead|].
  apply spent_refused; [done|]. rewrite <-Hh. by eapply dead_spent.
Qed.

(** What the revocation of a family does for ever: the tokens its UPDATE sees
    are refused, and if it sees all of them the session is over. *)
Lemma revoked_for_ever missed family now n d d' :
  auth_inv d' → refresh_tokens d' = refresh_tokens (revoke_family missed family now d).2 →
  (∀ i row raw, refresh_tokens d !! i = Some row → rt_family_id row = family → i ∉ missed →
     rt_token_hash row = hash s raw → refused raw (n, d')) ∧
  ((∃ i row, refresh_tokens d !! i = Some row ∧ rt_family_id row = family) → all_seen missed family d →
     dead family d' ∧ session_over family (n, d')).
Proof.
  intros Hi Htok. split.
  - intros i row raw Hrow Hf Hm Hh. apply spent_refused; [done|]. destruct (revoke_seen missed family now d i row) as (row' & Hr' & Hh' & _ & Hrev); [done..|].
    exists i, row'. cbn. rewrite Htok. split; [done|]. split; [congruence|]. by intros [_ ?].
  - intros Hex Hall. assert (Hd : dead family d') by (unfold dead; rewrite Htok; by apply revoke_all_dead).
    split; [done|]. by apply dead_over.
Qed.

(** The denylist has the token until it expires. *)
Definition shut (jti : string) (exp : Z) (x : Z * db) : Prop :=
  (∃ y, access_denylist x.2 !! jti = Some y ∧ 1000 * exp ≤ y) ∨ 1000 * exp < x.1.

Lemma change_shut jti exp x y :
  x.1 ≤ y.1 → auth_change y.1 x.2 y.2 → shut jti exp x → shut jti exp y.
Proof.
  intros Hn Hc [(t & Ht & Hle)|Hlt]; [|right; lia].
  destruct (ch_deny _ _ _ Hc _ _ Ht) as [?|[_ ?]]; [left; eauto|right; lia].
Qed.

Lemma authenticate_ok date token φ t d user t' d' :
  authenticate s date token φ t d = (Ok user, t', d') → ∃ c jti,
  verify (tokens s) date token = inr c ∧
  user = AuthUserOf (c_sub c) (c_role c) (c_jti c) (c_exp c) (c_fid c) ∧
  uuid_in (c_jti c) = Some jti ∧ access_denylist d !! jti = None.
Proof.
  unfold authenticate. destruct (verify _ _ _) as [[|m]|c]; [done|done|].
  intros Hrun. apply bind_ok_inv in Hrun as (n & t1 & d1 & Hq & Hrun). apply query_ok_inv in Hq as [Hq ->].
  unfold select_denied in Hq. destruct (uuid_in (c_jti c)) as [jti|] eqn:Hj; [|done].
  destruct (access_denylist d !! jti) eqn:Hd; injection Hq as <- <-; [done|].
  apply ret_ok_inv in Hrun as (-> & _). exists c, jti. done.
Qed.

Lemma shut_refused jti exp n d date token φ t user t' d' :
  shut jti exp (n, d) → n ≤ date → authenticate s date token φ t d = (Ok user, t', d') →
  uuid_in (au_jti user) = Some jti → num_to_Z (au_exp user) = Some exp → False.
Proof.
  intros Hshut Hn Hrun Hj He. apply authenticate_ok in Hrun as (c & jti' & Hv & -> & Hj' & Hd). cbn in *.
  assert (jti' = jti) as -> by congruence. pose proof (verify_not_expired _ _ _ _ _ Hv He) as Hlt.
  destruct Hshut as [(y & Hy & _)|Hlt']; cbn in *; [congruence|].
  pose proof (Z.div_mod date 1000 ltac:(lia)). pose proof (Z.mod_pos_bound date 1000 ltac:(lia)). lia.
Qed.

Lemma logged_out_shut e user jti exp d d' n :
  logged_out e user d d' → uuid_in (au_jti user) = Some jti → num_to_Z (au_exp user) = Some exp → 0 ≤ exp < 2 ^ 40 →
  (∀ y, access_denylist d !! jti = Some y → 1000 * exp ≤ y) → shut jti exp (n, d').
Proof.
  intros (family & jti' & x & _ & Hj & Hx & ->) Hj' He Hr Hold. assert (jti' = jti) as -> by congruence.
  rewrite (to_timestamp_int _ _ He Hr) in Hx. injection Hx as <-.
  left. cbn. unfold insert_denied. rewrite Hj, (to_timestamp_int _ _ He Hr).
  destruct (access_denylist _ !! jti) as [y|] eqn:Hd; cbn.
  - exists y. split; [exact Hd|]. by apply Hold.
  - exists (1000 * exp). rewrite lookup_insert_eq. done.
Qed.
End sessions.

(** ** Properties *)

Section properties.
Context `{PgTextLaws, JwtLaws, CryptoLib, Hmac}.
Variable s : AuthService.

Lemma refresh_run_ok e raw t d p t' d' :
  refresh_body s e raw no_fault (S t) d = (Ok (Commit (Ok p)), t', d') → refresh s e raw no_fault t d = (Ok p, S t', d').
Proof. intros Hb. apply transaction_run in Hb. unfold refresh. by rewrite (bind_run _ _ _ _ _ _ _ _ Hb). Qed.
Lemma refresh_run_err e raw t d err t' d' :
  refresh_body s e raw no_fault (S t) d = (Ok (Commit (Err err)), t', d') →
  refresh s e raw no_fault t d = (Err err, S (S t'), d').
Proof. intros Hb. apply transaction_run in Hb. unfold refresh. by rewrite (bind_run _ _ _ _ _ _ _ _ Hb). Qed.

(** The exchange of a live, unexpired token, to the letter. *)
Lemma refresh_run e raw t d id row u :
  auth_inv d → refresh_tokens d !! id = Some row → rt_token_hash row = hash s raw → live row →
  ae_date e < rt_expires_at row → users d !! rt_user_id row = Some u →
  (∀ j x, refresh_tokens d !! j = Some x → rt_token_hash x ≠ hash s (ae_raw e)) →
  ∃ t', refresh s e raw no_fault t d =
    (Ok (Pair (sign (tokens s) (ae_date e) (ae_jti e) (pretty (rt_user_id row)) (u_role u) (rt_family_id row)).1.1
           (ae_raw e) "Bearer" (accessTtlSec (tokens s))), t',
     set_tokens <[seq_tokens d + 1 := RefreshRow (hash s (ae_raw e)) (rt_family_id row) (rt_user_id row)
       None None (ae_now e + 1000 * refreshTtlSec s)]> (seq_tokens d + 1) (mark_used id (ae_now e) d).2).
Proof.
  intros Hi Hrow Hh [Hu Hr] Hexp Huser Hfresh.
  assert (Hsel : select_token (hash s raw) d = (Ok [(id, row)], d)).
  { apply select_token_single; [done|done|apply Hi]. }
  assert (Hins : insert_token (hash s (ae_raw e)) (rt_family_id row) (rt_user_id row) (refreshTtlSec s) (ae_now e)
    (mark_used id (ae_now e) d).2 = (Ok tt, set_tokens <[seq_tokens d + 1 := RefreshRow (hash s (ae_raw e)) (rt_family_id row)
      (rt_user_id row) None None (ae_now e + 1000 * refreshTtlSec s)]> (seq_tokens d + 1) (mark_used id (ae_now e) d).2)).
  { unfold insert_token. rewrite (ai_family _ Hi _ _ Hrow), bool_decide_eq_false_2; [cbn; by rewrite Huser|].
    intros (j & x & Hj & Hx). cbn in Hj. destruct (decide (j = id)) as [->|].
    - rewrite lookup_alter_eq, Hrow in Hj. injection Hj as <-. by apply (Hfresh _ _ Hrow).
    - rewrite lookup_alter_ne in Hj by done. by apply (Hfresh _ _ Hj). }
  eexists. apply refresh_run_ok. unfold refresh_body. erewrite bind_run; [|apply query_run; exact Hsel]. cbv beta iota. rewrite Hr, Hu.
  rewrite (proj2 (Z.leb_gt _ _)) by done.
  erewrite bind_run; [|apply query_run; unfold select_role; rewrite Huser; reflexivity]. cbv beta iota.
  erewrite bind_run; [|apply query_run; unfold mark_used; reflexivity]. cbv beta iota.
  erewrite bind_run; [|unfold issue; erewrite bind_run; [|apply query_run; exact Hins]; reflexivity]. reflexivity.
Qed.

(** Rotation.  Presenting a live, unexpired token exchanges it: the row is
    marked used, one new live row appears in the same family, and the access
    token of the answer verifies, until its expiry, as the owner of the session
    with the role the user has in the database now. *)
Theorem refresh_rotates e raw t d id row u date :
  auth_inv d → refresh_tokens d !! id = Some row → rt_token_hash row = hash s raw → live row →
  ae_date e < rt_expires_at row → users d !! rt_user_id row = Some u →
  (∀ j x, refresh_tokens d !! j = Some x → rt_token_hash x ≠ hash s (ae_raw e)) →
  (∃ pk, key_pair (privateKey (tokens s)) pk ∧ verifyKeys (tokens s) !! kid (tokens s) = Some pk) →
  kid (tokens s) ≠ "" → sane_ttl (tokens s) (ae_date e) →
  date / 1000 < ae_date e / 1000 + accessTtlSec (tokens s) →
  ∃ pair t' d', refresh s e raw no_fault t d = (Ok pair, t', d') ∧
    refresh_token pair = ae_raw e ∧
    refresh_tokens d' = <[seq_tokens d + 1 := RefreshRow (hash s (ae_raw e)) (rt_family_id row) (rt_user_id row)
        None None (ae_now e + 1000 * refreshTtlSec s)]> (<[id := used (ae_now e) row]> (refresh_tokens d)) ∧
    verify (tokens s) date (access_token pair) = inr (Claims (pretty (rt_user_id row)) (u_role u) (ae_jti e)
      (num_of_Z (ae_date e / 1000 + accessTtlSec (tokens s))) (rt_family_id row)).
Proof.
  intros Hi Hrow Hh Hl Hexp Huser Hfresh (pk & Hpair & Hkey) Hkid Httl Hdate.
  destruct (refresh_run e raw t d id row u Hi Hrow Hh Hl Hexp Huser Hfresh) as [t' Hrun].
  do 3 eexists. split; [exact Hrun|]. split; [done|]. split.
  - cbn. f_equal. apply map_eq. intros j. destruct (decide (j = id)) as [->|].
    + by rewrite lookup_alter_eq, lookup_insert_eq, Hrow.
    + by rewrite lookup_alter_ne, lookup_insert_ne.
  - cbn [access_token]. rewrite (verify_sign _ _ pk) by done. by rewrite (proj2 (Z.ltb_lt _ _)).
Qed.

(** C22: one live refresh token per session.  From any state where every family
    has at most one token that is neither used nor revoked, any sequence of
    logins, refreshes, logouts and purges, failing or not, keeps it so. *)
Theorem single_live_token x y i j a b :
  auth_inv x.2 → rtc (auth_step s) x y →
  refresh_tokens y.2 !! i = Some a → refresh_tokens y.2 !! j = Some b →
  rt_family_id a = rt_family_id b → live a → live b → i = j.
Proof.
  intros Hi Hsteps. destruct (auth_steps_ind s (λ _, True) x y Hsteps Hi) as [Hy _]; [done|done|].
  apply (ai_live _ Hy).
Qed.

(** A refresh token is exchanged at most once: after it was, no later call
    with it succeeds, whatever happens in between. *)
Theorem refresh_token_single_use e raw φ t d pair t' d' n y e2 φ2 t2 r2 t2' d2' :
  auth_inv d → refresh s e raw φ t d = (Ok pair, t', d') →
  rtc (auth_step s) (n, d') y → refresh s e2 raw φ2 t2 y.2 = (r2, t2', d2') → ∃ err, r2 = Err err.
Proof.
  intros Hi Hrun Hsteps Hrun2. pose proof (refresh_change s n _ _ _ _ _ _ _ _ Hi Hrun) as Hc.
  assert (spent (hash s raw) d') as Hsp.
  { destruct (refresh_outcome s _ _ _ _ _ _ _ _ Hrun) as [[_ [? [=]]]|(x & Hx & [<-|[? [=]]])].
    inversion Hx as [| |id row d1 p1 Hrow Hh Hl _ Hins _]; subst.
    destruct (change_rotate n _ _ _ _ _ _ _ _ Hi Hrow Hl Hins) as [_ Hrow'].
    exists id, (used (ae_now e) row). split; [done|]. split; [done|]. by intros [? _]. }
  destruct (auth_steps_ind s (λ y, spent (hash s raw) y.2) (n, d') y Hsteps) as [Hy Hspy].
  - by eapply change_inv.
  - done.
  - intros u v _ _ Huv. by eapply change_spent.
  - by eapply refresh_spent.
Qed.

(** C13: reuse revokes the family.  When a token that was already exchanged comes
    again, the answer is the same 401 as for an unknown token, and, unless the
    token was already revoked:
    - the token and every token of its family that the snapshot of the UPDATE
      has are revoked, and none of them is ever exchanged from then on;
    - if the snapshot has the whole family, that is, if no exchange of the
      session commits while the UPDATE is under way, the family is dead: no token
      of it is ever exchanged, whatever comes later.
    The code has no lock that would keep such an exchange away:
    [family_race_leaves_live_token] shows the token that survives it. *)
Theorem reuse_revokes_family e raw t d i row n :
  auth_inv d → refresh_tokens d !! i = Some row → rt_token_hash row = hash s raw → rt_used_at row ≠ None →
  ∃ t' d', refresh s e raw no_fault t d = (Err BAD_REFRESH, t', d') ∧ (rt_revoked_at row = None →
    (∀ j x, refresh_tokens d !! j = Some x → rt_family_id x = rt_family_id row → j = i ∨ j ∉ ae_missed e →
       (∃ x', refresh_tokens d' !! j = Some x' ∧ rt_token_hash x' = rt_token_hash x ∧ rt_revoked_at x' ≠ None) ∧
       ∀ raw2, rt_token_hash x = hash s raw2 → refused s raw2 (n, d')) ∧
    (all_seen (ae_missed e) (rt_family_id row) d → dead (rt_family_id row) d' ∧ session_over s (rt_family_id row) (n, d'))).
Proof.
  intros Hi Hrow Hh Hu.
  assert (Hsel : select_token (hash s raw) d = (Ok [(i, row)], d)).
  { apply select_token_single; [done|done|apply Hi]. }
  destruct (rt_revoked_at row) as [rv|] eqn:Hr.
  { do 2 eexists. split; [|done]. apply refresh_run_err. unfold refresh_body. erewrite bind_run; [|apply query_run; exact Hsel]. cbv beta iota. rewrite Hr. reflexivity. }
  destruct (rt_used_at row) as [us|] eqn:Hus; [|done].
  set (d' := (revoke_family (ae_missed e ∖ {[i]}) (rt_family_id row) (ae_now e) d).2). eexists _, d'. split.
  { apply refresh_run_err. unfold refresh_body.
    erewrite bind_run; [|apply query_run; exact Hsel]. cbv beta iota. rewrite Hr, Hus.
    erewrite bind_run; [|apply query_run; unfold revoke_family; reflexivity]. reflexivity. }
  intros _. assert (Hi' : auth_inv d') by (eapply (change_inv n); [apply change_revoke|done]).
  destruct (revoked_for_ever s (ae_missed e ∖ {[i]}) (rt_family_id row) (ae_now e) n d d' Hi' eq_refl) as [Hone Hall].
  split; [|intros Hseen; apply Hall; [by exists i, row|intros j x Hj Hf; pose proof (Hseen j x Hj Hf); set_solver]].
  intros j x Hj Hf Hm. assert (j ∉ ae_missed e ∖ {[i]}) as Hm' by set_solver. split; [|intros raw2; by apply (Hone j x)].
  destruct (revoke_seen _ _ (ae_now e) d j x Hj Hf Hm') as (x' & ? & ? & _ & ?). by exists x'.
Qed.

(** C14: logout ends the session.  Once the logout of an authenticated user has
    succeeded, his access token is refused for ever, purges of the denylist
    included (an entry goes only when the token has expired anyway); no refresh
    token of the session that the snapshot of the UPDATE has is ever exchanged;
    and if the snapshot has the whole session, that is, if no exchange of it
    commits while the UPDATE is under way, no refresh token of the session is,
    whatever comes later.  [family_race_leaves_live_token] shows the token that
    survives such an exchange. *)
Theorem logout_ends_session token date0 φ0 t0 d0 user t0' d0' e φ t d t' d' n family jti exp :
  authenticate s date0 token φ0 t0 d0 = (Ok user, t0', d0') →
  auth_inv d → logout e user φ t d = (Ok tt, t', d') →
  uuid_in (au_fid user) = Some family → uuid_in (au_jti user) = Some jti →
  num_to_Z (au_exp user) = Some exp → 0 ≤ exp < 2 ^ 40 →
  (∀ x, access_denylist d !! jti = Some x → 1000 * exp ≤ x) →
  (∀ y date φ1 t1 user1 t1' d1', rtc (auth_step s) (n, d') y → y.1 ≤ date →
     authenticate s date token φ1 t1 y.2 ≠ (Ok user1, t1', d1')) ∧
  (∀ j row raw, refresh_tokens d !! j = Some row → rt_family_id row = family → j ∉ ae_missed e →
     rt_token_hash row = hash s raw → refused s raw (n, d')) ∧
  ((∃ i row, refresh_tokens d !! i = Some row ∧ rt_family_id row = family) → all_seen (ae_missed e) family d →
     session_over s family (n, d')).
Proof.
  intros Hauth Hi Hrun Hfam Hj He Hr Hold.
  pose proof (logout_change n _ _ _ _ _ _ _ _ Hrun) as Hc. pose proof (change_inv _ _ _ Hc Hi) as Hi'.
  destruct (logout_outcome _ _ _ _ _ _ _ _ Hrun) as [[_ [? [=]]]|Hout]. split.
  - intros y date φ1 t1 user1 t1' d1' Hsteps Hdate Hrun1.
    destruct (auth_steps_ind s (shut jti exp) (n, d') y Hsteps Hi') as [_ Hshut].
    { by eapply logged_out_shut. }
    { intros u v Hn _ Huv. by apply change_shut. }
    destruct y as [ny dy].
    apply (shut_refused s jti exp ny dy date token φ1 t1 user1 t1' d1' Hshut Hdate Hrun1);
      apply authenticate_ok in Hrun1 as (c1 & j1 & Hv1 & -> & _), Hauth as (c0 & j0 & Hv0 & -> & _); cbn in *;
      by rewrite (verify_same _ _ _ _ _ _ _ Hv1 Hv0).
  - destruct Hout as (family' & jti' & x & Hf' & _ & _ & ->). assert (family' = family) as -> by congruence.
    destruct (revoked_for_ever s (ae_missed e) family (ae_now e) n d _ Hi' (proj1 (insert_denied_tokens _ _ _))) as [Hone Hall].
    split; [exact Hone|]. intros Hex Hseen. by apply Hall.
Qed.
End properties.

(** ** Witnesses and a race *)

Section auth_witnesses.
#[local] Existing Instance fix_text.
#[local] Existing Instance fix_text_laws.
#[local] Existing Instance fix_jwt.
#[local] Existing Instance fix_jwt_laws.
#[local] Existing Instance fix_crypto.
#[local] Instance fix_hmac : Hmac := {| hmac p x := p +:+ x |}.

Definition fix_auth : AuthService := Auth old_service "pepper:" 3600 "scrypt$00$00".
Definition fam : string := "0e0e0e0e-0e0e-5e0e-8e0e-0e0e0e0e0e0e".
Definition jti1 : string := "aaaaaaaa-0e0e-5e0e-8e0e-0e0e0e0e0e0e".

(** A session whose first token r1 was exchanged for r2. *)
Definition row1 : refresh_row := RefreshRow "pepper:r1" fam 1 (Some 1000) None 9000000.
Definition row2 : refresh_row := RefreshRow "pepper:r2" fam 1 None None 9000000.
Definition session_db : db := set_tokens (λ _, <[2 := row2]> {[1 := row1]}) 2 fix_db.
Definition env_at (n : Z) (raw : string) : auth_env := AuthEnv n n raw jti1 ∅.

Lemma session_rows i t : refresh_tokens session_db !! i = Some t → (i = 2 ∧ t = row2) ∨ (i = 1 ∧ t = row1).
Proof.
  cbn. intros [[<- <-]|[_ Ht]]%lookup_insert_Some; [by left|]. right.
  by apply lookup_singleton_Some in Ht as [<- <-].
Qed.

Lemma session_inv : auth_inv session_db.
Proof.
  split.
  - intros i j a b k Ha Hb. apply session_rows in Ha as [[-> ->]|[-> ->]], Hb as [[-> ->]|[-> ->]]; cbn; congruence.
  - intros i j a b Ha Hb _ [Hu _] [Hu' _].
    apply session_rows in Ha as [[-> ->]|[-> ->]], Hb as [[-> ->]|[-> ->]]; cbn in *; congruence.
  - intros i [t Ht]. apply session_rows in Ht as [[-> _]|[-> _]]; cbn; lia.
  - intros i t Ht. apply session_rows in Ht as [[-> ->]|[-> ->]]; vm_compute; reflexivity.
Qed.

Lemma refresh_rotates_witness : ∃ pair t' d',
  refresh fix_auth (env_at 5000 "r3") "r2" no_fault 0%nat session_db = (Ok pair, t', d') ∧ refresh_token pair = "r3".
Proof.
  destruct (refresh_rotates fix_auth (env_at 5000 "r3") "r2" 0%nat session_db 2 row2 fix_user 60000)
    as (pair & t' & d' & H1 & H2 & _).
  - exact session_inv.
  - reflexivity.
  - reflexivity.
  - split; reflexivity.
  - reflexivity.
  - reflexivity.
  - intros j x Hx. apply session_rows in Hx as [[_ ->]|[_ ->]]; done.
  - exists "key-1". split; [reflexivity|]. vm_compute. reflexivity.
  - done.
  - vm_compute. split; congruence.
  - vm_compute. reflexivity.
  - exists pair, t', d'. split; [exact H1|exact H2].
Defined.

Definition rotated : result TokenPair * nat * db := refresh fix_auth (env_at 5000 "r3") "r2" no_fault 0%nat session_db.

Lemma rotated_step : rtc (auth_step fix_auth) (0, session_db) (5000, rotated.2).
Proof.
  apply rtc_once. apply (as_refresh fix_auth 0 5000 (env_at 5000 "r3") "r2" no_fault 0%nat rotated.1.1 rotated.1.2); [lia|].
  unfold rotated. by destruct (refresh _ _ _ _ _ _) as [[? ?] ?].
Qed.

Definition row3 : refresh_row := RefreshRow "pepper:r3" fam 1 None None 3605000.

Lemma single_live_token_witness : refresh_tokens rotated.2 !! 3 = Some row3 ∧
  (refresh_tokens rotated.2 !! 2 = Some row3 → 2 = 3).
Proof.
  assert (H3 : refresh_tokens rotated.2 !! 3 = Some row3) by (vm_compute; reflexivity). split; [exact H3|].
  intros H2. apply (single_live_token fix_auth (0, session_db) (5000, rotated.2) 2 3 row3 row3 session_inv rotated_step H2 H3);
    [reflexivity|split; reflexivity|split; reflexivity].
Defined.

Lemma rotated_run : refresh fix_auth (env_at 5000 "r3") "r2" no_fault 0%nat session_db =
  (Ok (match rotated.1.1 with Ok p => p | Err _ => Pair "" "" "" 0 end), rotated.1.2, rotated.2).
Proof.
  assert (H : match rotated.1.1 with Ok _ => true | Err _ => false end = true) by (vm_compute; reflexivity).
  unfold rotated in *. by destruct (refresh _ _ _ _ _ _) as [[[p|e] n] d].
Qed.

Definition again : result TokenPair * nat * db := refresh fix_auth (env_at 6000 "r4") "r2" no_fault 0%nat rotated.2.

Lemma refresh_token_single_use_witness : ∃ err, again.1.1 = Err err.
Proof.
  apply (refresh_token_single_use fix_auth (env_at 5000 "r3") "r2" no_fault 0%nat session_db
    (match rotated.1.1 with Ok p => p | Err _ => Pair "" "" "" 0 end) rotated.1.2 rotated.2 5000 (5000, rotated.2)
    (env_at 6000 "r4") no_fault 0%nat again.1.1 again.1.2 again.2 session_inv rotated_run (rtc_refl _ _)).
  unfold again. by destruct (refresh _ _ _ _ _ _) as [[? ?] ?].
Defined.

Definition reused : result TokenPair * nat * db := refresh fix_auth (env_at 5000 "r3") "r1" no_fault 0%nat session_db.

(** The thief shows r1: r2 dies with it. *)
Lemma reuse_revokes_family_witness : ∃ d', dead fam d' ∧ refused fix_auth "r2" (5000, d').
Proof.
  destruct (reuse_revokes_family fix_auth (env_at 5000 "r3") "r1" 0%nat session_db 1 row1 5000) as (t' & d' & Hrun & Hd).
  - exact session_inv.
  - reflexivity.
  - reflexivity.
  - done.
  - destruct (Hd eq_refl) as [Hone Hall]. exists d'. split.
    + apply (proj1 (Hall (λ j x _ _, not_elem_of_empty j))).
    + apply (proj2 (Hone 2 row2 eq_refl eq_refl (or_intror (not_elem_of_empty 2))) "r2" eq_refl).
Defined.

Definition bearer : string := (sign old_service 5000 jti1 "1" customer fam).1.1.
Definition ada : AuthUser := AuthUserOf "1" customer jti1 (num_of_Z 905) fam.
Definition left_db : db := (logout (env_at 7000 "") ada no_fault 0%nat session_db).2.

Lemma logout_ends_session_witness :
  refresh_tokens left_db !! 2 = Some (revoked 7000 row2) ∧
  authenticate fix_auth 8000 bearer no_fault 0%nat left_db ≠ (Ok ada, 1%nat, left_db) ∧
  refused fix_auth "r2" (7000, left_db).
Proof.
  split; [vm_compute; reflexivity|].
  destruct (logout_ends_session fix_auth bearer 6000 no_fault 0%nat session_db ada 1%nat session_db
    (env_at 7000 "") no_fault 0%nat session_db
    (logout (env_at 7000 "") ada no_fault 0%nat session_db).1.2 left_db 7000 fam jti1 905) as (Haccess & Hone & _).
  - vm_compute. reflexivity.
  - exact session_inv.
  - vm_compute. reflexivity.
  - vm_compute. reflexivity.
  - vm_compute. reflexivity.
  - vm_compute. reflexivity.
  - split; [done|reflexivity].
  - intros x Hx. vm_compute in Hx. discriminate.
  - split; [apply (Haccess (7000, left_db)); [apply rtc_refl|cbn; lia]|].
    apply (Hone 2 row2 "r2" eq_refl eq_refl (not_elem_of_empty 2) eq_refl).
Defined.

(** The race the family revocation loses.  While the owner exchanges r2,
    the thief shows r1: the UPDATE of the reuse branch has its snapshot (rows 1
    and 2) from before the exchange, waits for the row of r2, and revokes rows
    1 and 2 when the exchange has committed row 3.  Every token the UPDATE saw is
    revoked, the family is not dead: r3 is exchanged without objection.  The
    UPDATE of logout loses the same race. *)
Theorem family_race_leaves_live_token :
  let exchanged := (refresh fix_auth (env_at 5000 "r3") "r2" no_fault 0%nat session_db).2 in
  let e := AuthEnv 5001 5001 "" jti1 {[3]} in
  let reused := refresh fix_auth e "r1" no_fault 0%nat exchanged in
  let left := logout e ada no_fault 0%nat exchanged in
  let next d := match (refresh fix_auth (env_at 6000 "r4") "r3" no_fault 0%nat d).1.1 with Ok p => Some (refresh_token p) | Err _ => None end in
  reused.1.1 = Err BAD_REFRESH ∧ rt_revoked_at <$> refresh_tokens reused.2 !! 2 = Some (Some 5001) ∧ next reused.2 = Some "r4" ∧
  left.1.1 = Ok tt ∧ rt_revoked_at <$> refresh_tokens left.2 !! 2 = Some (Some 5001) ∧ next left.2 = Some "r4".
Proof. split_and!; vm_compute; reflexivity. Qed.
End auth_witnesses.
