(* ===== verification/Async.v ===== *)
(** Async code that shares a world with other requests (an awaited call to
    Postgres, S3 or Redis): a state-and-exception monad in which every awaited
    round trip may fail, executed or not, and in which everyone else acts
    before each round trip, as the schedule says. *)
From S2P Require Import Prelude Sql.
#[local] Open Scope Z_scope.

(** What a run depends on besides the world: the round trips that fail, what
    everyone else does before the [t]-th round trip, the clock and the values
    of [randomUUID]. *)
Record asched (W : Type) := Schedule {
  s_fault : oracle;
  s_others : nat → W → W;
  s_clock : nat → Z;
  s_uuid : nat → string;
}.

Arguments Schedule {W}.
Arguments s_fault {W}.
Arguments s_others {W}.
Arguments s_clock {W}.
Arguments s_uuid {W}.

Definition async (W A : Type) : Type := asched W → nat → W → result A * nat * W.

Section async.
Context {W : Type}.
Notation io := (async W).

#[export] Instance io_ret : MRet io := λ A a σ t w, (Ok a, t, w).
#[export] Instance io_bind : MBind io := λ A B f m σ t w,
  match m σ t w with
  | (Ok a, t', w') => f a σ t' w'
  | (Err e, t', w') => (Err e, t', w')
  end.
Definition io_throw {A} (e : exn) : io A := λ σ t w, (Err e, t, w).
(** [try { await m } catch]: the outcome as a value. *)
Definition io_try {A} (m : io A) : io (result A) := λ σ t w,
  let '(r, t', w') := m σ t w in (Ok r, t', w').
Definition io_lift {A} (r : result A) : io A := λ σ t w, (r, t, w).
Definition io_date : io Z := λ σ t w, (Ok (s_clock σ t), t, w).
Definition randomUUID : io string := λ σ t w, (Ok (s_uuid σ t), t, w).

(** One awaited round trip. *)
Definition roundtrip {A} (op : W → result A * W) : io A := λ σ t w,
  let w := s_others σ t w in
  match s_fault σ t with
  | None => let '(r, w') := op w in (r, S t, w')
  | Some f => (Err (f_exn f), S t, if f_applied f then (op w).2 else w)
  end.

(** ** Inverting a run *)

Lemma io_bind_ok {A B} (m : io A) (f : A → io B) σ t w b t' w' :
  (m ≫= f) σ t w = (Ok b, t', w') →
  ∃ a t1 w1, m σ t w = (Ok a, t1, w1) ∧ f a σ t1 w1 = (Ok b, t', w').
Proof. unfold mbind, io_bind. destruct (m σ t w) as [[[a|e] t1] w1]; intros Hr; [eauto|by simplify_eq]. Qed.
Lemma io_bind_run {A B} (m : io A) (f : A → io B) σ t w a t' w' :
  m σ t w = (Ok a, t', w') → (m ≫= f) σ t w = f a σ t' w'.
Proof. unfold mbind, io_bind. by intros ->. Qed.
Lemma io_bind_err {A B} (m : io A) (f : A → io B) σ t w e t' w' :
  m σ t w = (Err e, t', w') → (m ≫= f) σ t w = (Err e, t', w').
Proof. unfold mbind, io_bind. by intros ->. Qed.
Lemma io_bind_cases {A B} (m : io A) (f : A → io B) σ t w r t' w' :
  (m ≫= f) σ t w = (r, t', w') →
  (∃ a t1 w1, m σ t w = (Ok a, t1, w1) ∧ f a σ t1 w1 = (r, t', w')) ∨
  (∃ e, m σ t w = (Err e, t', w') ∧ r = Err e).
Proof.
  unfold mbind, io_bind. destruct (m σ t w) as [[[a|e] t1] w1]; intros Hr; [left; eauto|right].
  simplify_eq. eauto.
Qed.
Lemma io_ret_ok {A} (a b : A) σ t w t' w' :
  (mret a : io A) σ t w = (Ok b, t', w') → b = a ∧ t' = t ∧ w' = w.
Proof. by intros [= <- <- <-]. Qed.

(** A quiet schedule: nothing fails and nobody else acts. *)
Definition quiet (σ : asched W) : Prop := (∀ t, s_fault σ t = None) ∧ ∀ t w, s_others σ t w = w.

(** ** Relations every step of a program respects *)

Section io_preserves.
Context (R : W → W → Prop) `{!PreOrder R}.
(** the schedules whose other requests respect it *)
Definition tame (σ : asched W) : Prop := ∀ t w, R w (s_others σ t w).
Definition io_preserves {A} (m : io A) : Prop :=
  ∀ σ t w r t' w', tame σ → m σ t w = (r, t', w') → R w w'.

Lemma io_preserves_pure {A} (m : io A) : (∀ σ t w, (m σ t w).2 = w) → io_preserves m.
Proof. intros Hm σ t w r t' w' _ Hr. specialize (Hm σ t w). rewrite Hr in Hm. cbn in Hm. by subst. Qed.
Lemma io_preserves_bind {A B} (m : io A) (f : A → io B) :
  io_preserves m → (∀ a, io_preserves (f a)) → io_preserves (m ≫= f).
Proof.
  intros Hm Hf σ t w r t' w' Hσ. unfold mbind, io_bind.
  destruct (m σ t w) as [[[a|e] t1] w1] eqn:Hr; intros Hr'.
  - etrans; [by eapply Hm|by eapply Hf].
  - simplify_eq. by eapply Hm.
Qed.
Lemma io_preserves_try {A} (m : io A) : io_preserves m → io_preserves (io_try m).
Proof.
  intros Hm σ t w r t' w' Hσ. unfold io_try. destruct (m σ t w) as [[x t1] w1] eqn:Hr.
  intros; simplify_eq. by eapply Hm.
Qed.
Lemma io_preserves_roundtrip {A} (op : W → result A * W) :
  (∀ w, R w (op w).2) → io_preserves (roundtrip op).
Proof.
  intros Hop σ t w r t' w' Hσ. unfold roundtrip. specialize (Hσ t w). specialize (Hop (s_others σ t w)).
  destruct (s_fault σ t) as [f|]; [destruct (f_applied f)|]; destruct (op _); intros; simplify_eq/=; by etrans.
Qed.
End io_preserves.

(** ** An invariant of the world along a run, and a property of its outcome *)

Section io_post.
Context (I : W → Prop) (σ : asched W).

Definition io_post {A} (m : io A) (Q : result A → Prop) : Prop :=
  ∀ t w r t' w', I w → m σ t w = (r, t', w') → I w' ∧ Q r.

Lemma post_pure {A} (m : io A) (Q : result A → Prop) :
  (∀ t w, (m σ t w).2 = w ∧ Q (m σ t w).1.1) → io_post m Q.
Proof. intros Hm t w r t' w' Hw Hr. specialize (Hm t w). rewrite Hr in Hm. cbn in Hm. by destruct Hm as [-> ?]. Qed.
Lemma post_ret {A} (a : A) (Q : result A → Prop) : Q (Ok a) → io_post (mret a) Q.
Proof. intros HQ. by apply post_pure. Qed.
Lemma post_throw {A} e (Q : result A → Prop) : Q (Err e) → io_post (io_throw e) Q.
Proof. intros HQ. by apply post_pure. Qed.
Lemma post_bind {A B} (m : io A) (f : A → io B) (P : result A → Prop) (Q : result B → Prop) :
  io_post m P → (∀ a, P (Ok a) → io_post (f a) Q) → (∀ e, P (Err e) → Q (Err e)) → io_post (m ≫= f) Q.
Proof.
  intros Hm Hf He t w r t' w' Hw Hr. apply io_bind_cases in Hr as [(a & t1 & w1 & H1 & H2)|(e & H1 & ->)].
  - destruct (Hm _ _ _ _ _ Hw H1). by eapply Hf.
  - destruct (Hm _ _ _ _ _ Hw H1). eauto.
Qed.
Lemma post_try {A} (m : io A) (P : result A → Prop) (Q : result (result A) → Prop) :
  io_post m P → (∀ r, P r → Q (Ok r)) → io_post (io_try m) Q.
Proof.
  intros Hm HQ t w r t' w' Hw. unfold io_try. destruct (m σ t w) as [[x t1] w1] eqn:Hx. intros; simplify_eq.
  destruct (Hm _ _ _ _ _ Hw Hx). eauto.
Qed.
Lemma post_roundtrip {A} (op : W → result A * W) (Q : result A → Prop) :
  (∀ t w, I w → I (s_others σ t w)) → (∀ w, I w → I (op w).2 ∧ Q (op w).1) → (∀ e, Q (Err e)) →
  io_post (roundtrip op) Q.
Proof.
  intros Ho Hop He t w r t' w' Hw. unfold roundtrip. specialize (Ho t w Hw). destruct (Hop _ Ho) as [H1 H2].
  destruct (s_fault σ t) as [f|]; [destruct (f_applied f)|]; destruct (op _); intros; by simplify_eq/=.
Qed.
Lemma post_weaken {A} (m : io A) (P Q : result A → Prop) : io_post m P → (∀ r, P r → Q r) → io_post m Q.
Proof. intros Hm HPQ t w r t' w' Hw Hr. destruct (Hm _ _ _ _ _ Hw Hr). eauto. Qed.
End io_post.
End async.
