(* ===== verification/Limits.v ===== *)
(** The limits of a multipart upload (src/storage/limits.ts): part size, part
    count and part lengths of a file.  Sizes are integral numbers, the
    divisions are binary64 divisions followed by [Math.ceil]. *)
From S2P Require Import Prelude JsNumber.
From stdpp Require Import pretty.
#[local] Open Scope Z_scope.

Definition MIB : Z := 1024 * 1024.
Definition GIB : Z := 1024 * MIB.
Definition MIN_PART : Z := 5 * MIB.
Definition MAX_PART : Z := 5 * GIB.
Definition MAX_PARTS : Z := 10000.
Definition MAX_OBJECT : Z := 5 * 1024 * GIB.

Definition computePartSize (size : Z) : result Z :=
  let needed := ceil_div size MAX_PARTS in
  let rounded := ceil_div needed MIB * MIB in
  let part := Z.max MIN_PART rounded in
  if MAX_PART <? part
  then Err (JsError ("файл " +:+ pretty size +:+ " Б завеликий для multipart"))
  else Ok part.

Definition partCount (size partSize : Z) : Z := ceil_div size partSize.

Definition partLength (size partSize n : Z) : Z :=
  Z.min partSize (size - (n - 1) * partSize).

(** The numbers of the parts, [1 .. total]. *)
Definition part_numbers (total : Z) : list Z := seqZ 1 total.

Example part_plan_48GiB :
  computePartSize (60 * GIB) = Ok (7 * MIB) ∧ partCount (60 * GIB) (7 * MIB) = 8778 ∧
  partLength (60 * GIB) (7 * MIB) 8778 = 1 * MIB.
Proof. vm_compute. done. Qed.

(** A ceiling is the least integer above the quotient. *)
Lemma ceil_div_spec a b : 0 < a < 2 ^ 53 → 0 < b < 2 ^ 53 →
  (ceil_div a b - 1) * b < a ≤ ceil_div a b * b.
Proof.
  intros Ha Hb. rewrite ceil_div_exact by lia.
  pose proof (Z.div_mod (- a) b ltac:(lia)). pose proof (Z.mod_pos_bound (- a) b ltac:(lia)). nia.
Qed.

Lemma sum_partLength size p (k : nat) :
  0 < p → (∀ n, 1 ≤ n ≤ Z.of_nat k → partLength size p n = p) →
  sumZ (partLength size p) (seqZ 1 (Z.of_nat k)) = Z.of_nat k * p.
Proof.
  intros Hp. induction k as [|k IH]; intros Hk; [done|].
  replace (Z.of_nat (S k)) with (Z.of_nat k + 1) by lia.
  rewrite seqZ_app, sumZ_app, IH by first [lia|intros; apply Hk; lia].
  change (seqZ _ 1) with [1 + Z.of_nat k]. unfold sumZ. cbn [foldr].
  rewrite Hk by lia. lia.
Qed.

(** The part size as a function of the size: what [computePartSize] returns. *)
Lemma computePartSize_cases size : 1 ≤ size < 2 ^ 53 →
  let needed := - (- size / MAX_PARTS) in
  let p := Z.max MIN_PART (- (- needed / MIB) * MIB) in
  computePartSize size = if MAX_PART <? p
    then Err (JsError ("файл " +:+ pretty size +:+ " Б завеликий для multipart")) else Ok p.
Proof.
  intros Hs needed p. unfold computePartSize.
  rewrite (ceil_div_exact size MAX_PARTS) by (unfold MAX_PARTS; lia).
  rewrite (ceil_div_exact _ MIB).
  - done.
  - fold needed. pose proof (Z.div_mod (- size) MAX_PARTS ltac:(done)) as Hd.
    pose proof (Z.mod_pos_bound (- size) MAX_PARTS ltac:(done)). unfold MAX_PARTS in *. lia.
  - unfold MIB. lia.
Qed.

Lemma part_size_ok size p : 1 ≤ size < 2 ^ 53 → computePartSize size = Ok p →
  MIN_PART ≤ p ≤ MAX_PART ∧ p mod MIB = 0 ∧ 1 ≤ partCount size p ≤ MAX_PARTS ∧
  (partCount size p - 1) * p < size ≤ partCount size p * p ∧
  (MIN_PART < p → MAX_PARTS * (p - MIB) < size).
Proof.
  intros Hs. rewrite computePartSize_cases by done.
  pose proof (Z.div_mod (- size) MAX_PARTS ltac:(done)) as Hd1.
  pose proof (Z.mod_pos_bound (- size) MAX_PARTS ltac:(done)) as Hd2.
  set (needed := - (- size / MAX_PARTS)) in *.
  pose proof (Z.div_mod (- needed) MIB ltac:(done)) as Hd3.
  pose proof (Z.mod_pos_bound (- needed) MIB ltac:(done)) as Hd4.
  set (k := - (- needed / MIB)) in *. cbv zeta.
  destruct (Z.ltb_spec MAX_PART (Z.max MIN_PART (k * MIB))) as [|Hmax]; [done|].
  intros [= <-]. assert (Hp : MIN_PART ≤ Z.max MIN_PART (k * MIB)) by lia.
  assert (Hmod : Z.max MIN_PART (k * MIB) mod MIB = 0).
  { destruct (Z.max_spec MIN_PART (k * MIB)) as [[_ ->]|[_ ->]]; [|done].
    apply Z.mod_mul. done. }
  assert (Hmin : MIN_PART < Z.max MIN_PART (k * MIB) → MAX_PARTS * (Z.max MIN_PART (k * MIB) - MIB) < size).
  { unfold MAX_PARTS, MIN_PART, MIB in *. lia. }
  assert (Hle : size ≤ MAX_PARTS * Z.max MIN_PART (k * MIB)).
  { unfold MAX_PARTS, MIB in *. lia. }
  set (p := Z.max MIN_PART (k * MIB)) in *.
  assert (Hr : 0 < p < 2 ^ 53) by (unfold MIN_PART, MAX_PART, GIB, MIB in *; lia).
  pose proof (ceil_div_spec size p ltac:(lia) Hr) as Hc. fold (partCount size p) in Hc.
  split_and!; try done; try lia; nia.
Qed.

(** The number of parts and their lengths for any part size. *)
Lemma part_lengths size p : 0 < p →
  let total := partCount size p in 1 ≤ total →
  (total - 1) * p < size ≤ total * p →
  (∀ n, 1 ≤ n < total → partLength size p n = p) ∧ 0 < partLength size p total ≤ p ∧
  sumZ (partLength size p) (part_numbers total) = size.
Proof.
  intros Hp total Ht Hsz.
  assert (Hn : ∀ n, 1 ≤ n < total → partLength size p n = p) by (intros; unfold partLength; nia).
  split_and!; [done|unfold partLength; lia|unfold partLength; lia|].
  unfold part_numbers. replace total with (Z.of_nat (Z.to_nat (total - 1)) + 1) by lia.
  rewrite seqZ_app, sumZ_app, sum_partLength by first [lia|intros; apply Hn; lia].
  change (seqZ _ 1) with [1 + Z.of_nat (Z.to_nat (total - 1))]. unfold sumZ, partLength. cbn [foldr].
  rewrite Z2Nat.id by lia. replace (1 + (total - 1) - 1) with (total - 1) by lia. lia.
Qed.

Lemma part_plan_exists size : 1 ≤ size ≤ MAX_OBJECT → ∃ p, computePartSize size = Ok p.
Proof.
  intros Hs. rewrite computePartSize_cases by (unfold MAX_OBJECT, GIB, MIB in *; lia).
  pose proof (Z.div_mod (- size) MAX_PARTS ltac:(done)) as Hd1.
  pose proof (Z.mod_pos_bound (- size) MAX_PARTS ltac:(done)) as Hd2.
  set (needed := - (- size / MAX_PARTS)) in *.
  pose proof (Z.div_mod (- needed) MIB ltac:(done)) as Hd3.
  pose proof (Z.mod_pos_bound (- needed) MIB ltac:(done)) as Hd4.
  set (k := - (- needed / MIB)) in *. cbv zeta.
  destruct (Z.ltb_spec MAX_PART (Z.max MIN_PART (k * MIB))) as [Hbig|]; [|eauto].
  unfold MAX_PART, MIN_PART, MAX_OBJECT, MAX_PARTS, GIB, MIB in *. lia.
Qed.

(** C28: the plan of a multipart upload is valid for every accepted size, float
    rounding included: the part size is a whole number of MiB between 5 MiB and
    5 GiB (and the least such that 10000 parts suffice), there are between 1 and
    10000 parts, all but the last are of the part size, the last is not empty,
    and the lengths add up to the size. *)
Theorem part_plan_valid size : 1 ≤ size ≤ MAX_OBJECT →
  ∃ p, computePartSize size = Ok p ∧ MIN_PART ≤ p ≤ MAX_PART ∧ p mod MIB = 0 ∧
    (MIN_PART < p → MAX_PARTS * (p - MIB) < size) ∧
    let total := partCount size p in
    1 ≤ total ≤ MAX_PARTS ∧ (∀ n, 1 ≤ n < total → partLength size p n = p) ∧
    0 < partLength size p total ≤ p ∧ sumZ (partLength size p) (part_numbers total) = size.
Proof.
  intros Hs. assert (Hs' : 1 ≤ size < 2 ^ 53) by (unfold MAX_OBJECT, GIB, MIB in *; lia).
  destruct (part_plan_exists size Hs) as [p Hp].
  destruct (part_size_ok size p Hs' Hp) as (Hb & Hm & Ht & Hc & Hmin).
  destruct (part_lengths size p) as (Hn & Hl & Hsum);
    [unfold MIN_PART, MIB in *; lia|lia|done|]. eauto 10.
Qed.

Lemma part_plan_valid_witness :
  ∃ p, computePartSize (60 * GIB) = Ok p ∧ partCount (60 * GIB) p ≤ MAX_PARTS.
Proof.
  destruct (part_plan_valid (60 * GIB)) as (p & H1 & _ & _ & _ & H2 & _);
    [split; vm_compute; discriminate|exists p; split; [exact H1|exact (proj2 H2)]].
Defined.
