(* ===== verification/Storage.v ===== *)
(** The object store as the files code uses it (src/storage/s3.ts,
    src/files/storage.service.ts), and the async code that talks to both
    Postgres and S3 while other requests and the clients' presigned uploads
    go on.

    S3 and its SDK are a class: operations on an abstract state, with the
    documented behaviour the theorems use in [S3Laws]. *)
From S2P Require Import Prelude JsNumber Events Schema Sql Async Limits.
From stdpp Require Import pretty.
#[local] Open Scope Z_scope.

(** ** The store *)

(** A part as ListParts reports it. *)
Record part := Part { PartNumber : Z; Size : Z; ETag : string }.
#[export] Instance part_eq_dec : EqDecision part.
Proof. solve_decision. Defined.

(** A page of ListParts, the answer of HeadObject, the commands that are
    signed and not sent. *)
Record list_page := ListPage { Parts : list part; IsTruncated : bool; NextPartNumberMarker : option string }.
Record head_answer := HeadAnswer { ContentLength : Z; head_ETag : option string }.
Inductive presigned :=
| PutObject (Bucket Key ContentType : string)
| UploadPart (Bucket Key UploadId : string) (PartNumber : Z)
| GetObject (Bucket Key : string).

Class S3 := {
  s3 : Type;
  createMultipartUpload : string → string → string → s3 → result string * s3;
  abortMultipartUpload : string → string → string → s3 → result unit * s3;
  completeMultipartUpload : string → string → string → list (Z * string) → s3 → result unit * s3;
  listParts : string → string → string → option string → s3 → result list_page;
  headObject : string → string → s3 → result head_answer;
  (** [getSignedUrl]: command, seconds to live, the date it is signed at *)
  getSignedUrl : presigned → Z → Z → string;
}.

(** Documented behaviour: an upload in progress has at most one part per number
    in 1..10000, listed in order, in pages that start after the marker;
    completing it with parts that are there, in order, all but the last of at
    least 5 MiB, replaces it by an object as long as its parts. *)
Class S3Laws `{S3} := {
  upload_parts : s3 → string → string → string → option (list part);
  marker_number : option string → Z;
  marker_none : marker_number None = 0;
  parts_sorted s b k u ps : upload_parts s b k u = Some ps →
    StronglySorted (by_key PartNumber) ps ∧ Forall (λ p, 1 ≤ PartNumber p ≤ MAX_PARTS ∧ 0 ≤ Size p) ps;
  listParts_page s b k u m page : listParts b k u m s = Ok page →
    ∃ ps n, upload_parts s b k u = Some ps ∧
      let rest := filter (λ p, marker_number m < PartNumber p) ps in
      Parts page = take n rest ∧
      if IsTruncated page
      then ∃ p, last (Parts page) = Some p ∧ marker_number (NextPartNumberMarker page) = PartNumber p
      else Parts page = rest;
  listParts_found s b k u m ps : upload_parts s b k u = Some ps → ∃ page, listParts b k u m s = Ok page;
  complete_ok s b k u ps sel :
    upload_parts s b k u = Some ps → sel `sublist_of` ps → sel ≠ [] →
    (∀ p, p ∈ sel → MIN_PART ≤ Size p ∨ last sel = Some p) →
    ∃ s' etag, completeMultipartUpload b k u ((λ p, (PartNumber p, ETag p)) <$> sel) s = (Ok tt, s') ∧
      headObject b k s' = Ok (HeadAnswer (sumZ Size sel) etag);
  etag_text s b k h etag : headObject b k s = Ok h → head_ETag h = Some etag → text_in etag = Some etag;
}.

(** [errName] and [errStatus] of src/storage/s3.ts on the exceptions of the
    model: every error object but a bare SDK answer has a [name]. *)
Definition errName (e : exn) : string :=
  match e with
  | SdkError (Some name) _ _ _ => name
  | SdkError None (Some Code) _ _ => Code
  | SdkError None None (Some message) _ => message
  | SdkError None None None _ => "[object Object]"
  | PgError _ => "error"
  | HttpError _ _ _ => "HttpException"
  | JsError _ => "Error"
  end.
Definition errStatus (e : exn) : Z :=
  match e with SdkError _ _ _ (Some status) => status | _ => 0 end.

(** src/files/storage.service.ts [StorageService]: the configured fields. *)
Record StorageService := StorageServiceOf {
  bucket : string;
  putExpires : Z;
  partExpires : Z;
  getExpires : Z;
  multipartThreshold : Z;
}.

Section storage.
Context `{S3}.

Definition presignPut (st : StorageService) (date : Z) (key contentType : string) : string :=
  getSignedUrl (PutObject (bucket st) key contentType) (putExpires st) date.
Definition presignPart (st : StorageService) (date : Z) (key uploadId : string) (n : Z) : string :=
  getSignedUrl (UploadPart (bucket st) key uploadId n) (partExpires st) date.
Definition presignGet (st : StorageService) (date : Z) (key : string) : string :=
  getSignedUrl (GetObject (bucket st) key) (getExpires st) date.

(** ** Code that awaits Postgres and S3 *)

Record world := World { w_s3 : s3; w_db : db }.
End storage.

Notation io := (async world).

Section storage_runs.
Context `{S3}.

Definition pg {A} (stmt : db → result A * db) : io A :=
  roundtrip (λ w, let '(r, d) := stmt (w_db w) in (r, World (w_s3 w) d)).
Definition s3_send {A} (cmd : s3 → result A * s3) : io A :=
  roundtrip (λ w, let '(r, s) := cmd (w_s3 w) in (r, World s (w_db w))).
Definition s3_read {A} (cmd : s3 → result A) : io A := s3_send (λ s, (cmd s, s)).

(** ** Inverting a run *)

Lemma pg_ok {A} (stmt : db → result A * db) σ t w a t' w' :
  pg stmt σ t w = (Ok a, t', w') →
  ∃ d, stmt (w_db (s_others σ t w)) = (Ok a, d) ∧ t' = S t ∧ w' = World (w_s3 (s_others σ t w)) d.
Proof.
  unfold pg, roundtrip. destruct (s_fault σ t); [done|].
  destruct (stmt _) as [r d]. intros; simplify_eq. eauto.
Qed.
Lemma s3_send_ok {A} (cmd : s3 → result A * s3) σ t w a t' w' :
  s3_send cmd σ t w = (Ok a, t', w') →
  ∃ s, cmd (w_s3 (s_others σ t w)) = (Ok a, s) ∧ t' = S t ∧ w' = World s (w_db (s_others σ t w)).
Proof.
  unfold s3_send, roundtrip. destruct (s_fault σ t); [done|].
  destruct (cmd _) as [r d]. intros; simplify_eq. eauto.
Qed.
Lemma world_eta w : World (w_s3 w) (w_db w) = w.
Proof. by destruct w. Qed.
Lemma s3_read_ok {A} (cmd : s3 → result A) σ t w a t' w' :
  s3_read cmd σ t w = (Ok a, t', w') →
  cmd (w_s3 (s_others σ t w)) = Ok a ∧ t' = S t ∧ w' = s_others σ t w.
Proof.
  intros Hr. apply s3_send_ok in Hr as (s & Hc & -> & ->). simplify_eq. by rewrite world_eta.
Qed.

Lemma pg_quiet {A} (stmt : db → result A * db) σ t w r d :
  quiet σ → stmt (w_db w) = (r, d) → pg stmt σ t w = (r, S t, World (w_s3 w) d).
Proof. intros [Hf Ho] Hs. unfold pg, roundtrip. by rewrite Hf, Ho, Hs. Qed.
Lemma s3_send_quiet {A} (cmd : s3 → result A * s3) σ t w r s :
  quiet σ → cmd (w_s3 w) = (r, s) → s3_send cmd σ t w = (r, S t, World s (w_db w)).
Proof. intros [Hf Ho] Hs. unfold s3_send, roundtrip. by rewrite Hf, Ho, Hs. Qed.
Lemma s3_read_quiet {A} (cmd : s3 → result A) σ t w :
  quiet σ → s3_read cmd σ t w = (cmd (w_s3 w), S t, w).
Proof. intros Hq. unfold s3_read. erewrite s3_send_quiet; [|done|done]. by rewrite world_eta. Qed.
Lemma pg_read_quiet {A} (stmt : db → result A) σ t w :
  quiet σ → pg (λ d, (stmt d, d)) σ t w = (stmt (w_db w), S t, w).
Proof. intros Hq. erewrite pg_quiet; [|done|done]. by rewrite world_eta. Qed.

End storage_runs.
