(* ===== verification/StorageSim.v ===== *)
(** A small object store for the examples and witnesses: multipart uploads with
    pages of two parts, objects known by their length. *)
From stdpp Require Import pretty.
From S2P Require Import Prelude JsNumber Events Schema Sql Async Fixtures Limits Storage.
#[local] Open Scope Z_scope.

Record sim := Sim {
  sim_uploads : gmap (string * string * string) (list part);
  sim_objects : gmap (string * string) Z;
  sim_next : N;
}.

Definition no_such_upload : exn := SdkError (Some "NoSuchUpload") None (Some "no such upload") (Some 404).
Definition not_found : exn := SdkError (Some "NotFound") None None (Some 404).

(** Part numbers ascending in 1..10000, no negative length. *)
Fixpoint parts_ok (after : Z) (ps : list part) : bool :=
  match ps with
  | [] => true
  | p :: ps => (after <? PartNumber p) && (PartNumber p <=? MAX_PARTS) && (0 <=? Size p) && parts_ok (PartNumber p) ps
  end.

Definition sim_parts (s : sim) (b k u : string) : option (list part) :=
  ps ← sim_uploads s !! (b, k, u); if parts_ok 0 ps then Some ps else None.

Definition sim_marker (m : option string) : Z := default 0 (m ≫= digits_val 0).

Definition sim_list (b k u : string) (m : option string) (s : sim) : result list_page :=
  match sim_parts s b k u with
  | None => Err no_such_upload
  | Some ps =>
      let rest := filter (λ p, sim_marker m < PartNumber p) ps in
      let page := take 2 rest in
      Ok (ListPage page (2 <? length rest)%nat ((λ p, pretty (Z.to_N (PartNumber p))) <$> last page))
  end.

Definition sim_complete (b k u : string) (req : list (Z * string)) (s : sim) : result unit * sim :=
  match sim_parts s b k u with
  | None => (Err no_such_upload, s)
  | Some ps =>
      (Ok tt, Sim (delete (b, k, u) (sim_uploads s))
                  (<[(b, k) := sumZ Size (filter (λ p, PartNumber p ∈ req.*1) ps)]> (sim_objects s)) (sim_next s))
  end.

Definition sim_head (b k : string) (s : sim) : result head_answer :=
  match sim_objects s !! (b, k) with
  | Some len => Ok (HeadAnswer len (Some "etag"))
  | None => Err not_found
  end.

Definition sim_url (c : presigned) (expires date : Z) : string :=
  match c with
  | PutObject b k ct => "PUT " +:+ b +:+ "/" +:+ k
  | UploadPart b k u n => "PUT " +:+ b +:+ "/" +:+ k +:+ "?uploadId=" +:+ u +:+ "&partNumber=" +:+ pretty n
  | GetObject b k => "GET " +:+ b +:+ "/" +:+ k
  end.

Definition sim_s3 : S3 := {|
  s3 := sim;
  createMultipartUpload := λ b k _ s, let u := pretty (sim_next s) in
    (Ok u, Sim (<[(b, k, u) := []]> (sim_uploads s)) (sim_objects s) (N.succ (sim_next s)));
  abortMultipartUpload := λ b k u s, (Ok tt, Sim (delete (b, k, u) (sim_uploads s)) (sim_objects s) (sim_next s));
  completeMultipartUpload := sim_complete;
  listParts := sim_list;
  headObject := sim_head;
  getSignedUrl := sim_url;
|}.

Lemma parts_ok_sorted after ps : parts_ok after ps = true →
  StronglySorted (by_key PartNumber) ps ∧ Forall (λ p, after < PartNumber p ≤ MAX_PARTS ∧ 0 ≤ Size p) ps.
Proof.
  revert after. induction ps as [|p ps IH]; intros after; [split; constructor|]. cbn.
  intros [[[Ha Hb]%andb_true_iff Hc]%andb_true_iff Hd]%andb_true_iff.
  destruct (IH _ Hd) as [Hs Hf]. zify_bools. split; constructor; try done.
  - eapply Forall_impl; [done|]. unfold by_key. cbn. intros; lia.
  - eapply Forall_impl; [done|]. cbn. intros; lia.
Qed.

Lemma sim_parts_ok s b k u ps : sim_parts s b k u = Some ps →
  StronglySorted (by_key PartNumber) ps ∧ Forall (λ p, 1 ≤ PartNumber p ≤ MAX_PARTS ∧ 0 ≤ Size p) ps.
Proof.
  unfold sim_parts. destruct (sim_uploads s !! _) as [l|]; [|done]. cbn.
  destruct (parts_ok 0 l) eqn:Hok; [|done]. intros [= <-]. destruct (parts_ok_sorted 0 l Hok) as [Hs Hf].
  split; [done|]. eapply Forall_impl; [done|]. cbn. intros; lia.
Qed.

Lemma sim_list_page s b k u m page : sim_list b k u m s = Ok page →
  ∃ ps n, sim_parts s b k u = Some ps ∧
    let rest := filter (λ p, sim_marker m < PartNumber p) ps in
    Parts page = take n rest ∧
    if IsTruncated page
    then ∃ p, last (Parts page) = Some p ∧ sim_marker (NextPartNumberMarker page) = PartNumber p
    else Parts page = rest.
Proof.
  unfold sim_list. destruct (sim_parts s b k u) as [ps|] eqn:Hps; [|done].
  intros [= <-]. exists ps, 2%nat. split; [done|].
  cbn [Parts IsTruncated NextPartNumberMarker]. cbv zeta. set (rest := filter _ ps).
  split; [done|]. destruct (Nat.ltb_spec 2 (length rest)) as [Hl|Hl].
  - destruct (last (take 2 rest)) as [p|] eqn:Hp.
    + exists p. split; [done|]. unfold sim_marker. cbn [fmap option_fmap option_map mbind option_bind].
      rewrite digits_val_N. cbn [default from_option id].
      apply sim_parts_ok in Hps as [Hs Hf]. destruct (sorted_next_page PartNumber ps _ 2 p Hs Hp) as (_ & Hin & _).
      rewrite Forall_forall in Hf. specialize (Hf p Hin). lia.
    + apply last_None in Hp. destruct rest as [|? [|]]; cbn in *; [lia|done..].
  - rewrite take_ge; [done|lia].
Qed.

Lemma sim_complete_ok s b k u ps sel :
  sim_parts s b k u = Some ps → sel `sublist_of` ps →
  ∃ s' etag, sim_complete b k u ((λ p, (PartNumber p, ETag p)) <$> sel) s = (Ok tt, s') ∧
    sim_head b k s' = Ok (HeadAnswer (sumZ Size sel) etag).
Proof.
  intros Hps Hsel. unfold sim_complete. rewrite Hps. eexists _, _. split; [done|].
  unfold sim_head. cbn. rewrite lookup_insert_eq. do 2 f_equal.
  destruct (sim_parts_ok _ _ _ _ _ Hps) as [Hs _].
  assert (Hsub : ∀ p, p ∈ sel → p ∈ ps) by (intros p Hp; by eapply elem_of_sublist).
  f_equal. apply (sorted_key_eq PartNumber); [by apply filter_sorted|by eapply sublist_sorted|].
  intros p. rewrite list_elem_of_filter. rewrite <- !list_fmap_compose. split.
  - intros [(q & Heq & Hq)%list_elem_of_fmap Hin]. cbn in Heq.
    rewrite (sorted_key_inj PartNumber ps p q Hs Hin (Hsub q Hq) Heq). done.
  - intros Hp. split; [|by apply Hsub]. apply list_elem_of_fmap. exists p. done.
Qed.

Lemma sim_laws : @S3Laws sim_s3.
Proof.
  unshelve econstructor.
  - exact sim_parts.
  - exact sim_marker.
  - done.
  - apply sim_parts_ok.
  - apply sim_list_page.
  - intros s b k u m ps Hps. cbn in *. unfold sim_list. rewrite Hps. eauto.
  - intros s b k u ps sel Hps Hsel _ _. by apply sim_complete_ok with ps.
  - intros s b k h etag Hh. cbn in Hh. unfold sim_head in Hh. destruct (sim_objects s !! _); [|done].
    injection Hh as <-. cbn. by intros [= <-].
Defined.

Definition sim_world : Type := @world sim_s3.
Definition sim_schedule : asched sim_world :=
  @Schedule sim_world no_fault (λ _ w, w) (λ t, Z.of_nat t) (λ t, "0b0e7c1e-2f4a-4c5d-8e6f-00000000000" +:+ pretty (Z.of_nat t mod 10)).
Lemma sim_quiet : @quiet sim_world sim_schedule.
Proof. done. Qed.
