(* ===== verification/Files.v ===== *)
(** Uploads and files (src/files/files.service.ts, src/files/files.types.ts):
    the intent that hands out presigned URLs, resuming, the commit that
    believes only the store, and downloads. *)
From stdpp Require Import pretty.
From Stdlib Require Import Ascii.
From S2P Require Import Prelude JsNumber JsText Events Schema Sql Async Fixtures Token Limits Storage StorageSim.
#[local] Open Scope Z_scope.

(** ** Data *)

(** src/files/files.types.ts [CONTENT_TYPES] *)
Definition CONTENT_TYPES : list (string * string) :=
  [("image/jpeg", "jpg"); ("image/png", "png"); ("image/webp", "webp");
   ("application/pdf", "pdf"); ("application/octet-stream", "bin")].

Definition extension_of (contentType : string) : option string :=
  (λ r, r.2.2) <$> list_find (λ ce, ce.1 = contentType) CONTENT_TYPES.

Record PartInfo := PartInfoOf { part_number : Z; pi_length : Z; pi_url : string }.

Inductive upload_method :=
| SinglePut (url : string) (headers : list (string * string))
| Multipart (upload_id : string) (part_size part_count : Z) (parts : list PartInfo).

Record UploadDescriptor := UploadDescriptorOf {
  ud_id : string;
  ud_key : string;
  ud_status : file_status;
  ud_expires_in : Z;
  ud_method : upload_method;
}.

(** Answers of [parts] and [commit]. *)
Record PartsView := PartsViewOf {
  pv_id : string;
  pv_part_size : Z;
  pv_part_count : Z;
  pv_uploaded : list (Z * Z);
  pv_missing : list PartInfo;
  pv_expires_in : Z;
}.
Record FileView := FileViewOf {
  fv_id : string;
  fv_key : string;
  fv_status : file_status;
  fv_size : Z;
  fv_etag : option string;
}.

(** ** JavaScript pieces *)

(** [Number(text)] of a [bigint] column. *)
Definition Number_bigint (z : Z) : Z := default z (num_to_Z (num_of_Z z)).

(** [new Map] filled by [set] in order: an existing key keeps its place. *)
Fixpoint map_set (n : Z) (p : part) (m : list (Z * part)) : list (Z * part) :=
  match m with
  | [] => [(n, p)]
  | (n', p') :: m => if n =? n' then (n, p) :: m else (n', p') :: map_set n p m
  end.

(** [sort((a, b) => a.PartNumber - b.PartNumber)], stable. *)
Fixpoint insert_part (p : part) (l : list part) : list part :=
  match l with
  | [] => [p]
  | q :: l' => if PartNumber p <=? PartNumber q then p :: l else q :: insert_part p l'
  end.
Definition sort_parts (l : list part) : list part := foldr insert_part [] l.

(** [xs.join(', ')] *)
Fixpoint join_comma (l : list string) : string :=
  match l with [] => "" | [s] => s | s :: l => s +:+ ", " +:+ join_comma l end.

(** ** Errors *)

Definition bad (code detail : string) : exn := HttpError 400 (Some code) detail.
Definition conflict (code detail : string) : exn := HttpError 409 (Some code) detail.
Definition FILE_NOT_FOUND : exn := HttpError 404 (Some "file-not-found") "файл не знайдено".
Definition NOT_OWNER : exn := HttpError 403 (Some "not-owner") "це не ваш файл".
Definition parts_missing (missing : list Z) : exn :=
  conflict "parts-missing"
    ("бракує частин: " +:+ join_comma (pretty <$> take 20 missing) +:+
     (if (20 <? length missing)%nat then "…" else "")).
Definition OBJECT_MISSING : exn :=
  conflict "object-missing" "у сховищі немає обʼєкта — байти не завантажено".
Definition size_mismatch (there expected : Z) : exn :=
  conflict "size-mismatch"
    ("розмір у сховищі " +:+ pretty there +:+ " Б, очікувався " +:+ pretty expected +:+ " Б").

(** ** Statements *)

Definition opt_text_in (s : option string) : option (option string) :=
  match s with None => Some None | Some s => Some <$> text_in s end.

Section files.
Context `{PgText, S3}.
(** the text zod gives for a body it refuses *)
Context (intent_issues : json → string).

(** SELECT * FROM files WHERE owner_id = $1 AND idempotency_key = $2 *)
Definition select_by_key (owner key : string) (d : db) : result (option file_row) :=
  match bigint_in owner, text_in key with
  | Some o, Some k =>
      Ok (snd <$> head (filter (λ r : string * file_row,
        f_owner_id r.2 = o ∧ f_idempotency_key r.2 = Some k) (map_to_list (files d))))
  | None, _ => Err (PgError "22P02")
  | _, None => Err (PgError "22021")
  end.

(** INSERT INTO files (...) VALUES (...) RETURNING * *)
Definition insert_file (id key owner contentType : string) (size : Z)
    (uploadId idempotencyKey : option string) (d : db) : result file_row * db :=
  match uuid_in id, text_in key, bigint_in owner, text_in contentType, opt_text_in uploadId,
        opt_text_in idempotencyKey with
  | Some id, Some key, Some owner, Some contentType, Some uploadId, Some idempotencyKey =>
      let row := FileRow id key owner PENDING contentType size uploadId None idempotencyKey in
      if negb (int8 size) then (Err (PgError "22003"), d)
      else if negb (0 <? size) then (Err (PgError "23514"), d)
      else if bool_decide (is_Some (files d !! id) ∨
                map_Exists (λ _ r, f_key r = key) (files d) ∨
                (is_Some idempotencyKey ∧
                 map_Exists (λ _ r, f_owner_id r = owner ∧ f_idempotency_key r = idempotencyKey) (files d)))
      then (Err (PgError "23505"), d)
      else match users d !! owner with
           | None => (Err (PgError "23503"), d)
           | Some _ => (Ok row, set_files <[id := row]> d)
           end
  | _, _, _, _, _, _ => (Err (PgError "22P02"), d)
  end.

(** SELECT * FROM files WHERE id = $1 *)
Definition select_file (id : string) (d : db) : result (option file_row) :=
  match uuid_in id with Some id => Ok (files d !! id) | None => Err (PgError "22P02") end.

(** UPDATE files SET status = 'COMPLETED', etag = $2, completed_at = now()
    WHERE id = $1 RETURNING * *)
Definition completed (etag : option string) (r : file_row) : file_row :=
  FileRow (f_id r) (f_key r) (f_owner_id r) COMPLETED (f_content_type r) (f_size r) (f_upload_id r)
    etag (f_idempotency_key r).
Definition complete_file (id : string) (etag : option string) (d : db) : result (option file_row) * db :=
  match uuid_in id, opt_text_in etag with
  | Some id, Some etag =>
      (Ok (completed etag <$> files d !! id), set_files (alter (completed etag) id) d)
  | _, _ => (Err (PgError "22P02"), d)
  end.

(** ** The service *)

Context (storage : StorageService).

Definition intentSchema_parse (body : json) : option (string * Z) :=
  filename ← jstr body "filename"; guard (1 ≤ js_length filename ≤ 255);;
  contentType ← jstr body "contentType"; guard (is_Some (extension_of contentType));;
  x ← jnum body "size"; size ← num_to_Z x; guard (1 ≤ size ≤ MAX_OBJECT);;
  Some (contentType, size).

Definition part_info (key uploadId : string) (date size partSize n : Z) : PartInfo :=
  PartInfoOf n (partLength size partSize n) (presignPart storage date key uploadId n).

Definition describe (row : file_row) : io UploadDescriptor :=
  let size := Number_bigint (f_size row) in
  date ← io_date;
  match truthy (f_upload_id row) with
  | None =>
      mret (UploadDescriptorOf (f_id row) (f_key row) (f_status row) (putExpires storage)
        (SinglePut (presignPut storage date (f_key row) (f_content_type row))
           [("Content-Type", f_content_type row)]))
  | Some upload_id =>
      partSize ← io_lift (computePartSize size);
      let total := partCount size partSize in
      mret (UploadDescriptorOf (f_id row) (f_key row) (f_status row) (partExpires storage)
        (Multipart upload_id partSize total
           (part_info (f_key row) upload_id date size partSize <$> part_numbers total)))
  end.

Definition file_key (user id ext : string) : string :=
  "uploads/" +:+ user +:+ "/" +:+ id +:+ "." +:+ ext.

(** The catch block of the INSERT. *)
Definition intent_failed (user key : string) (uploadId idempotencyKey : option string) (err : exn) :
    io UploadDescriptor :=
  _ ← match truthy uploadId with
      | Some u => _ ← io_try (s3_send (abortMultipartUpload (bucket storage) key u)); mret tt
      | None => mret tt
      end;
  match truthy idempotencyKey with
  | Some k =>
      if bool_decide (err = PgError "23505") then
        found ← pg (λ d, (select_by_key user k d, d));
        match found with Some row => describe row | None => io_throw err end
      else io_throw err
  | None => io_throw err
  end.

Definition intent (user : AuthUser) (rawBody : json) (idempotencyKey : option string) : io UploadDescriptor :=
  match intentSchema_parse rawBody with
  | None => io_throw (bad "invalid-intent" (intent_issues rawBody))
  | Some (contentType, size) =>
      found ← match truthy idempotencyKey with
              | Some k => pg (λ d, (select_by_key (au_id user) k d, d))
              | None => mret None
              end;
      match found with
      | Some row => describe row
      | None =>
          id ← randomUUID;
          let key := file_key (au_id user) id (default "" (extension_of contentType)) in
          uploadId ← if multipartThreshold storage <? size
                     then u ← s3_send (createMultipartUpload (bucket storage) key contentType); mret (Some u)
                     else mret None;
          r ← io_try (pg (insert_file id key (au_id user) contentType size uploadId idempotencyKey));
          match r with
          | Ok row => describe row
          | Err err => intent_failed (au_id user) key uploadId idempotencyKey err
          end
      end
  end.

Definition owned (user : AuthUser) (id : string) : io file_row :=
  if negb (uuid_shape id) then io_throw FILE_NOT_FOUND else
  found ← pg (λ d, (select_file id d, d));
  match found with
  | None => io_throw FILE_NOT_FOUND
  | Some row =>
      if negb (String.eqb (pretty (f_owner_id row)) (au_id user)) && negb (bool_decide (au_role user = admin))
      then io_throw NOT_OWNER
      else mret row
  end.

(** The loop of [listAllParts]; [None] is a loop that has not finished after
    [fuel] pages. *)
Fixpoint list_pages (fuel : nat) (key uploadId : string) (marker : option string) (out : list part) :
    io (option (list part)) :=
  match fuel with
  | O => mret None
  | S fuel =>
      r ← s3_read (listParts (bucket storage) key uploadId marker);
      let out := out ++ Parts r in
      if IsTruncated r then list_pages fuel key uploadId (NextPartNumberMarker r) out else mret (Some out)
  end.

(** An upload has at most 10000 parts and a truncated page at least one. *)
Definition pages_fuel : nat := Z.to_nat (MAX_PARTS + 1).

Definition listAllParts (row : file_row) : io (list part) :=
  r ← list_pages pages_fuel (f_key row) (default "" (f_upload_id row)) None [];
  match r with Some out => mret out | None => io_throw (JsError "listAllParts does not terminate") end.

Definition right_length (size partSize : Z) (p : part) : bool :=
  Size p =? partLength size partSize (PartNumber p).

Definition parts (user : AuthUser) (id : string) : io PartsView :=
  row ← owned user id;
  match truthy (f_upload_id row) with
  | None => io_throw (conflict "not-multipart" "це не multipart-завантаження")
  | Some upload_id =>
      if bool_decide (f_status row ≠ PENDING) then io_throw (conflict "already-completed" "файл уже завершено") else
      let size := Number_bigint (f_size row) in
      partSize ← io_lift (computePartSize size);
      let total := partCount size partSize in
      uploaded ← listAllParts row;
      let good := foldl (λ m p, if right_length size partSize p then map_set (PartNumber p) p m else m) [] uploaded in
      let missing := filter (λ n, n ∉ good.*1) (part_numbers total) in
      date ← io_date;
      mret (PartsViewOf (f_id row) partSize total
        ((λ p, (PartNumber p, Size p)) <$> good.*2)
        (part_info (f_key row) upload_id date size partSize <$> missing)
        (partExpires storage))
  end.

Definition view (row : file_row) : FileView :=
  FileViewOf (f_id row) (f_key row) (f_status row) (Number_bigint (f_size row)) (f_etag row).

(** The multipart half of [commit]: every part there, assembled. *)
Definition assemble (row : file_row) (upload_id : string) (size : Z) : io unit :=
  partSize ← io_lift (computePartSize size);
  let total := partCount size partSize in
  listed ← listAllParts row;
  let have := filter (λ p, right_length size partSize p = true) listed in
  let missing := filter (λ n, n ∉ PartNumber <$> have) (part_numbers total) in
  match missing with
  | _ :: _ => io_throw (parts_missing missing)
  | [] =>
      r ← io_try (s3_send (completeMultipartUpload (bucket storage) (f_key row) upload_id
                     ((λ p, (PartNumber p, ETag p)) <$> sort_parts have)));
      match r with
      | Ok _ => mret tt
      | Err e => if String.eqb (errName e) "NoSuchUpload" then mret tt else io_throw e
      end
  end.

(** The check of the stored object. *)
Definition check_object (row : file_row) (size : Z) : io head_answer :=
  r ← io_try (s3_read (headObject (bucket storage) (f_key row)));
  match r with
  | Err e => if (errStatus e =? 404) || String.eqb (errName e) "NotFound" then io_throw OBJECT_MISSING else io_throw e
  | Ok head =>
      if negb (ContentLength head =? size) then io_throw (size_mismatch (ContentLength head) size) else mret head
  end.

Definition commit (user : AuthUser) (id : string) : io FileView :=
  row ← owned user id;
  if bool_decide (f_status row = COMPLETED) then mret (view row) else
  let size := Number_bigint (f_size row) in
  _ ← match truthy (f_upload_id row) with
      | Some upload_id => assemble row upload_id size
      | None => mret tt
      end;
  head ← check_object row size;
  updated ← pg (complete_file (f_id row) (head_ETag head));
  match updated with
  | Some row => mret (view row)
  | None => io_throw (JsError "Cannot read properties of undefined (reading 'id')")
  end.

Definition downloadUrl (user : AuthUser) (id : string) : io string :=
  row ← owned user id;
  if bool_decide (f_status row ≠ COMPLETED) then io_throw (conflict "not-completed" "файл ще не завершено") else
  date ← io_date;
  mret (presignGet storage date (f_key row)).
End files.

(** ** Ownership *)

Section files_facts.
Context `{PgText, !PgTextLaws, S3, !S3Laws} (intent_issues : json → string) (storage : StorageService).

Definition may_see (user : AuthUser) (row : file_row) : Prop :=
  pretty (f_owner_id row) = au_id user ∨ au_role user = admin.

Lemma owned_ok user id σ t w row t' w' :
  owned user id σ t w = (Ok row, t', w') →
  uuid_shape id = true ∧ t' = S t ∧ w' = s_others σ t w ∧ files (w_db w') !! id = Some row ∧ may_see user row.
Proof.
  unfold owned. destruct (uuid_shape id) eqn:Hid; [|done]. cbn [negb]. intros Hr.
  apply io_bind_ok in Hr as (found & t1 & w1 & Hq & Hr).
  apply pg_ok in Hq as (d & Hs & -> & ->). simplify_eq. unfold select_file in *.
  rewrite uuid_in_canonical in * by done. simplify_eq.
  destruct (files _ !! id) as [r|] eqn:Hrow; [|done].
  destruct (String.eqb_spec (pretty (f_owner_id r)) (au_id user)) as [Ho|Ho];
    [|case_bool_decide as Ha]; cbn in Hr; try done; apply io_ret_ok in Hr as (-> & -> & ->);
    rewrite world_eta; unfold may_see; split_and!; auto.
Qed.

Lemma owned_run user id σ t w row :
  s_fault σ t = None → uuid_shape id = true → files (w_db (s_others σ t w)) !! id = Some row →
  (may_see user row → owned user id σ t w = (Ok row, S t, s_others σ t w)) ∧
  (¬ may_see user row → owned user id σ t w = (Err NOT_OWNER, S t, s_others σ t w)).
Proof.
  intros Hf Hid Hrow. unfold owned. rewrite Hid. cbn [negb].
  assert (Hr : pg (λ d, (select_file id d, d)) σ t w = (Ok (Some row), S t, s_others σ t w)).
  { unfold pg, roundtrip, select_file. rewrite Hf, uuid_in_canonical, Hrow by done. by rewrite world_eta. }
  rewrite (io_bind_run _ _ _ _ _ _ _ _ Hr). unfold may_see.
  destruct (String.eqb_spec (pretty (f_owner_id row)) (au_id user)) as [Ho|Ho];
    [|case_bool_decide as Ha]; cbn; split; intros; try done; tauto.
Qed.

(** A user who neither owns the file nor is an administrator gets 403 from
    every operation on it, and the operation does nothing: one SELECT, no
    write, no request to the store. *)
Theorem files_ownership user id σ t w row :
  s_fault σ t = None → uuid_shape id = true → files (w_db (s_others σ t w)) !! id = Some row →
  ¬ may_see user row →
  parts storage user id σ t w = (Err NOT_OWNER, S t, s_others σ t w) ∧
  commit storage user id σ t w = (Err NOT_OWNER, S t, s_others σ t w) ∧
  downloadUrl storage user id σ t w = (Err NOT_OWNER, S t, s_others σ t w).
Proof.
  intros Hf Hid Hrow Hno. destruct (owned_run user id σ t w row Hf Hid Hrow) as [_ Hr].
  specialize (Hr Hno). unfold parts, commit, downloadUrl.
  rewrite !(io_bind_err _ _ _ _ _ _ _ _ Hr). done.
Qed.

(** ** Commit *)

Lemma check_object_ok row size σ t w head t' w' :
  check_object storage row size σ t w = (Ok head, t', w') →
  headObject (bucket storage) (f_key row) (w_s3 w') = Ok head ∧ ContentLength head = size ∧ t' = S t.
Proof.
  unfold check_object. intros Hr. apply io_bind_ok in Hr as (r & t1 & w1 & Hq & Hr).
  unfold io_try in Hq. destruct (s3_read _ σ t w) as [[x tx] wx] eqn:Hx. simplify_eq.
  destruct r as [h|e]; [|by destruct (_ || _)].
  apply s3_read_ok in Hx as (Hh & -> & ->).
  destruct (Z.eqb_spec (ContentLength h) size) as [Hs|]; cbn in Hr; [|done].
  by apply io_ret_ok in Hr as (-> & -> & ->).
Qed.

(** *** What a commit may change

    The world moves between the begin and the end of a commit of [row] by what
    everyone else does, by the store assembling an upload of the row under its
    key, and by this one row becoming COMPLETED. *)
Inductive commit_move (σ : asched world) (row : file_row) (w : world) : world → Prop :=
| move_others t : commit_move σ row w (s_others σ t w)
| move_assembled upload_id ps : truthy (f_upload_id row) = Some upload_id →
    commit_move σ row w (World (completeMultipartUpload (bucket storage) (f_key row) upload_id ps (w_s3 w)).2 (w_db w))
| move_completed u etag : uuid_in (f_id row) = Some u →
    commit_move σ row w (World (w_s3 w) (set_files (alter (completed etag) u) (w_db w))).

Section commit_frame.
Context (σ : asched world) (row : file_row).
Notation moves := (rtc (commit_move σ row)).

Lemma moves_tame : tame moves σ.
Proof. intros t w. apply rtc_once, move_others. Qed.
Lemma moves_pure {A} (m : io A) : (∀ σ t w, (m σ t w).2 = w) → io_preserves moves m.
Proof. apply io_preserves_pure. apply _. Qed.
Lemma moves_read {A} (cmd : s3 → result A) : io_preserves moves (s3_read cmd).
Proof. apply io_preserves_roundtrip; [apply _|]. intros w. cbn. rewrite world_eta. reflexivity. Qed.

Lemma list_pages_moves fuel k u m out : io_preserves moves (list_pages storage fuel k u m out).
Proof.
  revert m out. induction fuel as [|fuel IH]; intros m out; [by apply moves_pure|]. cbn [list_pages].
  apply io_preserves_bind; [apply _|apply moves_read|]. intros page. cbv zeta. destruct (IsTruncated page); [apply IH|by apply moves_pure].
Qed.

Lemma assemble_moves upload_id size : truthy (f_upload_id row) = Some upload_id →
  io_preserves moves (assemble storage row upload_id size).
Proof.
  intros Hu. unfold assemble. apply io_preserves_bind; [apply _|by apply moves_pure|]. intros partSize.
  apply io_preserves_bind; [apply _|..].
  { apply io_preserves_bind; [apply _|apply list_pages_moves|]. intros [out|]; by apply moves_pure. }
  intros listed. cbv zeta. destruct (filter _ _); [|by apply moves_pure].
  apply io_preserves_bind; [apply _|..].
  - apply io_preserves_try, io_preserves_roundtrip; [apply _|]. intros w.
    set (ps := (λ p, (PartNumber p, ETag p)) <$> _). pose proof (move_assembled σ row w upload_id ps Hu) as Hm.
    destruct (completeMultipartUpload _ _ _ _ _). by apply rtc_once.
  - intros [x|e]; [by apply moves_pure|]. destruct (String.eqb _ _); by apply moves_pure.
Qed.

Lemma complete_moves etag : io_preserves moves (pg (complete_file (f_id row) etag)).
Proof.
  apply io_preserves_roundtrip; [apply _|]. intros w. unfold complete_file.
  destruct (uuid_in (f_id row)) as [u|] eqn:Hu; [|cbn; by rewrite world_eta].
  destruct (opt_text_in etag) as [etag'|]; [|cbn; by rewrite world_eta]. apply rtc_once. by apply (move_completed σ row w u etag').
Qed.
End commit_frame.

(** Whatever comes out of a commit, answer or error. *)
Lemma commit_changes user id σ t w r t' w' : commit storage user id σ t w = (r, t', w') →
  (∃ row, files (w_db (s_others σ t w)) !! id = Some row ∧ may_see user row ∧ rtc (commit_move σ row) w w') ∨
  ((∃ e, r = Err e) ∧ (w' = w ∨ w' = s_others σ t w)).
Proof.
  unfold commit. intros Hr. apply io_bind_cases in Hr as [(row & t1 & w1 & Hown & Hr)|(e & Hown & ->)].
  - apply owned_ok in Hown as (_ & -> & -> & Hrow & Hsee). left. exists row. split; [done|]. split; [done|].
    eapply rtc_l; [apply (move_others σ row w t)|].
    refine ((_ : io_preserves (rtc (commit_move σ row)) _) σ _ _ _ _ _ (moves_tame σ row) Hr). clear. cbv beta zeta.
    case_bool_decide; [by apply moves_pure|]. apply io_preserves_bind; [apply _|..].
    { destruct (truthy (f_upload_id row)) eqn:Hu; [by apply assemble_moves|by apply moves_pure]. }
    intros _. apply io_preserves_bind; [apply _|..].
    { apply io_preserves_bind; [apply _|apply io_preserves_try, moves_read|].
      intros [head|e]; [destruct (negb _); by apply moves_pure|destruct (_ || _); by apply moves_pure]. }
    intros head. apply io_preserves_bind; [apply _|apply complete_moves|]. intros [x|]; by apply moves_pure.
  - right. split; [eauto|]. unfold owned in Hown. destruct (negb (uuid_shape id)); [left; by injection Hown|].
    unfold mbind, io_bind, pg, roundtrip in Hown. destruct (s_fault σ t) as [f|].
    + right. destruct (f_applied f); injection Hown as _ _ <-; [apply world_eta|done].
    + right. destruct (select_file id _) as [[row|]|e']; cbn in Hown; [|injection Hown as _ _ <-; apply world_eta..].
      destruct (_ && _); injection Hown as _ _ <-; apply world_eta.
Qed.

(** C29: commit believes only the store.  When it answers normally for a pending
    file, then under every fault and whatever other requests do, the last thing
    it read is that the object under the row's key has exactly the declared
    size, and its last step is the row becoming COMPLETED with the ETag it read;
    a file that was already COMPLETED is answered from the row alone, without a
    look at the store.  And it changes nothing but this row and the row's own
    upload: between its begin and its end the world moves only by what everyone
    else does, by the store assembling the row's upload under the row's key, and
    by this row becoming COMPLETED ([commit_changes]: so does a commit that
    fails). *)
Theorem commit_verified user id σ t w v t' w' :
  commit storage user id σ t w = (Ok v, t', w') →
  ∃ row, files (w_db (s_others σ t w)) !! id = Some row ∧ may_see user row ∧ rtc (commit_move σ row) w w' ∧
    ((f_status row = COMPLETED ∧ v = view row ∧ t' = S t ∧ w' = s_others σ t w) ∨
     (f_status row = PENDING ∧ ∃ w1 n head u etag row1,
        headObject (bucket storage) (f_key row) (w_s3 w1) = Ok head ∧
        ContentLength head = Number_bigint (f_size row) ∧ opt_text_in (head_ETag head) = Some etag ∧
        t' = S n ∧ uuid_in (f_id row) = Some u ∧
        let w2 := s_others σ n w1 in
        files (w_db w2) !! u = Some row1 ∧ v = view (completed etag row1) ∧
        w' = World (w_s3 w2) (set_files (alter (completed etag) u) (w_db w2)))).
Proof.
  intros Hr. destruct (commit_changes _ _ _ _ _ _ _ _ Hr) as [(row & Hrow & Hsee & Hmoves)|[[e [=]] _]].
  exists row. split; [done|]. split; [done|]. split; [done|]. clear Hmoves.
  unfold commit in Hr. apply io_bind_ok in Hr as (row' & t1 & w1 & Hown & Hr).
  apply owned_ok in Hown as (Hid & -> & -> & Hrow' & _). assert (row' = row) as -> by congruence.
  case_bool_decide as Hst; [left; by apply io_ret_ok in Hr as (-> & -> & ->)|right].
  split; [by destruct (f_status row)|].
  apply io_bind_ok in Hr as ([] & t2 & w2 & _ & Hr).
  apply io_bind_ok in Hr as (head & t3 & w3 & Hhead & Hr).
  apply check_object_ok in Hhead as (Hhead & Hlen & ->).
  apply io_bind_ok in Hr as (updated & t4 & w4 & Hup & Hr).
  apply pg_ok in Hup as (d & Hup & -> & ->). unfold complete_file in Hup.
  destruct (uuid_in (f_id row)) as [u|] eqn:Hu; [|done].
  destruct (opt_text_in (head_ETag head)) as [etag|] eqn:He; [|done].
  injection Hup as <- <-. destruct (files (w_db (s_others σ (S t2) w3)) !! u) as [row1|] eqn:Hrow1; [|done].
  cbn in Hr. apply io_ret_ok in Hr as (-> & -> & ->).
  exists w3, (S t2), head, u, etag, row1. done.
Qed.

(** ** Listing the parts *)

(** A truncated page moves the marker to a later part of the upload. *)
Lemma page_progress s b k u m page :
  listParts b k u m s = Ok page →
  ∃ ps, upload_parts s b k u = Some ps ∧
    let rest := filter (λ q, marker_number m < PartNumber q) ps in
    if IsTruncated page
    then let m' := marker_number (NextPartNumberMarker page) in
         marker_number m < m' ≤ MAX_PARTS ∧ rest = Parts page ++ filter (λ q, m' < PartNumber q) ps
    else rest = Parts page.
Proof.
  intros Hp. apply listParts_page in Hp as (ps & n & Hps & Htake & Hp). exists ps. split; [done|].
  destruct (IsTruncated page); [|done]. destruct Hp as (p & Hlast & ->). rewrite Htake in Hlast |- *.
  destruct (parts_sorted _ _ _ _ _ Hps) as [Hs Hb].
  destruct (sorted_next_page PartNumber ps _ n p Hs Hlast) as (Hm & Hin & Heq).
  cbv zeta. rewrite Heq, take_drop. rewrite Forall_forall in Hb. specialize (Hb p Hin). split; [lia|done].
Qed.

Lemma list_pages_terminates fuel k u m out σ t w :
  (Z.to_nat (MAX_PARTS - marker_number m) < fuel)%nat →
  (list_pages storage fuel k u m out σ t w).1.1 ≠ Ok None.
Proof.
  revert m out t w. induction fuel as [|fuel IH]; intros m out t w Hf; [lia|]. cbn [list_pages].
  unfold mbind, io_bind. destruct (s3_read _ σ t w) as [[[page|e] t1] w1] eqn:Hr; [|done].
  apply s3_read_ok in Hr as (Hp & -> & ->). apply page_progress in Hp as (ps & _ & Hp).
  destruct (IsTruncated page); [|done]. destruct Hp as [Hm _]. apply IH. lia.
Qed.

Lemma list_pages_quiet fuel k u m out σ t w ps :
  quiet σ → upload_parts (w_s3 w) (bucket storage) k u = Some ps →
  (Z.to_nat (MAX_PARTS - marker_number m) < fuel)%nat →
  ∃ t', list_pages storage fuel k u m out σ t w =
    (Ok (Some (out ++ filter (λ q, marker_number m < PartNumber q) ps)), t', w).
Proof.
  intros Hq Hps. revert m out t. induction fuel as [|fuel IH]; intros m out t Hf; [lia|]. cbn [list_pages].
  destruct (listParts_found _ _ _ _ m _ Hps) as [page Hp].
  pose proof (s3_read_quiet (listParts (bucket storage) k u m) σ t w Hq) as Hr. rewrite Hp in Hr.
  rewrite (io_bind_run _ _ _ _ _ _ _ _ Hr). cbv zeta. apply page_progress in Hp as (ps' & Hps' & Hp).
  simplify_eq. destruct (IsTruncated page).
  - destruct Hp as [Hm ->]. destruct (IH (NextPartNumberMarker page) (out ++ Parts page) (S t)) as [t' ->]; [lia|].
    exists t'. by rewrite app_assoc.
  - rewrite Hp. by eexists.
Qed.

Lemma pages_fuel_enough : (Z.to_nat (MAX_PARTS - marker_number None) < pages_fuel)%nat.
Proof. rewrite marker_none. unfold pages_fuel, MAX_PARTS. lia. Qed.

Lemma listAllParts_quiet row u σ t w ps :
  quiet σ → f_upload_id row = Some u →
  upload_parts (w_s3 w) (bucket storage) (f_key row) u = Some ps →
  ∃ t', listAllParts storage row σ t w = (Ok ps, t', w).
Proof.
  intros Hq Hu Hps. unfold listAllParts. rewrite Hu. cbn [default from_option id].
  destruct (list_pages_quiet pages_fuel (f_key row) u None [] σ t w ps Hq Hps pages_fuel_enough) as [t' Hl].
  rewrite (io_bind_run _ _ _ _ _ _ _ _ Hl). exists t'. rewrite marker_none, app_nil_l.
  rewrite filter_all; [done|]. destruct (parts_sorted _ _ _ _ _ Hps) as [_ Hb].
  rewrite Forall_forall in Hb. intros x Hx. specialize (Hb x Hx). lia.
Qed.

(** Walking ListParts by its marker terminates, whatever other requests and
    uploads happen between the pages and whichever of them fail, and without
    interference returns every part of the upload, in order, once. *)
Theorem listAllParts_complete row u σ t w :
  f_upload_id row = Some u →
  (list_pages storage pages_fuel (f_key row) u None [] σ t w).1.1 ≠ Ok None ∧
  (quiet σ → ∀ ps, upload_parts (w_s3 w) (bucket storage) (f_key row) u = Some ps →
    ∃ t', listAllParts storage row σ t w = (Ok ps, t', w)).
Proof.
  intros Hu. split; [apply list_pages_terminates, pages_fuel_enough|].
  intros Hq ps Hps. by eapply listAllParts_quiet.
Qed.

(** ** Assembling an object *)

Lemma insert_part_sorted p l :
  Forall (λ q, PartNumber p ≤ PartNumber q) l → insert_part p l = p :: l.
Proof. destruct l as [|q l]; [done|]. intros [Hq _]%Forall_cons. cbn. by rewrite (proj2 (Z.leb_le _ _) Hq). Qed.

Lemma sort_parts_sorted l : StronglySorted (by_key PartNumber) l → sort_parts l = l.
Proof.
  induction 1 as [|p l Hl IH Hp]; [done|]. cbn. unfold sort_parts in IH. rewrite IH.
  apply insert_part_sorted. eapply Forall_impl; [done|]. unfold by_key. intros; lia.
Qed.

(** The parts that count, and the numbers still lacking. *)
Definition right_parts (size partSize : Z) (ps : list part) : list part :=
  filter (λ p, right_length size partSize p = true) ps.
Definition lacking (size partSize : Z) (ps : list part) : list Z :=
  filter (λ n, n ∉ PartNumber <$> right_parts size partSize ps) (part_numbers (partCount size partSize)).

Section right_parts.
Context (size p : Z) (ps : list part).
Context (Hp : MIN_PART ≤ p) (Htotal : 1 ≤ partCount size p).
Context (Hsz : (partCount size p - 1) * p < size ≤ partCount size p * p).
Context (Hsorted : StronglySorted (by_key PartNumber) ps).
Context (Hbounds : Forall (λ q, 1 ≤ PartNumber q ≤ MAX_PARTS ∧ 0 ≤ Size q) ps).
Context (Hall : lacking size p ps = []).

Lemma right_elem q : q ∈ right_parts size p ps →
  1 ≤ PartNumber q ∧ 0 ≤ Size q ∧ Size q = partLength size p (PartNumber q).
Proof.
  intros [Hr Hin]%list_elem_of_filter. rewrite Forall_forall in Hbounds. specialize (Hbounds q Hin).
  unfold right_length in Hr. lia.
Qed.

Lemma right_sorted : StronglySorted (by_key PartNumber) (right_parts size p ps).
Proof. by apply filter_sorted. Qed.

Lemma right_has n : 1 ≤ n ≤ partCount size p → ∃ q, q ∈ right_parts size p ps ∧ PartNumber q = n.
Proof.
  intros Hn. destruct (decide (n ∈ PartNumber <$> right_parts size p ps)) as [Hin|Hno].
  - apply list_elem_of_fmap in Hin as (q & -> & Hq). eauto.
  - exfalso. assert (Hl : n ∈ lacking size p ps).
    { apply list_elem_of_filter. split; [done|]. apply elem_of_seqZ. lia. }
    rewrite Hall in Hl. by apply elem_of_nil in Hl.
Qed.

(** A counted part beyond the last number is empty and follows a full file. *)
Lemma right_beyond q : q ∈ right_parts size p ps → partCount size p < PartNumber q →
  Size q = 0 ∧ PartNumber q = partCount size p + 1 ∧ size = partCount size p * p.
Proof.
  intros (H1q & H2q & H3q)%right_elem Hq. unfold partLength in H3q. unfold MIN_PART, MIB in Hp.
  assert (PartNumber q < partCount size p + 2) by nia.
  assert (PartNumber q = partCount size p + 1) as Heq by lia. rewrite Heq in *. nia.
Qed.

Lemma right_sum : sumZ Size (right_parts size p ps) = size.
Proof.
  set (r := right_parts size p ps). set (total := partCount size p) in *.
  rewrite (sumZ_Permutation _ r (filter (λ q, PartNumber q ≤ total) r ++ filter (λ q, ¬ PartNumber q ≤ total) r))
    by (symmetry; apply filter_app_complement).
  rewrite sumZ_app.
  assert (Hbeyond : sumZ Size (filter (λ q, ¬ PartNumber q ≤ total) r) = 0).
  { rewrite (sumZ_ext _ (λ _, 0)); [|intros x [Hx Hin]%list_elem_of_filter; apply right_beyond in Hin; lia].
    unfold sumZ. generalize (filter (λ q, ¬ PartNumber q ≤ total) r). intros l. induction l; cbn in *; lia. }
  assert (Hnums : PartNumber <$> filter (λ q, PartNumber q ≤ total) r = part_numbers total).
  { apply (sorted_key_eq (λ x, x)).
    - apply StronglySorted_fmap with (R1 := by_key PartNumber); [done|]. apply filter_sorted, right_sorted.
    - apply seqZ_sorted.
    - intros n. unfold part_numbers. rewrite list_elem_of_fmap, elem_of_seqZ. split.
      + intros (q & -> & [Hq Hin]%list_elem_of_filter). apply right_elem in Hin. lia.
      + intros Hn. destruct (right_has n) as (q & Hin & <-); [lia|]. exists q.
        split; [done|]. apply list_elem_of_filter. split; [lia|done]. }
  rewrite Hbeyond, Z.add_0_r.
  rewrite (sumZ_ext _ (λ q, partLength size p (PartNumber q)))
    by (intros x [_ Hin]%list_elem_of_filter; by apply right_elem).
  rewrite <- (sumZ_fmap PartNumber (partLength size p)), Hnums.
  destruct (part_lengths size p) as (_ & _ & Hs); [unfold MIN_PART, MIB in *; lia|done|done|done].
Qed.

Lemma right_big q : q ∈ right_parts size p ps →
  MIN_PART ≤ Size q ∨ last (right_parts size p ps) = Some q.
Proof.
  intros Hq. destruct (part_lengths size p) as (Hfull & Hlast & _); [unfold MIN_PART, MIB in *; lia|done|done|].
  pose proof (right_elem q Hq) as (Hq1 & _ & Hqs).
  destruct (decide (PartNumber q < partCount size p)) as [Hlt|Hge]; [left; rewrite Hqs, Hfull by lia; done|].
  destruct (decide (Exists (λ q', PartNumber q < PartNumber q') (right_parts size p ps))) as [Hex|Hmax].
  - apply Exists_exists in Hex as (q' & Hin & Hgt).
    destruct (right_beyond q' Hin ltac:(lia)) as (_ & Hn & Hfull').
    left. rewrite Hqs. unfold partLength. replace (PartNumber q) with (partCount size p) by lia. lia.
  - right. apply (sorted_max_last PartNumber); [apply right_sorted|done|]. intros q' Hq'.
    apply Z.nlt_ge. intros Hlt. apply Hmax, Exists_exists. eauto.
Qed.

Lemma right_nonempty : right_parts size p ps ≠ [].
Proof. destruct (right_has 1) as (q & Hq & _); [lia|]. intros He. rewrite He in Hq. by apply elem_of_nil in Hq. Qed.
End right_parts.

Lemma assemble_run row u size σ t w ps :
  quiet σ → 1 ≤ size ≤ MAX_OBJECT → f_upload_id row = Some u →
  upload_parts (w_s3 w) (bucket storage) (f_key row) u = Some ps →
  ∃ p, computePartSize size = Ok p ∧ ∃ t',
    match lacking size p ps with
    | [] => ∃ s' etag, assemble storage row u size σ t w = (Ok tt, t', World s' (w_db w)) ∧
              headObject (bucket storage) (f_key row) s' = Ok (HeadAnswer size etag) ∧
              completeMultipartUpload (bucket storage) (f_key row) u ((λ q, (PartNumber q, ETag q)) <$> right_parts size p ps)
                (w_s3 w) = (Ok tt, s')
    | l => assemble storage row u size σ t w = (Err (parts_missing l), t', w)
    end.
Proof.
  intros Hq Hsize Hu Hps. assert (Hs53 : 1 ≤ size < 2 ^ 53) by (unfold MAX_OBJECT, GIB, MIB in *; lia).
  destruct (part_plan_exists size Hsize) as [p Hp]. exists p. split; [done|].
  destruct (part_size_ok size p Hs53 Hp) as (Hb & _ & Ht & Hc & _).
  destruct (listAllParts_quiet row u σ t w ps Hq Hu Hps) as [t1 Hl].
  destruct (parts_sorted _ _ _ _ _ Hps) as [Hsort Hbounds].
  unfold assemble. rewrite (io_bind_run _ _ _ t w p t w) by (unfold io_lift; by rewrite Hp). cbv zeta.
  rewrite (io_bind_run _ _ _ _ _ _ _ _ Hl). fold (right_parts size p ps). fold (lacking size p ps).
  destruct (lacking size p ps) as [|n l] eqn:Hlack; [|by eexists].
  rewrite sort_parts_sorted by (by apply right_sorted).
  destruct (complete_ok (w_s3 w) (bucket storage) (f_key row) u ps (right_parts size p ps) Hps)
    as (s' & etag & Hcomp & Hhead).
  { apply sublist_filter. }
  { apply right_nonempty; [lia|done]. }
  { intros q Hin. by apply right_big; try lia. }
  exists (S t1), s', etag. rewrite right_sum in Hhead by (done || lia). split; [|by split].
  unfold io_try. pose proof (s3_send_quiet _ σ t1 w _ _ Hq Hcomp) as Hsend.
  unfold mbind, io_bind. by rewrite Hsend.
Qed.

(** ** Running commit undisturbed *)

Lemma Number_bigint_exact z : 0 ≤ z < 2 ^ 53 → Number_bigint z = z.
Proof. intros Hz. unfold Number_bigint, num_of_Z. by rewrite rnd_int_exact. Qed.

Lemma etag_opt_text s b k h : headObject b k s = Ok h → opt_text_in (head_ETag h) = Some (head_ETag h).
Proof.
  intros Hh. destruct (head_ETag h) as [e|] eqn:He; [|done]. cbn. by rewrite (etag_text _ _ _ _ _ Hh He).
Qed.

(** What an undisturbed commit of a pending file starts from. *)
Record pending_file (user : AuthUser) (id : string) (σ : asched world) (w : world) (row : file_row) : Prop := {
  pf_quiet : quiet σ;
  pf_id : uuid_shape id = true;
  pf_row : files (w_db w) !! id = Some row;
  pf_same : f_id row = id;
  pf_see : may_see user row;
  pf_pending : f_status row = PENDING;
  pf_size : 1 ≤ f_size row ≤ MAX_OBJECT;
}.

Lemma owned_quiet user id σ t w row :
  quiet σ → uuid_shape id = true → files (w_db w) !! id = Some row → may_see user row →
  owned user id σ t w = (Ok row, S t, w).
Proof.
  intros [Hf Ho] Hid Hrow Hsee.
  destruct (owned_run user id σ t w row (Hf t) Hid) as [Hr _]; rewrite Ho in *; eauto.
Qed.

Lemma pending_size user id σ w row : pending_file user id σ w row → Number_bigint (f_size row) = f_size row.
Proof. intros []. apply Number_bigint_exact. unfold MAX_OBJECT, GIB, MIB in *. lia. Qed.

Definition completed_view (row : file_row) (etag : option string) : FileView :=
  FileViewOf (f_id row) (f_key row) COMPLETED (f_size row) etag.
Definition complete_row (id : string) (etag : option string) (d : db) : db :=
  set_files (alter (completed etag) id) d.

(** The end of commit, once the object is known to be there. *)
Lemma commit_finish user id σ t w t1 s1 row head :
  pending_file user id σ w row →
  (match truthy (f_upload_id row) with
   | Some u => assemble storage row u (f_size row)
   | None => mret tt
   end) σ (S t) w = (Ok tt, t1, World s1 (w_db w)) →
  headObject (bucket storage) (f_key row) s1 = Ok head → ContentLength head = f_size row →
  ∃ t', commit storage user id σ t w =
    (Ok (completed_view row (head_ETag head)), t', World s1 (complete_row id (head_ETag head) (w_db w))).
Proof.
  intros Hpf Hasm Hhead Hlen. pose proof (pending_size _ _ _ _ _ Hpf) as Hnum. destruct Hpf.
  unfold commit. rewrite (io_bind_run _ _ _ _ _ _ _ _ (owned_quiet _ _ _ _ _ _ pf_quiet0 pf_id0 pf_row0 pf_see0)).
  rewrite bool_decide_eq_false_2 by congruence. cbv zeta. rewrite Hnum.
  rewrite (io_bind_run _ _ _ _ _ _ _ _ Hasm).
  assert (Hc : check_object storage row (f_size row) σ t1 (World s1 (w_db w)) = (Ok head, S t1, World s1 (w_db w))).
  { unfold check_object, io_try, mbind, io_bind. rewrite s3_read_quiet by done. cbn [w_s3]. rewrite Hhead.
    by rewrite (proj2 (Z.eqb_eq _ _) Hlen). }
  rewrite (io_bind_run _ _ _ _ _ _ _ _ Hc).
  assert (Hu : complete_file (f_id row) (head_ETag head) (w_db w) =
    (Ok (Some (completed (head_ETag head) row)), complete_row id (head_ETag head) (w_db w))).
  { unfold complete_file. rewrite pf_same0, uuid_in_canonical, pf_row0 by done.
    by rewrite (etag_opt_text _ _ _ _ Hhead). }
  pose proof (pg_quiet (complete_file (f_id row) (head_ETag head)) σ (S t1) (World s1 (w_db w)) _ _ pf_quiet0 Hu) as Hpg.
  rewrite (io_bind_run _ _ _ _ _ _ _ _ Hpg). exists (S (S t1)).
  unfold completed_view, view, mret, io_ret. cbn. by rewrite Hnum.
Qed.

Lemma commit_stops user id σ t w t1 w1 row e :
  pending_file user id σ w row →
  (_ ← match truthy (f_upload_id row) with
       | Some u => assemble storage row u (f_size row)
       | None => mret tt
       end; check_object storage row (f_size row)) σ (S t) w = (Err e, t1, w1) →
  commit storage user id σ t w = (Err e, t1, w1).
Proof.
  intros Hpf Hasm. pose proof (pending_size _ _ _ _ _ Hpf) as Hnum. destruct Hpf.
  unfold commit. rewrite (io_bind_run _ _ _ _ _ _ _ _ (owned_quiet _ _ _ _ _ _ pf_quiet0 pf_id0 pf_row0 pf_see0)).
  rewrite bool_decide_eq_false_2 by congruence. cbv zeta. rewrite Hnum.
  set (m := match truthy (f_upload_id row) with
            | Some u => assemble storage row u (f_size row) | None => mret tt end : io unit) in *.
  unfold mbind, io_bind in Hasm |- *. destruct (m σ (S t) w) as [[[x|x] t2] w2].
  - by rewrite Hasm.
  - by simplify_eq.
Qed.

Lemma multipart_commits user id σ t w row u ps p :
  pending_file user id σ w row → f_upload_id row = Some u → u ≠ "" →
  upload_parts (w_s3 w) (bucket storage) (f_key row) u = Some ps →
  computePartSize (f_size row) = Ok p → lacking (f_size row) p ps = [] →
  ∃ t' s' etag, headObject (bucket storage) (f_key row) s' = Ok (HeadAnswer (f_size row) etag) ∧
    commit storage user id σ t w = (Ok (completed_view row etag), t', World s' (complete_row id etag (w_db w))) ∧
    completeMultipartUpload (bucket storage) (f_key row) u ((λ q, (PartNumber q, ETag q)) <$> right_parts (f_size row) p ps)
      (w_s3 w) = (Ok tt, s').
Proof.
  intros Hpf Hu Hne Hps Hp Hlack. pose proof Hpf as [Hq _ _ _ _ _ Hsize].
  destruct (assemble_run row u (f_size row) σ (S t) w ps Hq Hsize Hu Hps) as (p' & Hp' & t1 & Ha).
  assert (p' = p) as -> by congruence. rewrite Hlack in Ha. destruct Ha as (s' & etag & Ha & Hhead & Hcomp).
  destruct (commit_finish user id σ t w t1 s' row (HeadAnswer (f_size row) etag)) as [t' Hc]; try done.
  { rewrite Hu. destruct u; [done|]. exact Ha. }
  exists t', s', etag. done.
Qed.

(** An undisturbed commit of an incomplete upload is refused and writes
    nothing, neither to the database nor to the store: with the list of the
    lacking parts for a multipart upload, and for a single PUT when the object
    is absent or its size is not the declared one. *)
Theorem commit_refuses_incomplete user id σ t w row :
  pending_file user id σ w row →
  match truthy (f_upload_id row) with
  | Some u => ∀ ps p, upload_parts (w_s3 w) (bucket storage) (f_key row) u = Some ps →
      computePartSize (f_size row) = Ok p → lacking (f_size row) p ps ≠ [] →
      ∃ t', commit storage user id σ t w = (Err (parts_missing (lacking (f_size row) p ps)), t', w)
  | None => ∃ t',
      match headObject (bucket storage) (f_key row) (w_s3 w) with
      | Ok head => ContentLength head ≠ f_size row →
          commit storage user id σ t w = (Err (size_mismatch (ContentLength head) (f_size row)), t', w)
      | Err e => errStatus e = 404 → commit storage user id σ t w = (Err OBJECT_MISSING, t', w)
      end
  end.
Proof.
  intros Hpf. pose proof Hpf as [Hq _ _ _ _ _ Hsize].
  destruct (truthy (f_upload_id row)) as [u|] eqn:Hu.
  - intros ps p Hps Hp Hlack. assert (Hu' : f_upload_id row = Some u).
    { by destruct (f_upload_id row) as [[]|]. }
    destruct (assemble_run row u (f_size row) σ (S t) w ps Hq Hsize Hu' Hps) as (p' & Hp' & t1 & Ha).
    assert (p' = p) as -> by congruence. exists t1. apply (commit_stops _ _ _ _ _ _ _ _ _ Hpf). rewrite Hu.
    destruct (lacking _ _ _) as [|n l]; [done|]. by rewrite (io_bind_err _ _ _ _ _ _ _ _ Ha).
  - exists (S (S t)). destruct (headObject _ _ _) as [head|e] eqn:Hh; intros Hx;
      apply (commit_stops _ _ _ _ _ _ _ _ _ Hpf); rewrite Hu;
      unfold check_object, io_try, mbind, io_bind; cbn; rewrite s3_read_quiet, Hh by done; cbn.
    + by rewrite (proj2 (Z.eqb_neq _ _) Hx).
    + by rewrite Hx.
Qed.

(** ** Resuming *)

Lemma map_set_fresh n q m : n ∉ m.*1 → map_set n q m = m ++ [(n, q)].
Proof.
  induction m as [|[n' q'] m IH]; [done|]. cbn. rewrite not_elem_of_cons. intros [Hn Hm].
  destruct (Z.eqb_spec n n'); [done|]. by rewrite IH.
Qed.

(** The map of good parts of a sorted listing holds them in order. *)
Lemma good_parts size p l m :
  StronglySorted (by_key PartNumber) l → (∀ n q, n ∈ m.*1 → q ∈ l → n < PartNumber q) →
  foldl (λ m q, if right_length size p q then map_set (PartNumber q) q m else m) m l =
    m ++ ((λ q, (PartNumber q, q)) <$> right_parts size p l).
Proof.
  intros Hl. revert m. induction Hl as [|q l Hl IH Hq]; intros m Hm; [by rewrite app_nil_r|].
  cbn [foldl]. rewrite Forall_forall in Hq. unfold right_parts. rewrite filter_cons.
  destruct (right_length size p q) eqn:Hr.
  - rewrite decide_True by done. rewrite map_set_fresh.
    + rewrite IH; [by rewrite <- app_assoc|]. intros n q' Hn Hq'. rewrite fmap_app, elem_of_app in Hn.
      destruct Hn as [Hn|Hn%list_elem_of_singleton]; [apply Hm; [done|by right]|]. subst. by apply Hq.
    + intros Hn. specialize (Hm _ q Hn ltac:(left)). lia.
  - rewrite decide_False by done. apply IH. intros n q' Hn Hq'. apply Hm; [done|by right].
Qed.

Lemma parts_run user id σ t w row u ps :
  pending_file user id σ w row → f_upload_id row = Some u → u ≠ "" →
  upload_parts (w_s3 w) (bucket storage) (f_key row) u = Some ps →
  ∃ p t', computePartSize (f_size row) = Ok p ∧
    parts storage user id σ t w =
      (Ok (PartsViewOf id p (partCount (f_size row) p)
             ((λ q, (PartNumber q, Size q)) <$> right_parts (f_size row) p ps)
             (part_info storage (f_key row) u (s_clock σ t') (f_size row) p <$> lacking (f_size row) p ps)
             (partExpires storage)), t', w).
Proof.
  intros Hpf Hu Hne Hps. pose proof (pending_size _ _ _ _ _ Hpf) as Hnum. destruct Hpf.
  destruct (part_plan_exists (f_size row) pf_size0) as [p Hp].
  destruct (listAllParts_quiet row u σ (S t) w ps pf_quiet0 Hu Hps) as [t' Hl]. exists p, t'. split; [done|].
  unfold parts. rewrite (io_bind_run _ _ _ _ _ _ _ _ (owned_quiet _ _ _ _ _ _ pf_quiet0 pf_id0 pf_row0 pf_see0)).
  rewrite Hu, bool_decide_eq_false_2 by (by intros []). destruct u as [|c u]; [done|]. cbn [truthy]. cbv zeta.
  rewrite Hnum. rewrite (io_bind_run _ _ _ (S t) w p (S t) w) by (unfold io_lift; by rewrite Hp).
  rewrite (io_bind_run _ _ _ _ _ _ _ _ Hl).
  destruct (parts_sorted _ _ _ _ _ Hps) as [Hsort _].
  rewrite (good_parts _ _ _ [] Hsort) by (by intros ?? ?%elem_of_nil).
  unfold mbind, io_bind, io_date, mret, io_ret. cbn [app]. rewrite <- !list_fmap_compose.
  unfold lacking. rewrite pf_same0. done.
Qed.

(** An interrupted upload can be resumed.  [parts] reports as missing
    exactly the numbers whose part is absent or of the wrong length, and once
    the upload holds what was reported as uploaded and a part of the reported
    length for every missing number, commit answers COMPLETED and the store
    holds one object of exactly the declared size. *)
Theorem resume_completes user id σ t w row u ps :
  pending_file user id σ w row → f_upload_id row = Some u → u ≠ "" →
  upload_parts (w_s3 w) (bucket storage) (f_key row) u = Some ps →
  ∃ pv t', parts storage user id σ t w = (Ok pv, t', w) ∧
    (∀ i, i ∈ pv_missing pv → 1 ≤ part_number i ≤ pv_part_count pv ∧
       ∀ q, q ∈ ps → PartNumber q = part_number i → Size q ≠ pi_length i) ∧
    ∀ s2 ps2 t2, upload_parts s2 (bucket storage) (f_key row) u = Some ps2 →
      (∀ x, x ∈ pv_uploaded pv → ∃ q, q ∈ ps2 ∧ (PartNumber q, Size q) = x) →
      (∀ i, i ∈ pv_missing pv → ∃ q, q ∈ ps2 ∧ (PartNumber q, Size q) = (part_number i, pi_length i)) →
      ∃ t3 s3 etag, headObject (bucket storage) (f_key row) s3 = Ok (HeadAnswer (f_size row) etag) ∧
        commit storage user id σ t2 (World s2 (w_db w)) =
          (Ok (completed_view row etag), t3, World s3 (complete_row id etag (w_db w))).
Proof.
  intros Hpf Hu Hne Hps. destruct (parts_run user id σ t w row u ps Hpf Hu Hne Hps) as (p & t' & Hp & Hr).
  eexists _, t'. split; [exact Hr|]. cbn [pv_missing pv_uploaded pv_part_count]. split.
  - intros i (n & -> & [Hn Hin]%list_elem_of_filter)%list_elem_of_fmap. apply elem_of_seqZ in Hin.
    cbn. split; [lia|]. intros q Hq Hqn Hqs. apply Hn, list_elem_of_fmap. exists q. split; [done|].
    apply list_elem_of_filter. split; [|done]. unfold right_length. rewrite Hqs, Hqn. apply Z.eqb_refl.
  - intros s2 ps2 t2 Hps2 Hup Hmiss.
    assert (Hpf2 : pending_file user id σ (World s2 (w_db w)) row) by (by destruct Hpf).
    destruct (multipart_commits user id σ t2 (World s2 (w_db w)) row u ps2 p) as (t3 & s3' & etag & Hh & Hc & _); eauto.
    apply filter_none. intros n Hn Hno. apply Hno.
    assert (Hex : ∃ q, q ∈ ps2 ∧ (PartNumber q, Size q) = (n, partLength (f_size row) p n)).
    { destruct (decide (n ∈ PartNumber <$> right_parts (f_size row) p ps)) as [Hin|Hout].
      - apply list_elem_of_fmap in Hin as (q & -> & Hq). pose proof Hq as [Hr' _]%list_elem_of_filter.
        apply Z.eqb_eq in Hr'. rewrite <- Hr'. apply Hup. by apply (list_elem_of_fmap_2 (λ q, (PartNumber q, Size q))).
      - apply (Hmiss (part_info storage (f_key row) u (s_clock σ t') (f_size row) p n)).
        apply list_elem_of_fmap_2, list_elem_of_filter. done. }
    destruct Hex as (q & Hq & Heq). simplify_eq. apply list_elem_of_fmap_2, list_elem_of_filter.
    split; [|done]. unfold right_length. apply Z.eqb_eq. congruence.
Qed.

(** ** Intent *)

(** Other requests may add files and change their status, never remove one or
    change who it belongs to. *)
Definition files_le (d d' : db) : Prop :=
  ∀ id r, files d !! id = Some r → ∃ r', files d' !! id = Some r' ∧
    f_id r' = f_id r ∧ f_key r' = f_key r ∧ f_owner_id r' = f_owner_id r ∧
    f_idempotency_key r' = f_idempotency_key r.

Lemma select_by_key_some owner key d row :
  select_by_key owner key d = Ok (Some row) →
  ∃ o k id, bigint_in owner = Some o ∧ text_in key = Some k ∧ files d !! id = Some row ∧
    f_owner_id row = o ∧ f_idempotency_key row = Some k.
Proof.
  unfold select_by_key. destruct (bigint_in owner) as [o|]; [|done]. destruct (text_in key) as [k|]; [|done].
  intros [= Hrow]. apply fmap_Some in Hrow as ([id r] & Hh & ->). apply head_Some_elem_of in Hh.
  apply list_elem_of_filter in Hh as [[H1r H2r] Hin]. apply elem_of_map_to_list in Hin. cbn in *. eauto 10.
Qed.

Lemma select_by_key_found owner key d o k id row :
  unique (λ f, (λ k, (f_owner_id f, k)) <$> f_idempotency_key f) (files d) →
  bigint_in owner = Some o → text_in key = Some k →
  files d !! id = Some row → f_owner_id row = o → f_idempotency_key row = Some k →
  select_by_key owner key d = Ok (Some row).
Proof.
  intros Huniq Ho Hk Hrow Hro Hrk. unfold select_by_key. rewrite Ho, Hk. f_equal.
  set (l := filter _ _). assert (Hin : (id, row) ∈ l).
  { apply list_elem_of_filter. split; [done|]. by apply elem_of_map_to_list. }
  destruct l as [|[id' row'] l'] eqn:Hl; [by apply elem_of_nil in Hin|]. cbn. f_equal.
  assert (Hin' : (id', row') ∈ l) by (rewrite Hl; left). subst l.
  apply list_elem_of_filter in Hin' as [[H1r H2r] Hin']. apply elem_of_map_to_list in Hin'. cbn in *.
  assert (id = id') as <-; [|congruence].
  eapply Huniq; [done|done|cbn; by rewrite Hrk|cbn; rewrite H2r; cbn; congruence].
Qed.

Definition idem_unique (d : db) : Prop :=
  unique (λ f, (λ k, (f_owner_id f, k)) <$> f_idempotency_key f) (files d).

(** What every request does to the files. *)
Definition files_step (w w' : world) : Prop :=
  files_le (w_db w) (w_db w') ∧ (idem_unique (w_db w) → idem_unique (w_db w')).

#[local] Instance files_step_preorder : PreOrder files_step.
Proof.
  split.
  - intros w. split; [|done]. intros id r Hr. eauto 10.
  - intros w1 w2 w3 [Ha Hb] [Hc Hd]. split; [|tauto]. intros id r Hr.
    destruct (Ha id r Hr) as (r' & Hr' & E1 & E2 & E3 & E4).
    destruct (Hc id r' Hr') as (r'' & Hr'' & F1 & F2 & F3 & F4). exists r''. split; [done|].
    split_and!; congruence.
Qed.

(** The cases of the INSERT. *)
Lemma insert_file_cases id key owner ct size uploadId idem d r d' :
  insert_file id key owner ct size uploadId idem d = (r, d') →
  (∃ e, r = Err e ∧ d' = d) ∨
  (∃ u o up ik, uuid_in id = Some u ∧ bigint_in owner = Some o ∧ opt_text_in uploadId = Some up ∧
     opt_text_in idem = Some ik ∧ text_in key = Some key ∧ text_in ct = Some ct ∧
     let row := FileRow u key o PENDING ct size up None ik in
     r = Ok row ∧ d' = set_files <[u := row]> d ∧ files d !! u = None ∧
     map_Forall (λ _ f, f_key f ≠ key) (files d) ∧
     (is_Some ik → map_Forall (λ _ f, ¬ (f_owner_id f = o ∧ f_idempotency_key f = ik)) (files d))).
Proof.
  assert (Htext : ∀ s s', text_in s = Some s' → s' = s).
  { intros s s'. unfold text_in. destruct (existsb _ _); [done|]. by intros [= ->]. }
  unfold insert_file. destruct (uuid_in id) as [u|]; [|intros; simplify_eq; eauto].
  destruct (text_in key) as [key'|] eqn:Hkey; [|intros; simplify_eq; eauto].
  destruct (bigint_in owner) as [o|]; [|intros; simplify_eq; eauto].
  destruct (text_in ct) as [ct'|] eqn:Hct; [|intros; simplify_eq; eauto].
  destruct (opt_text_in uploadId) as [up|]; [|intros; simplify_eq; eauto].
  destruct (opt_text_in idem) as [ik|]; [|intros; simplify_eq; eauto].
  apply Htext in Hkey as Hk'. apply Htext in Hct as Hc'. subst.
  destruct (negb (int8 size)); [intros; simplify_eq; eauto|].
  destruct (negb (0 <? size)); [intros; simplify_eq; eauto|].
  case_bool_decide as Hu; [intros; simplify_eq; eauto|].
  destruct (users d !! o); [|intros; simplify_eq; eauto].
  intros; simplify_eq. right. apply Decidable.not_or in Hu as [Hu1 Hu]. apply Decidable.not_or in Hu as [Hu2 Hu3].
  exists u, o, up, ik. split_and!; try done.
  - by apply eq_None_not_Some.
  - apply map_not_Exists in Hu2. by eapply map_Forall_impl.
  - intros Hik. assert (Hu4 : ¬ map_Exists (λ _ r, f_owner_id r = o ∧ f_idempotency_key r = ik) (files d)) by tauto.
    apply map_not_Exists in Hu4. by eapply map_Forall_impl.
Qed.

Lemma insert_file_step id key owner ct size uploadId idem s d :
  files_step (World s d) (World s (insert_file id key owner ct size uploadId idem d).2).
Proof.
  destruct (insert_file _ _ _ _ _ _ _ d) as [r d'] eqn:Hi. cbn [snd].
  apply insert_file_cases in Hi as [(e & -> & ->)|(u & o & up & ik & _ & _ & _ & _ & _ & _ & -> & -> & Hnone & _ & Hik)];
    [reflexivity|].
  split; cbn.
  - intros i r Hr. exists r. split; [|done]. cbn. rewrite lookup_insert_ne; [done|]. intros <-. congruence.
  - intros Huniq i j a b k. cbn. rewrite !lookup_insert_Some.
    intros [[<- <-]|[Hi Ha]] [[<- <-]|[Hj Hb]]; cbn; try done.
    + destruct ik as [k'|]; [|done]. cbn. intros [= <-] Hbk. destruct (f_idempotency_key b) as [kb|] eqn:Hkb; [|done].
      injection Hbk as Ho ->. exfalso. by apply (Hik ltac:(eauto) j b Hb).
    + destruct ik as [k'|]; [|done]. intros Hak [= <-]. destruct (f_idempotency_key a) as [ka|] eqn:Hka; [|done].
      injection Hak as Ho ->. exfalso. by apply (Hik ltac:(eauto) i a Ha).
    + intros. by eapply (Huniq i j).
Qed.

Lemma describe_pure row σ t w : (describe storage row σ t w).2 = w.
Proof.
  unfold describe, mbind, io_bind, io_date, io_lift. destruct (truthy _); [|done]. by destruct (computePartSize _).
Qed.
Lemma describe_ok row σ t w ud t' w' :
  describe storage row σ t w = (Ok ud, t', w') → ud_id ud = f_id row ∧ ud_key ud = f_key row ∧ w' = w.
Proof.
  intros Hr. pose proof (describe_pure row σ t w) as Hw. rewrite Hr in Hw. cbn in Hw. subst w'. revert Hr.
  unfold describe, mbind, io_bind, io_date, io_lift, mret, io_ret.
  destruct (truthy _); [destruct (computePartSize _)|]; intros Hr; simplify_eq; split_and!; reflexivity.
Qed.

Lemma select_key_preserves user k : io_preserves files_step (pg (λ d, (select_by_key user k d, d))).
Proof. apply io_preserves_roundtrip; [apply _|]. intros w. cbn. rewrite world_eta. reflexivity. Qed.
Lemma s3_preserves {A} (cmd : s3 → result A * s3) : io_preserves files_step (s3_send cmd).
Proof.
  apply io_preserves_roundtrip; [apply _|]. intros w. destruct (cmd (w_s3 w)) as [x y]. cbn.
  split; [|done]. intros id r Hr. eauto 10.
Qed.
Lemma insert_preserves id key owner ct size uploadId idem :
  io_preserves files_step (pg (insert_file id key owner ct size uploadId idem)).
Proof.
  apply io_preserves_roundtrip; [apply _|]. intros [s d].
  pose proof (insert_file_step id key owner ct size uploadId idem s d) as Hs. cbn.
  by destruct (insert_file _ _ _ _ _ _ _ d).
Qed.

Lemma intent_failed_preserves user key up ik e : io_preserves files_step (intent_failed storage user key up ik e).
Proof.
  apply io_preserves_bind; [apply _|..].
  - destruct (truthy up); [|by apply io_preserves_pure; [apply _|]].
    apply io_preserves_bind; [apply _|apply io_preserves_try, s3_preserves|].
    intros ?. by apply io_preserves_pure; [apply _|].
  - intros _. destruct (truthy ik) as [k|]; [|by apply io_preserves_pure; [apply _|]].
    case_bool_decide; [|by apply io_preserves_pure; [apply _|]].
    apply io_preserves_bind; [apply _|apply select_key_preserves|].
    intros [row|]; apply io_preserves_pure; try apply _; [apply describe_pure|done].
Qed.

Lemma intent_preserves user body ik : io_preserves files_step (intent intent_issues storage user body ik).
Proof.
  unfold intent. destruct (intentSchema_parse body) as [[ct size]|]; [|by apply io_preserves_pure; [apply _|]].
  apply io_preserves_bind; [apply _|..].
  { destruct (truthy ik); [apply select_key_preserves|by apply io_preserves_pure; [apply _|]]. }
  intros [row|]; [apply io_preserves_pure; [apply _|apply describe_pure]|].
  apply io_preserves_bind; [apply _|by apply io_preserves_pure; [apply _|]|]. intros id. cbv zeta.
  apply io_preserves_bind; [apply _|..].
  { destruct (_ <? _); [|by apply io_preserves_pure; [apply _|]].
    apply io_preserves_bind; [apply _|apply s3_preserves|]. intros ?. by apply io_preserves_pure; [apply _|]. }
  intros up. apply io_preserves_bind; [apply _|apply io_preserves_try, insert_preserves|].
  intros [row|e]; [apply io_preserves_pure; [apply _|apply describe_pure]|apply intent_failed_preserves].
Qed.

(** The file an answered intent under a key is about. *)
Definition keyed_file (user : AuthUser) (k : string) (ud : UploadDescriptor) (d : db) : Prop :=
  ∃ o ik id row, bigint_in (au_id user) = Some o ∧ opt_text_in (Some k) = Some (Some ik) ∧
    files d !! id = Some row ∧ f_owner_id row = o ∧ f_idempotency_key row = Some ik ∧
    ud_id ud = f_id row ∧ ud_key ud = f_key row.

Lemma select_describe user k row σ t w ud t' w' :
  select_by_key (au_id user) k (w_db w) = Ok (Some row) →
  describe storage row σ t w = (Ok ud, t', w') → keyed_file user k ud (w_db w').
Proof.
  intros Hs Hd. apply describe_ok in Hd as (Hid & Hkey & ->).
  apply select_by_key_some in Hs as (o & ik & id & Ho & Hk & Hrow & Hro & Hrk).
  exists o, ik, id, row. cbn. rewrite Hk. done.
Qed.

Lemma intent_keyed user body k σ t w ud t' w' :
  k ≠ "" → intent intent_issues storage user body (Some k) σ t w = (Ok ud, t', w') →
  keyed_file user k ud (w_db w').
Proof.
  intros Hk. assert (Htr : truthy (Some k) = Some k) by (by destruct k).
  unfold intent. destruct (intentSchema_parse body) as [[ct size]|]; [|done]. rewrite Htr. intros Hr.
  apply io_bind_ok in Hr as (found & t1 & w1 & Hsel & Hr).
  apply pg_ok in Hsel as (d & Hsel & -> & ->). simplify_eq. rewrite world_eta in Hr.
  destruct found as [row|]; [by eapply select_describe|].
  apply io_bind_ok in Hr as (id & t2 & w2 & _ & Hr). cbv zeta in Hr.
  apply io_bind_ok in Hr as (up & t3 & w3 & _ & Hr).
  apply io_bind_ok in Hr as (r & t4 & w4 & Hins & Hr).
  unfold io_try in Hins. destruct (pg _ σ t3 w3) as [[x tx] wx] eqn:Hpg. simplify_eq.
  destruct r as [row|e].
  - apply pg_ok in Hpg as (d & Hpg & -> & ->).
    apply insert_file_cases in Hpg as [(e & ? & _)|(u & o & up' & ik & _ & Ho & _ & Hik & _ & _ & Hrow & -> & _)]; [done|].
    simplify_eq. apply describe_ok in Hr as (Hid & Hkey & ->).
    cbn in Hik. destruct (text_in k) as [k'|] eqn:Hk'; [|done]. injection Hik as <-.
    exists o, k', u. eexists. split_and!; [done|cbn; by rewrite Hk'|cbn; apply lookup_insert_eq|..]; done.
  - unfold intent_failed in Hr. apply io_bind_ok in Hr as (x & t5 & w5 & _ & Hr). rewrite Htr in Hr.
    case_bool_decide; [|done]. apply io_bind_ok in Hr as (found & t6 & w6 & Hsel2 & Hr).
    apply pg_ok in Hsel2 as (d & Hsel2 & -> & ->). simplify_eq. rewrite world_eta in Hr.
    destruct found as [row|]; [by eapply select_describe|done].
Qed.

(** C31: an Idempotency-Key names one file.  However two intents of a user under
    the same non-empty key interleave with other requests, and whatever they
    ask for, if both answer they hand out the same file and the same object key
    (the loser of a race answers with the winner's row). *)
Theorem intent_idempotent user k b1 b2 σ1 σ2 t1 t1' t2 t2' w1 w1' w2 w2' ud1 ud2 :
  k ≠ "" → idem_unique (w_db w1) → tame files_step σ1 → tame files_step σ2 →
  intent intent_issues storage user b1 (Some k) σ1 t1 w1 = (Ok ud1, t1', w1') →
  files_step w1' w2 →
  intent intent_issues storage user b2 (Some k) σ2 t2 w2 = (Ok ud2, t2', w2') →
  ud_id ud2 = ud_id ud1 ∧ ud_key ud2 = ud_key ud1.
Proof.
  intros Hk Huniq Hσ1 Hσ2 Hr1 Hw Hr2.
  pose proof (intent_preserves _ _ _ _ _ _ _ _ _ Hσ1 Hr1) as [_ Hu1].
  pose proof (intent_preserves _ _ _ _ _ _ _ _ _ Hσ2 Hr2) as Hs2.
  destruct (intent_keyed _ _ _ _ _ _ _ _ _ Hk Hr1) as (o & ik & id & row & Ho & Hik & Hrow & Hro & Hrk & -> & ->).
  destruct (intent_keyed _ _ _ _ _ _ _ _ _ Hk Hr2) as (o2 & ik2 & id2 & row2 & Ho2 & Hik2 & Hrow2 & Hro2 & Hrk2 & -> & ->).
  assert (Hstep : files_step w1' w2') by (by etrans). destruct Hstep as [Hle Hu].
  destruct (Hle id row Hrow) as (row' & Hrow' & E1 & E2 & E3 & E4). simplify_eq.
  assert (id2 = id) as ->; [|simplify_eq; split; congruence].
  eapply (Hu (Hu1 Huniq) id2 id); [done|done|cbn; by rewrite Hrk2|cbn; rewrite E4, Hrk; cbn; congruence].
Qed.

(** ** What an intent writes *)

Definition same_db (w w' : world) : Prop := w_db w' = w_db w.
#[local] Instance same_db_preorder : PreOrder same_db.
Proof. split; unfold same_db; [by intros|intros ???; congruence]. Qed.

Lemma select_key_same user k : io_preserves same_db (pg (λ d, (select_by_key user k d, d))).
Proof. apply io_preserves_roundtrip; [apply _|]. done. Qed.
Lemma s3_same {A} (cmd : s3 → result A * s3) : io_preserves same_db (s3_send cmd).
Proof. apply io_preserves_roundtrip; [apply _|]. intros w. by destruct (cmd (w_s3 w)). Qed.

Lemma intent_failed_same user key up ik e : io_preserves same_db (intent_failed storage user key up ik e).
Proof.
  apply io_preserves_bind; [apply _|..].
  - destruct (truthy up); [|by apply io_preserves_pure; [apply _|]].
    apply io_preserves_bind; [apply _|apply io_preserves_try, s3_same|].
    intros ?. by apply io_preserves_pure; [apply _|].
  - intros _. destruct (truthy ik) as [k|]; [|by apply io_preserves_pure; [apply _|]].
    case_bool_decide; [|by apply io_preserves_pure; [apply _|]].
    apply io_preserves_bind; [apply _|apply select_key_same|].
    intros [row|]; apply io_preserves_pure; try apply _; [apply describe_pure|done].
Qed.

Lemma pg_insert_cases id key owner ct size up ik σ t w r t' w' :
  tame same_db σ → pg (insert_file id key owner ct size up ik) σ t w = (r, t', w') →
  w_db w' = w_db w ∨
  (∃ r0, insert_file id key owner ct size up ik (w_db w) = (Ok r0, w_db w') ∧ (r = Ok r0 ∨ ∃ e, r = Err e)).
Proof.
  intros Hσ. specialize (Hσ t w). unfold same_db in Hσ. unfold pg, roundtrip. rewrite Hσ.
  destruct (insert_file _ _ _ _ _ _ _ (w_db w)) as [x d] eqn:Hi.
  assert (Hd : d = w_db w ∨ ∃ r0, x = Ok r0).
  { apply insert_file_cases in Hi as [(e & -> & ->)|(u & o & up' & ik' & _ & _ & _ & _ & _ & _ & -> & _)]; eauto. }
  destruct (s_fault σ t) as [f|]; [destruct (f_applied f)|]; intros; simplify_eq/=; [|by left|];
    destruct Hd as [->|[r0 ->]]; eauto 10.
Qed.

(** The row an intent of [user] for [contentType] and [size] adds. *)
Definition intent_row (user : AuthUser) (contentType : string) (size : Z) (ik : option string) (n : nat)
    (σ : asched world) (row : file_row) : Prop :=
  ∃ ext o up ik', (contentType, ext) ∈ CONTENT_TYPES ∧ bigint_in (au_id user) = Some o ∧
    (is_Some up ↔ multipartThreshold storage < size) ∧ opt_text_in ik = Some ik' ∧
    uuid_in (s_uuid σ n) = Some (f_id row) ∧
    row = FileRow (f_id row) (file_key (au_id user) (s_uuid σ n) ext) o PENDING contentType size up None ik'.

Lemma extension_of_elem ct ext : extension_of ct = Some ext → (ct, ext) ∈ CONTENT_TYPES.
Proof.
  unfold extension_of. intros ([i [ct' ext']] & Hf & ->)%fmap_Some.
  apply list_find_Some in Hf as (Hl & Hc & _). cbn in *. subst. by eapply list_elem_of_lookup_2.
Qed.

(** An intent adds at most one row, and only one of this shape: PENDING, the
    declared type and size within the limits, owned by the caller, with the key
    uploads/<user>/<random uuid>.<extension of the allowlist>, multipart exactly
    above the threshold.  Nothing of the row comes from the file name the client
    sent.  Without other requests this holds whatever fails, and every other row
    and table stays as it was. *)
Theorem intent_adds_only user body ik σ t w r t' w' :
  tame same_db σ → intent intent_issues storage user body ik σ t w = (r, t', w') →
  w_db w' = w_db w ∨
  ∃ contentType size n row, intentSchema_parse body = Some (contentType, size) ∧ 1 ≤ size ≤ MAX_OBJECT ∧
    intent_row user contentType size ik n σ row ∧ files (w_db w) !! f_id row = None ∧
    w_db w' = set_files <[f_id row := row]> (w_db w) ∧
    (∀ ud, r = Ok ud → truthy ik = None → ud_id ud = f_id row ∧ ud_key ud = f_key row).
Proof.
  intros Hσ. unfold intent. destruct (intentSchema_parse body) as [[ct size]|] eqn:Hbody; [|intros [= <- <- <-]; by left].
  assert (Hparse : is_Some (extension_of ct) ∧ 1 ≤ size ≤ MAX_OBJECT).
  { unfold intentSchema_parse in Hbody. by simplify_option_eq. }
  destruct Hparse as [[ext Hext] Hsize]. rewrite Hext. cbn [default from_option id].
  intros [(found & t1 & w1 & Hsel & Hr)|(e & Hsel & ->)]%io_bind_cases.
  2: { left. destruct (truthy ik); [|done]. by eapply select_key_same. }
  assert (Hw1 : w_db w1 = w_db w).
  { destruct (truthy ik); [by eapply select_key_same|]. by apply io_ret_ok in Hsel as (_ & _ & ->). }
  destruct found as [row|].
  { left. pose proof (describe_pure row σ t1 w1) as Hd. rewrite Hr in Hd. cbn in Hd. by subst. }
  apply io_bind_cases in Hr as [(id & t2 & w2 & [= <- <- <-] & Hr)|(e & [=] & _)]. cbv zeta in Hr.
  apply io_bind_cases in Hr as [(up & t3 & w3 & Hup & Hr)|(e & Hup & ->)].
  2: { left. rewrite <- Hw1. destruct (_ <? _); [|done].
       apply io_bind_cases in Hup as [(u & ? & ? & _ & [=])|(e' & Hup & _)]. by eapply s3_same. }
  assert (Hw3 : w_db w3 = w_db w1 ∧ (is_Some up ↔ multipartThreshold storage < size)).
  { destruct (Z.ltb_spec (multipartThreshold storage) size) as [Hlt|Hge].
    - apply io_bind_ok in Hup as (u & ? & ? & Hup & [= <- <- <-]). split; [by eapply s3_same|].
      split; [done|eauto].
    - apply io_ret_ok in Hup as (-> & _ & ->). split; [done|]. split; [by intros []|lia]. }
  destruct Hw3 as [Hw3 Hupiff].
  apply io_bind_cases in Hr as [(x & t4 & w4 & Hins & Hr)|(e & Hins & _)];
    unfold io_try in Hins; destruct (pg _ σ t3 w3) as [[x' tx] wx] eqn:Hpg; simplify_eq.
  assert (Hw' : w_db w' = w_db w4).
  { destruct x as [row|e]; [|by eapply intent_failed_same].
    pose proof (describe_pure row σ t4 w4) as Hd. rewrite Hr in Hd. cbn in Hd. by subst. }
  apply pg_insert_cases in Hpg as [Hsame|(row & Hi & Hx)]; [left; congruence| |done].
  apply insert_file_cases in Hi as [(e & ? & _)|(u & o & up' & ik' & Hu & Ho & Hup' & Hik & _ & _ & Hrow & Hd & Hnone & _ & _)]; [done|].
  right. injection Hrow as Hrow. exists ct, size, t1, row. rewrite Hw3, Hw1 in *. subst row. cbn [f_id f_key].
  split_and!; [done|lia|lia| |done|congruence|].
  - exists ext, o, up', ik'. split_and!; [by apply extension_of_elem|done| |done|done|done].
    rewrite <- Hupiff. destruct up as [s|]; cbn in Hup'; [|by injection Hup' as <-].
    destruct (text_in s); [|done]. injection Hup' as <-. split; eauto.
  - intros ud -> Hik0. destruct Hx as [->|[e ->]].
    + apply describe_ok in Hr as (-> & -> & _). done.
    + unfold intent_failed in Hr. apply io_bind_ok in Hr as (? & ? & ? & _ & Hr). by rewrite Hik0 in Hr.
Qed.
End files_facts.

(** ** A store, a user, three files *)

#[local] Existing Instance fix_text.
#[local] Existing Instance fix_text_laws.
#[local] Existing Instance sim_s3.
#[local] Existing Instance sim_laws.

Definition sim_storage : StorageService := StorageServiceOf "files" 300 900 60 (8 * MIB).
Definition owner_1 : AuthUser := AuthUserOf "1" customer "jti" (num_of_Z 905) "fid".
Definition other_2 : AuthUser := AuthUserOf "2" customer "jti" (num_of_Z 905) "fid".
Definition id_a : string := "0b0e7c1e-2f4a-4c5d-8e6f-0123456789ab".
Definition id_b : string := "0b0e7c1e-2f4a-4c5d-8e6f-0123456789ac".
Definition row_a : file_row :=
  FileRow id_a (file_key "1" id_a "bin") 1 PENDING "application/octet-stream" (12 * MIB) (Some "0") None None.
Definition row_b : file_row :=
  FileRow id_b (file_key "1" id_b "png") 1 PENDING "image/png" 2048 None None None.
Definition files_db : db := set_files (λ _, <[id_a := row_a]> (<[id_b := row_b]> ∅)) fix_db.
Definition parts_a : list part := [Part 1 (5 * MIB) "e1"; Part 2 1000 "e2"].
Definition parts_all : list part := [Part 1 (5 * MIB) "e1"; Part 2 (5 * MIB) "e2'"; Part 3 (2 * MIB) "e3"].
Definition store_with (ps : list part) : @s3 sim_s3 :=
  Sim (<[("files", f_key row_a, "0") := ps]> ∅) (<[("files", f_key row_b) := 2048]> ∅) 1.
Definition world_a : world := World (store_with parts_a) files_db.
Definition body_of (filename contentType : string) (size : Z) : json :=
  JObj [("filename", JStr filename); ("contentType", JStr contentType); ("size", JNum (num_of_Z size))].
Definition no_issues : json → string := λ _, "invalid".

Definition ok_value {A} (r : result A) : option A := match r with Ok a => Some a | Err _ => None end.

Lemma files_db_idem : idem_unique files_db.
Proof.
  assert (Hnone : map_Forall (λ _ r, f_idempotency_key r = None) (files files_db)).
  { apply map_Forall_insert_2; [done|]. apply map_Forall_insert_2; [done|]. apply map_Forall_empty. }
  intros i j a b k Ha _ Hk. by rewrite (Hnone i a Ha) in Hk.
Qed.

Lemma sim_tame : tame same_db sim_schedule.
Proof. intros t w. reflexivity. Qed.

Lemma pending_a : pending_file owner_1 id_a sim_schedule world_a row_a.
Proof. split; try done. by left. Qed.

Lemma files_ownership_witness :
  commit sim_storage other_2 id_a sim_schedule 0%nat world_a = (Err NOT_OWNER, 1%nat, world_a).
Proof.
  destruct (files_ownership sim_storage other_2 id_a sim_schedule 0%nat world_a row_a) as (_ & Hc & _);
    [done|done|done|by intros [|]|exact Hc].
Defined.

Lemma commit_verified_witness :
  ∃ v row, ok_value (commit sim_storage owner_1 id_b sim_schedule 0%nat world_a).1.1 = Some v ∧
    files (w_db world_a) !! id_b = Some row ∧ may_see owner_1 row.
Proof.
  destruct (commit sim_storage owner_1 id_b sim_schedule 0%nat world_a) as [[r t'] w'] eqn:Hr.
  assert (Hok : match (commit sim_storage owner_1 id_b sim_schedule 0%nat world_a).1.1 with Ok _ => true | _ => false end = true)
    by (vm_compute; reflexivity).
  rewrite Hr in Hok. destruct r as [v|]; [|done]. exists v.
  destruct (commit_verified sim_storage owner_1 id_b sim_schedule 0%nat world_a v t' w' Hr) as (row & Hrow & Hsee & _).
  exists row. split; [done|]. split; [exact Hrow|exact Hsee].
Defined.

Lemma listAllParts_complete_witness :
  ∃ t', listAllParts sim_storage row_a sim_schedule 0%nat (World (store_with parts_all) files_db) =
    (Ok parts_all, t', World (store_with parts_all) files_db).
Proof.
  destruct (listAllParts_complete sim_storage row_a "0" sim_schedule 0%nat (World (store_with parts_all) files_db))
    as [_ Hl]; [done|].
  apply Hl; [exact sim_quiet|vm_compute; reflexivity].
Defined.

Lemma commit_refuses_incomplete_witness :
  ∃ t', commit sim_storage owner_1 id_a sim_schedule 0%nat world_a = (Err (parts_missing [2; 3]), t', world_a).
Proof.
  pose proof (commit_refuses_incomplete sim_storage owner_1 id_a sim_schedule 0%nat world_a row_a pending_a) as Hc.
  apply (Hc parts_a (5 * MIB)); vm_compute; [reflexivity|reflexivity|discriminate].
Defined.

Lemma resume_completes_witness :
  ∃ t3 s3 etag, headObject "files" (f_key row_a) s3 = Ok (HeadAnswer (12 * MIB) etag) ∧
    commit sim_storage owner_1 id_a sim_schedule 9%nat (World (store_with parts_all) files_db) =
      (Ok (completed_view row_a etag), t3, World s3 (complete_row id_a etag files_db)).
Proof.
  destruct (resume_completes sim_storage owner_1 id_a sim_schedule 0%nat world_a row_a "0" parts_a pending_a)
    as (pv & t' & Hp & _ & Hc); [done|done|vm_compute; reflexivity|].
  assert (Hpv : (∃ i j, pv_missing pv = [i; j] ∧ (part_number i, pi_length i) = (2, 5 * MIB) ∧
                  (part_number j, pi_length j) = (3, 2 * MIB)) ∧ pv_uploaded pv = [(1, 5 * MIB)]).
  { assert (Hv : (ok_value (parts sim_storage owner_1 id_a sim_schedule 0%nat world_a).1.1) = Some pv) by (by rewrite Hp).
    assert (Hv' : match ok_value (parts sim_storage owner_1 id_a sim_schedule 0%nat world_a).1.1 with
      | Some pv => ((λ i, (part_number i, pi_length i)) <$> pv_missing pv, pv_uploaded pv)
      | None => ([], []) end = ([(2, 5 * MIB); (3, 2 * MIB)], [(1, 5 * MIB)])) by (vm_compute; reflexivity).
    rewrite Hv in Hv'. injection Hv' as Hm Hu. split; [|done].
    destruct (pv_missing pv) as [|i [|j [|]]]; [discriminate Hm|discriminate Hm| |discriminate Hm].
    injection Hm as Hi1 Hi2 Hj1 Hj2. exists i, j. rewrite Hi1, Hi2, Hj1, Hj2. auto. }
  destruct Hpv as [(i & j & Hm & Hi & Hj) Hu]. apply (Hc (store_with parts_all) parts_all 9%nat).
  - vm_compute; reflexivity.
  - rewrite Hu. intros x ->%list_elem_of_singleton. exists (Part 1 (5 * MIB) "e1"). split; [left|done].
  - rewrite Hm. intros x [->| ->%list_elem_of_singleton]%elem_of_cons; rewrite ?Hi, ?Hj.
    + exists (Part 2 (5 * MIB) "e2'"). split; [right; left|done].
    + exists (Part 3 (2 * MIB) "e3"). split; [do 2 right; left|done].
Defined.

Definition key_run (t : nat) (filename : string) (w : world) : result UploadDescriptor * nat * world :=
  intent no_issues sim_storage owner_1 (body_of filename "image/png" 2048) (Some "tap-1") sim_schedule t w.

Lemma intent_idempotent_witness : ∃ w1 ud1 ud2,
  ok_value (key_run 0%nat "cat.png" (World (store_with []) files_db)).1.1 = Some ud1 ∧
  ok_value (key_run 5%nat "../../dog.php" w1).1.1 = Some ud2 ∧ ud_id ud2 = ud_id ud1 ∧ ud_key ud2 = ud_key ud1.
Proof.
  set (w0 := World (store_with []) files_db).
  destruct (key_run 0%nat "cat.png" w0) as [[r1 t1] w1] eqn:Hr1.
  destruct (key_run 5%nat "../../dog.php" w1) as [[r2 t2] w2] eqn:Hr2. exists w1.
  assert (Hok : match key_run 0%nat "cat.png" w0 with
    | (Ok _, _, w) => match (key_run 5%nat "../../dog.php" w).1.1 with Ok _ => true | _ => false end
    | _ => false end = true) by (vm_compute; reflexivity).
  rewrite Hr1 in Hok. destruct r1 as [ud1|]; [|done]. rewrite Hr2 in Hok |- *. destruct r2 as [ud2|]; [|done].
  exists ud1, ud2. split; [done|]. split; [done|].
  eapply (intent_idempotent no_issues sim_storage owner_1 "tap-1" _ _ sim_schedule sim_schedule 0%nat t1 5 t2 w0 w1 w1 w2);
    [done| | | |exact Hr1| |exact Hr2].
  - exact files_db_idem.
  - intros t w. apply files_step_preorder.
  - intros t w. apply files_step_preorder.
  - apply files_step_preorder.
Defined.

Lemma intent_adds_only_witness : ∃ w',
  (key_run 0%nat "cat.png" (World (store_with []) files_db)).2 = w' ∧
  (w_db w' = files_db ∨ ∃ row, w_db w' = set_files <[f_id row := row]> files_db ∧ f_size row = 2048).
Proof.
  destruct (key_run 0%nat "cat.png" (World (store_with []) files_db)) as [[r t'] w'] eqn:Hr. exists w'.
  split; [done|].
  destruct (intent_adds_only no_issues sim_storage owner_1 _ _ _ _ _ _ _ _ sim_tame Hr)
    as [Hs|(ct & size & n & row & Hb & _ & (ext & o & up & ik' & _ & _ & _ & _ & _ & Hrow) & _ & Hd & _)]; [by left|right].
  exists row. split; [exact Hd|]. rewrite Hrow. cbn.
  assert (Hb' : intentSchema_parse (body_of "cat.png" "image/png" 2048) = Some ("image/png", 2048)) by (vm_compute; reflexivity).
  rewrite Hb' in Hb. by injection Hb as _ <-.
Defined.

(** An empty Idempotency-Key header is no key for the lookup but is stored
    as one: the second upload intent of a user that carries it dies of the
    unique index (a driver error, not an answer). *)
Theorem empty_key_conflict : ∃ w ud w' t' w'',
  intent no_issues sim_storage owner_1 (body_of "a.png" "image/png" 2048) (Some "") sim_schedule 0%nat w = (Ok ud, 1%nat, w') ∧
  intent no_issues sim_storage owner_1 (body_of "b.png" "image/png" 4096) (Some "") sim_schedule 1%nat w' =
    (Err (PgError "23505"), t', w'').
Proof.
  set (run f size t w := intent no_issues sim_storage owner_1 (body_of f "image/png" size) (Some "") sim_schedule t w).
  set (w := World (store_with []) files_db). exists w.
  destruct (run "a.png" 2048 0%nat w) as [[r1 t1] w1] eqn:Hr1.
  destruct (run "b.png" 4096 1%nat w1) as [[r2 t2] w2] eqn:Hr2.
  assert (Hok : match run "a.png" 2048 0%nat w with
    | (Ok _, t, w) => Some (t, match (run "b.png" 4096 1%nat w).1.1 with Ok _ => None | Err e => Some e end)
    | _ => None end = Some (1%nat, Some (PgError "23505"))) by (vm_compute; reflexivity).
  rewrite Hr1 in Hok. destruct r1 as [ud|]; [|done]. rewrite Hr2 in Hok. destruct r2 as [|e]; [done|].
  injection Hok as -> ->. exists ud, w1, t2, w2. split; [exact Hr1|exact Hr2].
Qed.
