(* ===== verification/Cursor.v ===== *)
(** Cursor pagination of the in-memory catalogues (src/common/cursor.ts). *)
From stdpp Require Import pretty.
From Stdlib Require Import Ascii.
From S2P Require Import Prelude JsNumber JsText Events Schema Sql Fixtures.
#[local] Open Scope Z_scope.

Record Page (T : Type) := PageOf { items : list T; next_cursor : option string }.
Arguments PageOf {T} items next_cursor.
Arguments items {T} p.
Arguments next_cursor {T} p.

Definition BAD_CURSOR : exn :=
  HttpError 400 (Some "bad-cursor") "cursor не розпізнано — він непрозорий і належить серверу".

Definition encodeCursor (offset : Z) : string := to_base64url (bytes_of (pretty offset)).

Definition decodeCursor (raw : string) : result Z :=
  match num_to_Z (StringToNumber (text_of (from_base64url raw))) with
  | Some offset => if offset <? 0 then Err BAD_CURSOR else Ok offset
  | None => Err BAD_CURSOR
  end.

(** [limit] is what ParseIntPipe let through: any integer. *)
Definition paginate {T} (all : list T) (limit : Z) (cursor : option string) : result (Page T) :=
  rbind (match cursor with
         | Some c => if String.eqb c "" then Ok 0 else decodeCursor c
         | None => Ok 0
         end) (λ offset,
    let items := js_slice all offset (offset + limit) in
    let nextOffset := offset + Z.of_nat (length items) in
    Ok (PageOf items (if nextOffset <? Z.of_nat (length all) then Some (encodeCursor nextOffset) else None))).

Example cursor_examples :
  encodeCursor 20 = "MjA" ∧ decodeCursor "MjA" = Ok 20 ∧ decodeCursor "LTE" = Err BAD_CURSOR ∧
  paginate [1; 2; 3] 2 None = Ok (PageOf [1; 2] (Some "Mg")) ∧
  paginate [1; 2; 3] 2 (Some "Mg") = Ok (PageOf [3] None).
Proof. vm_compute. done. Qed.

(** ** Cursors round-trip *)

Lemma digits_val_bytes s acc z : digits_val acc s = Some z →
  Forall is_digit (bytes_of s) ∧ foldl (λ a c, a * 10 + (c - 48)) acc (bytes_of s) = z.
Proof.
  revert acc. induction s as [|c s IH]; intros acc; [by intros [= <-]|].
  cbn [digits_val]. destruct (_ && _) eqn:Hc; [|done]. intros Hs. apply IH in Hs as [Hd Hf].
  zify_bools. change (bytes_of (String c s)) with (byte_of c :: bytes_of s). split.
  - constructor; [|done]. unfold is_digit, byte_of. lia.
  - cbn [foldl]. rewrite <- Hf. do 2 f_equal. unfold byte_of. lia.
Qed.

Lemma pretty_nonneg n : 0 ≤ n → pretty n = pretty (Z.to_N n).
Proof. by destruct n. Qed.

Lemma StringToNumber_pretty n : 0 ≤ n → StringToNumber (pretty n) = num_of_Z n.
Proof.
  intros Hn. rewrite pretty_nonneg by done. pose proof (digits_val_N (Z.to_N n)) as Hv.
  pose proof (pretty_N_nonempty (Z.to_N n)) as Hne.
  apply digits_val_bytes in Hv as [Hd Hf]. rewrite StringToNumber_digits; [|by destruct (pretty (Z.to_N n))|done].
  rewrite Hf, Z2N.id by done. done.
Qed.

Lemma text_bytes s : text_of (bytes_of s) = s.
Proof.
  unfold text_of, bytes_of. rewrite <- list_fmap_compose.
  assert (Hid : ∀ l : list ascii, (char_of ∘ byte_of) <$> l = l).
  { induction l as [|c l IH]; [done|]. cbn. f_equal; [|done]. unfold char_of, byte_of.
    rewrite N2Z.id. apply ascii_N_embedding. }
  rewrite Hid. apply String.string_of_list_ascii_of_string.
Qed.

Lemma decode_encode n : 0 ≤ n < 2 ^ 53 → decodeCursor (encodeCursor n) = Ok n.
Proof.
  intros Hn. unfold decodeCursor, encodeCursor.
  rewrite base64url_roundtrip by apply bytes_of_bound. rewrite text_bytes, StringToNumber_pretty by lia.
  unfold num_of_Z. rewrite rnd_int_exact by lia. by destruct (Z.ltb_spec n 0); [lia|].
Qed.

Lemma encode_nonempty n : 0 ≤ n < 2 ^ 53 → encodeCursor n ≠ "".
Proof.
  intros Hn He. unfold encodeCursor in He.
  assert (Hb : bytes_of (pretty n) = []).
  { rewrite <- (base64url_roundtrip (bytes_of (pretty n))) by apply bytes_of_bound. by rewrite He. }
  apply (pretty_N_nonempty (Z.to_N n)). rewrite <- pretty_nonneg by lia. by destruct (pretty n).
Qed.

(** The page at an offset. *)
Definition page_at {T} (all : list T) (limit offset : Z) : Page T :=
  let items := take (Z.to_nat limit) (drop (Z.to_nat offset) all) in
  let next := offset + Z.of_nat (length items) in
  PageOf items (if next <? Z.of_nat (length all) then Some (encodeCursor next) else None).

(** The cursor of an offset: none for the first page. *)
Definition cursor_at (offset : Z) (c : option string) : Prop :=
  (offset = 0 ∧ c = None) ∨ (0 ≤ offset < 2 ^ 53 ∧ c = Some (encodeCursor offset)).

Lemma paginate_at {T} (all : list T) limit offset c :
  0 ≤ limit → cursor_at offset c → paginate all limit c = Ok (page_at all limit offset).
Proof.
  intros Hl Hc. unfold paginate.
  assert (Hd : (match c with Some c => if String.eqb c "" then Ok 0 else decodeCursor c | None => Ok 0 end) = Ok offset
    ∧ 0 ≤ offset).
  { destruct Hc as [[-> ->]|[Ho ->]]; [done|]. split; [|lia].
    destruct (String.eqb_spec (encodeCursor offset) ""); [by apply encode_nonempty in Ho|]. by apply decode_encode. }
  destruct Hd as [-> Ho]. cbn [rbind]. rewrite js_slice_nonneg by lia. done.
Qed.

(** A client that follows the cursors from page to page; the list it pages
    through may have changed by the time of the [k]-th request. *)
Fixpoint crawl {T} (fuel : nat) (snap : nat → list T) (limit : Z) (cursor : option string) (k : nat) :
    option (list T * nat) :=
  match fuel with
  | O => None
  | S fuel =>
      match paginate (snap k) limit cursor with
      | Err _ => None
      | Ok page =>
          match next_cursor page with
          | None => Some (items page, k)
          | Some c => prod_map (app (items page)) id <$> crawl fuel snap limit (Some c) (S k)
          end
      end
  end.

Lemma crawl_from {T} fuel (snap : nat → list T) limit L offset c k :
  1 ≤ limit → (∀ k, snap k `prefix_of` snap (S k)) → (∀ k, Z.of_nat (length (snap k)) ≤ L) → L < 2 ^ 53 →
  cursor_at offset c → 0 ≤ offset ≤ Z.of_nat (length (snap k)) → L - offset < Z.of_nat fuel →
  ∃ k', crawl fuel snap limit c k = Some (drop (Z.to_nat offset) (snap k'), k') ∧ snap k `prefix_of` snap k'.
Proof.
  intros Hlim Hpre HL HL53. revert offset c k. induction fuel as [|fuel IH]; intros offset c k Hc Ho Hf.
  { specialize (HL k). lia. }
  cbn [crawl]. rewrite (paginate_at _ _ offset) by (done || lia).
  unfold page_at. cbn [next_cursor items]. rewrite length_take, length_drop.
  set (n := Nat.min (Z.to_nat limit) (length (snap k) - Z.to_nat offset)).
  destruct (Z.ltb_spec (offset + Z.of_nat n) (Z.of_nat (length (snap k)))) as [Hmore|Hdone].
  - assert (Hn : n = Z.to_nat limit) by lia.
    destruct (Hpre k) as [ext Hext].
    destruct (IH (offset + Z.of_nat n) (Some (encodeCursor (offset + Z.of_nat n))) (S k)) as (k' & Hcr & Hk').
    { right. specialize (HL k). split; [lia|done]. }
    { rewrite Hext, length_app. lia. }
    { lia. }
    exists k'. rewrite Hcr. split; [|etrans; [apply Hpre|done]]. cbn. do 2 f_equal.
    rewrite Hn. replace (Z.to_nat (offset + Z.of_nat (Z.to_nat limit))) with (Z.to_nat offset + Z.to_nat limit)%nat by lia.
    rewrite <- drop_drop. rewrite <- (take_drop (Z.to_nat limit) (drop (Z.to_nat offset) (snap k'))) at 2. f_equal.
    assert (Hp : snap k `prefix_of` snap k') by (etrans; [apply Hpre|done]). destruct Hp as [e ->].
    rewrite drop_app_le by lia. rewrite take_app_le; [done|]. rewrite length_drop. lia.
  - exists k. split; [|done]. do 2 f_equal. rewrite take_ge; [done|]. rewrite length_drop. lia.
Qed.

(** Following the cursors page by page visits every element exactly once and
    in order, and terminates, for any page size, even while new elements are
    appended between the requests. *)
Theorem pages_cover {T} (snap : nat → list T) limit L :
  1 ≤ limit → (∀ k, snap k `prefix_of` snap (S k)) → (∀ k, (length (snap k) ≤ L)%nat) →
  Z.of_nat L < 2 ^ 53 →
  ∃ k, crawl (S L) snap limit None 0 = Some (snap k, k).
Proof.
  intros Hlim Hpre HL HL53.
  destruct (crawl_from (S L) snap limit (Z.of_nat L) 0 None 0) as (k & Hc & _);
    [done|done|intros k; specialize (HL k); lia|done|by left|lia|lia|].
  exists k. exact Hc.
Qed.

Lemma pages_cover_witness :
  ∃ k, crawl 6 (λ k, if (k <? 1)%nat then [10; 20; 30] else [10; 20; 30; 40; 50]) 2 None 0 =
    Some ((if (k <? 1)%nat then [10; 20; 30] else [10; 20; 30; 40; 50]), k).
Proof.
  apply (pages_cover (λ k, if (k <? 1)%nat then [10; 20; 30] else [10; 20; 30; 40; 50]) 2 5).
  - lia.
  - intros [|k]; cbn; [by exists [40; 50]|done].
  - intros [|k]; cbn; lia.
  - lia.
Defined.

(** A cursor without any character of the base64 alphabet is not rejected:
    Node decodes it to the empty text, which Number reads as 0, so the first
    page is served again although the server never issued that cursor. *)
Theorem garbage_cursor_accepted {T} (all : list T) limit c :
  c ≠ "" → omap b64_value (bytes_of c) = [] → paginate all limit (Some c) = paginate all limit None.
Proof.
  intros Hc Hg. unfold paginate. destruct (String.eqb_spec c ""); [done|].
  assert (Hu : ∀ l, omap b64_value l = [] → omap b64_value (until_padding l) = []).
  { induction l as [|x l IH]; [done|]. cbn. destruct (b64_value x) eqn:Hx; [done|]. intros Hl.
    destruct (x =? 61); [done|]. cbn. rewrite Hx. by apply IH. }
  unfold decodeCursor, from_base64url. rewrite Hu by done. done.
Qed.

Lemma garbage_cursor_accepted_witness : paginate [1; 2; 3] 2 (Some "####") = paginate [1; 2; 3] 2 None.
Proof. apply garbage_cursor_accepted; [done|vm_compute; reflexivity]. Defined.
