(* ===== verification/Orders.v ===== *)
(** The in-memory HTTP layer: catalogue, orders, their realtime events, the SSE
    stream and the WebSocket rooms (src/products, src/orders), with the role
    guard in front of them (src/auth/auth.guard.ts).

    The module-level arrays and counters and the fields of the event bus are one
    state [shop]; [bus] is everything the RxJS subject has published. *)
From stdpp Require Import pretty.
From S2P Require Import Prelude JsNumber JsText Events Schema Sql Fixtures Token Auth Cursor.
#[local] Open Scope Z_scope.

(** A text in double quotes. *)
Definition dquote : string := String (Ascii.ascii_of_nat 34) EmptyString.
Definition quoted (s : string) : string := dquote +:+ s +:+ dquote.

(** ** Data *)

Record Product := ProductOf { pr_id : string; pr_name : string; pr_price_cents : num }.
Record OrderItem := OrderItemOf { it_product_id : string; it_quantity : num }.
Inductive OrderStatus := st_new | st_packed | st_shipped | st_delivered | st_cancelled.
#[export] Instance OrderStatus_eq_dec : EqDecision OrderStatus.
Proof. solve_decision. Defined.

Record Order := OrderOf {
  or_id : string;
  or_buyer_id : string;
  or_items : list OrderItem;
  or_total_cents : num;
  or_status : OrderStatus;
  or_created_at : string;
}.

Record OrderStatusEvent := OrderStatusEventOf {
  oe_id : Z;
  oe_orderId : string;
  oe_status : OrderStatus;
  oe_ts : string;
}.

Record shop := Shop {
  PRODUCTS : list Product;
  product_nextId : Z;
  ORDERS : list Order;
  order_nextId : Z;
  buffers : gmap string (list OrderStatusEvent);
  counters : gmap string Z;
  bus : list OrderStatusEvent;
}.

Definition BUFFER_SIZE : nat := 100.

(** ** Products *)

Definition product_list (st : shop) (limit : Z) (cursor : option string) : result (Page Product) :=
  paginate (PRODUCTS st) limit cursor.

Definition product_getById (st : shop) (id : string) : result Product :=
  match list_find (λ p, pr_id p = id) (PRODUCTS st) with
  | Some (_, p) => Ok p
  | None => Err (HttpError 404 None ("товар " +:+ quoted id +:+ " не знайдено"))
  end.

Definition findByIds (st : shop) (ids : list string) : list Product :=
  filter (λ p, pr_id p ∈ ids) (PRODUCTS st).

Definition product_create (st : shop) (name : string) (priceCents : num) : Product * shop :=
  let product := ProductOf ("p" +:+ pretty (product_nextId st)) name priceCents in
  (product, Shop (PRODUCTS st ++ [product]) (product_nextId st + 1) (ORDERS st) (order_nextId st)
              (buffers st) (counters st) (bus st)).

(** ** Events *)

Definition emitStatusChange (now : Z) (orderId : string) (status : OrderStatus) (st : shop) :
    OrderStatusEvent * shop :=
  let nextId := default 0 (counters st !! orderId) + 1 in
  let event := OrderStatusEventOf nextId orderId status (toISOString now) in
  let buffer := default [] (buffers st !! orderId) ++ [event] in
  let buffer := if (BUFFER_SIZE <? length buffer)%nat then drop 1 buffer else buffer in
  (event, Shop (PRODUCTS st) (product_nextId st) (ORDERS st) (order_nextId st)
            (<[orderId := buffer]> (buffers st)) (<[orderId := nextId]> (counters st)) (bus st ++ [event])).

Definition missedSince (st : shop) (orderId : string) (lastEventId : num) : list OrderStatusEvent :=
  filter (λ e, Z_gt_num (oe_id e) lastEventId = true) (default [] (buffers st !! orderId)).

(** ** Orders *)

Definition order_list (st : shop) (limit : Z) (cursor : option string) : result (Page Order) :=
  paginate (ORDERS st) limit cursor.

Definition order_not_found (id : string) : exn :=
  HttpError 404 None ("замовлення " +:+ quoted id +:+ " не знайдено").

Definition order_getById (st : shop) (id : string) : result Order :=
  match list_find (λ o, or_id o = id) (ORDERS st) with
  | Some (_, o) => Ok o
  | None => Err (order_not_found id)
  end.

Definition not_owner : exn :=
  HttpError 403 (Some "not-owner") "це замовлення належить іншому користувачеві".

Definition getOwned (st : shop) (id : string) (user : AuthUser) : result Order :=
  rbind (order_getById st id) (λ order,
    if negb (String.eqb (or_buyer_id order) (au_id user)) && negb (bool_decide (au_role user = admin))
    then Err not_owner else Ok order).

Definition listFor (st : shop) (user : AuthUser) (limit : Z) (cursor : option string) : result (Page Order) :=
  let visible := if bool_decide (au_role user = admin) then ORDERS st
                 else filter (λ o, or_buyer_id o = au_id user) (ORDERS st) in
  paginate visible limit cursor.

(** [items.reduce((sum, item) => ..., 0)] *)
Definition price_of (st : shop) (product_id : string) : num :=
  match findByIds st [product_id] with p :: _ => pr_price_cents p | [] => Fin 0 0 end.
Definition total_of (st : shop) (items : list OrderItem) : num :=
  foldl (λ sum item, num_add sum (num_mul (price_of st (it_product_id item)) (it_quantity item))) (Fin 0 0) items.

Definition order_create (now : Z) (st : shop) (items : list OrderItem) (buyerId : string) : Order * shop :=
  let order := OrderOf ("o" +:+ pretty (order_nextId st)) buyerId items (total_of st items) st_new (toISOString now) in
  (order, Shop (PRODUCTS st) (product_nextId st) (ORDERS st ++ [order]) (order_nextId st + 1)
            (buffers st) (counters st) (bus st)).

Definition set_status (status : OrderStatus) (o : Order) : Order :=
  OrderOf (or_id o) (or_buyer_id o) (or_items o) (or_total_cents o) status (or_created_at o).

Definition updateStatus (now : Z) (st : shop) (id : string) (status : OrderStatus) : result Order * shop :=
  match list_find (λ o, or_id o = id) (ORDERS st) with
  | None => (Err (order_not_found id), st)
  | Some (i, order) =>
      let st := Shop (PRODUCTS st) (product_nextId st) (alter (set_status status) i (ORDERS st)) (order_nextId st)
                  (buffers st) (counters st) (bus st) in
      (Ok (set_status status order), (emitStatusChange now (or_id order) status st).2)
  end.

(** ** The seeds of the two services *)

Definition seed_products : list Product :=
  [ProductOf "p1" "Клавіатура механічна" (num_of_Z 129900); ProductOf "p2" "Мишка бездротова" (num_of_Z 45900);
   ProductOf "p3" "Килимок для миші" (num_of_Z 12900); ProductOf "p4" ("Монітор 27" +:+ dquote) (num_of_Z 899900);
   ProductOf "p5" "Навушники" (num_of_Z 219900)].
Definition seed_orders : list Order :=
  [OrderOf "o1" "u1" [OrderItemOf "p1" (num_of_Z 1)] (num_of_Z 129900) st_new "2026-08-01T10:00:00.000Z";
   OrderOf "o2" "u2" [OrderItemOf "p2" (num_of_Z 2); OrderItemOf "p3" (num_of_Z 1)]
     (num_add (num_mul (num_of_Z 45900) (num_of_Z 2)) (num_of_Z 12900)) st_new "2026-08-02T11:30:00.000Z"].
Definition shop0 : shop := Shop seed_products 6 seed_orders 3 ∅ ∅ [].

(** ** Guards *)

Definition INSUFFICIENT_ROLE (roles : list role) (text : string) : exn :=
  HttpError 403 (Some "insufficient-role") ("для цієї дії потрібна роль: " +:+ text).
Definition role_text (r : role) : string :=
  match r with customer => "customer" | seller => "seller" | admin => "admin" end.
Fixpoint join_bar (l : list string) : string :=
  match l with [] => "" | [s] => s | s :: l => s +:+ " | " +:+ join_bar l end.

(** [RolesGuard.canActivate] of an HTTP request. *)
Definition RolesGuard (roles : option (list role)) (user : option AuthUser) : result unit :=
  match roles with
  | None => Ok tt
  | Some roles =>
      match user with
      | None => Err (unauthorized "missing-token" "потрібна автентифікація")
      | Some user =>
          if bool_decide (au_role user ∈ roles) then Ok tt
          else Err (INSUFFICIENT_ROLE roles (join_bar (role_text <$> roles)))
      end
  end.

(** [/^Bearer (\S+)$/i] on the Authorization header. *)
Fixpoint has_white (l : list Z) : bool :=
  match l with
  | [] => false
  | _ :: l' => existsb (λ p, bool_decide (is_Some (strip_prefix p l))) white_space || has_white l'
  end.
Definition bearer_token (authorization : string) : option string :=
  let l := bytes_of authorization in
  let token := drop 7 l in
  if bool_decide (lower <$> take 7 l = bytes_of "bearer ") && negb (has_white token) && bool_decide (token ≠ [])
  then Some (text_of token) else None.

Definition MISSING_TOKEN : exn :=
  unauthorized "missing-token" "потрібен заголовок Authorization: Bearer <access-токен>".

Section authenticated.
Context `{PgText, JwtLib} (auth : AuthService).

(** [AuthGuard.canActivate] of an HTTP request: what it puts into [req.user]. *)
Definition AuthGuard (date : Z) (public : bool) (authorization : option string) : sql (option AuthUser) :=
  if public then mret None else
  match bearer_token (default "" authorization) with
  | None => throw MISSING_TOKEN
  | Some token => user ← authenticate auth date token; mret (Some user)
  end.

(** [OrdersGateway.handleConnection]: the user a socket is bound to. *)
Definition handleConnection (date : Z) (token : option string) : sql (option AuthUser) := λ φ t d,
  match token with
  | None => (Ok None, t, d)
  | Some token =>
      let '(r, t', d') := authenticate auth date token φ t d in
      (Ok (match r with Ok user => Some user | Err _ => None end), t', d')
  end.
End authenticated.

(** ** The HTTP routes behind the guards (orders.controller.ts, products.controller.ts) *)

Inductive request :=
| GetOrders (limit : Z) (cursor : option string)
| GetOrder (id : string)
| PostOrder (items : list OrderItem)
| PatchStatus (id : string) (status : OrderStatus)
| GetEvents (id : string) (last_event_id : option string)
| GetProducts (limit : Z) (cursor : option string)
| GetProduct (id : string)
| PostProduct (name : string) (price_cents : num).

(** The [@Roles] and [@Public] decorators. *)
Definition roles_of (r : request) : option (list role) :=
  match r with PatchStatus _ _ | PostProduct _ _ => Some [seller; admin] | _ => None end.
Definition is_public (r : request) : bool :=
  match r with GetProducts _ _ | GetProduct _ => true | _ => false end.

(** An answer: JSON bodies, the Location header of 201, or an open SSE stream
    with the events replayed first. *)
Inductive answer_body :=
| OrderPage (p : Page Order)
| OneOrder (o : Order)
| Created (o : Order) (Location : string)
| Stream (replayed : list OrderStatusEvent)
| ProductPage (p : Page Product)
| OneProduct (p : Product).

(** [res.write] of the replay, before the live subscription. *)
Definition events (st : shop) (id : string) (user : AuthUser) (last_event_id : option string) :
    result (list OrderStatusEvent) :=
  rbind (getOwned st id user) (λ _,
    let lastEventId := match last_event_id with Some h => StringToNumber h | None => Fin 0 0 end in
    Ok (missedSince st id lastEventId)).

Definition rmap {A B} (f : A → B) (r : result A) : result B := rbind r (λ a, Ok (f a)).

(** products.controller.ts: [list], [getOne], [create]. *)
Definition get_products (st : shop) (limit : Z) (cursor : option string) : result answer_body :=
  rmap ProductPage (product_list st limit cursor).
Definition get_product (st : shop) (id : string) : result answer_body :=
  rmap OneProduct (product_getById st id).
Definition post_product (st : shop) (name : string) (price_cents : num) : result answer_body * shop :=
  let '(p, st) := product_create st name price_cents in (Ok (OneProduct p), st).

(** orders.controller.ts: [list], [getOne], [create], [updateStatus]. *)
Definition get_orders (st : shop) (user : AuthUser) (limit : Z) (cursor : option string) : result answer_body :=
  rmap OrderPage (listFor st user limit cursor).
Definition get_order (st : shop) (user : AuthUser) (id : string) : result answer_body :=
  rmap OneOrder (getOwned st id user).
Definition post_order (now : Z) (st : shop) (user : AuthUser) (items : list OrderItem) : result answer_body * shop :=
  let '(o, st) := order_create now st items (au_id user) in
  (Ok (Created o ("/orders/" +:+ or_id o)), st).
Definition patch_status (now : Z) (st : shop) (id : string) (status : OrderStatus) : result answer_body * shop :=
  let '(o, st) := updateStatus now st id status in (rmap OneOrder o, st).

(** One handler; [user] is what the authentication guard left in the request
    ([None] only on the public routes). *)
Definition route (now : Z) (user : option AuthUser) (r : request) (st : shop) : result answer_body * shop :=
  match RolesGuard (roles_of r) user with
  | Err e => (Err e, st)
  | Ok _ =>
      match r, user with
      | GetProducts limit cursor, _ => (get_products st limit cursor, st)
      | GetProduct id, _ => (get_product st id, st)
      | _, None => (Err MISSING_TOKEN, st)
      | GetOrders limit cursor, Some user => (get_orders st user limit cursor, st)
      | GetOrder id, Some user => (get_order st user id, st)
      | PostOrder items, Some user => post_order now st user items
      | PatchStatus id status, Some _ => patch_status now st id status
      | GetEvents id last_event_id, Some user => (rmap Stream (events st id user last_event_id), st)
      | PostProduct name price, Some _ => post_product st name price
      end
  end.

(** A request through both guards to its handler. *)
Definition serve `{PgText, JwtLib} (auth : AuthService) (date : Z) (authorization : option string) (r : request)
    (st : shop) : sql (result answer_body * shop) := λ φ t d,
  match AuthGuard auth date (is_public r) authorization φ t d with
  | (Ok user, t', d') => (Ok (route date user r st), t', d')
  | (Err e, t', d') => (Ok (Err e, st), t', d')
  end.

(** ** The WebSocket gateway (orders.gateway.ts) *)

Definition roomForOrder (orderId : string) : string := "orders:" +:+ orderId.

Inductive JoinResult := JoinOk (room : string) | JoinNotFound | JoinForbidden.

Record socket := Socket { sk_user : option AuthUser; sk_rooms : list string }.

Definition join (st : shop) (client : socket) (orderId : string) : JoinResult * socket :=
  match order_getById st orderId with
  | Err _ => (JoinNotFound, client)
  | Ok order =>
      match sk_user client with
      | None => (JoinForbidden, client)
      | Some user =>
          if negb (String.eqb (au_id user) (or_buyer_id order)) && negb (bool_decide (au_role user = admin))
          then (JoinForbidden, client)
          else let room := roomForOrder orderId in (JoinOk room, Socket (sk_user client) (room :: sk_rooms client))
      end
  end.

(** The subscription of [onModuleInit]: who gets an event. *)
Definition recipients (sockets : gmap nat socket) (event : OrderStatusEvent) : list nat :=
  fst <$> filter (λ c : nat * socket, roomForOrder (oe_orderId event) ∈ sk_rooms c.2) (map_to_list sockets).

Example bearer_examples :
  bearer_token "Bearer abc.def" = Some "abc.def" ∧ bearer_token "bEARER x" = Some "x" ∧
  bearer_token "Bearer  x" = None ∧ bearer_token "Bearer " = None ∧ bearer_token "Basic abc" = None.
Proof. vm_compute. done. Qed.

(** ** The state over any requests *)

Definition shop_step (st st' : shop) : Prop :=
  ∃ now user r, (route now user r st).2 = st'.

Definition of_order (id : string) (es : list OrderStatusEvent) : list OrderStatusEvent :=
  filter (λ e, oe_orderId e = id) es.

Record shop_inv (st : shop) : Prop := {
  si_ids : ∀ o, o ∈ ORDERS st → ∃ n, 0 < n < order_nextId st ∧ or_id o = "o" +:+ pretty n;
  si_nodup : NoDup (or_id <$> ORDERS st);
  si_next : 0 < order_nextId st;
  si_counter : ∀ id, default 0 (counters st !! id) = Z.of_nat (length (of_order id (bus st)));
  si_numbers : ∀ id, oe_id <$> of_order id (bus st) = seqZ 1 (Z.of_nat (length (of_order id (bus st))));
  si_buffer : ∀ id, default [] (buffers st !! id) =
    drop (length (of_order id (bus st)) - BUFFER_SIZE) (of_order id (bus st));
  si_known : ∀ e, e ∈ bus st → oe_orderId e ∈ or_id <$> ORDERS st;
  si_status : ∀ o, o ∈ ORDERS st →
    or_status o = match last (of_order (or_id o) (bus st)) with Some e => oe_status e | None => st_new end;
}.

Lemma shop0_inv : shop_inv shop0.
Proof.
  split; try done.
  - intros o Ho. repeat (apply elem_of_cons in Ho as [->|Ho]); [exists 1|exists 2|by apply elem_of_nil in Ho];
      (split; [cbn; lia|reflexivity]).
  - apply (bool_decide_unpack (NoDup _)). vm_compute. done.
  - intros e He. by apply elem_of_nil in He.
  - intros o Ho. repeat (apply elem_of_cons in Ho as [->|Ho]); try done. by apply elem_of_nil in Ho.
Qed.

Lemma of_order_snoc id es e :
  of_order id (es ++ [e]) = if decide (oe_orderId e = id) then of_order id es ++ [e] else of_order id es.
Proof.
  unfold of_order. rewrite filter_app. case_decide.
  - by rewrite filter_cons_True.
  - rewrite filter_cons_False by done. by rewrite filter_nil, app_nil_r.
Qed.

(** Pushing an event and shifting keeps the last [BUFFER_SIZE]. *)
Lemma buffer_push {A} (evs : list A) e k :
  let b := drop (length evs - k) evs ++ [e] in
  (1 ≤ k)%nat →
  (if (k <? length b)%nat then drop 1 b else b) = drop (length (evs ++ [e]) - k) (evs ++ [e]).
Proof.
  cbv zeta. intros Hk. rewrite !length_app, length_drop. cbn [length].
  destruct (Nat.ltb_spec k (length evs - (length evs - k) + 1)) as [Hlt|Hge].
  - rewrite <- (drop_app_le evs [e]) by lia. rewrite drop_drop. f_equal. lia.
  - replace (length evs - k)%nat with 0%nat by lia.
    replace (length evs + 1 - k)%nat with 0%nat by lia. done.
Qed.

Lemma find_order st id i o :
  list_find (λ o, or_id o = id) (ORDERS st) = Some (i, o) → ORDERS st !! i = Some o ∧ or_id o = id.
Proof. intros Hf. apply list_find_Some in Hf as (? & ? & _). done. Qed.

Lemma alter_status_ids i status (l : list Order) : or_id <$> alter (set_status status) i l = or_id <$> l.
Proof.
  apply list_eq. intros j. rewrite !list_lookup_fmap, list_lookup_alter.
  case_decide; [subst|done]. by destruct (l !! j).
Qed.

Lemma alter_status_elem i status (l : list Order) o' :
  o' ∈ alter (set_status status) i l → ∃ o, o ∈ l ∧ or_id o' = or_id o ∧ or_buyer_id o' = or_buyer_id o ∧
    ((∃ j, j ≠ i ∧ l !! j = Some o ∧ o' = o) ∨ l !! i = Some o ∧ o' = set_status status o).
Proof.
  intros [j Hj]%list_elem_of_lookup. rewrite list_lookup_alter in Hj. case_decide; [subst|].
  - destruct (l !! j) as [o|] eqn:Ho; [|done]. injection Hj as <-. exists o.
    split; [by eapply list_elem_of_lookup_2|]. auto.
  - exists o'. split; [by eapply list_elem_of_lookup_2|]. eauto 10.
Qed.

(** An order that is not at the altered place keeps its id apart from the one
    that is. *)
Lemma updateStatus_inv now st id status : shop_inv st → shop_inv (updateStatus now st id status).2.
Proof.
  intros Hinv. unfold updateStatus. destruct (list_find _ _) as [[i order]|] eqn:Hf; [|done].
  apply find_order in Hf as [Hi Hid]. unfold emitStatusChange.
  set (e := OrderStatusEventOf _ _ _ _). destruct Hinv as [H1 H2 H3 H4 H5 H6 H7 H8].
  assert (He : oe_orderId e = id) by done.
  split; cbn [snd PRODUCTS product_nextId ORDERS order_nextId buffers counters bus] in *.
  - intros o' Ho'. apply alter_status_elem in Ho' as (o & Ho & -> & _). by apply H1.
  - by rewrite alter_status_ids.
  - done.
  - intros id'. rewrite of_order_snoc, He. rewrite Hid, lookup_insert. repeat case_decide; try done; subst.
    rewrite H4, length_app. cbn. lia.
  - intros id'. rewrite of_order_snoc, He. case_decide; [subst id'|done].
    rewrite length_app. cbn [length]. rewrite Nat.add_1_r, seqZ_S, fmap_app, H5. do 2 f_equal.
    cbn. f_equal. rewrite Hid, H4. lia.
  - intros id'. rewrite of_order_snoc, He, Hid, lookup_insert. repeat case_decide; try done; subst.
    cbn [default from_option]. unfold id. rewrite H6. apply buffer_push. unfold BUFFER_SIZE. lia.
  - intros x Hx. rewrite alter_status_ids. apply elem_of_app in Hx as [Hx| ->%list_elem_of_singleton]; [by apply H7|].
    rewrite He, <- Hid. apply list_elem_of_fmap_2. by eapply list_elem_of_lookup_2.
  - intros o' Ho'. apply alter_status_elem in Ho' as (o & Ho & Hoid & _ & Hcase). rewrite of_order_snoc, He.
    case_decide as Heq.
    + rewrite last_snoc. cbn. destruct Hcase as [(j & Hj & Hoj & ->)|[_ ->]]; [|done].
      exfalso. apply Hj. rewrite NoDup_alt in H2. apply (H2 j i id); rewrite list_lookup_fmap.
      * rewrite Hoj. cbn. by rewrite Heq.
      * by rewrite Hi, <- Hid.
    + destruct Hcase as [(j & _ & _ & ->)|[Ho2 ->]]; [by apply H8|]. by simplify_eq.
Qed.

Lemma pretty_o_inj (a b : Z) : "o" +:+ pretty a = "o" +:+ pretty b → a = b.
Proof. intros Hab. by apply (inj (String.append "o")) in Hab; apply (inj pretty) in Hab. Qed.

Lemma order_create_inv now st items buyer : shop_inv st → shop_inv (order_create now st items buyer).2.
Proof.
  intros [H1 H2 H3 H4 H5 H6 H7 H8]. unfold order_create. cbv zeta.
  set (o := OrderOf _ _ _ _ _ _).
  assert (Hfresh : or_id o ∉ or_id <$> ORDERS st).
  { intros (o' & Ho' & Hin)%list_elem_of_fmap. destruct (H1 o' Hin) as (n & Hn & Hid).
    cbn in Ho'. rewrite Hid in Ho'. apply pretty_o_inj in Ho'. lia. }
  split; cbn [snd PRODUCTS product_nextId ORDERS order_nextId buffers counters bus] in *; try done.
  - intros o' [Ho'| ->%list_elem_of_singleton]%elem_of_app.
    + destruct (H1 o' Ho') as (n & Hn & Hid). exists n. split; [lia|done].
    + exists (order_nextId st). split; [lia|done].
  - rewrite fmap_app. apply NoDup_app. split_and!; [done| |apply NoDup_singleton].
    intros x Hx Hx2. apply list_elem_of_singleton in Hx2. subst x. done.
  - lia.
  - intros e He. rewrite fmap_app. apply elem_of_app. left. by apply H7.
  - intros o' [Ho'| ->%list_elem_of_singleton]%elem_of_app; [by apply H8|].
    assert (of_order (or_id o) (bus st) = []) as ->; [|done].
    apply filter_none. intros e He Heq. apply Hfresh. rewrite <- Heq. by apply H7.
Qed.

Lemma route_cases now user r st :
  (route now user r st).2 = st ∨
  (∃ items u, r = PostOrder items ∧ user = Some u ∧ (route now user r st).2 = (order_create now st items (au_id u)).2) ∨
  (∃ id status u, r = PatchStatus id status ∧ user = Some u ∧ au_role u ∈ [seller; admin] ∧
     (route now user r st).2 = (updateStatus now st id status).2) ∨
  (∃ name price u, r = PostProduct name price ∧ user = Some u ∧ au_role u ∈ [seller; admin] ∧
     (route now user r st).2 = (product_create st name price).2).
Proof.
  unfold route, RolesGuard. destruct r; cbn [roles_of]; destruct user as [u|]; try (by left);
    try case_bool_decide; try (by left); cbn.
  - right; left. eauto 10.
  - right; right; left. unfold patch_status. destruct (updateStatus _ _ _ _) eqn:Hu. exists id, status, u. by rewrite Hu.
  - do 3 right. eauto 10.
Qed.

Lemma shop_step_inv st st' : shop_step st st' → shop_inv st → shop_inv st'.
Proof.
  intros (now & user & r & <-) Hinv.
  destruct (route_cases now user r st) as [->|[(items & u & _ & _ & ->)|[(id & status & u & _ & _ & _ & ->)|(name & price & u & _ & _ & _ & ->)]]].
  - done.
  - by apply order_create_inv.
  - by apply updateStatus_inv.
  - by destruct Hinv.
Qed.

Lemma steps_inv st st' : rtc shop_step st st' → shop_inv st → shop_inv st'.
Proof. induction 1 as [|st1 st2 st3 Hs _ IH]; [done|]. intros Hi. eapply IH, shop_step_inv; eauto. Qed.
Lemma reachable_inv st : rtc shop_step shop0 st → shop_inv st.
Proof. intros Hr. eapply steps_inv; [done|apply shop0_inv]. Qed.

(** The bus only grows. *)
Lemma bus_grows st st' : rtc shop_step st st' → bus st `prefix_of` bus st'.
Proof.
  induction 1 as [|st1 st2 st3 Hs _ IH]; [done|]. etrans; [|exact IH].
  destruct Hs as (now & user & r & <-).
  destruct (route_cases now user r st1) as [->|[(items & u & _ & _ & ->)|[(id & status & u & _ & _ & _ & ->)|(name & price & u & _ & _ & _ & ->)]]];
    try done.
  unfold updateStatus. destruct (list_find _ _) as [[i o]|]; [|done]. by eexists.
Qed.

(** ** The SSE stream *)

(** What the live subscription of a connection writes from then on. *)
Definition sse_live (id : string) (st st' : shop) : list OrderStatusEvent :=
  of_order id (drop (length (bus st)) (bus st')).

(** Numbered from 1 without gaps, the events after [n] are the list without
    its first [n]. *)
Lemma numbered_after {A} (f : A → Z) (l : list A) a (n : nat) :
  f <$> l = seqZ a (Z.of_nat (length l)) →
  filter (λ e, a - 1 + Z.of_nat n < f e) l = drop n l.
Proof.
  revert a n. induction l as [|e l IH]; intros a n Hl; [by rewrite drop_nil|].
  cbn [length] in Hl. rewrite fmap_cons, seqZ_cons in Hl by lia. injection Hl as He Hl.
  replace (Z.pred (Z.of_nat (S (length l)))) with (Z.of_nat (length l)) in Hl by lia.
  destruct n as [|n].
  - apply filter_all. intros x Hx. apply elem_of_cons in Hx as [->|Hx]; [lia|].
    apply (list_elem_of_fmap_2 f) in Hx. rewrite Hl in Hx. apply elem_of_seqZ in Hx. lia.
  - rewrite filter_cons_False by lia. cbn [drop]. rewrite <- (IH (Z.succ a) n) by done.
    apply list_filter_iff. intros x. lia.
Qed.

Lemma numbered_drop {A} (f : A → Z) (l : list A) k :
  f <$> l = seqZ 1 (Z.of_nat (length l)) →
  f <$> drop k l = seqZ (1 + Z.of_nat (Nat.min k (length l))) (Z.of_nat (length (drop k l))).
Proof.
  intros Hl. rewrite fmap_drop, Hl, length_drop. apply list_eq. intros i. rewrite lookup_drop.
  destruct (decide (k + i < length l)%nat) as [Hlt|Hge].
  - rewrite !lookup_seqZ_lt by lia. f_equal. lia.
  - rewrite !lookup_seqZ_ge by lia. done.
Qed.

Lemma missedSince_run st id h n :
  shop_inv st → num_to_Z h = Some (Z.of_nat n) →
  missedSince st id h = drop (Nat.max n (length (of_order id (bus st)) - BUFFER_SIZE)) (of_order id (bus st)).
Proof.
  intros Hinv Hh. unfold missedSince. rewrite (si_buffer _ Hinv). pose proof (si_numbers _ Hinv id) as Hnum.
  set (evs := of_order id (bus st)) in *. set (k := (length evs - BUFFER_SIZE)%nat).
  pose proof (numbered_drop oe_id evs k Hnum) as Hd.
  transitivity (filter (λ e, (1 + Z.of_nat (Nat.min k (length evs))) - 1 + Z.of_nat (n - k) < oe_id e) (drop k evs)).
  - destruct (decide (n < k)%nat) as [Hlt|Hge].
    + rewrite !filter_all; [done|..]; intros e He; apply (list_elem_of_fmap_2 oe_id) in He; rewrite Hd in He;
        apply elem_of_seqZ in He; [lia|]. rewrite (Z_gt_num_int _ _ _ Hh). apply Z.ltb_lt. lia.
    + apply list_filter_iff. intros e. rewrite (Z_gt_num_int _ _ _ Hh), Z.ltb_lt. lia.
  - rewrite (numbered_after oe_id _ _ _ Hd), drop_drop. f_equal. lia.
Qed.

(** C32: a client that reconnects to the SSE stream with the number [n] of the
    last event it saw receives the events of the order after [n] that are among
    the last [BUFFER_SIZE] = 100 emitted before it reconnected, and then every
    event emitted afterwards, each once and in order: the replay joined with
    the live stream is one stretch of the order's history up to its end.  If at
    most 100 events were missed the stretch starts right after [n] and nothing
    is lost; of more than 100 only the last 100 are replayed and the older ones
    are lost, as the README says.  Events are numbered 1, 2, 3, ... per order. *)
Theorem sse_resume st st' id user header n replay :
  rtc shop_step shop0 st → rtc shop_step st st' →
  num_to_Z (StringToNumber header) = Some (Z.of_nat n) → (n ≤ length (of_order id (bus st)))%nat →
  events st id user (Some header) = Ok replay →
  oe_id <$> of_order id (bus st') = seqZ 1 (Z.of_nat (length (of_order id (bus st')))) ∧
  replay ++ sse_live id st st' =
    drop (Nat.max n (length (of_order id (bus st)) - BUFFER_SIZE)) (of_order id (bus st')).
Proof.
  intros Hst Hst' Hh Hn Hrun. pose proof (reachable_inv st Hst) as Hinv.
  split; [apply (si_numbers _ (steps_inv _ _ Hst' Hinv))|].
  unfold events in Hrun. destruct (getOwned st id user); [|done]. cbn in Hrun. injection Hrun as <-.
  rewrite (missedSince_run st id _ n Hinv Hh). destruct (bus_grows _ _ Hst') as [ext Hext].
  unfold sse_live. rewrite Hext, drop_app_length. unfold of_order. rewrite filter_app.
  fold (of_order id (bus st)). fold (of_order id ext). rewrite drop_app_le; [done|]. lia.
Qed.

Definition u1 : AuthUser := AuthUserOf "u1" customer "jti" (num_of_Z 905) "fid".
Definition the_seller : AuthUser := AuthUserOf "s1" seller "jti" (num_of_Z 905) "fid".

Definition shop1 : shop := (route 1000 (Some the_seller) (PatchStatus "o1" st_packed) shop0).2.
Definition shop2 : shop := (route 2000 (Some the_seller) (PatchStatus "o1" st_shipped) shop1).2.
Definition shop3 : shop := (route 3000 (Some the_seller) (PatchStatus "o1" st_delivered) shop2).2.

Lemma shop2_reachable : rtc shop_step shop0 shop2.
Proof.
  eapply rtc_l; [|apply rtc_once].
  - by exists 1000, (Some the_seller), (PatchStatus "o1" st_packed).
  - by exists 2000, (Some the_seller), (PatchStatus "o1" st_shipped).
Qed.
Lemma shop3_follows : rtc shop_step shop2 shop3.
Proof. apply rtc_once. by exists 3000, (Some the_seller), (PatchStatus "o1" st_delivered). Qed.

Lemma sse_resume_witness : ∃ replay,
  events shop2 "o1" u1 (Some "1") = Ok replay ∧
  replay ++ sse_live "o1" shop2 shop3 = drop 1 (of_order "o1" (bus shop3)) ∧
  length (of_order "o1" (bus shop3)) = 3%nat.
Proof.
  eexists. split; [vm_compute; reflexivity|].
  split; [|vm_compute; reflexivity].
  eapply (sse_resume shop2 shop3 "o1" u1 "1" 1).
  - exact shop2_reachable.
  - exact shop3_follows.
  - vm_compute. reflexivity.
  - vm_compute. lia.
  - vm_compute. reflexivity.
Defined.

(** ** Who may do what *)

Definition orders_in (b : answer_body) : list Order :=
  match b with OrderPage p => items p | OneOrder o | Created o _ => [o] | _ => [] end.
Definition events_in (b : answer_body) : list OrderStatusEvent :=
  match b with Stream es => es | _ => [] end.

Lemma js_slice_elem {A} (l : list A) a b x : x ∈ js_slice l a b → x ∈ l.
Proof. unfold js_slice. cbv zeta. intros Hx. apply elem_of_take in Hx as (i & Hi & _).
  rewrite lookup_drop in Hi. by eapply list_elem_of_lookup_2.
Qed.

Lemma paginate_elem {A} (all : list A) limit c p x : paginate all limit c = Ok p → x ∈ items p → x ∈ all.
Proof.
  unfold paginate. destruct (match c with Some _ => _ | None => _ end : result Z) as [o|]; [|done]. cbn.
  intros [= <-]. apply js_slice_elem.
Qed.

Lemma getOwned_ok st id user o : getOwned st id user = Ok o →
  o ∈ ORDERS st ∧ or_id o = id ∧ (or_buyer_id o = au_id user ∨ au_role user = admin).
Proof.
  unfold getOwned, order_getById. destruct (list_find _ _) as [[i o']|] eqn:Hf; [|done]. cbn.
  apply find_order in Hf as [Hi Hid]. destruct (String.eqb_spec (or_buyer_id o') (au_id user));
    [|case_bool_decide]; cbn; intros [= <-]; (split; [by eapply list_elem_of_lookup_2|auto]).
Qed.

Lemma customer_not_staff : customer ∉ [seller; admin].
Proof. intros Hin. repeat (apply elem_of_cons in Hin as [?|Hin]; [done|]). by apply elem_of_nil in Hin. Qed.

(** What a customer's request can see and change. *)
Lemma customer_route now user r st body st' :
  shop_inv st → au_role user = customer → route now (Some user) r st = (Ok body, st') →
  (∀ o, o ∈ orders_in body → or_buyer_id o = au_id user) ∧
  (∀ e, e ∈ events_in body → ∃ o, o ∈ ORDERS st ∧ or_id o = oe_orderId e ∧ or_buyer_id o = au_id user) ∧
  (st' = st ∨ ∃ o, or_buyer_id o = au_id user ∧ ORDERS st' = ORDERS st ++ [o] ∧ bus st' = bus st ∧ PRODUCTS st' = PRODUCTS st).
Proof.
  intros Hinv Hrole. unfold route, RolesGuard.
  destruct r as [limit c|id|items|id status|id h|limit c|id|name price]; cbn [roles_of];
    unfold get_orders, get_order, post_order, patch_status, get_products, get_product, post_product, rmap, rbind.
  - unfold listFor. rewrite bool_decide_eq_false_2 by congruence.
    destruct (paginate _ _ _) as [p|] eqn:Hp; [|done]. intros [= <- <-]. split_and!; [|by intros ? ?%elem_of_nil|by left].
    cbn. intros o Ho. eapply paginate_elem in Hp; [|done]. by apply list_elem_of_filter in Hp as [? _].
  - destruct (getOwned st id user) as [o|] eqn:Ho; [|done]. intros [= <- <-].
    apply getOwned_ok in Ho as (_ & _ & Ho). split_and!; [|by intros ? ?%elem_of_nil|by left].
    intros x ->%list_elem_of_singleton. destruct Ho; [done|congruence].
  - cbn. intros [= <- <-]. split_and!; [by intros x ->%list_elem_of_singleton|by intros ? ?%elem_of_nil|right].
    eexists. split_and!; [|reflexivity..]. reflexivity.
  - rewrite bool_decide_eq_false_2; [done|]. rewrite Hrole. apply customer_not_staff.
  - unfold events. destruct (getOwned st id user) as [o|] eqn:Ho; [|done]. cbn. intros [= <- <-].
    apply getOwned_ok in Ho as (Hin & Hid & Ho). split_and!; [by intros ? ?%elem_of_nil| |by left].
    intros e [_ He]%list_elem_of_filter. rewrite (si_buffer _ Hinv) in He.
    apply list_elem_of_lookup in He as [i He]. rewrite lookup_drop in He. apply list_elem_of_lookup_2 in He.
    apply list_elem_of_filter in He as [<- _]. exists o. split_and!; [done|done|]. destruct Ho; [done|congruence].
  - destruct (product_list _ _ _); [|done]. intros [= <- <-]. split_and!; [by intros ? ?%elem_of_nil..|by left].
  - destruct (product_getById _ _); [|done]. intros [= <- <-]. split_and!; [by intros ? ?%elem_of_nil..|by left].
  - rewrite bool_decide_eq_false_2; [done|]. rewrite Hrole. apply customer_not_staff.
Qed.

Lemma route_err now user r st e st' : route now user r st = (Err e, st') → st' = st.
Proof.
  unfold route. destruct (RolesGuard _ _); [|by intros [= _ <-]].
  destruct r, user; try (by intros [= _ <-]); try done.
  unfold patch_status, updateStatus. destruct (list_find _ _) as [[i o]|]; [done|by intros [= _ <-]].
Qed.

Lemma route_public now user r st : is_public r = true → (route now user r st).2 = st.
Proof. by destruct r. Qed.

Lemma route_roles now user r st body st' roles :
  route now (Some user) r st = (Ok body, st') → roles_of r = Some roles → au_role user ∈ roles.
Proof. unfold route, RolesGuard. intros Hr Hroles. rewrite Hroles in Hr. by case_bool_decide. Qed.

(** C33: access control of the HTTP layer.  A refused request changes nothing.
    An answered request on a closed route carried a bearer token that
    authenticates, and if the route names roles, as one of them.  A customer
    only ever sees their own orders and their events, and changes nothing but
    by adding an order of their own. *)
Theorem serve_guarded `{PgText, JwtLib} auth date authorization r st φ t d x st' t' d' :
  shop_inv st → serve auth date authorization r st φ t d = (Ok (x, st'), t', d') →
  match x with
  | Err _ => st' = st
  | Ok body =>
      if is_public r then st' = st else
      ∃ token user, bearer_token (default "" authorization) = Some token ∧
        authenticate auth date token φ t d = (Ok user, t', d') ∧
        (∀ roles, roles_of r = Some roles → au_role user ∈ roles) ∧
        (au_role user = customer →
           (∀ o, o ∈ orders_in body → or_buyer_id o = au_id user) ∧
           (∀ e, e ∈ events_in body → ∃ o, o ∈ ORDERS st ∧ or_id o = oe_orderId e ∧ or_buyer_id o = au_id user) ∧
           (st' = st ∨ ∃ o, or_buyer_id o = au_id user ∧ ORDERS st' = ORDERS st ++ [o] ∧
              bus st' = bus st ∧ PRODUCTS st' = PRODUCTS st))
  end.
Proof.
  intros Hinv. unfold serve. destruct (AuthGuard auth date (is_public r) authorization φ t d) as [[[user|e] t1] d1] eqn:Hg;
    [intros [= Hr <- <-]|by intros [= <- <- _ _]].
  destruct x as [body|e]; [|by eapply route_err].
  destruct (is_public r) eqn:Hpub.
  { pose proof (route_public date user r st Hpub) as Hst. by rewrite Hr in Hst. }
  unfold AuthGuard in Hg. destruct (bearer_token _) as [token|] eqn:Hb; [|done].
  apply bind_ok_inv in Hg as (u & t2 & d2 & Ha & Hg). apply ret_ok_inv in Hg as (-> & -> & ->).
  exists token, u. split_and!; [done|done| |].
  - intros roles Hroles. by eapply route_roles.
  - intros Hrole. by eapply customer_route.
Qed.

#[local] Existing Instance fix_text.
#[local] Existing Instance fix_jwt.

(** A customer's order through both guards, with a token of a fresh session. *)
Definition ada_header : option string := Some ("Bearer " +:+ bearer).
Definition ada_request : request := PostOrder [OrderItemOf "p2" (num_of_Z 2)].

Lemma serve_guarded_witness : ∃ body st',
  (serve fix_auth 6000 ada_header ada_request shop0 no_fault 0%nat session_db).1.1 = Ok (Ok body, st') ∧
  (∀ o, o ∈ orders_in body → or_buyer_id o = "1") ∧ length (orders_in body) = 1%nat.
Proof.
  destruct (serve fix_auth 6000 ada_header ada_request shop0 no_fault 0%nat session_db) as [[[[x st']|e] t'] d'] eqn:Hs.
  2: { assert (Hok : match (serve fix_auth 6000 ada_header ada_request shop0 no_fault 0%nat session_db).1.1 with
         Ok _ => true | _ => false end = true) by (vm_compute; reflexivity). by rewrite Hs in Hok. }
  assert (Hok : match (serve fix_auth 6000 ada_header ada_request shop0 no_fault 0%nat session_db).1.1 with
         Ok (Ok body, _) => length (orders_in body) | _ => O end = 1%nat) by (vm_compute; reflexivity).
  assert (Hu : match (authenticate fix_auth 6000 bearer no_fault 0%nat session_db).1.1 with
         Ok u => Some (au_id u, au_role u) | _ => None end = Some ("1", customer)) by (vm_compute; reflexivity).
  assert (Hb : bearer_token (default "" ada_header) = Some bearer) by (vm_compute; reflexivity).
  pose proof (serve_guarded fix_auth 6000 ada_header ada_request shop0 no_fault 0%nat session_db x st' t' d' shop0_inv Hs) as Hg.
  rewrite Hs in Hok. destruct x as [body|]; [|done]. exists body, st'.
  destruct Hg as (token & user & Hb' & Ha & _ & Hc). rewrite Hb in Hb'. injection Hb' as <-.
  rewrite Ha in Hu. injection Hu as Hid Hrole. destruct (Hc Hrole) as [Ho _]. rewrite Hid in Ho.
  split; [reflexivity|]. split; [exact Ho|exact Hok].
Defined.

(** ** The rooms *)

(** The gateway next to the HTTP layer: sockets connect with the user their
    token gave, join, and the shop serves requests. *)
Inductive ws_step : shop * gmap nat socket → shop * gmap nat socket → Prop :=
| ws_connect st socks i user : socks !! i = None →
    ws_step (st, socks) (st, <[i := Socket user []]> socks)
| ws_join st socks i c orderId : socks !! i = Some c →
    ws_step (st, socks) (st, <[i := (join st c orderId).2]> socks)
| ws_request st st' socks : shop_step st st' → ws_step (st, socks) (st', socks)
| ws_disconnect st socks i : ws_step (st, socks) (st, delete i socks).

(** May the user of a socket follow an order? *)
Definition may_follow (user : option AuthUser) (st : shop) (id : string) : Prop :=
  ∃ u o, user = Some u ∧ o ∈ ORDERS st ∧ or_id o = id ∧ (or_buyer_id o = au_id u ∨ au_role u = admin).

Definition rooms_inv (s : shop * gmap nat socket) : Prop :=
  shop_inv s.1 ∧
  map_Forall (λ _ c, ∀ room, room ∈ sk_rooms c → ∃ id, room = roomForOrder id ∧ may_follow (sk_user c) s.1 id) s.2.

(** Orders stay, with their owner. *)
Lemma shop_step_orders st st' o : shop_step st st' → o ∈ ORDERS st →
  ∃ o', o' ∈ ORDERS st' ∧ or_id o' = or_id o ∧ or_buyer_id o' = or_buyer_id o.
Proof.
  intros (now & user & r & <-) Ho.
  destruct (route_cases now user r st) as [->|[(items & u & _ & _ & ->)|[(id & status & u & _ & _ & _ & ->)|(name & price & u & _ & _ & _ & ->)]]].
  - eauto.
  - exists o. split; [|done]. apply elem_of_app. by left.
  - unfold updateStatus. destruct (list_find _ _) as [[i o2]|]; [|eauto]. cbn.
    apply list_elem_of_lookup in Ho as [j Hj].
    destruct (decide (i = j)) as [->|Hne].
    + exists (set_status status o). split; [|done]. apply (list_elem_of_lookup_2 _ j).
      rewrite list_lookup_alter_eq. by rewrite Hj.
    + exists o. split; [|done]. apply (list_elem_of_lookup_2 _ j). by rewrite list_lookup_alter_ne.
  - eauto.
Qed.

Lemma may_follow_step user st st' id : shop_step st st' → may_follow user st id → may_follow user st' id.
Proof.
  intros Hs (u & o & -> & Ho & Hid & Hown). destruct (shop_step_orders st st' o Hs Ho) as (o' & Ho' & Hid' & Hb).
  exists u, o'. rewrite Hid', Hb. done.
Qed.

Lemma join_rooms st c orderId :
  (∀ room, room ∈ sk_rooms c → ∃ id, room = roomForOrder id ∧ may_follow (sk_user c) st id) →
  ∀ room, room ∈ sk_rooms (join st c orderId).2 → ∃ id, room = roomForOrder id ∧ may_follow (sk_user (join st c orderId).2) st id.
Proof.
  intros Hc. unfold join. destruct (order_getById st orderId) as [o|] eqn:Ho; [|done].
  destruct (sk_user c) as [u|] eqn:Hu; [|cbn; by rewrite Hu].
  destruct (negb _ && negb _) eqn:Hneg; [by cbn; rewrite Hu|]. cbn. intros room [->|Hr]%elem_of_cons; [|by apply Hc].
  exists orderId. split; [done|]. exists u, o. unfold order_getById in Ho.
  destruct (list_find _ _) as [[i o']|] eqn:Hf; [|done]. injection Ho as ->. apply find_order in Hf as [Hi Hid].
  split_and!; [done|by eapply list_elem_of_lookup_2|done|].
  apply andb_false_iff in Hneg as [Hneg|Hneg]; apply negb_false_iff in Hneg.
  - left. symmetry. by apply String.eqb_eq.
  - right. by apply bool_decide_eq_true in Hneg.
Qed.

Lemma ws_step_inv s s' : ws_step s s' → rooms_inv s → rooms_inv s'.
Proof.
  intros Hs [Hinv Hrooms]. destruct Hs as [st socks i user Hi|st socks i c id Hi|st st' socks Hs|st socks i];
    (split; [cbn in *; try done|]); cbn in *.
  - apply map_Forall_insert_2; [|done]. cbn. by intros room ?%elem_of_nil.
  - apply map_Forall_insert_2; [|done]. apply join_rooms. by eapply Hrooms.
  - by eapply shop_step_inv.
  - eapply map_Forall_impl; [exact Hrooms|]. intros j c Hc room Hr. destruct (Hc room Hr) as (id & Hid & Hm).
    exists id. split; [done|]. by eapply may_follow_step.
  - by apply map_Forall_delete.
Qed.

Lemma room_inj a b : roomForOrder a = roomForOrder b → a = b.
Proof. intros Hab. by apply (inj (String.append "orders:")) in Hab. Qed.

(** Realtime confidentiality.  Over any interleaving of connections, joins
    and requests, a status event is delivered only to sockets whose user, taken
    from a verified token, owns the order or is an administrator; a socket
    without a user receives nothing. *)
Theorem ws_confidential s i c e :
  rtc ws_step (shop0, ∅) s → s.2 !! i = Some c → i ∈ recipients s.2 e →
  may_follow (sk_user c) s.1 (oe_orderId e).
Proof.
  intros Hr Hc Hi.
  assert (Hinv : rooms_inv s).
  { assert (H0 : rooms_inv (shop0, ∅)) by (split; [apply shop0_inv|apply map_Forall_empty]).
    clear Hc Hi. induction Hr as [|s1 s2 s3 Hs _ IH]; [done|]. by eapply IH, ws_step_inv. }
  destruct Hinv as [_ Hrooms]. unfold recipients in Hi.
  apply list_elem_of_fmap in Hi as ([j c'] & -> & [Hroom Hin]%list_elem_of_filter). cbn in *.
  apply elem_of_map_to_list in Hin. simplify_eq.
  destruct (Hrooms j c Hc _ Hroom) as (id & Hid & Hm). by apply room_inj in Hid as <-.
Qed.

Lemma ws_confidential_witness :
  let socks := <[1%nat := (join shop0 (Socket (Some u1) []) "o1").2]> (<[1%nat := Socket (Some u1) []]> ∅) in
  recipients socks (OrderStatusEventOf 1 "o1" st_packed "") = [1%nat] ∧ may_follow (Some u1) shop0 "o1".
Proof.
  cbv zeta. split; [vm_compute; reflexivity|].
  apply (ws_confidential (shop0, <[1%nat := (join shop0 (Socket (Some u1) []) "o1").2]> (<[1%nat := Socket (Some u1) []]> ∅))
    1 (join shop0 (Socket (Some u1) []) "o1").2 (OrderStatusEventOf 1 "o1" st_packed "")).
  - eapply rtc_l; [by apply (ws_connect _ _ 1%nat (Some u1))|]. apply rtc_once. by apply ws_join.
  - reflexivity.
  - vm_compute. left.
Defined.
