(* ===== verification/OrdersApi.v ===== *)
(** The HTTP edge of the checkout (src/outbox/orders-api.ts): POST /orders with
    an Idempotency-Key. *)
From stdpp Require Import pretty.
From S2P Require Import Prelude JsNumber JsText Events Schema Sql Async Fixtures Limits Storage StorageSim Files Http Checkout.
#[local] Open Scope Z_scope.

(** ** Answers *)

(** [{ 'content-type': 'application/json', ...headers }]: a later
    content-type takes the place of the default. *)
Definition send (status : Z) (body : json) (headers : list (string * string)) : http_response :=
  HttpResponse status
    (match list_find (λ h, h.1 = "content-type") headers with
     | Some _ => headers
     | None => ("content-type", "application/json") :: headers
     end) body.

Definition problem (req : http_request) (status : Z) (code detail : string) : http_response :=
  send status
    (JObj [("type", JStr (PROBLEM_BASE +:+ "/" +:+ code)); ("title", JStr (title_of status));
           ("status", JNum (num_of_Z status)); ("detail", JStr detail); ("instance", JStr (hr_url req))])
    [("content-type", "application/problem+json")].

Definition MAX_KEY_LENGTH : Z := 255.

(** [BodySchema.parse]: [None] is a thrown error, as for an unreadable body. *)
Definition BodySchema_parse (body : option json) : option (string * string * Z) :=
  j ← body;
  buyer_id ← jstr j "buyer_id"; guard (nonempty buyer_id = true);;
  product_id ← jstr j "product_id"; guard (nonempty product_id = true);;
  x ← jnum j "quantity"; quantity ← num_to_Z x; guard (0 < quantity);;
  Some (buyer_id, product_id, quantity).

Definition reason_text (r : CheckoutFailureReason) : string :=
  match r with out_of_stock => "out_of_stock" | insufficient_funds => "insufficient_funds" end.
Definition reason_detail (r : CheckoutFailureReason) : string :=
  match r with out_of_stock => "Товару не вистачає" | insufficient_funds => "Недостатньо коштів" end.

(** The usable Idempotency-Key of a request. *)
Definition usable_key (req : http_request) : option string :=
  key ← hr_key req;
  if bool_decide (js_trim (bytes_of key) = []) || (MAX_KEY_LENGTH <? js_length key) then None else Some key.

Section api.
Context `{PgText, EventLib}.

(** The answer to a checkout that returned. *)
Definition checkout_answer (req : http_request) (r : CheckoutResult) : http_response :=
  match r with
  | CheckoutFailure reason => problem req 409 (reason_text reason) (reason_detail reason)
  | CheckoutSuccess orderId totalAmount replayed =>
      send (if replayed then 200 else 201)
        (JObj [("order_id", JStr orderId); ("total_amount", JNum totalAmount)])
        (if replayed then [("idempotent-replayed", "true")] else [])
  end.

Definition handle (e : env) (req : http_request) : sql http_response :=
  if negb (String.eqb (hr_method req) "POST") || negb (String.eqb (hr_url req) "/orders") then
    mret (problem req 404 "not-found" "Невідомий маршрут") else
  match usable_key req with
  | None => mret (problem req 400 "idempotency-key-required"
      ("Потрібен заголовок Idempotency-Key (1.." +:+ pretty MAX_KEY_LENGTH +:+ " символів)"))
  | Some key =>
      match BodySchema_parse (hr_body req) with
      | None => mret (problem req 422 "invalid-body" "Тіло має бути {buyer_id, product_id, quantity>0}")
      | Some (buyer_id, product_id, quantity) =>
          r ← checkout e no_hook (Params buyer_id product_id quantity (Some key));
          mret (checkout_answer req r)
      end
  end.

(** The server: an exception of the handler becomes a 500. *)
Definition createOrdersApi (e : env) (req : http_request) : sql http_response := λ φ t d,
  match handle e req φ t d with
  | (Ok resp, t', d') => (Ok resp, t', d')
  | (Err _, t', d') => (Ok (problem req 500 "internal" "Внутрішня помилка сервера"), t', d')
  end.

(** The checkout a request asks for. *)
Definition asks_for (req : http_request) : option CheckoutParams :=
  guard (hr_method req = "POST" ∧ hr_url req = "/orders");;
  key ← usable_key req;
  x ← BodySchema_parse (hr_body req);
  Some (Params x.1.1 x.1.2 x.2 (Some key)).

Lemma handle_cases e req :
  (∃ p, asks_for req = Some p ∧ is_Some (idempotencyKey p) ∧ 0 < quantity p ∧
     ∀ φ t d, handle e req φ t d = (r ← checkout e no_hook p; mret (checkout_answer req r)) φ t d) ∨
  (asks_for req = None ∧ ∃ status code detail, status ∈ [400; 404; 422] ∧
     ∀ φ t d, handle e req φ t d = (Ok (problem req status code detail), t, d)).
Proof.
  unfold handle, asks_for. destruct (String.eqb_spec (hr_method req) "POST") as [Hm|Hm];
    destruct (String.eqb_spec (hr_url req) "/orders") as [Hu|Hu]; cbn [negb orb].
  2-4: right; split; [rewrite option_guard_False; [done|by intros [? ?]]|]; do 3 eexists; (split; [|done]); set_solver.
  rewrite option_guard_True by done. destruct (usable_key req) as [key|]; cbn.
  2: { right. split; [done|]. do 3 eexists. split; [|done]. set_solver. }
  destruct (BodySchema_parse (hr_body req)) as [[[b p] q]|] eqn:Hb; cbn.
  2: { right. split; [done|]. do 3 eexists. split; [|done]. set_solver. }
  left. eexists. split; [done|]. cbn. split_and!; [eauto| |done].
  unfold BodySchema_parse in Hb. by simplify_option_eq.
Qed.
End api.

Section api_facts.
Context `{PgText, EventLib}.

(** A body that wants to commit has read its ids and its quantity. *)
Lemma place_commit_ok e h p φ t d r t' d' :
  0 < quantity p → place e h p φ t d = (Ok (Commit r), t', d') → ∃ pid bid, request_ok p pid bid.
Proof.
  intros Hq. unfold place. intros Hrun. apply bind_ok_inv in Hrun as (a & t1 & d1 & Ha & Hrun).
  apply query_ok_inv in Ha as [Ha ->]. unfold take_stock, with_id in Ha.
  destruct (int4 (quantity p)) eqn:Hi; [|done]. cbn [negb] in Ha.
  destruct (bigint_in (productId p)) as [pid|] eqn:Hpid; [|done].
  destruct (unwrapReturning a) as [|price l]; [by apply ret_ok_inv in Hrun as [? _]|].
  apply bind_ok_inv in Hrun as (b & t2 & d2 & Hb & _).
  apply query_ok_inv in Hb as [Hb ->]. unfold charge_balance, with_id in Hb.
  destruct (numeric_param _) as [x|]; [|done].
  destruct (bigint_in (buyerId p)) as [bid|] eqn:Hbid; [|done]. by exists pid, bid.
Qed.

Lemma body_commit_ok e h p φ t d r t' d' :
  0 < quantity p → checkout_body e h p φ t d = (Ok (Commit r), t', d') → ∃ pid bid, request_ok p pid bid.
Proof.
  intros Hq. unfold checkout_body. destruct (idempotencyKey p) as [k|]; [|by apply place_commit_ok].
  intros Hrun. apply bind_ok_inv in Hrun as ([|x l] & t1 & d1 & _ & Hrun); [|by eapply place_commit_ok].
  apply bind_ok_inv in Hrun as (prev & t2 & d2 & _ & Hrun). unfold first in Hrun.
  destruct prev as [|row prev]; [done|]. apply bind_ok_inv in Hrun as (x & t3 & d3 & _ & Hrun).
  by apply ret_ok_inv in Hrun as [? _].
Qed.

(** The only early return that reports success is the replay of a known key. *)
Definition replays (p : CheckoutParams) (d : db) (r : CheckoutResult) : Prop :=
  ∃ oid o, replay_of p d = Some (oid, o) ∧ r = CheckoutSuccess (pretty oid) (num_of_cents (o_total_amount o)) true.

Lemma body_rollback_replays e h p φ t d o m b t' d' :
  checkout_body e h p φ t d = (Ok (Rollback (CheckoutSuccess o m b)), t', d') → replays p d (CheckoutSuccess o m b).
Proof.
  unfold checkout_body. intros Hrun.
  assert (Hplace : ∀ φ t d t' d', place e h p φ t d ≠ (Ok (Rollback (CheckoutSuccess o m b)), t', d')).
  { clear. intros φ t d t' d' Hrun. unfold place in Hrun. apply bind_ok_inv in Hrun as (a & t1 & d1 & _ & Hrun).
    destruct (unwrapReturning a); [by apply ret_ok_inv in Hrun as [? _]|].
    apply bind_ok_inv in Hrun as (b' & t2 & d2 & _ & Hrun).
    destruct (unwrapReturning b'); [by apply ret_ok_inv in Hrun as [? _]|].
    do 7 (apply bind_ok_inv in Hrun as (? & ? & ? & _ & Hrun)).
    destruct h; [by apply ret_ok_inv in Hrun as [? _]|done]. }
  destruct (idempotencyKey p) as [k|] eqn:Hk; [|by apply Hplace in Hrun].
  apply bind_ok_inv in Hrun as ([|x l] & t1 & d1 & Hclaim & Hrun); [|by apply Hplace in Hrun].
  apply query_ok_inv in Hclaim as [Hclaim ->]. unfold claim_key in Hclaim.
  destruct (idempotency_keys d !! k) as [v|] eqn:Hv; [|done]. injection Hclaim as <-.
  apply bind_ok_inv in Hrun as (prev & t2 & d2 & Hprev & Hrun).
  apply query_ok_inv in Hprev as [Hprev ->]. unfold previous_order in Hprev. injection Hprev as <- <-.
  rewrite Hv in Hrun. apply bind_ok_inv in Hrun as (x & t3 & d3 & Hfirst & Hrun).
  apply ret_ok_inv in Hrun as [Hr _]. injection Hr as -> -> ->.
  unfold first, throw in Hfirst. destruct v as [oid|]; [|done].
  destruct (orders d !! oid) as [o'|] eqn:Ho; [|done].
  apply ret_ok_inv in Hfirst as (-> & _ & _). exists oid, o'.
  split; [|done]. unfold replay_of. rewrite Hk. cbn. rewrite Hv. cbn. by rewrite Ho.
Qed.

(** Every way a checkout asked over HTTP ends. *)
Lemma checkout_any e p φ t d r t' d' :
  db_ok d → 0 < quantity p → outbox d !! outbox_id e = None →
  checkout e no_hook p φ t d = (r, t', d') →
  (untouched d d' ∧ ∀ o m b, r = Ok (CheckoutSuccess o m b) → replays p d (CheckoutSuccess o m b)) ∨
  (∃ pid bid pr u, request_ok p pid bid ∧ products d !! pid = Some pr ∧ users d !! bid = Some u ∧
    replay_of p d = None ∧ d' = purchase e p pid bid pr u d ∧ db_ok d' ∧
    (r = Ok (CheckoutSuccess (pretty (seq_orders d + 1))
               (num_mul (num_of_cents (p_price pr)) (num_of_Z (quantity p))) false) ∨ ∃ err, r = Err err)).
Proof.
  intros Hok Hq Hob Hrun. pose proof (checkout_seq_mono e no_hook p _ _ _ _ _ _ Hrun) as Hseq.
  pose proof Hrun as Hout. apply transaction_outcome in Hout.
  assert (Hcommit : (∃ pid bid, request_ok p pid bid) ∨
    (untouched d d' ∧ ∀ o m b, r = Ok (CheckoutSuccess o m b) → replays p d (CheckoutSuccess o m b))).
  { inversion Hout as [a t1 d1 _ Hb _|a t1 d1 f _ Hb _ _|a t1 d1 _ Hb|err d1 Hsame]; subst.
    - left. by eapply body_commit_ok.
    - left. by eapply body_commit_ok.
    - right. split; [split; [apply rollback_same|done]|]. intros o m b [= ->]. by eapply body_rollback_replays.
    - right. split; [by split|]. by intros. }
  destruct Hcommit as [(pid & bid & Hreq)|?]; [|by left].
  destruct (checkout_all_or_nothing _ _ _ _ _ _ _ _ _ _ _ Hok Hreq Hob Hrun)
    as [[Hs Hr]|(pr & u & Hp & Hu & _ & _ & Hrep & Hd & Hr)]; [left|right].
  2: { pose proof (attempt_ok _ _ _ _ _ _ _ _ _ _ _ Hok Hreq Hob Hrun). by exists pid, bid, pr, u. }
  split; [done|]. intros o m b ->.
  pose proof (checkout_returns_spec _ _ _ _ _ _ _ _ _ _ _ Hok Hreq Hob Hrun) as Hspec.
  unfold checkout_spec in Hspec. destruct (replay_of p d) as [[oid o']|] eqn:Hrep.
  - exists oid, o'. split; [done|]. by injection Hspec as -> -> ->.
  - exfalso. repeat case_match; try discriminate Hspec. injection Hspec as -> -> -> _. by eapply Hr.
Qed.

Definition succeeded (resp : http_response) : Prop := rs_status resp = 200 ∨ rs_status resp = 201.

(** What one request does, by its answer. *)
Lemma api_any e req φ t d :
  db_ok d → outbox d !! outbox_id e = None →
  ∃ resp t' d', createOrdersApi e req φ t d = (Ok resp, t', d') ∧
    ((rs_status resp ∈ [400; 404; 422] ∧ asks_for req = None ∧ t' = t ∧ d' = d) ∨
     ∃ p, asks_for req = Some p ∧
       ((untouched d d' ∧
         ((∃ reason, resp = checkout_answer req (CheckoutFailure reason)) ∨
          (∃ oid o, replay_of p d = Some (oid, o) ∧
             resp = checkout_answer req (CheckoutSuccess (pretty oid) (num_of_cents (o_total_amount o)) true)) ∨
          rs_status resp = 500)) ∨
        (∃ pid bid pr u, request_ok p pid bid ∧ products d !! pid = Some pr ∧ users d !! bid = Some u ∧
           replay_of p d = None ∧ d' = purchase e p pid bid pr u d ∧ db_ok d' ∧
           (resp = checkout_answer req (CheckoutSuccess (pretty (seq_orders d + 1))
              (num_mul (num_of_cents (p_price pr)) (num_of_Z (quantity p))) false) ∨ rs_status resp = 500)))).
Proof.
  intros Hok Hob. unfold createOrdersApi.
  destruct (handle_cases e req) as [(p & Hp & _ & Hq & Hh)|(Hp & status & code & detail & Hst & Hh)]; rewrite Hh.
  2: { eexists _, _, _. split; [reflexivity|]. left. done. }
  destruct (checkout e no_hook p φ t d) as [[r t1] d1] eqn:Hrun.
  pose proof (checkout_any _ _ _ _ _ _ _ _ Hok Hq Hob Hrun) as Hany.
  destruct r as [x|err].
  - rewrite (bind_run _ _ _ _ _ _ _ _ Hrun). eexists _, _, _. split; [reflexivity|]. right. exists p. split; [done|].
    destruct Hany as [[Hs Hx]|(pid & bid & pr & u & Hreq & Hpr & Hu & Hrep & Hd & Hok' & Hx)].
    + left. split; [done|]. destruct x as [o m b|reason]; [right; left|left; by eexists].
      destruct (Hx o m b eq_refl) as (oid & o' & Hrep & Heq). exists oid, o'. by rewrite <- Heq.
    + right. exists pid, bid, pr, u. split_and!; try done. left. destruct Hx as [[= ->]|[? [=]]]. done.
  - rewrite (bind_run_err _ _ _ _ _ _ _ _ Hrun). eexists _, _, _. split; [reflexivity|]. right. exists p. split; [done|].
    destruct Hany as [[Hs _]|(pid & bid & pr & u & Hreq & Hpr & Hu & Hrep & Hd & Hok' & _)].
    + left. split; [done|]. by right; right.
    + right. exists pid, bid, pr, u. split_and!; try done. by right.
Qed.

(** POST /orders always answers, and its status tells what happened.  400,
    404 and 422 are given without asking the database; 409 and 200 leave every
    row as it was, and 200 names the order the key already stands for; 201 is
    given only for a complete purchase; after a 500 the rows are as they were
    or the purchase is complete, never in between. *)
Theorem api_outcome e req φ t d :
  db_ok d → outbox d !! outbox_id e = None →
  ∃ resp t' d', createOrdersApi e req φ t d = (Ok resp, t', d') ∧
    ((rs_status resp ∈ [400; 404; 422] ∧ asks_for req = None ∧ t' = t ∧ d' = d) ∨
     ∃ p, asks_for req = Some p ∧
       ((untouched d d' ∧
         ((∃ reason, resp = checkout_answer req (CheckoutFailure reason)) ∨
          (∃ oid o, replay_of p d = Some (oid, o) ∧
             resp = checkout_answer req (CheckoutSuccess (pretty oid) (num_of_cents (o_total_amount o)) true)) ∨
          rs_status resp = 500)) ∨
        (∃ pid bid pr u, request_ok p pid bid ∧ products d !! pid = Some pr ∧ users d !! bid = Some u ∧
           replay_of p d = None ∧ d' = purchase e p pid bid pr u d ∧ db_ok d' ∧
           (resp = checkout_answer req (CheckoutSuccess (pretty (seq_orders d + 1))
              (num_mul (num_of_cents (p_price pr)) (num_of_Z (quantity p))) false) ∨ rs_status resp = 500)))).
Proof. apply api_any. Qed.

(** A request by the outcome of its checkout. *)
Lemma api_run e req p φ t d r t' d' :
  asks_for req = Some p → checkout e no_hook p φ t d = (r, t', d') →
  createOrdersApi e req φ t d =
    (Ok (match r with
         | Ok x => checkout_answer req x
         | Err _ => problem req 500 "internal" "Внутрішня помилка сервера"
         end), t', d').
Proof.
  intros Hp Hrun. unfold createOrdersApi.
  destruct (handle_cases e req) as [(p' & Hp' & _ & _ & Hh)|(Hp' & _)]; [|congruence].
  assert (p' = p) as -> by congruence. rewrite Hh. destruct r as [x|err].
  - by rewrite (bind_run _ _ _ _ _ _ _ _ Hrun).
  - by rewrite (bind_run_err _ _ _ _ _ _ _ _ Hrun).
Qed.

(** The same request sent again and again, each time with its own faults. *)
Inductive attempts (req : http_request) : db → list http_response → db → Prop :=
| attempts_nil d : attempts req d [] d
| attempts_cons e φ t d resp t' d1 l d2 :
    outbox d !! outbox_id e = None → createOrdersApi e req φ t d = (Ok resp, t', d1) →
    attempts req d1 l d2 → attempts req d (resp :: l) d2.

(** [resp] reports success with order [oid]. *)
Definition names (oid : Z) (resp : http_response) : Prop :=
  rs_status resp = 201 ∨ rs_status resp = 200 → jstr (rs_body resp) "order_id" = Some (pretty oid).

Lemma known_attempts req p k oid d l d' :
  asks_for req = Some p → idempotencyKey p = Some k → attempts req d l d' → db_ok d → known k oid d →
  untouched d d' ∧ Forall (λ r, names oid r ∧ rs_status r ≠ 201) l.
Proof.
  intros Hp Hk. induction 1 as [d|e φ t d resp t' d1 l d2 Hob Hrun _ IH]; intros Hok Hkn.
  { split; [reflexivity|constructor]. }
  destruct (replay_known p k oid d Hk Hkn) as [o Hrep].
  destruct (api_any e req φ t d Hok Hob) as (resp' & t1 & d1' & Hrun' & Hcase).
  rewrite Hrun in Hrun'. injection Hrun' as <- <- <-.
  destruct Hcase as [(_ & Hn & _)|(p' & Hp' & [[Hu Hresp]|(? & ? & ? & ? & _ & _ & _ & Hn & _)])];
    [congruence| |congruence]. assert (p' = p) as -> by congruence.
  destruct IH as [Hu2 Hl]; [by eapply untouched_ok|by eapply known_untouched|].
  split; [by etrans|]. constructor; [|done].
  destruct Hresp as [[reason ->]|[(oid' & o' & Hrep' & ->)|H500]].
  - split; [by intros [|]|done].
  - rewrite Hrep in Hrep'. injection Hrep' as <- <-. split; [done|done].
  - split; [intros [|]; congruence|congruence].
Qed.

(** C34: exactly one order per key over HTTP.  However often a client repeats one
    POST /orders, whatever fails and whatever it is told, at most one purchase
    is made, at most one answer is 201, and every successful answer (201 or
    200) names the same order. *)
Theorem api_retries req p k d l d' :
  attempts req d l d' → db_ok d → asks_for req = Some p → idempotencyKey p = Some k →
  idempotency_keys d !! k = None →
  (untouched d d' ∧ Forall (λ r, ¬ succeeded r) l) ∨
  (∃ e pid bid pr u d0, untouched d d0 ∧ products d0 !! pid = Some pr ∧ users d0 !! bid = Some u ∧
    untouched (purchase e p pid bid pr u d0) d' ∧
    Forall (names (seq_orders d0 + 1)) l ∧ (length (filter (λ r, rs_status r = 201%Z) l) ≤ 1)%nat).
Proof.
  intros Hatt Hok Hp Hk. revert Hok. induction Hatt as [d|e φ t d resp t' d1 l d2 Hob Hrun Hatt IH]; intros Hok Hn.
  { left. split; [reflexivity|constructor]. }
  destruct (api_any e req φ t d Hok Hob) as (resp' & t1 & d1' & Hrun' & Hcase).
  rewrite Hrun in Hrun'. injection Hrun' as <- <- <-.
  destruct Hcase as [(_ & Hno & _)|(p' & Hp' & Hcase)]; [congruence|]. assert (p' = p) as -> by congruence.
  destruct Hcase as [[Hu Hresp]|(pid & bid & pr & u & Hreq & Hpr & Hu & Hrep & Hd & Hok' & Hresp)].
  - assert (Hns : ¬ succeeded resp).
    { destruct Hresp as [[reason ->]|[(oid' & o' & Hrep' & ->)|H500]].
      - by intros [|].
      - unfold replay_of in Hrep'. rewrite Hk in Hrep'. cbn in Hrep'. by rewrite Hn in Hrep'.
      - unfold succeeded. intros [|]; congruence. }
    destruct (untouched_rows _ _ Hu) as (_ & _ & _ & _ & _ & E6 & _).
    destruct IH as [[Hu2 Hl]|(e2 & pid & bid & pr & u & d0 & Hu0 & Hpr & Huu & Hd & Hl & Hc)];
      [by eapply untouched_ok|by rewrite E6|left|right].
    + split; [by etrans|]. by constructor.
    + exists e2, pid, bid, pr, u, d0. split_and!; [by etrans|done|done|done| |].
      * constructor; [|done]. intros Hs. exfalso. apply Hns. unfold succeeded. tauto.
      * rewrite filter_cons_False; [done|]. intros H201. apply Hns. by right.
  - right. subst d1.
    destruct (known_attempts req p k (seq_orders d + 1) _ _ _ Hp Hk Hatt Hok') as [Hu2 Hl]; [by apply purchase_known|].
    exists e, pid, bid, pr, u, d. split_and!; [reflexivity|done|done|done| |].
    + constructor; [|eapply Forall_impl; [exact Hl|]; by intros ? [? _]].
      destruct Hresp as [->|H500]; [done|]. intros [|]; congruence.
    + assert (Hnone : filter (λ r, rs_status r = 201) l = []).
      { apply filter_none. intros x Hx. rewrite Forall_forall in Hl. by apply Hl. }
      rewrite filter_cons, Hnone. case_decide; cbn; lia.
Qed.
End api_facts.

(** ** A client whose first answer is lost *)

#[local] Existing Instance fix_text.
#[local] Existing Instance fix_events.

Definition post : http_request :=
  HttpRequest "POST" "/orders" (Some "k1")
    (Some (JObj [("buyer_id", JStr "1"); ("product_id", JStr "7"); ("quantity", JNum (num_of_Z 2))])).

Lemma post_asks : asks_for post = Some buy.
Proof. vm_compute. reflexivity. Qed.

Lemma not_201 : 201 ∉ [400; 404; 422].
Proof. intros Hin. repeat (apply elem_of_cons in Hin as [?|Hin]; [done|]). by apply elem_of_nil in Hin. Qed.

Lemma api_outcome_witness : ∃ resp t' d',
  createOrdersApi (buy_env 0) post no_fault 0%nat fix_db = (Ok resp, t', d') ∧ rs_status resp = 201 ∧
  ∃ pid bid pr u, d' = purchase (buy_env 0) buy pid bid pr u fix_db.
Proof.
  destruct (api_outcome (buy_env 0) post no_fault 0%nat fix_db fix_db_ok eq_refl) as (resp & t' & d' & Hrun & Hcase).
  assert (Hst : match (createOrdersApi (buy_env 0) post no_fault 0%nat fix_db).1.1 with
    Ok r => rs_status r | _ => 0 end = 201) by (vm_compute; reflexivity).
  rewrite Hrun in Hst. cbn in Hst. exists resp, t', d'. split; [exact Hrun|]. split; [exact Hst|].
  destruct Hcase as [(Hin & _)|(p & Hp & [[_ Hr]|(pid & bid & pr & u & _ & _ & _ & _ & Hd & _)])].
  - rewrite Hst in Hin. destruct (not_201 Hin).
  - destruct Hr as [[reason ->]|[(oid & o & _ & ->)|H500]]; [discriminate Hst|discriminate Hst|rewrite H500 in Hst; discriminate Hst].
  - rewrite post_asks in Hp. injection Hp as <-. eauto.
Defined.

Definition first_answer : http_response := problem post 500 "internal" "Внутрішня помилка сервера".
Definition second_answer : http_response :=
  checkout_answer post (CheckoutSuccess "1" (num_mul (num_of_cents 1299) (num_of_Z 2)) true).

(** The COMMIT of the first attempt is lost, the second is a replay. *)
Lemma lost_then_replayed : attempts post fix_db [first_answer; second_answer] after_retry.
Proof.
  destruct lost_commit_run as [t1 Hlost]. destruct retry_run as [t2 Hretry].
  apply (attempts_cons post (buy_env 0) lost_commit 0%nat fix_db first_answer t1 after_lost); [reflexivity| |].
  { exact (api_run _ _ _ _ _ _ _ _ _ post_asks Hlost). }
  apply (attempts_cons post (buy_env 1) no_fault 0%nat after_lost second_answer t2 after_retry).
  - vm_compute. reflexivity.
  - exact (api_run _ _ _ _ _ _ _ _ _ post_asks Hretry).
  - constructor.
Qed.

Lemma api_retries_witness : ∃ e pid bid pr u d0, untouched fix_db d0 ∧
  untouched (purchase e buy pid bid pr u d0) after_retry ∧ Forall (names (seq_orders d0 + 1)) [first_answer; second_answer].
Proof.
  destruct (api_retries post buy "k1" fix_db [first_answer; second_answer] after_retry lost_then_replayed fix_db_ok
    post_asks eq_refl eq_refl) as [[_ Hl]|(e & pid & bid & pr & u & d0 & Hu & _ & _ & Hd & Hl & _)].
  - exfalso. apply Forall_cons in Hl as [_ Hl]. apply Forall_cons in Hl as [Hl _]. apply Hl. left. reflexivity.
  - exists e, pid, bid, pr, u, d0. split; [exact Hu|]. split; [exact Hd|exact Hl].
Defined.
