(* ===== verification/Worker.v ===== *)
(** The worker pool on [job_queue] (src/queue-worker.ts): a worker claims one
    free job with FOR UPDATE SKIP LOCKED, holds its row lock while it works and
    commits [done] with the lock; a worker that dies gives the lock back.

    The simulated work ([setTimeout]) only takes time and is not in the model. *)
From stdpp Require Import pretty sorting.
From S2P Require Import Prelude JsNumber Events Schema Sql Fixtures.
#[local] Open Scope Z_scope.

Inductive ClaimResult := cr_done | cr_empty.
#[export] Instance ClaimResult_eq_dec : EqDecision ClaimResult.
Proof. solve_decision. Defined.

(** ** Statements *)

Definition new_jobs (d : db) : list (Z * job_row) :=
  filter (λ x, j_status x.2 = job_new) (map_to_list (job_queue d)).

(** SELECT id FROM job_queue WHERE status = 'new' ORDER BY id LIMIT 1
    FOR UPDATE SKIP LOCKED; [locked] are the rows other transactions hold. *)
Definition select_job (locked : gset Z) (d : db) : result (list Z) * db :=
  (Ok (take 1 (merge_sort Z.le (filter (λ id, id ∉ locked) (new_jobs d).*1))), d).

Definition finished (worker : string) (j : job_row) : job_row :=
  JobRow (j_order_id j) (j_kind j) job_done (Some worker) (j_processed j + 1).

(** UPDATE job_queue SET status = 'done', worker = $1, processed = processed + 1 WHERE id = $2 *)
Definition finish_job (worker : string) (id : Z) (d : db) : result unit * db :=
  match text_in worker with
  | None => (Err (PgError "22021"), d)
  | Some worker =>
      match job_queue d !! id with
      | Some j =>
          if int4 (j_processed j + 1)
          then (Ok tt, set_job_queue <[id := finished worker j]> (seq_jobs d) d)
          else (Err (PgError "22003"), d)
      | None => (Ok tt, d)
      end
  end.

(** SELECT count( * ) AS n FROM job_queue WHERE status = 'new' *)
Definition count_new (d : db) : result nat * db := (Ok (length (new_jobs d)), d).

(** ** The code *)

Definition claim_body (locked : gset Z) (worker : string) : sql (tx_exit ClaimResult) :=
  rows ← query (select_job locked);
  match rows with
  | [] => mret (Commit cr_empty)
  | id :: _ => _ ← query (finish_job worker id); mret (Commit cr_done)
  end.

Definition claimOne (locked : gset Z) (worker : string) : sql ClaimResult :=
  transaction (claim_body locked worker).

(** [runWorker]; [false] is a loop that has not returned after [fuel] rounds.
    [locked n]: what the others hold in the [n]-th round. *)
Fixpoint runWorker (fuel : nat) (locked : nat → gset Z) (n : nat) (worker : string) : sql bool :=
  match fuel with
  | O => mret false
  | S fuel =>
      result ← claimOne (locked n) worker;
      match result with
      | cr_done => runWorker fuel locked (S n) worker
      | cr_empty =>
          rows ← query count_new;
          match rows with
          | O => mret true
          | S _ => runWorker fuel locked (S n) worker
          end
      end
  end.

(** ** The pool

    Any number of workers, each between the round trips of its [claimOne]:
    [Holding id] is a worker past its SELECT, holding the row lock of [id]. *)
Inductive worker_state := Idle | Holding (id : Z) | Stopped | Dead.
#[export] Instance worker_state_eq_dec : EqDecision worker_state.
Proof. solve_decision. Defined.

Record pool := Pool { pl_db : db; pl_workers : gmap string worker_state }.

Definition held_id (w : worker_state) : option Z := match w with Holding id => Some id | _ => None end.
Definition held (ws : gmap string worker_state) : gset Z := list_to_set (omap held_id (map_to_list ws).*2).

Section pool.
Context `{PgText}.

Inductive pool_step : pool → pool → Prop :=
(** the SELECT finds a row and locks it *)
| step_claim d ws w id rest :
    ws !! w = Some Idle → (select_job (held ws) d).1 = Ok (id :: rest) →
    pool_step (Pool d ws) (Pool d (<[w := Holding id]> ws))
(** the SELECT finds none, and [count] is not zero: ask again *)
| step_wait d ws w :
    ws !! w = Some Idle → (select_job (held ws) d).1 = Ok [] → (count_new d).1 ≠ Ok O →
    pool_step (Pool d ws) (Pool d ws)
(** the SELECT finds none, and [count] is zero: [runWorker] returns *)
| step_stop d ws w :
    ws !! w = Some Idle → (select_job (held ws) d).1 = Ok [] → (count_new d).1 = Ok O →
    pool_step (Pool d ws) (Pool d (<[w := Stopped]> ws))
(** UPDATE and COMMIT *)
| step_finish d ws w id d' :
    ws !! w = Some (Holding id) → finish_job w id d = (Ok tt, d') →
    pool_step (Pool d ws) (Pool d' (<[w := Idle]> ws))
(** the worker dies, or its transaction is rolled back: the lock is free *)
| step_crash d ws w st :
    ws !! w = Some st → st ≠ Stopped →
    pool_step (Pool d ws) (Pool d (<[w := Dead]> ws))
(** a new worker process *)
| step_start d ws w :
    ws !! w = None ∨ ws !! w = Some Dead → pool_step (Pool d ws) (Pool d (<[w := Idle]> ws))
(** a checkout commits: a new job *)
| step_enqueue d ws oid d' :
    d' = set_job_queue <[seq_jobs d + 1 := JobRow oid "post_processing" job_new None 0]> (seq_jobs d + 1) d →
    pool_step (Pool d ws) (Pool d' ws).
End pool.

(** A job that has been through the pool exactly once, or not yet. *)
Definition job_sound (j : job_row) : Prop :=
  match j_status j with
  | job_new => j_processed j = 0 ∧ j_worker j = None
  | job_done => j_processed j = 1 ∧ is_Some (j_worker j)
  end.

Record pool_inv (s : pool) : Prop := {
  pi_sound : map_Forall (λ _, job_sound) (job_queue (pl_db s));
  pi_held : ∀ w id, pl_workers s !! w = Some (Holding id) →
    ∃ j, job_queue (pl_db s) !! id = Some j ∧ j_status j = job_new;
  pi_excl : ∀ w1 w2 id, pl_workers s !! w1 = Some (Holding id) → pl_workers s !! w2 = Some (Holding id) → w1 = w2;
  pi_seq : ∀ id, is_Some (job_queue (pl_db s) !! id) → id ≤ seq_jobs (pl_db s);
}.

(** ** Which job a SELECT finds *)

Lemma elem_held ws id : id ∈ held ws ↔ ∃ w, ws !! w = Some (Holding id).
Proof.
  unfold held. rewrite elem_of_list_to_set, list_elem_of_omap. split.
  - intros (st & Hin & Hst). apply list_elem_of_fmap in Hin as ([w st'] & -> & Hin). cbn in Hst.
    apply elem_of_map_to_list in Hin. destruct st'; simplify_eq/=. eauto.
  - intros [w Hw]. exists (Holding id). split; [|done].
    apply list_elem_of_fmap. exists (w, Holding id). split; [done|]. by apply elem_of_map_to_list.
Qed.

Lemma elem_new_jobs d id : id ∈ (new_jobs d).*1 ↔ ∃ j, job_queue d !! id = Some j ∧ j_status j = job_new.
Proof.
  unfold new_jobs. rewrite list_elem_of_fmap. split.
  - intros ([id' j] & -> & [Hj Hin]%list_elem_of_filter). apply elem_of_map_to_list in Hin. eauto.
  - intros (j & Hj & Hs). exists (id, j). split; [done|]. apply list_elem_of_filter.
    split; [done|]. by apply elem_of_map_to_list.
Qed.

Lemma select_job_some locked d id rest :
  (select_job locked d).1 = Ok (id :: rest) →
  id ∉ locked ∧ (∃ j, job_queue d !! id = Some j ∧ j_status j = job_new) ∧
  ∀ id' j, job_queue d !! id' = Some j → j_status j = job_new → id' ∉ locked → id ≤ id'.
Proof.
  unfold select_job. cbn [fst]. set (l := filter _ _). intros [= Hl].
  pose proof (merge_sort_Permutation Z.le l) as Hp.
  assert (Hs : StronglySorted Z.le (merge_sort Z.le l)) by (apply StronglySorted_merge_sort; apply _).
  destruct (merge_sort Z.le l) as [|x xs]; [done|]. cbn in Hl. injection Hl as -> _.
  assert (Hin : id ∈ l) by (rewrite <- Hp; left).
  apply list_elem_of_filter in Hin as [Hno Hin]. apply elem_new_jobs in Hin. split_and!; [done|done|].
  intros id' j Hj Hst Hno'. assert (Hin' : id' ∈ l).
  { apply list_elem_of_filter. split; [done|]. apply elem_new_jobs. eauto. }
  rewrite <- Hp in Hin'. apply elem_of_cons in Hin' as [->|Hin']; [lia|].
  apply StronglySorted_inv in Hs as [_ Hs]. rewrite Forall_forall in Hs. by apply Hs.
Qed.

Lemma select_job_none locked d :
  (select_job locked d).1 = Ok [] →
  ∀ id j, job_queue d !! id = Some j → j_status j = job_new → id ∈ locked.
Proof.
  unfold select_job. cbn [fst]. set (l := filter _ _). intros [= Hl] id j Hj Hst.
  destruct (decide (id ∈ locked)) as [|Hno]; [done|exfalso].
  assert (Hin : id ∈ l) by (apply list_elem_of_filter; split; [done|]; apply elem_new_jobs; eauto).
  rewrite <- (merge_sort_Permutation Z.le l) in Hin. destruct (merge_sort Z.le l); [by apply elem_of_nil in Hin|done].
Qed.

Lemma count_new_zero d : (count_new d).1 = Ok O ↔ ∀ id j, job_queue d !! id = Some j → j_status j = job_done.
Proof.
  unfold count_new. cbn [fst]. split.
  - intros [= Hl]. apply length_zero_iff_nil in Hl. intros id j Hj. destruct (j_status j) eqn:Hs; [|done].
    assert (Hin : id ∈ (new_jobs d).*1) by (apply elem_new_jobs; eauto).
    rewrite Hl in Hin. by apply elem_of_nil in Hin.
  - intros Hd. f_equal. destruct (new_jobs d) as [|[id j] l] eqn:Hl; [done|exfalso].
    assert (Hin : id ∈ (new_jobs d).*1) by (rewrite Hl; left).
    apply elem_new_jobs in Hin as (j' & Hj & Hs). rewrite (Hd id j' Hj) in Hs. done.
Qed.

(** ** The pool's invariant *)

Section pool_facts.
Context `{PgText}.

Lemma insert_worker_inv d ws w st :
  (∀ id, st = Holding id → id ∉ held ws ∧ ∃ j, job_queue d !! id = Some j ∧ j_status j = job_new) →
  pool_inv (Pool d ws) → pool_inv (Pool d (<[w := st]> ws)).
Proof.
  intros Hst [H1 H2 H3 H4]. split; cbn in *; [done| | |done].
  - intros w' id. rewrite lookup_insert. case_decide; [|apply H2].
    intros [= ->]. by apply Hst.
  - intros w1 w2 id. rewrite !lookup_insert. repeat case_decide; subst; try done; [..|apply H3].
    + intros [= ->] Hw2. destruct (Hst id eq_refl) as [Hno _]. exfalso. apply Hno, elem_held. eauto.
    + intros Hw1 [= ->]. destruct (Hst id eq_refl) as [Hno _]. exfalso. apply Hno, elem_held. eauto.
Qed.

Lemma finish_job_ok w id d d' :
  finish_job w id d = (Ok tt, d') →
  match job_queue d !! id with
  | Some j => d' = set_job_queue <[id := finished w j]> (seq_jobs d) d
  | None => d' = d
  end.
Proof.
  unfold finish_job, text_in. destruct (existsb _ _); [done|].
  destruct (job_queue d !! id) as [j|]; [destruct (int4 _); [|done]|]; by intros [= <-].
Qed.

Lemma pool_step_inv s s' : pool_step s s' → pool_inv s → pool_inv s'.
Proof.
  intros Hs Hinv. destruct Hs as [d ws w id rest Hw Hsel|d ws w Hw Hsel Hc|d ws w Hw Hsel Hc|d ws w id d' Hw Hf
    |d ws w st Hw Hst|d ws w Hw|d ws oid d' ->].
  - apply select_job_some in Hsel as (Hno & Hj & _). apply insert_worker_inv; [|done].
    intros id' [= <-]. done.
  - done.
  - by apply insert_worker_inv.
  - apply finish_job_ok in Hf. destruct Hinv as [H1 H2 H3 H4]. cbn in *.
    destruct (H2 w id Hw) as (j & Hj & Hst). rewrite Hj in Hf. subst d'.
    assert (Hother : ∀ w' id', <[w := Idle]> ws !! w' = Some (Holding id') → w' ≠ w ∧ ws !! w' = Some (Holding id') ∧ id' ≠ id).
    { intros w' id'. rewrite lookup_insert. case_decide as Hww; [done|]. intros Hw'.
      split_and!; [congruence|done|]. intros ->. by apply Hww, (H3 w w' id). }
    split; cbn.
    + apply map_Forall_insert_2; [|done]. specialize (H1 id j Hj). unfold job_sound in *. rewrite Hst in H1.
      cbn. destruct H1 as [-> _]. split; [done|eauto].
    + intros w' id' (_ & Hw' & Hne)%Hother. rewrite lookup_insert_ne by done. eauto.
    + intros w1 w2 id' (_ & Hw1 & _)%Hother (_ & Hw2 & _)%Hother. eauto.
    + intros id'. rewrite lookup_insert. case_decide; [intros _; subst; eauto|apply H4].
  - by apply insert_worker_inv.
  - by apply insert_worker_inv.
  - destruct Hinv as [H1 H2 H3 H4]. cbn in *.
    assert (Hfresh : job_queue d !! (seq_jobs d + 1) = None).
    { apply eq_None_not_Some. intros Hx. apply H4 in Hx. lia. }
    split; cbn; [| |done|].
    + by apply map_Forall_insert_2.
    + intros w id Hw. destruct (H2 w id Hw) as (j & Hj & Hst). exists j. rewrite lookup_insert_ne; [done|].
      intros <-. congruence.
    + intros id. rewrite lookup_insert. case_decide; [lia|]. intros Hx. apply H4 in Hx. lia.
Qed.

Lemma pool_steps_inv s s' : rtc pool_step s s' → pool_inv s → pool_inv s'.
Proof. induction 1 as [|s1 s2 s3 Hs _ IH]; [done|]. intros Hi. by eapply IH, pool_step_inv. Qed.

(** A finished job is never touched again. *)
Lemma done_stays s s' id j :
  rtc pool_step s s' → pool_inv s → job_queue (pl_db s) !! id = Some j → j_status j = job_done →
  job_queue (pl_db s') !! id = Some j.
Proof.
  induction 1 as [|s1 s2 s3 Hs _ IH]; [done|]. intros Hinv Hj Hst.
  apply IH; [by eapply pool_step_inv| |done]. destruct Hinv as [H1 H2 H3 H4].
  destruct Hs as [d ws w id' rest Hw Hsel|d ws w Hw Hsel Hc|d ws w Hw Hsel Hc|d ws w id' d' Hw Hf
    |d ws w st Hw _|d ws w Hw|d ws oid d' ->]; cbn in *; try done.
  - apply finish_job_ok in Hf. destruct (H2 w id' Hw) as (j' & Hj' & Hst'). rewrite Hj' in Hf. subst d'. cbn.
    rewrite lookup_insert_ne; [done|]. intros ->. congruence.
  - rewrite lookup_insert_ne; [done|]. intros <-. specialize (H4 (seq_jobs d + 1)). rewrite Hj in H4.
    specialize (H4 ltac:(eauto)). lia.
Qed.

(** A worker returns from [runWorker] only when nothing is left. *)
Lemma stop_needs_done s s' w :
  pool_step s s' → pl_workers s !! w ≠ Some Stopped → pl_workers s' !! w = Some Stopped →
  ∀ id j, job_queue (pl_db s') !! id = Some j → j_status j = job_done.
Proof.
  intros Hs Hn Hw'.
  destruct Hs as [d ws w0 id' rest Hw Hsel|d ws w0 Hw Hsel Hc|d ws w0 Hw Hsel Hc|d ws w0 id' d' Hw Hf
    |d ws w0 st Hw _|d ws w0 Hw|d ws oid d' ->]; cbn in *; try done;
    try (rewrite lookup_insert in Hw'; case_decide; done).
  by apply count_new_zero.
Qed.

(** C36: every job is processed exactly once.  Over any interleaving of any
    number of workers, with crashes, restarts and new jobs arriving: no two
    workers ever hold the same job; a job is either new and untouched or done
    with [processed = 1]; a done job is never touched again; and when a worker
    returns from [runWorker] every job in the table is done. *)
Theorem jobs_exactly_once s s' :
  pool_inv s → rtc pool_step s s' →
  (∀ w1 w2 id, pl_workers s' !! w1 = Some (Holding id) → pl_workers s' !! w2 = Some (Holding id) → w1 = w2) ∧
  (∀ id j, job_queue (pl_db s') !! id = Some j →
     (j_status j = job_new ∧ j_processed j = 0 ∧ j_worker j = None) ∨
     (j_status j = job_done ∧ j_processed j = 1 ∧ is_Some (j_worker j))) ∧
  (∀ id j, job_queue (pl_db s) !! id = Some j → j_status j = job_done → job_queue (pl_db s') !! id = Some j) ∧
  (∀ s'' w, pool_step s' s'' → pl_workers s' !! w ≠ Some Stopped → pl_workers s'' !! w = Some Stopped →
     ∀ id j, job_queue (pl_db s'') !! id = Some j → j_status j = job_done).
Proof.
  intros Hinv Hr. pose proof (pool_steps_inv s s' Hr Hinv) as [H1 H2 H3 H4]. split_and!.
  - done.
  - intros id j Hj. specialize (H1 id j Hj). unfold job_sound in H1. destruct (j_status j); tauto.
  - intros id j Hj Hst. by eapply done_stays.
  - intros s'' w Hs Hn Hw. by eapply stop_needs_done.
Qed.
End pool_facts.

(** ** One worker alone *)

Section runner.
Context `{PgText}.

Definition new_ids (d : db) : gset Z := list_to_set (new_jobs d).*1.

Lemma elem_new_ids d id : id ∈ new_ids d ↔ ∃ j, job_queue d !! id = Some j ∧ j_status j = job_new.
Proof. unfold new_ids. by rewrite elem_of_list_to_set, elem_new_jobs. Qed.

Lemma new_ids_size d : size (new_ids d) = length (new_jobs d).
Proof.
  unfold new_ids. rewrite size_list_to_set; [by rewrite length_fmap|].
  unfold new_jobs. apply NoDup_fmap_2_strong; [|apply NoDup_filter, NoDup_map_to_list].
  intros [i a] [j b] [_ Ha]%list_elem_of_filter [_ Hb]%list_elem_of_filter. cbn. intros ->.
  apply elem_of_map_to_list in Ha, Hb. by simplify_eq.
Qed.

(** What draining leaves: every new job finished by this worker. *)
Definition drained (worker : string) (d : db) : db :=
  set_job_queue (fmap (λ j, if decide (j_status j = job_new) then finished worker j else j)) (seq_jobs d) d.

Lemma finish_run worker id j d :
  text_in worker = Some worker → job_queue d !! id = Some j → int4 (j_processed j + 1) = true →
  finish_job worker id d = (Ok tt, set_job_queue <[id := finished worker j]> (seq_jobs d) d).
Proof. intros Hw Hj Hi. unfold finish_job. by rewrite Hw, Hj, Hi. Qed.

Lemma drained_step worker id j d :
  job_queue d !! id = Some j → j_status j = job_new →
  drained worker (set_job_queue <[id := finished worker j]> (seq_jobs d) d) = drained worker d.
Proof.
  intros Hj Hst. unfold drained, set_job_queue. cbn. f_equal. rewrite fmap_insert. cbn.
  rewrite decide_False by done. apply insert_id. rewrite lookup_fmap, Hj. cbn. by rewrite decide_True.
Qed.

Lemma drained_done worker d : (∀ id j, job_queue d !! id = Some j → j_status j = job_done) → drained worker d = d.
Proof.
  intros Hd. unfold drained. assert (Hf : (λ j, if decide (j_status j = job_new) then finished worker j else j) <$> job_queue d = job_queue d).
  { rewrite <- (map_fmap_id (job_queue d)) at 2. apply map_fmap_ext. intros id j Hj.
    rewrite decide_False; [done|]. by rewrite (Hd id j Hj). }
  unfold set_job_queue. rewrite Hf. by destruct d.
Qed.

Lemma claim_one_run worker d t id rest j :
  text_in worker = Some worker → (select_job ∅ d).1 = Ok (id :: rest) → job_queue d !! id = Some j →
  int4 (j_processed j + 1) = true →
  ∃ t', claimOne ∅ worker no_fault t d =
    (Ok cr_done, t', set_job_queue <[id := finished worker j]> (seq_jobs d) d).
Proof.
  intros Hw Hsel Hj Hi. eexists. apply transaction_run. unfold claim_body.
  erewrite bind_run; [|apply query_run; unfold select_job in *; cbn [fst] in Hsel; injection Hsel as ->; reflexivity].
  cbv beta iota. erewrite bind_run; [|apply query_run, (finish_run _ _ _ _ Hw Hj Hi)]. reflexivity.
Qed.

Lemma claim_one_empty worker d t :
  (select_job ∅ d).1 = Ok [] → ∃ t', claimOne ∅ worker no_fault t d = (Ok cr_empty, t', d).
Proof.
  intros Hsel. eexists. apply transaction_run. unfold claim_body.
  erewrite bind_run; [|apply query_run; unfold select_job in *; cbn [fst] in Hsel; injection Hsel as ->; reflexivity].
  reflexivity.
Qed.

Lemma runWorker_size worker n fuel k d t :
  text_in worker = Some worker →
  map_Forall (λ _ j, j_status j = job_new → int4 (j_processed j + 1) = true) (job_queue d) →
  size (new_ids d) = n → (n < fuel)%nat →
  ∃ t', runWorker fuel (λ _, ∅) k worker no_fault t d = (Ok true, t', drained worker d).
Proof.
  intros Hw. revert fuel k d t. induction n as [|n IH]; intros fuel k d t Hi Hn Hf;
    (destruct fuel as [|fuel]; [lia|]); cbn [runWorker].
  - assert (Hd : ∀ id j, job_queue d !! id = Some j → j_status j = job_done).
    { intros id j Hj. destruct (j_status j) eqn:Hst; [|done]. apply size_empty_inv in Hn.
      assert (id ∈ new_ids d) by (apply elem_new_ids; eauto). set_solver. }
    assert (Hsel : (select_job ∅ d).1 = Ok []).
    { destruct (select_job ∅ d) as [[[|id rest]|e] d1] eqn:Hsel; [done| |done].
      assert (Hs : (select_job ∅ d).1 = Ok (id :: rest)) by (by rewrite Hsel).
      apply select_job_some in Hs as (_ & (j & Hj & Hst) & _). rewrite (Hd _ _ Hj) in Hst. done. }
    destruct (claim_one_empty worker d t Hsel) as [t1 Hc]. rewrite (bind_run _ _ _ _ _ _ _ _ Hc). cbv beta iota.
    pose proof (proj2 (count_new_zero d) Hd) as Hz.
    erewrite bind_run; [|apply query_run; unfold count_new in *; cbn [fst] in Hz; injection Hz as ->; reflexivity].
    eexists. by rewrite drained_done.
  - assert (Hex : ∃ id rest, (select_job ∅ d).1 = Ok (id :: rest)).
    { destruct (select_job ∅ d) as [[[|id rest]|e] d1] eqn:Hsel; [|by exists id, rest|done].
      assert (Hs : (select_job ∅ d).1 = Ok []) by (by rewrite Hsel).
      assert (Hne : new_ids d ≠ ∅) by (intros He; rewrite He, size_empty in Hn; lia).
      apply set_choose_L in Hne as [id (j & Hj & Hst)%elem_new_ids].
      pose proof (select_job_none ∅ d Hs id j Hj Hst). set_solver. }
    destruct Hex as (id & rest & Hsel). pose proof Hsel as (_ & (j & Hj & Hst) & _)%select_job_some.
    destruct (claim_one_run worker d t id rest j Hw Hsel Hj (Hi _ _ Hj Hst)) as [t1 Hc].
    rewrite (bind_run _ _ _ _ _ _ _ _ Hc). cbv beta iota.
    destruct (IH fuel (S k) (set_job_queue <[id := finished worker j]> (seq_jobs d) d) t1) as [t2 Hrun];
      [| |lia|exists t2; rewrite Hrun; by rewrite drained_step].
    + apply map_Forall_insert_2; [done|exact Hi].
    + assert (Heq : new_ids (set_job_queue <[id := finished worker j]> (seq_jobs d) d) = new_ids d ∖ {[id]}).
      { apply set_eq. intros i. rewrite elem_of_difference, elem_of_singleton, !elem_new_ids. cbn.
        rewrite lookup_insert. case_decide as Hid; [subst|naive_solver].
        split; [intros (j' & [= <-] & [=])|tauto]. }
      rewrite Heq, size_difference, size_singleton; [lia|].
      apply singleton_subseteq_l, elem_new_ids. eauto.
Qed.

(** [runWorker] terminates and leaves nothing behind.  A worker alone with
    the queue returns after at most one round per new job and a last one, and
    then every new job is done by it and processed once more, lowest id first,
    and nothing else has changed. *)
Theorem runWorker_drains worker d t :
  text_in worker = Some worker →
  map_Forall (λ _ j, j_status j = job_new → int4 (j_processed j + 1) = true) (job_queue d) →
  (∃ t', runWorker (S (length (new_jobs d))) (λ _, ∅) 0 worker no_fault t d = (Ok true, t', drained worker d)) ∧
  (∀ id rest, (select_job ∅ d).1 = Ok (id :: rest) →
     ∀ id' j, job_queue d !! id' = Some j → j_status j = job_new → id ≤ id').
Proof.
  intros Hw Hi. split.
  - rewrite <- new_ids_size. eapply (runWorker_size worker (size (new_ids d))); [done|done|done|lia].
  - intros id rest Hsel id' j Hj Hst. apply select_job_some in Hsel as (_ & _ & Hmin).
    eapply Hmin; [done|done|set_solver].
Qed.
End runner.

(** ** Two jobs, two workers *)

#[local] Existing Instance fix_text.

Definition queue_db : db :=
  set_job_queue (λ _, <[2 := JobRow 1 "post_processing" job_new None 0]> {[1 := JobRow 1 "post_processing" job_new None 0]})
    2 fix_db.
Definition two_workers : gmap string worker_state := <["w1" := Idle]> {["w2" := Idle]}.

Lemma queue_pool_inv : pool_inv (Pool queue_db two_workers).
Proof.
  assert (Hidle : ∀ w st, two_workers !! w = Some st → st = Idle).
  { intros w st. unfold two_workers. rewrite lookup_insert_Some, lookup_singleton_Some. by intros [[_ <-]|[_ [_ <-]]]. }
  split; cbn.
  - apply map_Forall_insert_2; [done|]. by apply map_Forall_singleton.
  - intros w id Hw. by apply Hidle in Hw.
  - intros w1 w2 id Hw. by apply Hidle in Hw.
  - intros id [j Hj]. apply lookup_insert_Some in Hj as [[<- _]|[_ [<- _]%lookup_singleton_Some]]; cbn; lia.
Qed.

(** w1 and w2 each claim a job, w2 dies. *)
Definition after_claims : pool := Pool queue_db (<["w2" := Dead]> (<["w2" := Holding 2]> (<["w1" := Holding 1]> two_workers))).

Lemma claims_run : rtc pool_step (Pool queue_db two_workers) after_claims.
Proof.
  eapply rtc_l; [apply (step_claim _ _ "w1" 1 []); vm_compute; reflexivity|].
  eapply rtc_l; [apply (step_claim _ _ "w2" 2 []); vm_compute; reflexivity|].
  apply rtc_once, (step_crash _ _ "w2" (Holding 2)); [vm_compute; reflexivity|done].
Qed.

Lemma jobs_exactly_once_witness : ∃ j, job_queue (pl_db after_claims) !! 2 = Some j ∧
  ((j_status j = job_new ∧ j_processed j = 0 ∧ j_worker j = None) ∨
   (j_status j = job_done ∧ j_processed j = 1 ∧ is_Some (j_worker j))).
Proof.
  eexists. split; [reflexivity|].
  exact (proj1 (proj2 (jobs_exactly_once _ _ queue_pool_inv claims_run)) 2 _ eq_refl).
Defined.

Lemma runWorker_drains_witness :
  ∃ t', runWorker 3 (λ _, ∅) 0 "w1" no_fault 0%nat queue_db = (Ok true, t', drained "w1" queue_db).
Proof.
  destruct (runWorker_drains "w1" queue_db 0%nat) as [Hr _]; [reflexivity| |exact Hr].
  apply map_Forall_insert_2; [done|]. by apply map_Forall_singleton.
Defined.
