(* ===== verification/Retry.v ===== *)
(** Retrying a transaction that Postgres turned away (src/concurrency/lib.ts):
    the whole transaction again, and only for the two codes that mean "correct,
    run it again".

    Under REPEATABLE READ an attempt works on the rows as they were when it
    began: what others commit meanwhile is seen by the next attempt, so their
    work is done before each attempt. *)
From S2P Require Import Prelude Schema Sql Fixtures.
#[local] Open Scope Z_scope.

Definition RETRYABLE_CODES : list string := ["40001"; "40P01"].
Definition retryable (e : exn) : bool :=
  match e with PgError code => bool_decide (code ∈ RETRYABLE_CODES) | _ => false end.

Section retry.
Context {A : Type} (others : nat → db → db) (fn : sql A).

(** [try { await m } catch]: the outcome as a value. *)
Definition sql_try {B} (m : sql B) : sql (result B) := λ φ t d, let '(r, t', d') := m φ t d in (Ok r, t', d').
Definition meanwhile : sql unit := λ φ t d, (Ok tt, t, others t d).

(** One turn of the loop: connect, BEGIN, the work, COMMIT (or ROLLBACK). *)
Definition attempt_once : sql (result A) :=
  _ ← query (λ d, (Ok tt, d));
  _ ← meanwhile;
  sql_try (transaction (a ← fn; mret (Commit a))).

(** The loop with [more] attempts after this one ([maxAttempts - attempt]). *)
Fixpoint retry_from (more : nat) : sql A :=
  r ← attempt_once;
  match r, more with
  | Ok a, _ => mret a
  | Err e, S more => if retryable e then retry_from more else throw e
  | Err e, O => throw e
  end.
Definition withRetry (maxAttempts : Z) : sql A := retry_from (Z.to_nat (maxAttempts - 1)).

(** What others do, and sequence values an abandoned attempt used up. *)
Definition others_only : relation db := rtc (λ d d', (∃ t, d' = others t d) ∨ untouched d d').

Context (Hfn : fault_free fn) (Hseq : seq_mono fn).

(** How a call ends: the work was done once, on the rows of its moment; or not
    at all. *)
Definition done_once (d : db) (a : A) (d' : db) : Prop :=
  ∃ d0 t t', others_only d d0 ∧ fn no_fault t d0 = (Ok a, t', d').
Definition not_done (d d' : db) : Prop := others_only d d'.

Lemma attempt_cases φ t d r t' d' : attempt_once φ t d = (r, t', d') →
  (∃ f, φ t = Some f ∧ r = Err (f_exn f) ∧ d' = d) ∨
  ∃ d0, d0 = others (S t) d ∧
    ((∃ a t0 t1, r = Ok (Ok a) ∧ fn no_fault t0 d0 = (Ok a, t1, d')) ∨
     (∃ e, r = Ok (Err e) ∧ (untouched d0 d' ∨
        ∃ a t0 t1 t2 f, fn no_fault t0 d0 = (Ok a, t1, d') ∧ φ t2 = Some f ∧ f_applied f = true ∧ e = f_exn f))).
Proof.
  unfold attempt_once. intros Hrun. unfold mbind, sql_bind, query, meanwhile, sql_try in Hrun.
  destruct (φ t) as [f|] eqn:Hf.
  { left. exists f. injection Hrun as <- <- <-. by destruct (f_applied f). }
  right. exists (others (S t) d). split; [done|]. set (d0 := others (S t) d) in *.
  destruct (transaction _ φ (S t) d0) as [[x t1] d1] eqn:Htx.
  assert (Hmono : seq_mono (a ← fn; mret (Commit a))) by (apply seq_mono_bind; [done|intros; apply seq_mono_ret]).
  pose proof (seq_mono_transaction _ Hmono _ _ _ _ _ _ Htx) as Hle.
  injection Hrun as <- <- <-. apply transaction_outcome in Htx.
  assert (Hbody : ∀ e t0 d2 t2 d3, (a ← fn; mret (Commit a)) φ t0 d2 = (Ok e, t2, d3) →
    ∃ a, e = Commit a ∧ fn no_fault t0 d2 = (Ok a, t2, d3)).
  { intros e t0 d2 t2 d3 Hr. apply bind_ok_inv in Hr as (a & t3 & d4 & H1 & H2).
    apply ret_ok_inv in H2 as (-> & -> & ->). exists a. split; [done|]. by apply Hfn in H1. }
  inversion Htx as [a t2 d2 _ Hb _|a t2 d2 f _ Hb Hc Ha|a t2 d2 _ Hb|e d2 Hsame]; subst.
  - apply Hbody in Hb as (a' & [= <-] & Hr). left. eauto.
  - apply Hbody in Hb as (a' & [= <-] & Hr). right. eexists. split; [done|]. right. eauto 10.
  - by apply Hbody in Hb as (a' & [=] & _).
  - right. eexists. split; [done|]. left. done.
Qed.

(** A retried transaction happens once.  When Postgres reports a
    serialization failure or a deadlock it has undone the attempt (that is what
    the two codes mean); then, whatever fails and whatever others do, a call
    that returns has done its work exactly once, on the rows of one moment, its
    reads included, and a call that throws has done nothing, except for the
    COMMIT whose answer was lost. *)
Theorem withRetry_once max φ t d r t' d' :
  (∀ t f, φ t = Some f → retryable (f_exn f) = true → f_applied f = false) →
  withRetry max φ t d = (r, t', d') →
  match r with
  | Ok a => done_once d a d'
  | Err e => not_done d d' ∨ (retryable e = false ∧ ∃ a, done_once d a d')
  end.
Proof.
  intros Hφ. unfold withRetry. generalize (Z.to_nat (max - 1)) as more. intros more. revert t d.
  enough (Hgen : ∀ d0 t d, others_only d0 d → retry_from more φ t d = (r, t', d') →
    match r with
    | Ok a => done_once d0 a d'
    | Err e => not_done d0 d' ∨ (retryable e = false ∧ ∃ a, done_once d0 a d')
    end) by (intros t d; apply Hgen; apply rtc_refl).
  induction more as [|more IH]; intros d0 t d Hd Hrun; cbn [retry_from] in Hrun;
    (destruct (attempt_once φ t d) as [[x t1] d1] eqn:Hat; pose proof (attempt_cases _ _ _ _ _ _ Hat) as Hcase).
  all: destruct Hcase as [(f & Hf & -> & ->)|(d2 & Hd2 & Hcase)];
    [rewrite (bind_run_err _ _ _ _ _ _ _ _ Hat) in Hrun; injection Hrun as <- <- <-; by left|].
  all: assert (Hstep : others_only d0 d2) by (eapply rtc_r; [done|left; eauto]).
  all: destruct Hcase as [(a & t0 & t2 & -> & Hr)|(e & -> & Hcase)]; rewrite (bind_run _ _ _ _ _ _ _ _ Hat) in Hrun;
    [injection Hrun as <- <- <-; by exists d2, t0, t2|].
  all: assert (Hthrow : not_done d0 d1 ∨ (retryable e = false ∧ ∃ a, done_once d0 a d1)).
  1, 3: destruct Hcase as [Hu|(a & t0 & t2 & t3 & f & Hr & Hf & Ha & ->)];
    [left; eapply rtc_r; [done|by right]|right; split; [|by exists a, d2, t0, t2]];
    destruct (retryable (f_exn f)) eqn:Hret; [by rewrite (Hφ _ _ Hf Hret) in Ha|done].
  - injection Hrun as <- <- <-. exact Hthrow.
  - destruct (retryable e) eqn:Hret; [|injection Hrun as <- <- <-; destruct Hthrow as [?|[_ ?]]; [by left|by right]].
    destruct Hthrow as [Hnd|[? _]]; [|done]. by apply (IH d0 t1 d1).
Qed.
End retry.

(** ** Two read-modify-write transactions that collide *)

(** A read-modify-write of one balance. *)
Definition adjust (id delta : Z) : sql unit :=
  seen ← query (λ d, (match users d !! id with Some u => Ok (u_balance u) | None => Err (JsError "no row") end, d));
  query (λ d, (Ok tt, set_users (alter (λ u, UserRow (u_email u) (u_full_name u) (seen + delta) (u_password_hash u) (u_role u)) id) d)).

Lemma adjust_fault_free id delta : fault_free (adjust id delta).
Proof. unfold adjust. fault_free_tac. Qed.
Lemma adjust_seq id delta : seq_mono (adjust id delta).
Proof. unfold adjust. seq_mono_tac; stmt_seq_le. Qed.

(** The other transaction takes 30.00 while the first attempt is under way,
    which fails with 40001 at its COMMIT. *)
Definition collide (t : nat) (d : db) : db :=
  if bool_decide (t = 7%nat) then set_users (alter (λ u, UserRow (u_email u) (u_full_name u) (u_balance u - 3000) (u_password_hash u) (u_role u)) 1) d else d.
Definition conflict_at_commit : oracle := λ t, if bool_decide (t = 4%nat) then Some (Fault false (PgError "40001")) else None.
Definition retried : result unit * nat * db := withRetry collide (adjust 1 5000) 8 conflict_at_commit 0%nat fix_db.

Lemma withRetry_once_witness : retried.1.1 = Ok tt ∧ done_once collide (adjust 1 5000) fix_db tt retried.2 ∧
  u_balance <$> users retried.2 !! 1 = Some 102000.
Proof.
  assert (Hok : retried.1.1 = Ok tt) by (vm_compute; reflexivity).
  split; [exact Hok|]. split; [|vm_compute; reflexivity].
  destruct retried as [[r t'] d'] eqn:Hrun. cbn [fst snd] in *. subst r.
  apply (withRetry_once collide (adjust 1 5000) (adjust_fault_free 1 5000) (adjust_seq 1 5000) 8 conflict_at_commit 0%nat fix_db (Ok tt) t' d').
  - intros t f. unfold conflict_at_commit. destruct (bool_decide _); [|discriminate]. intros [= <-] _. reflexivity.
  - exact Hrun.
Defined.
