(* ===== verification/Redis.v ===== *)
(** Redis as the project uses it (src/redis): the commands of ioredis and of
    the Lua scripts on an abstract server, with the documented meaning of each
    as a law about the keys a client sees.

    A Lua script runs atomically on the server: it is a function of the server
    state; a client's command is an awaited round trip ([Async]). *)
From S2P Require Import Prelude Schema Sql Async.
#[local] Open Scope Z_scope.

(** A value: a string, or a sorted set of members with integral scores. *)
Inductive rvalue := RString (s : string) | RZset (z : gmap string Z).

(** What a client sees: the server's clock in microseconds and the live keys,
    each with the millisecond it expires at, if it does. *)
Record rview := RView { r_now : Z; r_keys : gmap string (rvalue * option Z) }.

(** The clock in milliseconds, as the scripts compute it and as TTLs count. *)
Definition now_ms (v : rview) : Z := r_now v / 1000.

Definition set_keys (f : gmap string (rvalue * option Z) → gmap string (rvalue * option Z)) (v : rview) : rview :=
  RView (r_now v) (f (r_keys v)).

Definition string_at (k : string) (v : rview) : option string :=
  match r_keys v !! k with Some (RString s, _) => Some s | _ => None end.
Definition zset_at (k : string) (v : rview) : gmap string Z :=
  match r_keys v !! k with Some (RZset z, _) => z | _ => ∅ end.

(** Key [k] is free for a string command, for a sorted set command. *)
Definition string_key (k : string) (v : rview) : Prop :=
  match r_keys v !! k with Some (RZset _, _) => False | _ => True end.
Definition zset_key (k : string) (v : rview) : Prop :=
  match r_keys v !! k with Some (RString _, _) => False | _ => True end.

(** SET with EX (seconds) or PX (milliseconds), both positive. *)
Definition put_string (k s : string) (ttl_ms : Z) (v : rview) : rview :=
  set_keys <[k := (RString s, Some (now_ms v + ttl_ms))]> v.
(** An emptied sorted set is a deleted key; the TTL of the others stays. *)
Definition put_zset (k : string) (z : gmap string Z) (v : rview) : rview :=
  set_keys (if bool_decide (z = ∅) then delete k else
    <[k := (RZset z, match r_keys v !! k with Some (_, e) => e | None => None end)]>) v.
Definition put_ttl (k : string) (ttl_ms : Z) (v : rview) : rview :=
  set_keys (alter (λ x, (x.1, Some (now_ms v + ttl_ms))) k) v.

(** Time passes: a key lives until its millisecond has come and is gone after
    it. *)
Definition elapse (v v' : rview) : Prop :=
  r_now v ≤ r_now v' ∧
  (∀ k x, r_keys v' !! k = Some x → r_keys v !! k = Some x ∧ (∀ e, x.2 = Some e → now_ms v' ≤ e)) ∧
  (∀ k x, r_keys v !! k = Some x → (∀ e, x.2 = Some e → now_ms v' < e) → r_keys v' !! k = Some x).

(** ** The server *)

Class Redis := {
  redis : Type;
  (** TIME: seconds and microseconds *)
  cmd_time : redis → Z * Z;
  cmd_zremrangebyscore : string → Z → Z → redis → result unit * redis;
  cmd_zcard : string → redis → result Z;
  cmd_zadd : string → Z → string → redis → result unit * redis;
  cmd_pexpire : string → Z → redis → redis;
  (** ZRANGE key 0 0 WITHSCORES *)
  cmd_zrange_first : string → redis → result (option (string * Z));
  cmd_get : string → redis → result (option string);
  (** SET key value EX/PX ttl, the ttl in milliseconds *)
  cmd_set : string → string → Z → redis → result unit * redis;
  (** SET key value PX ttl NX: whether it was set *)
  cmd_set_nx : string → string → Z → redis → result bool * redis;
  (** GETEX key EX ttl *)
  cmd_getex : string → Z → redis → result (option string) * redis;
  cmd_del : string → redis → result Z * redis;
}.

(** Documented behaviour, on keys of the right type.  A write can be refused
    for want of memory ([cmd_set] and [cmd_set_nx] on a full [noeviction]
    instance), in which case nothing changes.  The sorted-set commands and EXPIRE
    are never refused for memory: only the rate limiter uses them, and it runs
    against the cache instance, whose [allkeys-lru] policy evicts keys instead
    of refusing writes.  Eviction, like any other writer, is a step of the
    others, not of a command. *)
Class RedisLaws `{Redis} := {
  view : redis → rview;
  time_law s : cmd_time s = (r_now (view s) / 1000000, r_now (view s) mod 1000000);
  zrem_law k lo hi s : zset_key k (view s) →
    ∃ s', cmd_zremrangebyscore k lo hi s = (Ok tt, s') ∧
      view s' = put_zset k (filter (λ p, ¬ (lo ≤ p.2 ≤ hi)) (zset_at k (view s))) (view s);
  zcard_law k s : zset_key k (view s) → cmd_zcard k s = Ok (Z.of_nat (size (zset_at k (view s))));
  zadd_law k x m s : zset_key k (view s) →
    ∃ s', cmd_zadd k x m s = (Ok tt, s') ∧ view s' = put_zset k (<[m := x]> (zset_at k (view s))) (view s);
  pexpire_law k ms s : 0 < ms → view (cmd_pexpire k ms s) = put_ttl k ms (view s);
  zrange_law k s : zset_key k (view s) →
    ∃ r, cmd_zrange_first k s = Ok r ∧
      match r with
      | None => zset_at k (view s) = ∅
      | Some (m, x) => zset_at k (view s) !! m = Some x ∧ map_Forall (λ _ y, x ≤ y) (zset_at k (view s))
      end;
  get_law k s : string_key k (view s) → cmd_get k s = Ok (string_at k (view s));
  set_law k x ms s : 0 < ms →
    (∃ s', cmd_set k x ms s = (Ok tt, s') ∧ view s' = put_string k x ms (view s)) ∨
    (∃ e s', cmd_set k x ms s = (Err e, s') ∧ view s' = view s);
  set_nx_law k x ms s : 0 < ms →
    match r_keys (view s) !! k with
    | Some _ => ∃ s', cmd_set_nx k x ms s = (Ok false, s') ∧ view s' = view s
    | None =>
        (∃ s', cmd_set_nx k x ms s = (Ok true, s') ∧ view s' = put_string k x ms (view s)) ∨
        (∃ e s', cmd_set_nx k x ms s = (Err e, s') ∧ view s' = view s)
    end;
  getex_law k ms s : 0 < ms → string_key k (view s) →
    ∃ s', cmd_getex k ms s = (Ok (string_at k (view s)), s') ∧ view s' = put_ttl k ms (view s);
  del_law k s : ∃ n s', cmd_del k s = (Ok n, s') ∧ view s' = set_keys (delete k) (view s);
}.

(** ** What the commands leave under a key *)

Lemma zset_at_put k z v : zset_at k (put_zset k z v) = z.
Proof.
  unfold zset_at, put_zset, set_keys. cbn. case_bool_decide as Hz.
  - by rewrite lookup_delete_eq.
  - by rewrite lookup_insert_eq.
Qed.
Lemma zset_key_put k k' z v : zset_key k v → zset_key k (put_zset k' z v).
Proof.
  unfold zset_key, put_zset, set_keys. cbn. intros Hk. destruct (decide (k = k')) as [<-|Hne].
  - case_bool_decide; [by rewrite lookup_delete_eq|by rewrite lookup_insert_eq].
  - case_bool_decide; [by rewrite lookup_delete_ne|by rewrite lookup_insert_ne].
Qed.
Lemma put_zset_ne k k' z v : k ≠ k' → r_keys (put_zset k' z v) !! k = r_keys v !! k.
Proof.
  intros Hne. unfold put_zset, set_keys. cbn.
  case_bool_decide; [by rewrite lookup_delete_ne|by rewrite lookup_insert_ne].
Qed.
Lemma put_zset_eq k z v : r_keys (put_zset k z v) !! k =
  if bool_decide (z = ∅) then None else Some (RZset z, match r_keys v !! k with Some (_, e) => e | None => None end).
Proof.
  unfold put_zset, set_keys. cbn. case_bool_decide; [by rewrite lookup_delete_eq|by rewrite lookup_insert_eq].
Qed.
Lemma put_ttl_ne k k' ms v : k ≠ k' → r_keys (put_ttl k' ms v) !! k = r_keys v !! k.
Proof. intros Hne. unfold put_ttl, set_keys. cbn. by rewrite lookup_alter_ne. Qed.
Lemma put_ttl_eq k ms v : r_keys (put_ttl k ms v) !! k = (λ x, (x.1, Some (now_ms v + ms))) <$> r_keys v !! k.
Proof. unfold put_ttl, set_keys. cbn. by rewrite lookup_alter_eq. Qed.
Lemma now_put_zset k z v : r_now (put_zset k z v) = r_now v.
Proof. done. Qed.
Lemma now_put_ttl k ms v : r_now (put_ttl k ms v) = r_now v.
Proof. done. Qed.

Lemma elapse_refl v : (∀ k x e, r_keys v !! k = Some (x, Some e) → now_ms v ≤ e) → elapse v v.
Proof.
  intros Hv. split_and!; [lia| |done]. intros k [x e'] Hx. split; [done|].
  cbn. intros e ->. by eapply Hv.
Qed.
