(* ===== verification/RedisSim.v ===== *)
(** A small Redis for the examples and witnesses: the documented meaning of the
    commands, run on the view itself. *)
From S2P Require Import Prelude Schema Sql Async Redis.
#[local] Open Scope Z_scope.

Definition WRONGTYPE : exn := JsError "WRONGTYPE Operation against a key holding the wrong kind of value".

Definition zset_of (k : string) (v : rview) : option (gmap string Z) :=
  match r_keys v !! k with Some (RString _, _) => None | Some (RZset z, _) => Some z | None => Some ∅ end.
Definition string_of (k : string) (v : rview) : option (option string) :=
  match r_keys v !! k with Some (RZset _, _) => None | Some (RString s, _) => Some (Some s) | None => Some None end.

Definition first_of (l : list (string * Z)) : option (string * Z) :=
  foldr (λ p acc, match acc with Some q => if p.2 <=? q.2 then Some p else acc | None => Some p end) None l.

Definition sim_redis : Redis := {|
  redis := rview;
  cmd_time := λ v, (r_now v / 1000000, r_now v mod 1000000);
  cmd_zremrangebyscore := λ k lo hi v,
    match zset_of k v with
    | Some z => (Ok tt, put_zset k (filter (λ p, ¬ (lo ≤ p.2 ≤ hi)) z) v)
    | None => (Err WRONGTYPE, v)
    end;
  cmd_zcard := λ k v, match zset_of k v with Some z => Ok (Z.of_nat (size z)) | None => Err WRONGTYPE end;
  cmd_zadd := λ k x m v,
    match zset_of k v with Some z => (Ok tt, put_zset k (<[m := x]> z) v) | None => (Err WRONGTYPE, v) end;
  cmd_pexpire := put_ttl;
  cmd_zrange_first := λ k v,
    match zset_of k v with Some z => Ok (first_of (map_to_list z)) | None => Err WRONGTYPE end;
  cmd_get := λ k v, match string_of k v with Some s => Ok s | None => Err WRONGTYPE end;
  cmd_set := λ k x ms v, (Ok tt, put_string k x ms v);
  cmd_set_nx := λ k x ms v,
    match r_keys v !! k with Some _ => (Ok false, v) | None => (Ok true, put_string k x ms v) end;
  cmd_getex := λ k ms v,
    match string_of k v with Some s => (Ok s, put_ttl k ms v) | None => (Err WRONGTYPE, v) end;
  cmd_del := λ k v, (Ok (if decide (is_Some (r_keys v !! k)) then 1 else 0), set_keys (delete k) v);
|}.

Lemma first_of_min l :
  match first_of l with
  | None => l = []
  | Some p => p ∈ l ∧ Forall (λ q, p.2 ≤ q.2) l
  end.
Proof.
  induction l as [|p l IH]; [done|].
  change (first_of (p :: l)) with (match first_of l with Some q => if p.2 <=? q.2 then Some p else first_of l | None => Some p end).
  destruct (first_of l) as [q|]; [|subst; split; [left|by repeat constructor]].
  destruct IH as [Hin Hall]. destruct (Z.leb_spec p.2 q.2).
  - split; [left|]. constructor; [done|]. eapply Forall_impl; [exact Hall|]. cbn. intros; lia.
  - split; [by right|]. constructor; [lia|done].
Qed.

Lemma zset_of_at k v : zset_key k v → zset_of k v = Some (zset_at k v).
Proof. unfold zset_key, zset_of, zset_at. by destruct (r_keys v !! k) as [[[|] ?]|]. Qed.
Lemma string_of_at k v : string_key k v → string_of k v = Some (string_at k v).
Proof. unfold string_key, string_of, string_at. by destruct (r_keys v !! k) as [[[|] ?]|]. Qed.

Lemma sim_redis_laws : @RedisLaws sim_redis.
Proof.
  unshelve econstructor; [exact (λ v, v)|..]; cbn.
  - done.
  - intros k lo hi s Hk. rewrite zset_of_at by done. eauto.
  - intros k s Hk. by rewrite zset_of_at.
  - intros k x m s Hk. rewrite zset_of_at by done. eauto.
  - done.
  - intros k s Hk. rewrite zset_of_at by done. eexists. split; [done|].
    pose proof (first_of_min (map_to_list (zset_at k s))) as Hf. destruct (first_of _) as [[m x]|].
    + destruct Hf as [Hin%elem_of_map_to_list Hall]. split; [done|]. intros i y Hy.
      rewrite Forall_forall in Hall. apply (Hall (i, y)). by apply elem_of_map_to_list.
    + by apply map_to_list_empty_iff.
  - intros k s Hk. by rewrite string_of_at.
  - intros. left. eauto.
  - intros k x ms s _. destruct (r_keys s !! k); [eauto|left; eauto].
  - intros k ms s _ Hk. rewrite string_of_at by done. eauto.
  - eauto.
Defined.

Definition at_ms (t : Z) (v : rview) : rview := RView (1000 * t) (r_keys v).
Definition sim_start (t : Z) : rview := RView (1000 * t) ∅.

(** A codec of texts: one leading character marks a value. *)
Definition sim_stringify (v : string) : string := "v" +:+ v.
Definition sim_parse (s : string) : result (option string) :=
  match s with String _ v => Ok (Some v) | EmptyString => Err (JsError "Unexpected end of JSON input") end.
