(* ===== verification/RateLimit.v ===== *)
(** The rate limiter shared by every pod (src/redis/rate-limit.ts): the
    sliding-window Lua script on a sorted set of admission times, the limiter
    and its middleware.

    The script is compared with a reference that keeps, per client, the list of
    all admissions: the theorems hold over any history of checks from any
    number of pods, of other commands and of time passing. *)
From stdpp Require Import pretty.
From S2P Require Import Prelude JsNumber Events Schema Sql Async Limits Http Redis RedisSim.
#[local] Open Scope Z_scope.

Record RateLimitResult := RateLimitResultOf { rl_allowed : bool; rl_remaining : Z; rl_retryAfterSec : Z }.
Record RateLimitOptions := RateLimitOptionsOf {
  rl_limit : Z;
  rl_windowMs : Z;
  rl_prefix : option string;
  rl_failOpen : option bool;
}.

(** How a connect-style middleware ends. *)
Inductive middleware_end := Next | Respond (r : http_response) | NextError (e : exn).

Definition nil_arithmetic : exn := JsError "attempt to perform arithmetic on a nil value".

Section limiter.
Context `{Redis}.

(** The script: KEYS[1], ARGV[1..3]; the answer {allowed, remaining, retry}. *)
Definition SLIDING_WINDOW_LUA (key : string) (win lim : Z) (member : string) (s : redis) :
    result (Z * Z * Z) * redis :=
  let t := cmd_time s in
  let now := t.1 * 1000 + t.2 / 1000 in
  match cmd_zremrangebyscore key 0 (now - win) s with
  | (Err e, s) => (Err e, s)
  | (Ok _, s) =>
      match cmd_zcard key s with
      | Err e => (Err e, s)
      | Ok n =>
          if n <? lim then
            match cmd_zadd key now member s with
            | (Err e, s) => (Err e, s)
            | (Ok _, s) => (Ok (1, lim - n - 1, 0), cmd_pexpire key win s)
            end
          else
            match cmd_zrange_first key s with
            | Err e => (Err e, s)
            | Ok None => (Err nil_arithmetic, s)
            | Ok (Some (_, oldest)) => (Ok (0, 0, oldest + win - now), s)
            end
      end
  end.

Definition rl_key (opts : RateLimitOptions) (clientId : string) : string :=
  default "rl:" (rl_prefix opts) +:+ clientId.

(** The answer of the script as the limiter reports it. *)
Definition of_script (r : Z * Z * Z) : RateLimitResult :=
  let '(allowed, remaining, retryMs) := r in
  RateLimitResultOf (allowed =? 1) remaining (if allowed =? 1 then 0 else Z.max 1 (ceil_div retryMs 1000)).

(** [RateLimiter.check] *)
Definition check (opts : RateLimitOptions) (clientId : string) : async redis RateLimitResult :=
  member ← randomUUID;
  r ← io_try (roundtrip (SLIDING_WINDOW_LUA (rl_key opts clientId) (rl_windowMs opts) (rl_limit opts) member));
  match r with
  | Ok answer => mret (of_script answer)
  | Err e =>
      if default true (rl_failOpen opts) then mret (RateLimitResultOf true (rl_limit opts) 0) else io_throw e
  end.

Definition too_many (retryAfterSec : Z) : http_response :=
  HttpResponse 429
    [("Retry-After", pretty retryAfterSec); ("Content-Type", "application/problem+json")]
    (JObj [("type", JStr "about:blank#rate-limited"); ("title", JStr "Too Many Requests");
           ("status", JNum (num_of_Z 429));
           ("detail", JStr ("Ліміт вичерпано, повторіть через " +:+ pretty retryAfterSec +:+ " с"))]).

Definition rateLimitMiddleware (opts : RateLimitOptions) (clientId : string) : async redis middleware_end :=
  r ← io_try (check opts clientId);
  match r with
  | Ok r => mret (if rl_allowed r then Next else Respond (too_many (rl_retryAfterSec r)))
  | Err e => mret (NextError e)
  end.
End limiter.

(** ** The reference: all admissions of a client, newest first *)

Definition recent (win now : Z) (log : list Z) : list Z := filter (λ x, now - win < x) log.
#[export] Instance recent_Permutation win now : Proper ((≡ₚ) ==> (≡ₚ)) (recent win now).
Proof. intros l l' Hl. unfold recent. by rewrite Hl. Qed.
Definition reference (win lim now : Z) (log : list Z) : Z * Z * Z :=
  let l := recent win now log in
  let n := Z.of_nat (length l) in
  if n <? lim then (1, lim - n - 1, 0) else (0, 0, default 0 (last l) + win - now).

Section window.
Context `{RedisLaws} (opts : RateLimitOptions).
Notation win := (rl_windowMs opts).
Notation lim := (rl_limit opts).

Definition log_of (log : gmap string (list Z)) (c : string) : list Z := default [] (log !! c).
Definition record (c : string) (now : Z) (r : result (Z * Z * Z)) (log : gmap string (list Z)) : gmap string (list Z) :=
  match r with Ok (1, _, _) => <[c := now :: log_of log c]> log | _ => log end.

(** A server, and the admissions of every client since it had none. *)
Inductive history : redis → gmap string (list Z) → Prop :=
| history_start s :
    0 ≤ r_now (view s) → (∀ c, r_keys (view s) !! rl_key opts c = None) → history s ∅
| history_elapse s s' log : history s log → elapse (view s) (view s') → history s' log
| history_other s s' log :
    history s log → r_now (view s') = r_now (view s) →
    (∀ c, r_keys (view s') !! rl_key opts c = r_keys (view s) !! rl_key opts c) → history s' log
| history_check s s' log c m r :
    history s log → m ∉ dom (zset_at (rl_key opts c) (view s)) →
    SLIDING_WINDOW_LUA (rl_key opts c) win lim m s = (r, s') →
    history s' (record c (now_ms (view s)) r log).

(** The part of a sorted set that is in the window. *)
Definition scores (z : gmap string Z) : list Z := (map_to_list z).*2.

Record window_inv (s : redis) (log : gmap string (list Z)) : Prop := {
  wi_now : 0 ≤ r_now (view s);
  wi_type : ∀ c, zset_key (rl_key opts c) (view s);
  wi_scores : ∀ c, Forall (λ x, 0 ≤ x ≤ now_ms (view s)) (scores (zset_at (rl_key opts c) (view s)));
  wi_log : ∀ c, Forall (λ x, x ≤ now_ms (view s)) (log_of log c);
  wi_sorted : ∀ c, StronglySorted Z.ge (log_of log c);
  wi_same : ∀ c, recent win (now_ms (view s)) (scores (zset_at (rl_key opts c) (view s)))
                   ≡ₚ recent win (now_ms (view s)) (log_of log c);
  wi_ttl : ∀ c v e, r_keys (view s) !! rl_key opts c = Some (v, e) →
             ∃ x, e = Some x ∧ Forall (λ y, y + win ≤ x) (scores (zset_at (rl_key opts c) (view s)));
}.

(** ** Sorted sets and their scores *)

Lemma scores_insert z m x : z !! m = None → scores (<[m := x]> z) ≡ₚ x :: scores z.
Proof. intros Hm. unfold scores. by rewrite map_to_list_insert. Qed.
Lemma elem_of_scores z x : x ∈ scores z ↔ ∃ m, z !! m = Some x.
Proof.
  unfold scores. rewrite list_elem_of_fmap. split.
  - intros ([m y] & -> & Hin%elem_of_map_to_list). eauto.
  - intros [m Hm]. exists (m, x). split; [done|]. by apply elem_of_map_to_list.
Qed.
Lemma scores_filter z (P : Z → Prop) `{∀ x, Decision (P x)} :
  scores (filter (λ p, P p.2) z) ≡ₚ filter P (scores z).
Proof.
  induction z as [|m x z Hm IH] using map_ind.
  { by rewrite map_filter_empty. }
  rewrite (scores_insert z m x Hm), filter_cons. case_decide as Hx.
  - rewrite map_filter_insert_True by done. rewrite scores_insert; [by rewrite IH|].
    apply map_lookup_filter_None. by left.
  - rewrite map_filter_insert_False by done. by rewrite delete_id.
Qed.
Lemma scores_size z : length (scores z) = size z.
Proof. unfold scores. rewrite length_fmap. apply length_map_to_list. Qed.

(** ** One run of the script *)

Lemma script_now s : (cmd_time s).1 * 1000 + (cmd_time s).2 / 1000 = now_ms (view s).
Proof.
  rewrite time_law. unfold now_ms. cbn.
  pose proof (Z.div_mod (r_now (view s)) 1000000 ltac:(done)) as Hd.
  rewrite <- Z.div_add_l by done. f_equal. lia.
Qed.

(** The set with the entries that left the window removed. *)
Definition purged (k : string) (s : redis) : gmap string Z :=
  filter (λ p, now_ms (view s) - win < p.2) (zset_at k (view s)).

Lemma script_run k m s :
  0 < win → zset_key k (view s) → Forall (λ x, 0 ≤ x) (scores (zset_at k (view s))) →
  m ∉ dom (zset_at k (view s)) →
  let z := purged k s in
  let n := Z.of_nat (size z) in
  (n < lim ∧ ∃ s', SLIDING_WINDOW_LUA k win lim m s = (Ok (1, lim - n - 1, 0), s') ∧
     view s' = put_ttl k win (put_zset k (<[m := now_ms (view s)]> z) (put_zset k z (view s)))) ∨
  (lim ≤ n ∧ ∃ s' r, SLIDING_WINDOW_LUA k win lim m s = (r, s') ∧ view s' = put_zset k z (view s) ∧
     match r with
     | Ok (a, b, c) => a = 0 ∧ b = 0 ∧ ∃ x, c = x + win - now_ms (view s) ∧ x ∈ scores z ∧ Forall (λ y, x ≤ y) (scores z)
     | Err e => e = nil_arithmetic ∧ z = ∅
     end).
Proof.
  intros Hwin Hk Hpos Hm z n. unfold SLIDING_WINDOW_LUA. cbv zeta. rewrite script_now.
  set (now := now_ms (view s)). destruct (zrem_law k 0 (now - win) s Hk) as (s1 & Hz & Hv1).
  assert (Hsame : filter (λ p : string * Z, ¬ 0 ≤ p.2 ≤ now - win) (zset_at k (view s)) = z).
  { apply map_filter_ext. intros i x Hx. cbn. fold now.
    rewrite Forall_forall in Hpos. specialize (Hpos x ltac:(apply elem_of_scores; eauto)). cbn in Hpos. lia. }
  rewrite Hsame in Hv1. rewrite Hz.
  assert (Hk1 : zset_key k (view s1)) by (rewrite Hv1; by apply zset_key_put).
  assert (Hz1 : zset_at k (view s1) = z) by (rewrite Hv1; apply zset_at_put).
  rewrite zcard_law, Hz1 by done. fold n. destruct (Z.ltb_spec n lim) as [Hlt|Hge]; [left|right].
  - split; [done|]. destruct (zadd_law k now m s1 Hk1) as (s2 & Ha & Hv2). rewrite Ha.
    eexists. split; [done|]. rewrite pexpire_law by done. by rewrite Hv2, Hz1, Hv1.
  - split; [done|]. destruct (zrange_law k s1 Hk1) as ([[w x]|] & Hr & Hx); rewrite Hr; rewrite Hz1 in Hx.
    + eexists _, _. split; [done|]. split; [done|]. split_and!; try done. exists x. destruct Hx as [Hx Hall].
      split_and!; [done|apply elem_of_scores; eauto|].
      apply Forall_forall. intros y [i Hi]%elem_of_scores. by apply (Hall i y).
    + eexists _, _. done.
Qed.

Lemma purged_scores k s : scores (purged k s) ≡ₚ recent win (now_ms (view s)) (scores (zset_at k (view s))).
Proof. apply (scores_filter _ (λ x, now_ms (view s) - win < x)). Qed.

(** ** The invariant *)

Lemma rl_key_inj c c' : rl_key opts c = rl_key opts c' → c = c'.
Proof. unfold rl_key. intros Hc. by apply (inj (String.append _)) in Hc. Qed.

Lemma recent_recent now now' l : now ≤ now' → recent win now' (recent win now l) = recent win now' l.
Proof. intros Hle. unfold recent. apply list_filter_filter_l. intros; lia. Qed.

Lemma window_start s : 0 ≤ r_now (view s) → (∀ c, r_keys (view s) !! rl_key opts c = None) → window_inv s ∅.
Proof.
  intros Hnow Hnone.
  assert (Hz : ∀ c, zset_at (rl_key opts c) (view s) = ∅) by (intros c; unfold zset_at; by rewrite Hnone).
  assert (Hl : ∀ c, log_of ∅ c = []) by (intros c; unfold log_of; by rewrite lookup_empty).
  split; intros; rewrite ?Hz, ?Hl; unfold scores; rewrite ?map_to_list_empty; try done; try constructor.
  - unfold zset_key. by rewrite Hnone.
  - congruence.
Qed.

Lemma now_ms_mono v v' : r_now v ≤ r_now v' → now_ms v ≤ now_ms v'.
Proof. intros. unfold now_ms. by apply Z.div_le_mono. Qed.

(** What a client's entry may have become when time has passed. *)
Lemma elapse_key c s s' log : window_inv s log → elapse (view s) (view s') →
  zset_key (rl_key opts c) (view s') ∧
  (zset_at (rl_key opts c) (view s') = zset_at (rl_key opts c) (view s) ∨
   zset_at (rl_key opts c) (view s') = ∅ ∧
   Forall (λ y, y + win ≤ now_ms (view s')) (scores (zset_at (rl_key opts c) (view s)))).
Proof.
  intros Hi (Hnow & Hold & Hkeep). pose proof (wi_type _ _ Hi c) as Ht. pose proof (wi_ttl _ _ Hi c) as Httl.
  unfold zset_at, zset_key in *.
  destruct (r_keys (view s') !! rl_key opts c) as [x|] eqn:Hx.
  - destruct (Hold _ _ Hx) as [Hx' _]. rewrite Hx' in *. split; [done|by left].
  - split; [done|]. destruct (r_keys (view s) !! rl_key opts c) as [[v e]|] eqn:Hy; [|by left].
    right. split; [done|]. destruct (Httl v e eq_refl) as (t & -> & Hf).
    eapply Forall_impl; [exact Hf|]. cbn. intros y Hle.
    destruct (decide (now_ms (view s') < t)) as [Hlt|]; [|lia].
    assert (None = Some (v, Some t)) as [=]. rewrite <- Hx. apply Hkeep; [done|]. by intros ? [= <-].
Qed.

Lemma recent_none now l : Forall (λ y, y + win ≤ now) l → recent win now l = [].
Proof. intros Hl. apply filter_none. intros x Hx. rewrite Forall_forall in Hl. specialize (Hl x Hx). cbn in Hl. lia. Qed.

Lemma window_elapse s s' log : window_inv s log → elapse (view s) (view s') → window_inv s' log.
Proof.
  intros Hi He. pose proof He as (Hnow & Hold & _). pose proof (now_ms_mono _ _ Hnow) as Hms.
  split.
  - pose proof (wi_now _ _ Hi). lia.
  - intros c. by eapply elapse_key.
  - intros c. destruct (elapse_key c _ _ _ Hi He) as [_ [->|[-> _]]]; [|constructor].
    eapply Forall_impl; [apply (wi_scores _ _ Hi c)|]. cbn. lia.
  - intros c. eapply Forall_impl; [apply (wi_log _ _ Hi c)|]. cbn. lia.
  - apply (wi_sorted _ _ Hi).
  - intros c. rewrite <- (recent_recent _ _ (log_of log c) Hms), <- (wi_same _ _ Hi c).
    rewrite (recent_recent _ _ _ Hms). destruct (elapse_key c _ _ _ Hi He) as [_ [->|[-> Hf]]]; [done|].
    by rewrite (recent_none _ _ Hf).
  - intros c v e Hx. destruct (Hold _ _ Hx) as [Hx' _]. destruct (wi_ttl _ _ Hi c v e Hx') as (t & -> & Hf).
    exists t. split; [done|]. destruct (elapse_key c _ _ _ Hi He) as [_ [->|[-> _]]]; [done|constructor].
Qed.

Lemma window_other s s' log : window_inv s log → r_now (view s') = r_now (view s) →
  (∀ c, r_keys (view s') !! rl_key opts c = r_keys (view s) !! rl_key opts c) → window_inv s' log.
Proof.
  intros Hi Hnow Hkeys.
  assert (Hms : now_ms (view s') = now_ms (view s)) by (unfold now_ms; by rewrite Hnow).
  assert (Hz : ∀ c, zset_at (rl_key opts c) (view s') = zset_at (rl_key opts c) (view s))
    by (intros c; unfold zset_at; by rewrite Hkeys).
  destruct Hi. split; intros; rewrite ?Hms, ?Hz, ?Hnow; try done.
  - unfold zset_key. rewrite Hkeys. apply wi_type0.
  - eapply wi_ttl0. by rewrite <- Hkeys.
Qed.

(** A step that touches the entry and the log of one client only. *)
Lemma window_update s s' log log' c :
  let now := now_ms (view s) in let k := rl_key opts c in let z := zset_at k (view s') in
  window_inv s log → r_now (view s') = r_now (view s) →
  (∀ c', c' ≠ c → r_keys (view s') !! rl_key opts c' = r_keys (view s) !! rl_key opts c') →
  (∀ c', c' ≠ c → log_of log' c' = log_of log c') →
  zset_key k (view s') → Forall (λ x, 0 ≤ x ≤ now) (scores z) →
  Forall (λ x, x ≤ now) (log_of log' c) → StronglySorted Z.ge (log_of log' c) →
  recent win now (scores z) ≡ₚ recent win now (log_of log' c) →
  (∀ v e, r_keys (view s') !! k = Some (v, e) → ∃ x, e = Some x ∧ Forall (λ y, y + win ≤ x) (scores z)) →
  window_inv s' log'.
Proof.
  cbv zeta. intros [] Hnow Hkeys Hlog. intros. assert (Hms : now_ms (view s') = now_ms (view s)) by (unfold now_ms; by rewrite Hnow).
  split; rewrite ?Hms, ?Hnow; try done; intros c'; (destruct (decide (c' = c)) as [->|Hne]; [done|]);
    unfold zset_at, zset_key in *; rewrite ?Hkeys, ?Hlog by done;
    first [apply wi_type0|apply wi_scores0|apply wi_log0|apply wi_sorted0|apply wi_same0|apply wi_ttl0].
Qed.

(** What a check does to the entry of its client and to its log. *)
Lemma window_check s s' log c m r : 0 < win → window_inv s log → m ∉ dom (zset_at (rl_key opts c) (view s)) →
  SLIDING_WINDOW_LUA (rl_key opts c) win lim m s = (r, s') →
  window_inv s' (record c (now_ms (view s)) r log).
Proof.
  intros Hwin Hi Hm Hrun. set (k := rl_key opts c) in *. set (now := now_ms (view s)).
  pose proof (wi_scores _ _ Hi c) as Hs. fold k now in Hs.
  assert (Hpos : Forall (λ x, 0 ≤ x) (scores (zset_at k (view s)))) by (eapply Forall_impl; [exact Hs|cbn; lia]).
  pose proof (script_run k m s Hwin (wi_type _ _ Hi c) Hpos Hm) as Hscript. cbv zeta in Hscript.
  set (z := purged k s) in *.
  assert (Hz : Forall (λ x, 0 ≤ x ≤ now) (scores z)).
  { unfold z. rewrite purged_scores. apply Forall_forall. rewrite Forall_forall in Hs.
    intros x [_ Hin]%list_elem_of_filter. by apply Hs. }
  assert (Hsame : recent win now (scores z) ≡ₚ recent win now (log_of log c)).
  { unfold z. rewrite purged_scores, recent_recent by (fold now; lia). apply (wi_same _ _ Hi c). }
  assert (Hne : ∀ c', c' ≠ c → rl_key opts c' ≠ k) by (intros c' Hne Heq; by apply rl_key_inj in Heq).
  assert (Hfresh : z !! m = None).
  { apply map_lookup_filter_None. left. by apply not_elem_of_dom. }
  destruct Hscript as [(Hn & s1 & Hr & Hv)|(Hn & s1 & r' & Hr & Hv & Hans)]; rewrite Hrun in Hr; injection Hr as -> ->.
  - assert (Hz' : zset_at k (view s1) = <[m := now]> z).
    { unfold zset_at. rewrite Hv, put_ttl_eq, put_zset_eq, bool_decide_eq_false_2; [done|]. apply insert_non_empty. }
    assert (Hk : r_keys (view s1) !! k = Some (RZset (<[m := now]> z), Some (now + win))).
    { rewrite Hv, put_ttl_eq, put_zset_eq, bool_decide_eq_false_2; [done|]. apply insert_non_empty. }
    assert (Hl : log_of (<[c := now :: log_of log c]> log) c = now :: log_of log c) by (unfold log_of; by rewrite lookup_insert_eq).
    pose proof (wi_log _ _ Hi c) as Hlog. fold now in Hlog.
    apply (window_update s s1 log _ c); fold k now; cbn [record]; rewrite ?Hz', ?(scores_insert _ _ _ Hfresh), ?Hl; try done.
    + by rewrite Hv.
    + intros c' Hc. rewrite Hv, put_ttl_ne, !put_zset_ne by by apply Hne. done.
    + intros c' Hc. unfold log_of. by rewrite lookup_insert_ne.
    + unfold zset_key. by rewrite Hk.
    + constructor; [|done]. unfold now, now_ms. pose proof (wi_now _ _ Hi). split; [by apply Z.div_pos|done].
    + by constructor.
    + constructor; [apply (wi_sorted _ _ Hi)|]. eapply Forall_impl; [exact Hlog|]. cbn. lia.
    + unfold recent in *. rewrite !filter_cons_True by lia. by rewrite Hsame.
    + intros v e Hve. rewrite Hk in Hve. injection Hve as <- <-. exists (now + win). split; [done|].
      rewrite ?Hz', (scores_insert _ _ _ Hfresh). constructor; [done|]. eapply Forall_impl; [exact Hz|]. cbn. lia.
  - assert (Hz' : zset_at k (view s1) = z) by (rewrite Hv; apply zset_at_put).
    assert (Hrec : record c now r' log = log).
    { destruct r' as [[[a b] d]|]; [|done]. destruct Hans as [-> _]. done. }
    rewrite Hrec. apply (window_update s s1 log _ c); fold k now; rewrite ?Hz'; try done; try by apply Hi.
    + by rewrite Hv.
    + intros c' Hc. rewrite Hv, put_zset_ne by by apply Hne. done.
    + rewrite Hv. apply zset_key_put, (wi_type _ _ Hi).
    + intros v e. rewrite Hv, put_zset_eq. case_bool_decide as He; [done|]. intros [= <- <-].
      assert (Hne' : ∃ x, r_keys (view s) !! k = Some x).
      { destruct (r_keys (view s) !! k) as [x|] eqn:Hx; [eauto|]. exfalso. apply He.
        unfold z, purged, zset_at. rewrite Hx. apply map_filter_empty. }
      destruct Hne' as [[v e] Hx]. rewrite Hx. destruct (wi_ttl _ _ Hi c v e Hx) as (t & -> & Ht). exists t. split; [done|].
      unfold z. rewrite purged_scores. apply Forall_forall. rewrite Forall_forall in Ht.
      intros y [_ Hin]%list_elem_of_filter. by apply Ht.
Qed.

Lemma history_inv s log : 0 < win → history s log → window_inv s log.
Proof.
  intros Hwin. induction 1 as [s Hnow Hn|s s' log _ IH He|s s' log _ IH Hnow Hk|s s' log c m r _ IH Hm Hrun].
  - by apply window_start.
  - by eapply window_elapse.
  - by eapply window_other.
  - by eapply window_check.
Qed.

(** Every admission found fewer than [lim] recent ones before it. *)
Fixpoint spaced (l : list Z) : Prop :=
  match l with
  | [] => True
  | x :: l => Z.of_nat (length (recent win x l)) < lim ∧ spaced l
  end.

(** The answer of the script on any state of the history. *)
Lemma script_answer s log c m : 0 < win → 0 < lim → window_inv s log → m ∉ dom (zset_at (rl_key opts c) (view s)) →
  ∃ s', SLIDING_WINDOW_LUA (rl_key opts c) win lim m s = (Ok (reference win lim (now_ms (view s)) (log_of log c)), s').
Proof.
  intros Hwin Hlim Hi Hm. set (k := rl_key opts c) in *. set (now := now_ms (view s)).
  assert (Hpos : Forall (λ x, 0 ≤ x) (scores (zset_at k (view s)))).
  { eapply Forall_impl; [apply (wi_scores _ _ Hi c)|]. cbn. lia. }
  assert (Hsame : scores (purged k s) ≡ₚ recent win now (log_of log c)) by (rewrite purged_scores; apply (wi_same _ _ Hi c)).
  assert (Hlen : Z.of_nat (size (purged k s)) = Z.of_nat (length (recent win now (log_of log c)))).
  { by rewrite <- scores_size, Hsame. }
  unfold reference. cbv zeta. rewrite <- Hlen.
  destruct (script_run k m s Hwin (wi_type _ _ Hi c) Hpos Hm) as [(Hn & s1 & Hr & _)|(Hn & s1 & r & Hr & _ & Hans)];
    rewrite Hr; exists s1; f_equal.
  - destruct (Z.ltb_spec (Z.of_nat (size (purged k s))) lim); [done|lia].
  - destruct (Z.ltb_spec (Z.of_nat (size (purged k s))) lim); [lia|].
    assert (Hx : is_Some (last (recent win now (log_of log c)))).
    { apply last_is_Some. intros Hnil. rewrite Hnil in Hlen. cbn in Hlen. lia. }
    destruct Hx as [y Hy]. rewrite Hy. cbn.
    destruct r as [[[a b] d]|e].
    2: { exfalso. destruct Hans as [_ He]. rewrite He in Hn. rewrite map_size_empty in Hn. lia. }
    destruct Hans as (-> & -> & x & -> & Hin & Hall). do 2 f_equal. fold now.
    assert (x = y) as ->; [|lia].
    pose proof (wi_sorted _ _ Hi c) as Hsort. apply (filter_sorted _ (λ x, now - win < x)) in Hsort.
    fold (recent win now (log_of log c)) in Hsort. apply last_Some in Hy as [l' Hl'].
    rewrite Hsame in Hin. rewrite Hl' in Hin, Hsort. rewrite Hsame, Hl' in Hall.
    apply StronglySorted_app in Hsort as (Hge & _ & _). rewrite Forall_app in Hall. destruct Hall as [_ Hxy].
    rewrite Forall_singleton in Hxy. apply elem_of_app in Hin as [Hin|Hin]; [|by apply list_elem_of_singleton in Hin].
    specialize (Hge x y Hin ltac:(by apply list_elem_of_singleton)). lia.
Qed.

Lemma history_spaced s log : 0 < win → 0 < lim → history s log → ∀ c, spaced (log_of log c).
Proof.
  intros Hwin Hlim Hh. induction Hh as [s Hnow Hn|s s' log _ IH He|s s' log _ IH Hnow Hk|s s' log c m r Hh IH Hm Hrun]; try done.
  intros c'. destruct (script_answer s log c m Hwin Hlim (history_inv _ _ Hwin Hh) Hm) as [s1 Hr].
  rewrite Hrun in Hr. injection Hr as -> _. unfold reference. cbv zeta.
  destruct (Z.ltb_spec (Z.of_nat (length (recent win (now_ms (view s)) (log_of log c)))) lim) as [Hlt|]; [|apply IH].
  cbn. unfold log_of in *. destruct (decide (c' = c)) as [->|Hne]; [|by rewrite lookup_insert_ne].
  rewrite lookup_insert_eq. cbn. done.
Qed.

Lemma spaced_window t l : 0 < lim → spaced l → StronglySorted Z.ge l →
  Z.of_nat (length (filter (λ x, t < x ≤ t + win) l)) ≤ lim.
Proof.
  intros Hlim. induction l as [|x l IH]; [cbn; lia|]. intros [Hx Hl] Hs.
  apply StronglySorted_inv in Hs as [Hs Hge]. rewrite filter_cons. case_decide as Hin; [|by apply IH]. cbn [length].
  enough (length (filter (λ x, (t < x ≤ t + win)%Z) l) ≤ length (recent win x l))%nat by lia.
  unfold recent. rewrite <- (list_filter_filter_l (λ y, t < y ≤ t + win) (λ y, x - win < y)) by (intros; lia).
  apply length_filter.
Qed.

(** C37: the window is exact and there is no burst.  After any history of checks
    from any pods, of other commands and of time passing (expiry of the key
    included), the script answers what the reference computes from the full log
    of admissions of that client: admitted exactly when fewer than [limit] of
    its requests were admitted in the last [windowMs] milliseconds, with the
    exact number left and the exact wait; and in no window of [windowMs]
    milliseconds, aligned or not, were more than [limit] of them admitted. *)
Theorem sliding_window_exact s log c m :
  0 < win → 0 < lim → history s log → m ∉ dom (zset_at (rl_key opts c) (view s)) →
  (∃ s', SLIDING_WINDOW_LUA (rl_key opts c) win lim m s = (Ok (reference win lim (now_ms (view s)) (log_of log c)), s')) ∧
  ∀ t, Z.of_nat (length (filter (λ x, t < x ≤ t + win) (log_of log c))) ≤ lim.
Proof.
  intros Hwin Hlim Hh Hm. pose proof (history_inv _ _ Hwin Hh) as Hi. split; [by apply script_answer|].
  intros t. apply spaced_window; [done|by eapply history_spaced|]. apply (wi_sorted _ _ Hi).
Qed.

(** ** Retry-After *)

Lemma recent_bound s log c : 0 < win → 0 < lim → history s log →
  Z.of_nat (length (recent win (now_ms (view s)) (log_of log c))) ≤ lim.
Proof.
  intros Hwin Hlim Hh. pose proof (history_inv _ _ Hwin Hh) as Hi.
  pose proof (spaced_window (now_ms (view s) - win) _ Hlim (history_spaced _ _ Hwin Hlim Hh c) (wi_sorted _ _ Hi c)) as Hb.
  enough (recent win (now_ms (view s)) (log_of log c) =
    filter (λ x, now_ms (view s) - win < x ≤ now_ms (view s) - win + win) (log_of log c)) as -> by done.
  apply filter_ext_in. pose proof (wi_log _ _ Hi c) as Hl. rewrite Forall_forall in Hl.
  intros x Hx. specialize (Hl x Hx). cbn in Hl. lia.
Qed.

(** Waiting as long as the oldest admission stays in the window is enough. *)
Lemma reference_wait now now' l d : StronglySorted Z.ge l → 0 < lim →
  Z.of_nat (length (recent win now l)) ≤ lim → reference win lim now l = (0, 0, d) → 0 ≤ d → now + d ≤ now' →
  ∃ n, reference win lim now' l = (1, n, 0).
Proof.
  intros Hs Hlim Hb. unfold reference at 1. cbv zeta. destruct (Z.ltb_spec (Z.of_nat (length (recent win now l))) lim) as [|Hge]; [done|].
  intros [= <-] Hd Hle. assert (Hx : is_Some (last (recent win now l))).
  { apply last_is_Some. intros Hnil. rewrite Hnil in Hge. cbn in Hge. lia. }
  destruct Hx as [o Ho]. rewrite Ho in *. cbn in Hle, Hd. apply last_Some in Ho as [R HR].
  unfold reference. cbv zeta. destruct (Z.ltb_spec (Z.of_nat (length (recent win now' l))) lim) as [|Hbad]; [by eexists|].
  exfalso. rewrite <- (recent_recent now now' l) in Hbad by lia. rewrite HR in Hbad, Hb. unfold recent in Hbad.
  rewrite filter_app, filter_cons_False in Hbad by lia. rewrite filter_nil, app_nil_r in Hbad.
  rewrite length_app in Hb. cbn in Hb. pose proof (length_filter (λ x, now' - win < x) R). lia.
Qed.

Lemma reference_cases now l : (∃ n, reference win lim now l = (1, n, 0)) ∨
  (∃ d, reference win lim now l = (0, 0, d) ∧ (0 < win → 0 < lim → Forall (λ x, x ≤ now) l → 0 < d ≤ win)).
Proof.
  unfold reference. cbv zeta. destruct (Z.ltb_spec (Z.of_nat (length (recent win now l))) lim) as [|Hge]; [left; by eexists|right].
  eexists. split; [done|]. intros Hwin Hlim Hl. assert (Hx : is_Some (last (recent win now l))).
  { apply last_is_Some. intros Hnil. rewrite Hnil in Hge. cbn in Hge. lia. }
  destruct Hx as [o Ho]. rewrite Ho. cbn. apply last_Some in Ho as [R HR].
  assert (Hin : o ∈ recent win now l) by (rewrite HR, elem_of_app, list_elem_of_singleton; auto).
  apply list_elem_of_filter in Hin as [? Hin]. rewrite Forall_forall in Hl. specialize (Hl o Hin). cbn in Hl. lia.
Qed.

(** A check that reaches the server. *)
Definition reached (σ : asched redis) (t : nat) (s : redis) (c : string) (log : gmap string (list Z)) : Prop :=
  s_fault σ t = None ∧ history (s_others σ t s) log ∧
  s_uuid σ t ∉ dom (zset_at (rl_key opts c) (view (s_others σ t s))).

Lemma middleware_run σ t s c log : 0 < win → 0 < lim → reached σ t s c log →
  let a := reference win lim (now_ms (view (s_others σ t s))) (log_of log c) in
  ∃ t' s', rateLimitMiddleware opts c σ t s =
    (Ok (if rl_allowed (of_script a) then Next else Respond (too_many (rl_retryAfterSec (of_script a)))), t', s').
Proof.
  intros Hwin Hlim (Hf & Hh & Hm). destruct (script_answer _ log c _ Hwin Hlim (history_inv _ _ Hwin Hh) Hm) as [s1 Hr].
  cbv zeta. unfold rateLimitMiddleware, check, io_try, mbind, io_bind, randomUUID, roundtrip. rewrite Hf, Hr. cbn.
  destruct (rl_allowed _); by eexists _, _.
Qed.

(** Retry-After is honest.  A request that is turned away gets at least one
    second to wait, and if no other request of that client is admitted
    meanwhile, a request sent after that many seconds is admitted. *)
Theorem retry_after_sufficient σ t s σ' t' s' c r t1 s1 log log' :
  0 < win < 2 ^ 53 → 0 < lim → reached σ t s c log → reached σ' t' s' c log' → log_of log' c = log_of log c →
  rateLimitMiddleware opts c σ t s = (Ok (Respond (too_many r)), t1, s1) →
  now_ms (view (s_others σ t s)) + 1000 * r ≤ now_ms (view (s_others σ' t' s')) →
  1 ≤ r ∧ ∃ t2 s2, rateLimitMiddleware opts c σ' t' s' = (Ok Next, t2, s2).
Proof.
  intros Hwin Hlim Hreach Hreach' Hlog Hrun Hwait.
  destruct (middleware_run _ _ _ _ _ (proj1 Hwin) Hlim Hreach) as (t3 & s3 & Hr). rewrite Hrun in Hr.
  destruct (middleware_run _ _ _ _ _ (proj1 Hwin) Hlim Hreach') as (t2 & s2 & ->).
  destruct Hreach as (_ & Hh & _). pose proof (history_inv _ _ (proj1 Hwin) Hh) as Hi.
  set (now := now_ms (view (s_others σ t s))) in *. set (now' := now_ms (view (s_others σ' t' s'))) in *.
  destruct (reference_cases now (log_of log c)) as [[n Hn]|(d & Hd & Hpos)].
  { by rewrite Hn in Hr. }
  specialize (Hpos (proj1 Hwin) Hlim (wi_log _ _ Hi c)). rewrite Hd in Hr. cbn in Hr. injection Hr as Hr _ _.
  apply (inj pretty) in Hr. pose proof (ceil_div_spec d 1000 ltac:(lia) ltac:(lia)) as Hc.
  split; [lia|]. destruct (reference_wait now now' (log_of log c) d) as [n Hn]; try done.
  - apply (wi_sorted _ _ Hi).
  - apply recent_bound; [lia|done|done].
  - lia.
  - lia.
  - rewrite Hlog, Hn. cbn. eauto.
Qed.

(** A limiter that is to let nobody through lets everybody through: the script
    fails on the empty set and the failure is taken for an outage. *)
Lemma zero_limit_admits σ t s c : 0 < win → lim = 0 → rl_failOpen opts = None → s_fault σ t = None →
  r_keys (view (s_others σ t s)) !! rl_key opts c = None →
  ∃ t' s', rateLimitMiddleware opts c σ t s = (Ok Next, t', s').
Proof.
  intros Hwin Hlim Ho Hf Hnone.
  assert (Hz : zset_at (rl_key opts c) (view (s_others σ t s)) = ∅) by (unfold zset_at; by rewrite Hnone).
  unfold rateLimitMiddleware, check, io_try, mbind, io_bind, randomUUID, roundtrip. rewrite Hf.
  destruct (script_run (rl_key opts c) (s_uuid σ t) (s_others σ t s) Hwin) as [[Hn _]|(_ & s1 & r & -> & _ & Hans)].
  - unfold zset_key. by rewrite Hnone.
  - rewrite Hz. unfold scores. by rewrite map_to_list_empty.
  - rewrite Hz. apply not_elem_of_empty.
  - lia.
  - assert (Hp : purged (rl_key opts c) (s_others σ t s) = ∅) by (unfold purged; rewrite Hz; apply map_filter_empty).
    rewrite Hp in Hans. destruct r as [[[a b] d]|e].
    + destruct Hans as (_ & _ & x & _ & Hx & _). unfold scores in Hx. rewrite map_to_list_empty in Hx. by apply elem_of_nil in Hx.
    + rewrite Ho. cbn. eauto.
Qed.

(** With the default options the limiter never fails a request, whatever
    happens to Redis. *)
Lemma fail_open_never_errors σ t s c : rl_failOpen opts = None ∨ rl_failOpen opts = Some true →
  ∃ r t' s', rateLimitMiddleware opts c σ t s = (Ok r, t', s') ∧ ∀ e, r ≠ NextError e.
Proof.
  intros Ho. assert (Hopen : default true (rl_failOpen opts) = true) by (by destruct Ho as [->| ->]).
  unfold rateLimitMiddleware, check, io_try, mbind, io_bind, randomUUID.
  destruct (roundtrip _ σ t s) as [[[a|e] t1] s1]; [|rewrite Hopen]; cbn.
  - destruct (rl_allowed _); by eexists _, _, _.
  - by eexists _, _, _.
Qed.
End window.

(** ** Two requests a second *)

#[local] Existing Instance sim_redis.
#[local] Existing Instance sim_redis_laws.

Definition two_a_second : RateLimitOptions := RateLimitOptionsOf 2 1000 None None.
Definition run_check (m : string) (s : rview) : rview := (SLIDING_WINDOW_LUA (H := sim_redis) "rl:alice" 1000 2 m s).2.
Definition busy : rview := run_check "b" (at_ms 5400 (run_check "a" (sim_start 5000))).

Lemma check_step s s' log log' m r : history (H := sim_redis) two_a_second s log →
  m ∉ dom (zset_at "rl:alice" s) → SLIDING_WINDOW_LUA (H := sim_redis) "rl:alice" 1000 2 m s = (r, s') →
  record "alice" (now_ms s) r log = log' → history (H := sim_redis) two_a_second s' log'.
Proof. intros Hh Hm Hr <-. exact (history_check (H := sim_redis) two_a_second s s' log "alice" m r Hh Hm Hr). Qed.

Lemma busy_history : history (H := sim_redis) two_a_second busy {["alice" := [5400; 5000]]}.
Proof.
  apply (check_step (at_ms 5400 (run_check "a" (sim_start 5000))) busy {["alice" := [5000]]} _ "b" (Ok (1, 0, 0)));
    [|vm_compute; set_solver|vm_compute; reflexivity|vm_compute; reflexivity].
  apply (history_elapse (H := sim_redis) two_a_second (run_check "a" (sim_start 5000))).
  - apply (check_step (sim_start 5000) _ ∅ _ "a" (Ok (1, 1, 0)));
      [by apply history_start|vm_compute; set_solver|vm_compute; reflexivity|vm_compute; reflexivity].
  - split_and!; [by vm_compute| |].
    + intros k x Hx. change (r_keys (run_check "a" (sim_start 5000)) !! k = Some x) in Hx. split; [exact Hx|].
      assert (Hall : map_Forall (λ _ x, ∀ e, x.2 = Some e → 5400 ≤ e) (r_keys (run_check "a" (sim_start 5000)))).
      { apply map_Forall_to_list. vm_compute. constructor; [|constructor]. by intros e [= <-]. }
      apply (Hall k x Hx).
    + intros k x Hx _. exact Hx.
Qed.

Lemma sliding_window_exact_witness : (∃ s',
  SLIDING_WINDOW_LUA (H := sim_redis) (rl_key two_a_second "alice") 1000 2 "c" busy = (Ok (0, 0, 600), s')) ∧
  Z.of_nat (length (filter (λ x, 4900 < x ≤ 4900 + 1000) [5400; 5000])) ≤ 2.
Proof.
  destruct (sliding_window_exact (H := sim_redis) two_a_second busy {["alice" := [5400; 5000]]} "alice" "c") as [[s' Hs'] Hb];
    [done|done|apply busy_history|apply not_elem_of_dom; vm_compute; reflexivity|].
  split; [|exact (Hb 4900)]. exists s'. etransitivity; [exact Hs'|]. vm_compute. reflexivity.
Defined.

(** The third request comes at once, the fourth a second later. *)
Definition sched_at (t : Z) : asched (redis (Redis := sim_redis)) :=
  Schedule no_fault (λ _, at_ms t) (λ _, t) (λ _, "u").

Lemma busy_later t : 5400 ≤ t ≤ 6400 → history (H := sim_redis) two_a_second (at_ms t busy) {["alice" := [5400; 5000]]}.
Proof.
  intros Ht. apply (history_elapse (H := sim_redis) two_a_second busy); [apply busy_history|].
  change (elapse busy (at_ms t busy)).
  split_and!; [|intros k x Hx|intros k x Hx _; exact Hx].
  - change (r_now busy) with (1000 * 5400). cbn. lia.
  - change (r_keys busy !! k = Some x) in Hx. split; [exact Hx|].
    assert (Hall : map_Forall (λ _ x, ∀ e, x.2 = Some e → t ≤ e) (r_keys busy)).
    { apply map_Forall_to_list. vm_compute map_to_list. constructor; [|constructor]. intros e [= <-]. lia. }
    intros e He. specialize (Hall k x Hx e He). unfold now_ms, at_ms. cbn.
    rewrite (Z.mul_comm 1000), Z.div_mul by done. exact Hall.
Qed.

Lemma busy_reached t : 5400 ≤ t ≤ 6400 →
  reached (H := sim_redis) two_a_second (sched_at t) 0%nat busy "alice" {["alice" := [5400; 5000]]}.
Proof. intros Ht. split; [reflexivity|]. split; [by apply busy_later|]. apply not_elem_of_dom. vm_compute. reflexivity. Qed.

Lemma retry_after_sufficient_witness :
  ∃ t2 s2, rateLimitMiddleware (H := sim_redis) two_a_second "alice" (sched_at 6400) 0%nat busy = (Ok Next, t2, s2).
Proof.
  destruct (rateLimitMiddleware (H := sim_redis) two_a_second "alice" (sched_at 5400) 0%nat busy) as [[r t1] s1] eqn:Hr.
  assert (Hr' : (rateLimitMiddleware (H := sim_redis) two_a_second "alice" (sched_at 5400) 0%nat busy).1.1 = Ok (Respond (too_many 1)))
    by (vm_compute; reflexivity).
  rewrite Hr in Hr'. cbn in Hr'. subst r.
  apply (retry_after_sufficient (H := sim_redis) two_a_second (sched_at 5400) 0%nat busy (sched_at 6400) 0%nat busy "alice" 1 t1 s1
    {["alice" := [5400; 5000]]} {["alice" := [5400; 5000]]}).
  - vm_compute. split; reflexivity.
  - reflexivity.
  - apply busy_reached. lia.
  - apply busy_reached. lia.
  - reflexivity.
  - exact Hr.
  - vm_compute. discriminate.
Defined.
