(* ===== verification/Cache.v ===== *)
(** Cache-aside with a jittered TTL and a single-flight lock
    (src/redis/cache.ts).  The cached values are of any type [T] with its JSON
    codec; [load] is the trip to the database the caller passes in; the world
    is the cache's Redis and whatever [load] reads.

    Nothing is assumed about Redis being up: every command may fail, executed
    or not, and keys may be evicted, expire or be written by others between any
    two steps. *)
From S2P Require Import Prelude JsNumber Schema Sql Async Redis RedisSim.
#[local] Open Scope Z_scope.

Record CacheOptions := CacheOptionsOf {
  ttlSec : Z;
  jitterSec : Z;
  singleFlight : bool;
  lockMs : Z;
  waitMs : Z;
  pollMs : Z;
}.

Definition DEFAULT_CACHE_OPTIONS : CacheOptions := CacheOptionsOf 300 60 true 5000 3000 20.

(** [ttlSec + Math.floor(Math.random() * (jitterSec + 1))]; [random] is the
    numerator of [Math.random()]. *)
Definition jitteredTtl (random ttlSec jitterSec : Z) : Z :=
  ttlSec + Math_floor (num_mul (Math_random random) (num_of_Z (jitterSec + 1))).

(** Compare and delete. *)
Definition UNLOCK_LUA `{Redis} (key token : string) (s : redis) : result Z * redis :=
  match cmd_get key s with
  | Err e => (Err e, s)
  | Ok (Some v) => if String.eqb v token then cmd_del key s else (Ok 0, s)
  | Ok None => (Ok 0, s)
  end.

Section cache.
Context `{Redis} {D T : Type}.
(** [JSON.stringify] and [JSON.parse] on [T]: a text may be no JSON, and may be
    the JSON text of [null]. *)
Context (stringify : T → string) (parse : string → result (option T)).
Context (load : string → async (redis * D) (option T)) (random : nat → Z) (opts : CacheOptions).
Notation io := (async (redis * D)).

Definition send {A} (cmd : redis → result A * redis) : io A :=
  roundtrip (λ w, let '(r, s) := cmd w.1 in (r, (s, w.2))).
Definition sleep : io unit := λ σ t w, (Ok tt, S t, s_others σ t w).

(** Every failure of Redis becomes the fallback. *)
Definition safe {A} (op : io A) (fallback : A) : io A :=
  r ← io_try op;
  mret (match r with Ok a => a | Err _ => fallback end).

Definition read (key : string) : io (option T) :=
  raw ← safe (send (λ s, (cmd_get key s, s))) None;
  match raw with
  | None => mret None
  | Some raw => io_lift (parse raw)
  end.

Definition write (key : string) (value : T) : io unit := λ σ t w,
  let ttl := jitteredTtl (random t) (ttlSec opts) (jitterSec opts) in
  safe (send (cmd_set key (stringify value) (ttl * 1000))) tt σ t w.

Definition invalidate (key : string) : io Z := safe (send (cmd_del key)) 0.

Definition fill (key : string) : io (option T) :=
  value ← load key;
  match value with
  | Some v => _ ← write key v; mret (Some v)
  | None => mret None
  end.

(** The waiting loop: [Some v] is its outcome, a value or the deadline;
    [None] a loop that has not finished after [fuel] rounds. *)
Fixpoint wait_for (fuel : nat) (key : string) (deadline : Z) : io (option (option T)) :=
  match fuel with
  | O => mret None
  | S fuel =>
      now ← io_date;
      if now <? deadline then
        _ ← sleep;
        v ← read key;
        match v with
        | Some v => mret (Some (Some v))
        | None => wait_for fuel key deadline
        end
      else mret (Some None)
  end.

(** Every round of the loop takes at least [pollMs]. *)
Definition wait_fuel : nat := Z.to_nat (waitMs opts / pollMs opts + 2).

Definition lockKey (key : string) : string := "lock:" +:+ key.

Definition get (key : string) : io (option T) :=
  hit ← read key;
  match hit with
  | Some v => mret (Some v)
  | None =>
      if negb (singleFlight opts) then fill key else
      token ← randomUUID;
      got ← safe (send (cmd_set_nx (lockKey key) token (lockMs opts))) false;
      if (got : bool) then
        r ← io_try (again ← read key;
                    match again with Some v => mret (Some v) | None => fill key end);
        _ ← safe (send (UNLOCK_LUA (lockKey key) token)) 0;
        io_lift r
      else
        now ← io_date;
        r ← wait_for wait_fuel key (now + waitMs opts);
        match r with
        | Some (Some v) => mret (Some v)
        | Some None => fill key
        | None => io_throw (JsError "the wait does not terminate")
        end
  end.
End cache.

(** ** The TTL *)

Lemma jitter_bounds random ttl j : 0 ≤ random < 2 ^ 53 → 0 ≤ j < 2 ^ 53 - 1 →
  ttl ≤ jitteredTtl random ttl j ≤ ttl + j.
Proof.
  intros Hr Hj. unfold jitteredTtl. pose proof (floor_random random (j + 1) Hr ltac:(lia)). lia.
Qed.

(** ** The outcomes of a request *)

Section cache_facts.
Context `{RedisLaws} {D T : Type}.
Context (stringify : T → string) (parse : string → result (option T)).
Context (load : string → async (redis * D) (option T)) (random : nat → Z) (opts : CacheOptions).
(** [Loaded]: the values the database answers; [Cached]: the texts that may be
    found under the key, whoever wrote them. *)
Context (key : string) (Loaded : T → Prop) (Cached : string → Prop) (σ : asched (redis * D)).
Notation world := (redis * D)%type.
Notation get := (get stringify parse load random opts).
Notation fill := (fill stringify load random opts).
Notation read := (read parse).

(** What the cache holds under the key, if anything. *)
Definition cache_ok (w : world) : Prop :=
  string_key key (view w.1) ∧ ∀ raw, string_at key (view w.1) = Some raw → Cached raw.

(** An exception the loader throws, in some world at some time. *)
Definition load_throws (e : exn) : Prop := ∃ t w t' w', load key σ t w = (Err e, t', w').

(** The outcomes: nothing, a loaded value or what a cached text stands for, the
    loader's own exception or that of JSON.parse on a cached text. *)
Definition value_ok (v : T) : Prop := Loaded v ∨ ∃ raw, Cached raw ∧ parse raw = Ok (Some v).
Definition good (r : result (option T)) : Prop :=
  match r with
  | Ok (Some v) => value_ok v
  | Ok None => True
  | Err e => load_throws e ∨ ∃ raw, Cached raw ∧ parse raw = Err e
  end.

(** The text of a loaded value is one of them. *)
Context (Hown : ∀ v, Loaded v → Cached (stringify v)).
Context (Hothers : ∀ t w, cache_ok w → cache_ok (s_others σ t w)).
Context (Hload : io_post cache_ok σ (load key) (λ r, ∀ v, r = Ok (Some v) → Loaded v)).
Context (Hopts : 0 < lockMs opts ∧ 0 < ttlSec opts ∧ 0 ≤ jitterSec opts < 2 ^ 53 - 1).
Context (Hrandom : ∀ t, 0 ≤ random t < 2 ^ 53).
Context (Hpoll : 0 < pollMs opts ∧ 0 ≤ waitMs opts).

Lemma cache_ok_same s s' (x : D) : view s' = view s → cache_ok (s, x) → cache_ok (s', x).
Proof. unfold cache_ok. cbn. by intros ->. Qed.
Lemma cache_ok_ne k y ms s s' (x : D) : k ≠ key → view s' = put_string k y ms (view s) → cache_ok (s, x) → cache_ok (s', x).
Proof.
  unfold cache_ok, string_key, string_at. cbn. intros Hne ->. unfold put_string, set_keys. cbn.
  by rewrite lookup_insert_ne.
Qed.
Lemma cache_ok_del k s s' (x : D) : view s' = set_keys (delete k) (view s) → cache_ok (s, x) → cache_ok (s', x).
Proof.
  unfold cache_ok, string_key, string_at, set_keys. cbn. intros -> [Hk Hv]. cbn.
  destruct (decide (k = key)) as [->|]; [by rewrite lookup_delete_eq|by rewrite lookup_delete_ne].
Qed.
Lemma cache_ok_put v ms s s' (x : D) : Loaded v → view s' = put_string key (stringify v) ms (view s) →
  cache_ok (s, x) → cache_ok (s', x).
Proof.
  unfold cache_ok, string_key, string_at, put_string, set_keys. cbn. intros Hl -> _. cbn.
  rewrite lookup_insert_eq. split; [done|]. intros raw [= <-]. by apply Hown.
Qed.

Lemma post_safe {A} (op : async world A) a (P : result A → Prop) (Q : A → Prop) :
  io_post cache_ok σ op P → (∀ a, P (Ok a) → Q a) → Q a →
  io_post cache_ok σ (safe op a) (λ r, ∃ b, r = Ok b ∧ Q b).
Proof.
  intros Hop HP HQ. unfold safe. eapply post_bind; [by apply (post_try _ _ _ P (λ r, ∃ x, r = Ok x ∧ P x)); eauto|..].
  - intros r (x & [= <-] & Hx). apply post_ret. destruct r; eauto.
  - by intros e (x & ? & _).
Qed.

Lemma post_send {A} (cmd : redis → result A * redis) (Q : result A → Prop) :
  (∀ s x, cache_ok (s, x) → cache_ok ((cmd s).2, x) ∧ Q (cmd s).1) → (∀ e, Q (Err e)) →
  io_post cache_ok σ (send (D := D) cmd) Q.
Proof.
  intros Hc He. apply post_roundtrip; [done| |done]. intros [s x] Hw. specialize (Hc s x Hw).
  cbn. by destruct (cmd s).
Qed.

(** What reading the key may give: like an outcome, but never the loader's. *)
Definition read_good (r : result (option T)) : Prop :=
  match r with
  | Ok (Some v) => ∃ raw, Cached raw ∧ parse raw = Ok (Some v)
  | Ok None => True
  | Err e => ∃ raw, Cached raw ∧ parse raw = Err e
  end.
Lemma read_good_good r : read_good r → good r.
Proof. destruct r as [[v|]|e]; [by right|done|by right]. Qed.

Lemma post_read : io_post cache_ok σ (read key) read_good.
Proof.
  unfold Cache.read.
  eapply (post_bind _ _ _ _ (λ r, ∃ b, r = Ok b ∧ ∀ raw, b = Some raw → Cached raw)).
  - apply (post_safe _ _ (λ r, ∀ b, r = Ok b → ∀ raw, b = Some raw → Cached raw)); [|eauto|done].
    apply post_send; [|done]. intros s x Hw. cbn. split; [done|]. destruct Hw as [Hk Hv].
    rewrite get_law by done. intros b [= <-] raw Hraw. by apply Hv.
  - intros raw (b & [= <-] & Hb). destruct raw as [raw|]; [|by apply post_ret].
    apply post_pure. intros t w. cbn. split; [done|]. specialize (Hb raw eq_refl). destruct (parse raw) as [[v|]|e] eqn:Hp; cbn; eauto.
  - by intros e (b & [=] & _).
Qed.

Lemma post_write v : Loaded v → io_post cache_ok σ (write stringify random opts key v) (λ r, r = Ok tt).
Proof.
  intros Hl t w r t' w' Hw. unfold write.
  set (ms := _ * 1000). assert (Hms : 0 < ms).
  { unfold ms. pose proof (jitter_bounds (random t) (ttlSec opts) (jitterSec opts) (Hrandom t) ltac:(lia)). lia. }
  intros Hr. eapply (post_safe _ tt (λ _, True) (λ _, True)) in Hr as [Hw' (b & -> & _)]; [by destruct b| |done|done|done].
  apply post_send; [|done]. intros s x Hs. split; [|done].
  destruct (set_law key (stringify v) ms s Hms) as [(s' & -> & Hv)|(e & s' & -> & Hv)]; cbn.
  - by eapply cache_ok_put.
  - by eapply cache_ok_same.
Qed.

Lemma post_fill : io_post cache_ok σ (fill key) good.
Proof.
  unfold Cache.fill. intros t w r t' w' Hw Hr. apply io_bind_cases in Hr as [(value & t1 & w1 & H1 & H2)|(e & H1 & ->)].
  - destruct (Hload _ _ _ _ _ Hw H1) as [Hw1 Hv]. destruct value as [v|].
    + assert (Hf : io_post cache_ok σ (_ ← write stringify random opts key v; mret (Some v)) good); [|by eapply Hf].
      eapply post_bind; [apply post_write; by apply Hv|..].
      * intros a _. apply post_ret. left. by apply Hv.
      * by intros e [=].
    + by injection H2 as <- <- <-.
  - destruct (Hload _ _ _ _ _ Hw H1) as [Hw1 _]. split; [done|]. left. by exists t, w, t', w'.
Qed.

Lemma post_wait_for fuel deadline : io_post cache_ok σ (wait_for parse fuel key deadline)
  (λ r, match r with Ok (Some (Some v)) => value_ok v | Ok _ => True | Err e => ∃ raw, Cached raw ∧ parse raw = Err e end).
Proof.
  induction fuel as [|fuel IH]; cbn [wait_for]; [by apply post_ret|].
  apply (post_bind _ _ _ _ (λ r, ∃ now, r = Ok now)); [apply post_pure; cbn; eauto| |by intros e (? & [=])].
  intros now _. destruct (now <? deadline); [|by apply post_ret].
  apply (post_bind _ _ _ _ (λ r, r = Ok tt)); [| |by intros e [=]].
  { unfold sleep. intros t w r t' w' Hw Hr. injection Hr as <- <- <-. split; [by apply Hothers|done]. }
  intros [] _. eapply post_bind; [apply post_read| |done].
  intros [v|] Hv; [|done]. apply post_ret. by right.
Qed.

(** Reading takes one round trip. *)
Lemma read_tick t w r t' w' : read key σ t w = (r, t', w') → t' = S t.
Proof.
  unfold Cache.read, safe, send, io_try, roundtrip, mbind, io_bind.
  destruct (s_fault σ t); [by intros [= _ <- _]|]. cbn.
  destruct (cmd_get key _) as [[raw|]|]; by intros [= _ <- _].
Qed.

Lemma wait_for_ends n deadline t w t' w' :
  (∀ i : nat, s_clock σ (t + 2 * i)%nat + pollMs opts ≤ s_clock σ (t + 2 * i + 2)%nat) →
  deadline ≤ s_clock σ t + Z.of_nat n * pollMs opts →
  wait_for parse (S n) key deadline σ t w ≠ (Ok None, t', w').
Proof.
  revert t w. induction n as [|n IH]; intros t w Hclock Hd Hrun; cbn [wait_for] in Hrun;
    apply io_bind_ok in Hrun as (now & t1 & w1 & Hdate & Hrun);
    unfold io_date in Hdate; injection Hdate as <- <- <-;
    (destruct (Z.ltb_spec (s_clock σ t) deadline) as [Hlt|Hge]; [|by apply io_ret_ok in Hrun as [? _]]); [lia|].
  apply io_bind_ok in Hrun as (u & t2 & w2 & Hsleep & Hrun). unfold sleep in Hsleep. injection Hsleep as <- <- <-.
  apply io_bind_ok in Hrun as (v & t3 & w3 & Hread & Hrun). apply read_tick in Hread as ->.
  destruct v as [v|]; [by apply io_ret_ok in Hrun as [? _]|].
  apply IH in Hrun; [done|..].
  - intros i. specialize (Hclock (S i)). replace (t + 2 * S i)%nat with (S (S t) + 2 * i)%nat in Hclock by lia. exact Hclock.
  - specialize (Hclock 0%nat). replace (t + 2 * 0)%nat with t in Hclock by lia.
    replace (t + 2)%nat with (S (S t)) in Hclock by lia. lia.
Qed.

Lemma lockKey_ne k : lockKey k ≠ k.
Proof. intros Hk. apply (f_equal String.length) in Hk. change (5 + String.length k = String.length k)%nat in Hk. lia. Qed.

(** Taking and releasing the lock leave the cached value alone. *)
Lemma post_set_nx token : io_post cache_ok σ (safe (send (D := D) (cmd_set_nx (lockKey key) token (lockMs opts))) false)
  (λ r, ∃ b, r = Ok b ∧ True).
Proof.
  apply (post_safe _ _ (λ _, True)); [|done|done]. apply post_send; [|done]. intros s x Hs. split; [|done].
  pose proof (set_nx_law (lockKey key) token (lockMs opts) s ltac:(lia)) as Hl.
  destruct (r_keys (view s) !! lockKey key).
  - destruct Hl as (s' & -> & Hv). by eapply cache_ok_same.
  - destruct Hl as [(s' & -> & Hv)|(e & s' & -> & Hv)]; [|by eapply cache_ok_same].
    eapply cache_ok_ne; [apply lockKey_ne|done|done].
Qed.
Lemma post_unlock token : io_post cache_ok σ (safe (send (D := D) (UNLOCK_LUA (lockKey key) token)) 0)
  (λ r, ∃ b, r = Ok b ∧ True).
Proof.
  apply (post_safe _ _ (λ _, True)); [|done|done]. apply post_send; [|done]. intros s x Hs. split; [|done].
  unfold UNLOCK_LUA. destruct (cmd_get (lockKey key) s) as [[v|]|]; [|done|done].
  destruct (String.eqb v token); [|done]. destruct (del_law (lockKey key) s) as (n & s' & -> & Hv).
  by eapply cache_ok_del.
Qed.

Lemma post_locked : io_post cache_ok σ (again ← read key; match again with Some v => mret (Some v) | None => fill key end) good.
Proof.
  eapply post_bind; [apply post_read| |by right]. intros [v|] Hv; [|apply post_fill]. apply post_ret. by right.
Qed.

(** Every path of [get]. *)
Lemma get_good t w r t' w' :
  (∀ i : nat, s_clock σ (t + 2 + 2 * i)%nat + pollMs opts ≤ s_clock σ (t + 2 + 2 * i + 2)%nat) →
  cache_ok w → get key σ t w = (r, t', w') → cache_ok w' ∧ good r.
Proof.
  intros Hclock Hw Hrun. unfold Cache.get in Hrun.
  apply io_bind_cases in Hrun as [(hit & t1 & w1 & H1 & Hrun)|(e & H1 & ->)];
    destruct (post_read _ _ _ _ _ Hw H1) as [Hw1 Hv]; [|by split; [|right]].
  apply read_tick in H1 as ->.
  destruct hit as [v|]; [injection Hrun as <- <- <-; split; [done|by right]|].
  destruct (negb (singleFlight opts)); [by eapply post_fill|].
  apply io_bind_cases in Hrun as [(token & t2 & w2 & H2 & Hrun)|(e & H2 & ->)]; [|done].
  unfold randomUUID in H2. injection H2 as <- <- <-.
  apply io_bind_cases in Hrun as [(got & t3 & w3 & H3 & Hrun)|(e & H3 & ->)];
    pose proof H3 as Hg; apply post_set_nx in H3 as [Hw3 (b & Heq & _)]; try done.
  assert (t3 = S (S t)) as ->.
  { unfold safe, send, io_try, roundtrip, mbind, io_bind in Hg.
    destruct (s_fault σ (S t)); [by injection Hg|]. cbn in Hg. by destruct (cmd_set_nx _ _ _ _); injection Hg. }
  destruct got.
  - apply io_bind_cases in Hrun as [(x & t4 & w4 & H4 & Hrun)|(e & H4 & ->)].
    2: { by eapply (post_try _ _ _ _ (λ r, ∃ x, r = Ok x ∧ good x) post_locked) in H4 as [_ (? & [=] & _)]; eauto. }
    eapply (post_try _ _ _ _ (λ r, ∃ x, r = Ok x ∧ good x) post_locked) in H4 as [Hw4 (? & [= <-] & Hx)]; [|eauto|done].
    apply io_bind_cases in Hrun as [(u & t5 & w5 & H5 & Hrun)|(e & H5 & ->)];
      apply post_unlock in H5 as [Hw5 (b' & Heq' & _)]; try done.
    injection Hrun as <- <- <-. done.
  - apply io_bind_cases in Hrun as [(now & t4 & w4 & H4 & Hrun)|(e & H4 & ->)]; [|done].
    unfold io_date in H4. injection H4 as <- <- <-.
    apply io_bind_cases in Hrun as [(o & t5 & w5 & H5 & Hrun)|(e & H5 & ->)];
      pose proof H5 as Hend; apply post_wait_for in H5 as [Hw5 Ho]; [|done| |done]; [|by split; [|right]].
    destruct o as [[v|]|].
    + injection Hrun as <- <- <-. split; [done|exact Ho].
    + exact (post_fill _ _ _ _ _ Hw5 Hrun).
    + exfalso. unfold wait_fuel in Hend. pose proof (Z.div_mod (waitMs opts) (pollMs opts) ltac:(lia)) as Hdm.
      pose proof (Z.mod_pos_bound (waitMs opts) (pollMs opts) ltac:(lia)) as Hmb.
      pose proof (Z.div_pos (waitMs opts) (pollMs opts) ltac:(lia) ltac:(lia)) as Hq.
      replace (Z.to_nat (waitMs opts / pollMs opts + 2)) with (S (Z.to_nat (waitMs opts / pollMs opts + 1))) in Hend by lia.
      apply wait_for_ends in Hend; [done|..].
      * intros i. specialize (Hclock i). replace (t + 2)%nat with (S (S t)) in Hclock by lia. exact Hclock.
      * nia.
Qed.
(** C39: the cache ends, and what it does not get from the loader it got from a
    text under the key.  Whatever happens to Redis (any command failing, executed
    or not, the instance down, keys evicted, expired or refilled by others
    between any two steps) and with a clock that moves on while the request
    sleeps:
    - [get] ends; it answers null, a loaded value or what JSON.parse makes of a
      text found under the key, and throws only what the loader has thrown or
      what JSON.parse throws at such a text;
    - if only the texts of loaded values are ever found there, which is all the
      program writes, it throws nothing the loader has not thrown and answers
      only loaded values.
    A text that is no JSON is not a miss: JSON.parse stands outside [safe]
    ([corrupt_entry_drops]). *)
Theorem cache_never_drops t w r t' w' :
  (∀ i : nat, s_clock σ (t + 2 + 2 * i)%nat + pollMs opts ≤ s_clock σ (t + 2 + 2 * i + 2)%nat) →
  cache_ok w → get key σ t w = (r, t', w') →
  cache_ok w' ∧ good r ∧
  ((∀ raw, Cached raw → ∃ v, parse raw = Ok (Some v) ∧ Loaded v) →
   (∀ v, r = Ok (Some v) → Loaded v) ∧ (∀ e, r = Err e → load_throws e)).
Proof.
  intros Hclock Hw Hrun. destruct (get_good t w r t' w' Hclock Hw Hrun) as [Hw' Hr]. split; [done|]. split; [done|].
  intros Hall. split; [intros v ->|intros e ->]; destruct Hr as [?|(raw & Hraw & Hp)]; try done;
    destruct (Hall raw Hraw) as (v' & Hv' & ?); congruence.
Qed.

End cache_facts.

(** The comment at the head of cache.ts says that the cache must never drop a
    request.  Under a key that holds a text which is no JSON every request fails
    with the SyntaxError, without a call of the loader, until the entry expires
    or is invalidated. *)
Theorem corrupt_entry_drops `{RedisLaws} {D T : Type} stringify (parse : string → result (option T)) load random opts key
    (σ : asched (redis * D)) t w raw e :
  s_fault σ t = None → string_at key (view (s_others σ t w).1) = Some raw → parse raw = Err e →
  get stringify parse load random opts key σ t w = (Err e, S t, s_others σ t w).
Proof.
  intros Hf Hraw Hp. assert (string_key key (view (s_others σ t w).1)) as Hk.
  { unfold string_at, string_key in *. by destruct (r_keys _ !! key) as [[[|] ?]|]. }
  unfold get, read, safe, send, io_try, roundtrip, mbind, io_bind. rewrite Hf. destruct (s_others σ t w) as [s x]. cbn in *.
  rewrite (get_law key s Hk), Hraw. cbn. by rewrite Hp.
Qed.

(** ** Nobody's lock but one's own *)

Section lock_facts.
Context `{RedisLaws} {D T : Type}.
Context (stringify : T → string) (parse : string → result (option T)).
Context (load : string → async (redis * D) (option T)) (random : nat → Z) (opts : CacheOptions).
Context (key other : string) (σ : asched (redis * D)).
Notation world := (redis * D)%type.
Notation get := (get stringify parse load random opts).

(** Someone else holds the lock of the key. *)
Definition held (w : world) : Prop := string_at (lockKey key) (view w.1) = Some other.

Context (Hothers : ∀ t w, held w → held (s_others σ t w)).
Context (Hload : io_post held σ (load key) (λ _, True)).
Context (Hopts : 0 < lockMs opts ∧ 0 < ttlSec opts ∧ 0 ≤ jitterSec opts < 2 ^ 53 - 1).
Context (Hrandom : ∀ t, 0 ≤ random t < 2 ^ 53).
Context (Huuid : ∀ t, s_uuid σ t ≠ other).

Lemma held_bind {A B} (m : async world A) (f : A → async world B) :
  io_post held σ m (λ _, True) → (∀ a, io_post held σ (f a) (λ _, True)) → io_post held σ (m ≫= f) (λ _, True).
Proof. intros Hm Hf. by eapply post_bind. Qed.
Lemma held_try {A} (m : async world A) : io_post held σ m (λ _, True) → io_post held σ (io_try m) (λ _, True).
Proof. intros Hm. by eapply post_try. Qed.
Lemma held_pure {A} (m : async world A) : (∀ t w, (m σ t w).2 = w) → io_post held σ m (λ _, True).
Proof. intros Hm. by apply post_pure. Qed.
Lemma held_safe {A} (cmd : redis → result A * redis) a :
  (∀ s x, held (s, x) → held ((cmd s).2, x)) → io_post held σ (safe (send (D := D) cmd) a) (λ _, True).
Proof.
  intros Hc. unfold safe. apply held_bind; [|intros r; by apply held_pure]. apply held_try.
  apply post_roundtrip; [done| |done]. intros [s x] Hw. specialize (Hc s x Hw). cbn. by destruct (cmd s).
Qed.

Lemma held_read : io_post held σ (read parse key) (λ _, True).
Proof. apply held_bind; [by apply held_safe|]. intros [raw|]; by apply held_pure. Qed.

Lemma held_write v : io_post held σ (write stringify random opts key v) (λ _, True).
Proof.
  intros t w r t' w' Hw. unfold write. set (ms := _ * 1000). assert (Hms : 0 < ms).
  { unfold ms. pose proof (jitter_bounds (random t) (ttlSec opts) (jitterSec opts) (Hrandom t) ltac:(lia)). lia. }
  generalize dependent ms. intros ms Hms. revert t w r t' w' Hw. apply held_safe. intros s x. unfold held, string_at. cbn.
  destruct (set_law key (stringify v) ms s Hms) as [(s' & -> & Hv)|(e & s' & -> & Hv)]; cbn;
    rewrite Hv; [|done].
  unfold put_string, set_keys. cbn. rewrite lookup_insert_ne; [done|]. intros Hk. by apply (lockKey_ne key).
Qed.

Lemma held_fill : io_post held σ (fill stringify load random opts key) (λ _, True).
Proof.
  apply held_bind; [done|]. intros [v|]; [|by apply held_pure].
  apply held_bind; [apply held_write|intros _; by apply held_pure].
Qed.

Lemma held_wait fuel deadline : io_post held σ (wait_for parse fuel key deadline) (λ _, True).
Proof.
  induction fuel as [|fuel IH]; cbn [wait_for]; [by apply held_pure|].
  apply held_bind; [by apply held_pure|]. intros now. destruct (now <? deadline); [|by apply held_pure].
  apply held_bind; [intros t w r t' w' Hw Hr; unfold sleep in Hr; injection Hr as <- <- <-; by split; [apply Hothers|]|].
  intros _. apply held_bind; [apply held_read|]. intros [v|]; [by apply held_pure|done].
Qed.

Lemma held_unlock token : token ≠ other → io_post held σ (safe (send (D := D) (UNLOCK_LUA (lockKey key) token)) 0) (λ _, True).
Proof.
  intros Ht. apply held_safe. intros s x Hs. unfold UNLOCK_LUA. rewrite get_law.
  - rewrite (Hs : string_at (lockKey key) (view s) = _). destruct (String.eqb_spec other token); [congruence|done].
  - unfold held, string_at, string_key in *. cbn in Hs. by destruct (r_keys (view s) !! lockKey key) as [[[|] ?]|].
Qed.

Lemma held_set_nx token : io_post held σ (safe (send (D := D) (cmd_set_nx (lockKey key) token (lockMs opts))) false) (λ _, True).
Proof.
  apply held_safe. intros s x. unfold held, string_at. cbn. pose proof (set_nx_law (lockKey key) token (lockMs opts) s ltac:(lia)) as Hl.
  destruct (r_keys (view s) !! lockKey key) as [y|] eqn:Hy; [|done]. destruct Hl as (s' & -> & Hv). cbn. by rewrite Hv, Hy.
Qed.

(** A lock is released only by its holder.  A [get] that runs while another
    request holds the lock of the key, also one that took the lock itself
    earlier and lost it to its TTL, leaves the other's lock in place on every
    path, whatever fails. *)
Theorem cache_lock_respected t w r t' w' : held w → get key σ t w = (r, t', w') → held w'.
Proof.
  intros Hw Hrun. enough (Hg : io_post held σ (get key) (λ _, True)) by by eapply Hg.
  apply held_bind; [apply held_read|]. intros [v|]; [by apply held_pure|].
  destruct (negb (singleFlight opts)); [apply held_fill|].
  eapply (post_bind _ _ _ _ (λ r, ∀ k, r = Ok k → k ≠ other)); [|intros token Htoken|done].
  { apply post_pure. intros t1 w1. split; [done|]. intros k [= <-]. apply Huuid. }
  apply held_bind; [apply held_set_nx|]. intros [|].
  - apply held_bind; [apply held_try, held_bind; [apply held_read|intros [v|]; [by apply held_pure|apply held_fill]]|].
    intros x. apply held_bind; [apply held_unlock; by apply Htoken|intros _; by apply held_pure].
  - apply held_bind; [by apply held_pure|]. intros now. apply held_bind; [apply held_wait|].
    intros [[v|]|]; [by apply held_pure|apply held_fill|by apply held_pure].
Qed.
End lock_facts.

(** ** A request whose first read fails and that waits for the leader *)

#[local] Existing Instance sim_redis.
#[local] Existing Instance sim_redis_laws.

Definition load_card (_ : string) : async (rview * unit) (option string) := mret (Some "card").

(** The leader fills the cache at the fourth round trip. *)
Definition leader (t : nat) (w : rview * unit) : rview * unit :=
  if bool_decide (t = 3%nat) then (put_string "p1" (sim_stringify "card") 300000 w.1, w.2) else w.
Definition follower_sched : asched (rview * unit) :=
  Schedule (λ t, if bool_decide (t = 0%nat) then Some (Fault false (JsError "ECONNRESET")) else None) leader
    (λ t, 20 * Z.of_nat t) (λ _, "follower").
Definition leader_holds : rview * unit := (RView 5000000 {["lock:p1" := (RString "leader", Some 9000)]}, tt).
Definition follow : result (option string) * nat * (rview * unit) :=
  Cache.get (H := sim_redis) sim_stringify sim_parse load_card (λ _, 0) DEFAULT_CACHE_OPTIONS "p1" follower_sched 0%nat leader_holds.

Lemma cache_never_drops_witness : follow.1.1 = Ok (Some "card") ∧
  cache_ok (H := sim_redis) "p1" (λ raw, raw = sim_stringify "card") follow.2 ∧ (∀ v, follow.1.1 = Ok (Some v) → v = "card").
Proof.
  split; [vm_compute; reflexivity|]. destruct follow as [[r t'] w'] eqn:Hrun. cbn [fst snd].
  destruct (cache_never_drops (H := sim_redis) sim_stringify sim_parse load_card (λ _, 0) DEFAULT_CACHE_OPTIONS "p1" (λ v, v = "card")
    (λ raw, raw = sim_stringify "card") follower_sched) with 0%nat leader_holds r t' w' as (Hok & _ & Hstrict).
  - intros v ->. reflexivity.
  - intros t [s []] Hw. change (s_others follower_sched) with leader. unfold leader.
    destruct (bool_decide (t = 3%nat)); [|exact Hw].
    apply (cache_ok_put (H := sim_redis) sim_stringify "p1" (λ v, v = "card") (λ raw, raw = sim_stringify "card") ltac:(by intros v ->) "card" 300000 s);
      [reflexivity|reflexivity|exact Hw].
  - intros t w r0 t0 w0 Hw Hr. injection Hr as <- <- <-. split; [exact Hw|]. intros v [= <-]. reflexivity.
  - vm_compute. repeat split; discriminate.
  - intros _. split; [discriminate|reflexivity].
  - split; [reflexivity|discriminate].
  - intros i. cbn [s_clock follower_sched pollMs DEFAULT_CACHE_OPTIONS]. lia.
  - split; [vm_compute; exact Logic.I|]. intros raw Hraw. vm_compute in Hraw. discriminate Hraw.
  - exact Hrun.
  - split; [exact Hok|]. apply Hstrict. intros raw ->. exists "card". split; reflexivity.
Defined.

(** The empty string under the key is no JSON: the request fails though the database would answer. *)
Lemma corrupt_entry_drops_witness : ∃ w e, Cache.get (H := sim_redis) sim_stringify sim_parse load_card (λ _, 0) DEFAULT_CACHE_OPTIONS "p1"
  (Schedule no_fault (λ _ w, w) (λ _, 0) (λ _, "")) 0%nat w = (Err e, 1%nat, w).
Proof.
  exists (RView 5000000 {["p1" := (RString "", Some 9000)]}, tt). eexists.
  apply (corrupt_entry_drops (H := sim_redis) sim_stringify sim_parse load_card) with ""; vm_compute; reflexivity.
Defined.

Lemma cache_lock_respected_witness : held (H := sim_redis) "p1" "leader" follow.2.
Proof.
  destruct follow as [[r t'] w'] eqn:Hrun.
  apply (cache_lock_respected (H := sim_redis) sim_stringify sim_parse load_card (λ _, 0) DEFAULT_CACHE_OPTIONS "p1" "leader" follower_sched)
    with 0%nat leader_holds r t'.
  - intros t [s []] Hw. change (s_others follower_sched) with leader. unfold leader.
    destruct (bool_decide (t = 3%nat)); [|exact Hw]. unfold held, string_at in *. cbn in *.
    unfold put_string, set_keys. cbn. rewrite lookup_insert_ne; [exact Hw|discriminate].
  - intros t w r0 t0 w0 Hw Hr. injection Hr as <- <- <-. by split.
  - vm_compute. repeat split; discriminate.
  - intros _. split; [discriminate|reflexivity].
  - discriminate.
  - vm_compute. reflexivity.
  - exact Hrun.
Defined.
