(* ===== verification/SingleFlight.v ===== *)
(** The single flight of the read cache (src/redis/cache.ts): many requests for
    one key at once, interleaved at every awaited call.

    [get_p] is [CacheAside.get] as a program, a tree with one node per awaited
    call, and [get_program] shows that its run in the monad of [Async] is
    [Cache.get].  [step] interleaves any number of such programs on one Redis
    and one clock. *)
From S2P Require Import Prelude JsNumber Schema Sql Async Redis RedisSim Cache.
#[local] Open Scope Z_scope.

(** ** The request as a program *)

Section program.
Context `{Redis} {T : Type}.

Inductive prog : Type :=
  | Done (r : result (option T))
  | Ask {X : Type} (op : redis → result X * redis) (k : result X → prog)
  | Load (k : result (option T) → prog)
  | Uuid (k : string → prog)
  | Now (k : Z → prog)
  | Nap (ms : Z) (k : prog)
  | Draw (k : Z → prog).

Context (stringify : T → string) (parse : string → result (option T)) (opts : CacheOptions) (key : string).

Definition read_p (k : result (option T) → prog) : prog :=
  Ask (λ s, (cmd_get key s, s)) (λ r, match r with Ok (Some raw) => k (parse raw) | _ => k (Ok None) end).

Definition store_p (v : T) (k : prog) (random : Z) : prog :=
  Ask (cmd_set key (stringify v) (jitteredTtl random (ttlSec opts) (jitterSec opts) * 1000)) (λ _, k).
Definition write_p (v : T) (k : prog) : prog := Draw (store_p v k).

Definition fill_p (k : result (option T) → prog) : prog :=
  Load (λ r, match r with Ok (Some v) => write_p v (k (Ok (Some v))) | _ => k r end).

(** One more round of the waiting loop, after its nap. *)
Definition poll_p (again : prog) : prog :=
  read_p (λ r, match r with Ok None => again | _ => Done r end).
Fixpoint wait_p (fuel : nat) (deadline : Z) : prog :=
  match fuel with
  | O => Done (Err (JsError "the wait does not terminate"))
  | S fuel => Now (λ now, if now <? deadline then Nap (pollMs opts) (poll_p (wait_p fuel deadline)) else fill_p Done)
  end.
Definition stand_by : prog := Now (λ now, wait_p (wait_fuel opts) (now + waitMs opts)).

Definition unlock_p (token : string) (r : result (option T)) : prog :=
  Ask (UNLOCK_LUA (lockKey key) token) (λ _, Done r).
(** Under the lock: read again, then fill; whatever happens, unlock. *)
Definition lead (token : string) : prog :=
  read_p (λ r, match r with Ok None => fill_p (unlock_p token) | _ => unlock_p token r end).
Definition lock_p (token : string) : prog :=
  Ask (cmd_set_nx (lockKey key) token (lockMs opts))
    (λ got, match got with Ok true => lead token | _ => stand_by end).

Definition get_p : prog :=
  read_p (λ r, match r with
    | Ok None => if negb (singleFlight opts) then fill_p Done else Uuid lock_p
    | _ => Done r
    end).
End program.
Arguments prog {_} _.

(** ** Its run is [Cache.get] *)

Section denote.
Context `{Redis} {D T : Type}.
Context (stringify : T → string) (parse : string → result (option T)).
Context (load : string → async (redis * D) (option T)) (random : nat → Z) (opts : CacheOptions) (key : string).

Fixpoint denote (p : prog T) : async (redis * D) (option T) :=
  match p with
  | Done r => io_lift r
  | Ask op k => r ← io_try (send op); denote (k r)
  | Load k => r ← io_try (load key); denote (k r)
  | Uuid k => x ← randomUUID; denote (k x)
  | Now k => x ← io_date; denote (k x)
  | Nap _ k => _ ← sleep; denote k
  | Draw k => λ σ t w, denote (k (random t)) σ t w
  end.

Lemma denote_read k σ t w : denote (read_p parse key k) σ t w =
  (r ← io_try (read parse key); denote (k r)) σ t w.
Proof.
  cbn [denote read_p]. unfold read, safe, io_try, mbind, io_bind.
  destruct (send _ σ t w) as [[[[raw|]|e] t1] w1]; [|done|done]. cbn. by unfold io_lift.
Qed.

Lemma denote_fill k σ t w : denote (fill_p stringify opts key k) σ t w =
  (r ← io_try (fill stringify load random opts key); denote (k r)) σ t w.
Proof.
  cbn [denote fill_p]. unfold fill, io_try, mbind, io_bind.
  destruct (load key σ t w) as [[[[v|]|e] t1] w1]; [|done|done].
  cbn. unfold write, safe, io_try, mbind, io_bind. by destruct (send _ σ t1 w1) as [[[[]|] ?] ?].
Qed.

#[local] Ltac run_it := cbv [io_try io_date sleep randomUUID safe mret io_ret io_lift mbind io_bind].

Lemma denote_wait fuel deadline σ t w : denote (wait_p stringify parse opts key fuel deadline) σ t w =
  (r ← wait_for parse fuel key deadline;
   match r with
   | Some (Some v) => mret (Some v)
   | Some None => fill stringify load random opts key
   | None => io_throw (JsError "the wait does not terminate")
   end) σ t w.
Proof.
  revert t w. induction fuel as [|fuel IH]; intros t w; [done|].
  cbn [wait_p wait_for denote]. revert IH. run_it. intros IH. destruct (s_clock σ t <? deadline).
  - cbn [denote]. run_it. unfold poll_p. rewrite denote_read. run_it.
    destruct (read parse key σ (S t) (s_others σ t w)) as [[[[v|]|e] t1] w1]; [done| |done]. apply IH.
  - rewrite denote_fill. run_it. by destruct (fill stringify load random opts key σ t w) as [[[] ?] ?].
Qed.

Lemma denote_unlock token r σ t w : denote (unlock_p key token r) σ t w =
  (_ ← safe (send (UNLOCK_LUA (lockKey key) token)) 0; io_lift r) σ t w.
Proof. cbn [denote unlock_p]. run_it. by destruct (send _ σ t w) as [[[] ?] ?]. Qed.

Theorem get_program σ t w :
  denote (get_p stringify parse opts key) σ t w = get stringify parse load random opts key σ t w.
Proof.
  unfold get_p, get. rewrite denote_read. run_it.
  destruct (read parse key σ t w) as [[[[v|]|e] t1] w1]; [done| |done].
  destruct (negb (singleFlight opts)).
  { rewrite denote_fill. run_it. by destruct (fill stringify load random opts key σ t1 w1) as [[[] ?] ?]. }
  cbn [denote lock_p]. run_it. destruct (send (cmd_set_nx _ _ _) σ t1 w1) as [[[[|]|e] t2] w2]; cbn [denote].
  2-3: unfold stand_by; cbn [denote]; run_it; rewrite denote_wait; reflexivity.
  unfold lead. rewrite denote_read. run_it.
  destruct (read parse key σ t2 w2) as [[[[v|]|e] t3] w3].
  2: { rewrite denote_fill. run_it. destruct (fill stringify load random opts key σ t3 w3) as [[r t4] w4]. rewrite denote_unlock. reflexivity. }
  all: by rewrite denote_unlock.
Qed.
End denote.

(** ** Many requests at once *)

Section pool.
Context `{RedisLaws} {T : Type}.
Context (stringify : T → string) (parse : string → result (option T)) (opts : CacheOptions) (key : string).

(** What one call of the loader gives: a value, null, or an exception. *)
Notation answer := (result (option T)).

(** The clock of the process in milliseconds, the server, what the calls of the
    loader have answered so far, in their order, and the requests, each with the
    time its pending timer fires. *)
Record pool := Pool { clock : Z; server : redis; answers : list answer; requests : list (prog T * Z) }.

(** Time passes, and others use the server, but nobody else writes or removes
    the value and its lock, and the value is not evicted: either stays until
    its TTL. *)
Definition stays (k : string) (v v' : rview) : Prop :=
  r_keys v' !! k = r_keys v !! k ∨
  r_keys v' !! k = None ∧ ∃ x e, r_keys v !! k = Some (x, Some e) ∧ e ≤ now_ms v'.
Definition meanwhile (s s' : redis) : Prop :=
  now_ms (view s) ≤ now_ms (view s') ∧ stays key (view s) (view s') ∧ stays (lockKey key) (view s) (view s').

(** One step of a request: the server and the program after it, the answer of
    the loader if it was called and the delay of its timer.  The loader may
    answer anything. *)
Definition act (c : Z) (s : redis) (p : prog T) (s' : redis) (p' : prog T) (m : list answer) (d : Z) : Prop :=
  match p with
  | Done _ => False
  | Ask op k => s' = (op s).2 ∧ p' = k (op s).1 ∧ m = [] ∧ d = 0
  | Load k => (∃ r, p' = k r ∧ m = [r]) ∧ s' = s ∧ d = 0
  | Uuid k => (∃ u, p' = k u) ∧ s' = s ∧ m = [] ∧ d = 0
  | Now k => p' = k c ∧ s' = s ∧ m = [] ∧ d = 0
  | Nap ms k => p' = k ∧ s' = s ∧ m = [] ∧ d = ms
  | Draw k => (∃ x, 0 ≤ x < 2 ^ 53 ∧ p' = k x) ∧ s' = s ∧ m = [] ∧ d = 0
  end.

(** The server's clock never goes back. *)
Inductive step : pool → pool → Prop :=
  | step_others c c' s s' n ps : c ≤ c' → meanwhile s s' → step (Pool c s n ps) (Pool c' s' n ps)
  | step_request c s n ps i p due s' p' m d :
      ps !! i = Some (p, due) → due ≤ c → act c s p s' p' m d → now_ms (view s) ≤ now_ms (view s') →
      step (Pool c s n ps) (Pool c s' (n ++ m) (<[i := (p', c + d)]> ps)).

Notation get_p := (get_p stringify parse opts key).
Notation wait_p := (wait_p stringify parse opts key).
Notation poll_p := (poll_p parse key).
Notation lock_p := (lock_p stringify parse opts key).
Notation lead := (lead stringify parse opts key).
Notation stand_by := (stand_by stringify parse opts key).
Notation unlock_p := (unlock_p key).

Definition wave (n : nat) (c : Z) (s : redis) : pool := Pool c s [] (replicate n (get_p, c)).

(** *** One call of the loader per request *)








Context (Hjson : ∀ v, parse (stringify v) = Ok (Some v)).
Context (Hopts : 0 < lockMs opts ∧ 0 < ttlSec opts ∧ 0 ≤ jitterSec opts < 2 ^ 53 - 1 ∧ singleFlight opts = true).
Context (Hpoll : 0 < pollMs opts ∧ 0 ≤ waitMs opts).
(** The instance evicts instead of refusing. *)
Context (Hroom : ∀ k x ms s, (cmd_set k x ms s).1 = Ok tt ∧ ∀ e, (cmd_set_nx k x ms s).1 ≠ Err e).

(** The wave began at [c0] by the process' clock and at [n0] by the server's;
    no waiting request has given up, and neither lock nor value has expired. *)
Context (c0 n0 : Z).
Definition in_time (st : pool) : Prop :=
  clock st < c0 + waitMs opts ∧ now_ms (view (server st)) < n0 + lockMs opts ∧
  now_ms (view (server st)) < n0 + ttlSec opts * 1000.

(** *** Where a request is *)

(** It has not tried the lock. *)
Definition early (p : prog T) : Prop := p = get_p ∨ p = Uuid lock_p ∨ ∃ token, p = lock_p token.
(** It waits for the leader: the deadline is later than any time of the wave,
    and the rounds left reach it. *)
Definition rounds (due deadline : Z) (fuel : nat) : Prop :=
  c0 + waitMs opts ≤ deadline ≤ due + (Z.of_nat fuel - 1) * pollMs opts.
Definition waits (c : Z) (p : prog T) (due : Z) : Prop :=
  p = stand_by ∨ ∃ deadline fuel,
    (p = wait_p fuel deadline ∧ due ≤ c ∧ rounds due deadline fuel) ∨
    (p = Nap (pollMs opts) (poll_p (wait_p fuel deadline)) ∧ rounds due deadline (S fuel)) ∨
    (p = poll_p (wait_p fuel deadline) ∧ rounds due deadline fuel).
(** It has passed on what the loader told it. *)
Definition ended (a : list answer) (p : prog T) : Prop := ∃ r, p = Done r ∧ r ∈ a.
Definition idle (a : list answer) (c : Z) (p : prog T) (due : Z) : Prop := early p ∨ waits c p due ∨ ended a p.

(** No call of the loader has given a value; only the last one has. *)
Definition barren (a : list answer) : Prop := ∀ i v, a !! i ≠ Some (Ok (Some v)).
Definition first_value (v : T) (a : list answer) : Prop := ∃ pre, a = pre ++ [Ok (Some v)] ∧ barren pre.

(** It holds the lock: before its call of the loader, with the value it was
    given, and with the null or the exception. *)
Definition leads (token : string) (p : prog T) (a : list answer) : Prop :=
  (p = lead token ∨ p = fill_p stringify opts key (unlock_p token)) ∧ barren a ∨
  (∃ v, first_value v a ∧ (p = write_p stringify opts key v (unlock_p token (Ok (Some v))) ∨
     ∃ random, 0 ≤ random < 2 ^ 53 ∧ p = store_p stringify opts key v (unlock_p token (Ok (Some v))) random)) ∨
  (∃ r, barren a ∧ r ∈ a ∧ p = unlock_p token r).
(** It reads the value when it reads. *)
Definition served (a : list answer) (v : T) (c : Z) (p : prog T) (due : Z) : Prop :=
  idle a c p due ∨ (∃ token, p = lead token ∨ p = unlock_p token (Ok (Some v))) ∨ p = Done (Ok (Some v)).

(** *** The stages of a wave *)

Definition lives (k x : string) (until : Z) (s : redis) : Prop := ∃ e, r_keys (view s) !! k = Some (RString x, Some e) ∧ until ≤ e.
Definition absent (k : string) (s : redis) : Prop := r_keys (view s) !! k = None.

Definition cold (st : pool) : Prop :=
  absent key (server st) ∧ absent (lockKey key) (server st) ∧ barren (answers st) ∧
  ∀ i p due, requests st !! i = Some (p, due) → idle (answers st) (clock st) p due.
Definition led (st : pool) : Prop := ∃ l token p due,
  absent key (server st) ∧ lives (lockKey key) token (n0 + lockMs opts) (server st) ∧
  requests st !! l = Some (p, due) ∧ leads token p (answers st) ∧
  ∀ i p due, i ≠ l → requests st !! i = Some (p, due) → idle (answers st) (clock st) p due.
Definition warm (a : list answer) (v : T) (st : pool) : Prop :=
  lives key (stringify v) (n0 + ttlSec opts * 1000) (server st) ∧ string_key (lockKey key) (view (server st)) ∧
  answers st = a ∧ ∀ i p due, requests st !! i = Some (p, due) → served a v (clock st) p due.
Definition begun (st : pool) : Prop := c0 ≤ clock st ∧ n0 ≤ now_ms (view (server st)).

(** *** The commands *)

Lemma read_act c s k s' p' m d : string_key key (view s) → act c s (read_p parse key k) s' p' m d →
  s' = s ∧ m = [] ∧ d = 0 ∧ p' = match string_at key (view s) with Some raw => k (parse raw) | None => k (Ok None) end.
Proof. intros Hk (-> & -> & -> & ->). cbn. rewrite get_law by done. by destruct (string_at key (view s)). Qed.
Lemma read_lives v c s k s' p' m d until : lives key (stringify v) until s → act c s (read_p parse key k) s' p' m d →
  s' = s ∧ m = [] ∧ d = 0 ∧ p' = k (Ok (Some v)).
Proof.
  intros (e & Hk & _) Ha. apply read_act in Ha; unfold string_key, string_at in *; rewrite Hk in *; [|done]. by rewrite Hjson in Ha.
Qed.

Lemma lock_free c s token s' p' m d : absent (lockKey key) s → act c s (lock_p token) s' p' m d →
  p' = lead token ∧ m = [] ∧ d = 0 ∧ view s' = put_string (lockKey key) token (lockMs opts) (view s).
Proof.
  intros Hk (-> & -> & -> & ->). pose proof (set_nx_law (lockKey key) token (lockMs opts) s ltac:(lia)) as Hl.
  unfold absent in Hk. rewrite Hk in Hl. destruct Hl as [(s' & Hr & Hv)|(e & s' & Hr & _)].
  - by rewrite Hr.
  - by destruct (proj2 (Hroom (lockKey key) token (lockMs opts) s) e); rewrite Hr.
Qed.
Lemma lock_taken c s token s' p' m d : ¬ absent (lockKey key) s → act c s (lock_p token) s' p' m d →
  p' = stand_by ∧ m = [] ∧ d = 0 ∧ view s' = view s.
Proof.
  intros Hk (-> & -> & -> & ->). pose proof (set_nx_law (lockKey key) token (lockMs opts) s ltac:(lia)) as Hl.
  unfold absent in Hk. destruct (r_keys (view s) !! lockKey key); [|done]. destruct Hl as (s' & Hr & Hv). by rewrite Hr.
Qed.
Lemma unlock_act c s token r s' p' m d : act c s (unlock_p token r) s' p' m d →
  p' = Done r ∧ m = [] ∧ d = 0 ∧ (view s' = view s ∨ view s' = set_keys (delete (lockKey key)) (view s)).
Proof.
  intros (-> & -> & -> & ->). split_and!; [done..|]. unfold UNLOCK_LUA.
  destruct (cmd_get (lockKey key) s) as [[x|]|]; [|by left|by left]. destruct (String.eqb x token); [|by left].
  destruct (del_law (lockKey key) s) as (n & s1 & -> & Hv). by right.
Qed.
(** *** Keys over a step *)

Lemma absent_stays k s s' : absent k s → stays k (view s) (view s') → absent k s'.
Proof. unfold absent. intros Hk [->|[-> _]]; done. Qed.
Lemma lives_stays k x until s s' : lives k x until s → now_ms (view s') < until → stays k (view s) (view s') → lives k x until s'.
Proof.
  intros (e & Hk & He) Hnow [Heq|(_ & y & e' & Hk' & He')]; [exists e; by rewrite Heq|].
  rewrite Hk in Hk'. injection Hk' as <- <-. lia.
Qed.
Lemma string_key_stays k v v' : string_key k v → stays k v v' → string_key k v'.
Proof. unfold string_key. intros Hk [->|[-> _]]; done. Qed.
Lemma lives_put_ne k k' x y ms until s s' : k ≠ k' → view s' = put_string k' y ms (view s) → lives k x until s → lives k x until s'.
Proof. unfold lives. intros Hne -> Hk. unfold put_string, set_keys. cbn. by rewrite lookup_insert_ne. Qed.

(** *** Steps of a request *)

Lemma waits_later c c' p due : c ≤ c' → waits c p due → waits c' p due.
Proof.
  intros Hc [->|(dl & f & [(-> & Hd & Hr)|[(-> & Hr)|(-> & Hr)]])]; [by left|..]; right; exists dl, f; [left|right; left|right; right]; split_and?; (done || lia).
Qed.
Lemma idle_later a c c' p due : c ≤ c' → idle a c p due → idle a c' p due.
Proof. intros Hc [?|[?|?]]; [by left|right; left; by eapply waits_later|by right; right]. Qed.
Lemma served_later a v c c' p due : c ≤ c' → served a v c p due → served a v c' p due.
Proof. intros Hc [?|?]; [left; by eapply idle_later|by right]. Qed.


Lemma early_lives a v c s p s' p' m d until : early p → lives key (stringify v) until s → act c s p s' p' m d →
  m = [] ∧ d = 0 ∧ served a v c p' (c + d) ∧
  (view s' = view s ∨ ∃ token, view s' = put_string (lockKey key) token (lockMs opts) (view s)).
Proof.
  intros Hp Hk. destruct Hp as [->|[->|[token ->]]]; intros Ha.
  - eapply read_lives in Ha as (-> & -> & -> & ->); [|done]. split_and!; [done..| |by left]. right. by right.
  - destruct Ha as ([u ->] & -> & -> & ->). split_and!; [done..| |by left]. left. left. right. right. by exists u.
  - destruct (decide (r_keys (view s) !! lockKey key = None)) as [Hl|Hl].
    + apply lock_free in Ha as (-> & -> & -> & Hv); [|done]. split_and!; [done..| |by right; eauto]. right. left. eauto.
    + apply lock_taken in Ha as (-> & -> & -> & Hv); [|done]. split_and!; [done..| |by left]. left. right. left. by left.
Qed.

Lemma waits_act c s p due s' p' m d : waits c p due → due ≤ c → c0 ≤ c → c < c0 + waitMs opts → act c s p s' p' m d →
  (s' = s ∧ m = [] ∧ waits c p' (c + d)) ∨
  ∃ deadline fuel, p = poll_p (wait_p fuel deadline) ∧ rounds due deadline fuel.
Proof.
  intros [->|(dl & fuel & [(-> & _ & Hr)|[(-> & Hr)|(-> & Hr)]])] Hdue Hc0 Hc Ha; [..|right; eauto].
  - left. destruct Ha as (-> & -> & -> & ->). split_and!; [done..|]. right. exists (c + waitMs opts), (wait_fuel opts). left.
    split_and!; [done|lia|]. unfold rounds, wait_fuel.
    pose proof (Z.div_mod (waitMs opts) (pollMs opts) ltac:(lia)). pose proof (Z.mod_pos_bound (waitMs opts) (pollMs opts) ltac:(lia)).
    pose proof (Z.div_pos (waitMs opts) (pollMs opts) ltac:(lia) ltac:(lia)). split; [lia|]. nia.
  - left. destruct fuel as [|fuel]; [destruct Ha|]. destruct Ha as (-> & -> & -> & ->). split_and!; [done..|].
    right. exists dl, fuel. right. left. unfold rounds in *. destruct (Z.ltb_spec c dl); [|lia]. split; [done|]. lia.
  - left. destruct Ha as (-> & -> & -> & ->). split_and!; [done..|]. right. exists dl, fuel. right. right. split; [done|].
    unfold rounds in *. lia.
Qed.

Lemma waits_lives a v c s p due s' p' m d until : waits c p due → due ≤ c → c0 ≤ c → c < c0 + waitMs opts → lives key (stringify v) until s →
  act c s p s' p' m d → s' = s ∧ m = [] ∧ served a v c p' (c + d).
Proof.
  intros Hw Hdue Hc0 Hc Hk Ha. destruct (waits_act _ _ _ _ _ _ _ _ Hw Hdue Hc0 Hc Ha) as [(? & ? & ?)|(dl & fuel & -> & Hr)].
  - split_and!; [done..|]. left. right. by left.
  - eapply read_lives in Ha as (-> & -> & -> & ->); [|done]. split_and!; [done..|]. right. by right.
Qed.
(** What a request may do to the server once the value is there. *)
Definition harmless (s s' : redis) : Prop :=
  view s' = view s ∨ view s' = set_keys (delete (lockKey key)) (view s) ∨
  ∃ token, view s' = put_string (lockKey key) token (lockMs opts) (view s).
Lemma harmless_keeps x until s s' : harmless s s' → lives key x until s → string_key (lockKey key) (view s) →
  lives key x until s' ∧ string_key (lockKey key) (view s') ∧ now_ms (view s') = now_ms (view s).
Proof.
  pose proof (lockKey_ne key) as Hne. unfold lives, string_key. intros [->|[->|[token ->]]]; [done|..];
    unfold set_keys, put_string; cbn.
  - by rewrite lookup_delete_ne, lookup_delete_eq.
  - by rewrite lookup_insert_ne, lookup_insert_eq.
Qed.

Lemma served_act a v c s p due s' p' m d until : served a v c p due → due ≤ c → c0 ≤ c → c < c0 + waitMs opts →
  lives key (stringify v) until s → act c s p s' p' m d → m = [] ∧ served a v c p' (c + d) ∧ harmless s s'.
Proof.
  intros [[Hp|[Hp|(r & -> & _)]]|[[token [->| ->]]| ->]] Hdue Hc0 Hc Hk Ha.
  - eapply early_lives in Ha as (-> & -> & Hs & Hv); [|done..]. split_and!; [done|exact Hs|]. destruct Hv; [by left|right; by right].
  - eapply waits_lives in Ha as (-> & -> & Hs); [|done..]. split_and!; [done|exact Hs|]. by left.
  - destruct Ha.
  - eapply read_lives in Ha as (-> & -> & -> & ->); [|done]. split_and!; [done| |by left]. right. left. eauto.
  - apply unlock_act in Ha as (-> & -> & -> & Hv). split_and!; [done| |destruct Hv; [by left|right; by left]]. right. by right.
  - destruct Ha.
Qed.


(** *** The stages over a step *)

Lemma stage_others c c' s s' a ps : c ≤ c' → meanwhile s s' → in_time (Pool c' s' a ps) →
  (cold (Pool c s a ps) → cold (Pool c' s' a ps)) ∧ (led (Pool c s a ps) → led (Pool c' s' a ps)) ∧
  (∀ m v, warm m v (Pool c s a ps) → warm m v (Pool c' s' a ps)).
Proof.
  intros Hc (Hn & Hk & Hl) (_ & Ht & Ht'). cbn in *. split_and!.
  - intros (Ha & Hb & Hz & Hps). split_and!; [by eapply absent_stays|by eapply absent_stays|done|].
    intros i p due Hp. eapply idle_later; [done|by eapply Hps].
  - intros (l & token & p & due & Ha & Hb & Hp & Hlead & Hps). exists l, token, p, due.
    split_and!; [by eapply absent_stays|by eapply lives_stays|done..|].
    intros i q due' Hne Hq. eapply idle_later; [done|by eapply Hps].
  - intros m v (Ha & Hb & Hm & Hps). split_and!; [by eapply lives_stays|by eapply string_key_stays|done|].
    intros i p due Hp. eapply served_later; [done|by eapply Hps].
Qed.

(** The other requests, after request [i] has moved on. *)
Lemma others_insert (P : prog T → Z → Prop) (ps : list (prog T * Z)) i p' due' :
  (∀ j p due, j ≠ i → ps !! j = Some (p, due) → P p due) → P p' due' →
  ∀ j p due, <[i := (p', due')]> ps !! j = Some (p, due) → P p due.
Proof.
  intros Hps Hp j p due Hj. apply list_lookup_insert_Some in Hj as [(<- & [= <- <-] & _)|(Hne & Hj)]; [done|]. by eapply Hps.
Qed.

Lemma warm_act a v c s ps i p due s' p' m d : begun (Pool c s a ps) → c < c0 + waitMs opts → warm a v (Pool c s a ps) →
  ps !! i = Some (p, due) → due ≤ c → act c s p s' p' m d → warm a v (Pool c s' (a ++ m) (<[i := (p', c + d)]> ps)).
Proof.
  intros [Hc0 Hn0] Hc (Hk & Hl & _ & Hps) Hi Hdue Ha. cbn in *.
  destruct (served_act _ _ _ _ _ _ _ _ _ _ _ (Hps _ _ _ Hi) Hdue Hc0 Hc Hk Ha) as (-> & Hs & Hh).
  destruct (harmless_keeps _ _ _ _ Hh Hk Hl) as (Hk' & Hl' & _). split_and!; [done..|cbn; by rewrite app_nil_r|].
  apply (others_insert (served a v c)); [|done]. intros j q dq _. apply Hps.
Qed.





Lemma step_back st st' : step st st' → in_time st' → in_time st.
Proof. unfold in_time. intros [c c' s s' n ps Hc (Hn & _)|c s n ps i p due s' p' m d _ _ _ Hn]; cbn; lia. Qed.
Lemma step_begun st st' : step st st' → begun st → begun st'.
Proof. unfold begun. intros [c c' s s' n ps Hc (Hn & _)|c s n ps i p due s' p' m d _ _ _ Hn]; cbn; lia. Qed.

Lemma steps_back st st' : rtc step st st' → in_time st' → in_time st.
Proof. induction 1 as [|x y z Hxy _ IH]; [done|]. intros Ht. eapply step_back; eauto. Qed.
(** What a step preserves in time holds at the end of a run in time. *)
Lemma steps_keep (P : pool → Prop) st st' : (∀ x y, step x y → in_time y → P x → P y) → rtc step st st' → in_time st' → P st → P st'.
Proof.
  intros HP. induction 1 as [|x y z Hxy Hyz IH]; [done|]. intros Ht Hx. apply IH; [done|].
  eapply HP; [done| |done]. by eapply steps_back.
Qed.

Lemma early_done r : ¬ early (Done r).
Proof. by intros [[=]|[[=]|[token [=]]]]. Qed.
Lemma waits_done c r due : c < c0 + waitMs opts → ¬ waits c (Done r) due.
Proof.
  intros Hc [[=]|(dl & fuel & [(Heq & Hd & Hr)|[([=] & _)|([=] & _)]])]. destruct fuel; [|done].
  unfold rounds in Hr. lia.
Qed.
Lemma idle_done a c r due : c < c0 + waitMs opts → idle a c (Done r) due → r ∈ a.
Proof. intros Hc [Hp|[Hp|(x & [= ->] & Hx)]]; [by apply early_done in Hp|by apply waits_done in Hp|done]. Qed.
Lemma served_done a v c r due : c < c0 + waitMs opts → served a v c (Done r) due → r ∈ a ∨ r = Ok (Some v).
Proof. intros Hc [Hp|[[token [[=]|[=]]]|[= ->]]]; [left; by eapply idle_done|by right]. Qed.

(** A request that has not ended can go on. *)
Lemma request_goes_on c s p : (∀ r, p ≠ Done r) → ∃ s' p' m d, act c s p s' p' m d.
Proof.
  intros Hp. destruct p as [r|X op k|k|k|k|ms k|k].
  1: by destruct (Hp r).
  all: eexists _, _, _, _; cbn; split_and!; try reflexivity.
  - by exists (Ok None).
  - by exists "".
  - exists 0. split; [lia|reflexivity].
Qed.


(** A wave on a key that is cached never calls the loader. *)
Theorem warm_reads n s0 v st : n0 ≤ now_ms (view s0) → lives key (stringify v) (n0 + ttlSec opts * 1000) s0 →
  string_key (lockKey key) (view s0) → rtc step (wave n c0 s0) st → in_time st →
  answers st = [] ∧ ∀ i r due, requests st !! i = Some (Done r, due) → r = Ok (Some v).
Proof.
  intros Hn Hk Hl Hsteps Ht. assert (Hst : begun st ∧ warm [] v st).
  { eapply (steps_keep (λ st, begun st ∧ warm [] v st)); [|done..|].
    - intros x y Hxy Hy [Hb Hw]. split; [by eapply step_begun|]. pose proof (step_back _ _ Hxy Hy) as [Hc _].
      destruct Hxy as [c c' s s' m ps Hcc Hm|c s m ps i p due s' p' m' d Hi Hdue Ha _]; [by eapply stage_others|].
      pose proof (proj1 (proj2 (proj2 Hw))) as Hz. cbn in Hz. subst m. by eapply warm_act.
    - split; [unfold begun; cbn; lia|]. split_and!; [done..|]. intros i p due Hp.
      apply lookup_replicate in Hp as [[= -> ->] _]. left. left. by left. }
  destruct Hst as (_ & _ & _ & Hz & Hps). split; [done|]. intros i r due Hi.
  destruct (served_done _ _ _ _ _ (proj1 Ht) (Hps _ _ _ Hi)) as [Hr| ->]; [by apply elem_of_nil in Hr|done].
Qed.
End pool.

(** ** A wave of three *)

#[local] Existing Instance sim_redis.
#[local] Existing Instance sim_redis_laws.

#[local] Notation three := (wave (H := sim_redis) sim_stringify sim_parse DEFAULT_CACHE_OPTIONS "card:1" 3 0 (sim_start 5000)).
#[local] Notation moves := (step (H := sim_redis) (T := string) "card:1").




#[local] Instance answer_dec : EqDecision (result (option string)).
Proof. solve_decision. Defined.

