(* ===== verification/Session.v ===== *)
(** Browser sessions in Redis with a rolling TTL (src/redis/session.ts): the
    store, the cookie and the middleware.

    Session data are any type with its JSON codec; [random_bytes] gives the
    24 bytes of [randomBytes] drawn at a time. *)
From S2P Require Import Prelude JsNumber JsText Schema Sql Async Redis RedisSim.
#[local] Open Scope Z_scope.

Definition SESSION_COOKIE : string := "sid".

(** ** The cookie *)

Fixpoint read_parts (parts : list (list Z)) (name : string) : option string :=
  match parts with
  | [] => None
  | part :: parts =>
      match js_split 61 (js_trim part) with
      | k :: v => if String.eqb (text_of k) name then Some (text_of (js_join 61 v)) else read_parts parts name
      | [] => read_parts parts name
      end
  end.
Definition readCookie (header : option string) (name : string) : option string :=
  read_parts (js_split 59 (bytes_of (default "" header))) name.

Example cookie_examples :
  readCookie (Some "a=1; sid=x=y ;b") "sid" = Some "x=y" ∧ readCookie (Some "sid") "sid" = Some "" ∧
  readCookie (Some "asid=1;SID=2") "sid" = None ∧ readCookie None "sid" = None.
Proof. vm_compute. done. Qed.

(** ** The store *)

Record SessionStore := SessionStoreOf { st_ttlSec : Z; st_prefix : string }.

Record RequestSession (D : Type) := RequestSessionOf { rq_id : string; rq_data : D; rq_isNew : bool }.
Arguments RequestSessionOf {D}.
Arguments rq_id {D}.
Arguments rq_data {D}.
Arguments rq_isNew {D}.

Section session.
Context `{Redis} {D : Type}.
Context (stringify : D → string) (parse : string → result (option D)) (empty_data : D).
Context (random_bytes : nat → list Z) (store : SessionStore).
Notation io := (async redis).

Definition session_key (sid : string) : string := st_prefix store +:+ sid.
Definition ttl_ms : Z := st_ttlSec store * 1000.

Definition create (data : D) : io string := λ σ t w,
  let sid := to_base64url (random_bytes t) in
  (_ ← roundtrip (cmd_set (session_key sid) (stringify data) ttl_ms); mret sid) σ t w.

Definition touch (sid : string) : io (option D) :=
  raw ← roundtrip (cmd_getex (session_key sid) ttl_ms);
  match raw with
  | None => mret None
  | Some raw => io_lift (parse raw)
  end.

Definition save (sid : string) (data : D) : io unit :=
  roundtrip (cmd_set (session_key sid) (stringify data) ttl_ms).

Definition destroy (sid : string) : io Z := roundtrip (cmd_del (session_key sid)).

(** The body of the middleware's [try]: the session of the request and the
    Set-Cookie header, if one is sent; an exception goes to [next(e)]. *)
Definition set_cookie (id : string) : string :=
  SESSION_COOKIE +:+ "=" +:+ id +:+ "; HttpOnly; Path=/; SameSite=Lax".
Definition sessionMiddleware (cookie : option string) : io (RequestSession D * option string) :=
  let sid := truthy (readCookie cookie SESSION_COOKIE) in
  existing ← match sid with Some sid => touch sid | None => mret None end;
  match sid, existing with
  | Some sid, Some data => mret (RequestSessionOf sid data false, None)
  | _, _ =>
      id ← create empty_data;
      mret (RequestSessionOf id empty_data true, Some (set_cookie id))
  end.
End session.

(** ** The cookie round trip *)

(** The name of a cookie text, as the server reads it. *)
Definition cookie_name (p : list Z) : string :=
  match js_split 61 (js_trim p) with k :: _ => text_of k | [] => "" end.

(** The Cookie header of a browser that holds other cookies too. *)
Definition cookie_header (others : list string) (last : string) : string :=
  text_of (foldr (λ p acc, bytes_of p ++ 59 :: 32 :: acc) (bytes_of last) others).

Lemma js_split_cons sep l : ∃ k v, js_split sep l = k :: v.
Proof. destruct l as [|c l]; cbn; [eauto|]. destruct (c =? sep); [eauto|]. destruct (js_split sep l); eauto. Qed.

Lemma read_parts_skip p parts name : cookie_name p ≠ name → read_parts (p :: parts) name = read_parts parts name.
Proof.
  unfold cookie_name. cbn [read_parts]. destruct (js_split 61 (js_trim p)) as [|k v]; [done|].
  destruct (String.eqb_spec (text_of k) name); [congruence|done].
Qed.


Lemma sid_split id : Forall (λ c, visible c ∧ c ≠ 59 ∧ c ≠ 61) (bytes_of id) →
  ∀ l, l = bytes_of (SESSION_COOKIE +:+ "=" +:+ id) → read_parts (js_split 59 l) SESSION_COOKIE = Some id ∧
    read_parts (js_split 59 (32 :: l)) SESSION_COOKIE = Some id.
Proof.
  intros Hid l Hl. rewrite !bytes_of_app in Hl.
  change (bytes_of SESSION_COOKIE ++ bytes_of "=" ++ bytes_of id) with ([115; 105; 100] ++ 61 :: bytes_of id) in Hl.
  assert (Hno : ∀ sep, sep = 59 ∨ sep = 61 → sep ∉ bytes_of id).
  { intros sep Hsep Hin. rewrite Forall_forall in Hid. specialize (Hid sep Hin). cbn in Hid. lia. }
  assert (Hsep : 59 ∉ l).
  { rewrite Hl, elem_of_app. intros [Hin|[Hin|Hin]%elem_of_cons]; [|discriminate Hin|exact (Hno 59 (or_introl eq_refl) Hin)].
    repeat (apply elem_of_cons in Hin as [Hin|Hin]; [done|]). by apply elem_of_nil in Hin. }
  assert (Htrim : js_trim l = l).
  { apply js_trim_visible. rewrite Hl. apply Forall_app. split; [repeat constructor; done|].
    constructor; [done|]. eapply Forall_impl; [exact Hid|]. cbn. tauto. }
  assert (Hread : js_split 61 l = [[115; 105; 100]; bytes_of id]).
  { rewrite Hl, js_split_app.
    - by rewrite js_split_plain by (apply Hno; by right).
    - intros Hin. repeat (apply elem_of_cons in Hin as [Hin|Hin]; [done|]). by apply elem_of_nil in Hin. }
  assert (Hsep' : 59 ∉ 32 :: l) by (intros [?|?]%elem_of_cons; done).
  rewrite !js_split_plain by done. cbn [read_parts]. rewrite js_trim_space, Htrim, Hread.
  change (String.eqb (text_of [115; 105; 100]) SESSION_COOKIE) with true. cbn [js_join]. by rewrite text_of_bytes.
Qed.

(** Other cookies in front of the session cookie do not hide it. *)
Lemma read_header others sid :
  Forall (λ p, 59 ∉ bytes_of p ∧ cookie_name (bytes_of p) ≠ SESSION_COOKIE) others →
  Forall (λ c, visible c ∧ c ≠ 59 ∧ c ≠ 61) (bytes_of sid) →
  readCookie (Some (cookie_header others (SESSION_COOKIE +:+ "=" +:+ sid))) SESSION_COOKIE = Some sid.
Proof.
  intros Ho Hid. unfold readCookie, cookie_header. cbn [default from_option].
  set (l := bytes_of (SESSION_COOKIE +:+ "=" +:+ sid)). unfold id. rewrite bytes_text.
  - enough (Hboth : ∀ o, Forall (λ p, 59 ∉ bytes_of p ∧ cookie_name (bytes_of p) ≠ SESSION_COOKIE) o →
      let x := foldr (λ p acc, bytes_of p ++ 59 :: 32 :: acc) l o in
      read_parts (js_split 59 x) SESSION_COOKIE = Some sid ∧ read_parts (js_split 59 (32 :: x)) SESSION_COOKIE = Some sid)
      by apply (Hboth others Ho).
    clear Ho. intros o. induction 1 as [|p o [Hsep Hname] _ [_ IH]]; [by apply sid_split|]. cbn [foldr].
    assert (Hsep' : 59 ∉ 32 :: bytes_of p) by (intros [?|?]%elem_of_cons; done).
    split; [|rewrite app_comm_cons]; rewrite js_split_app by done; rewrite read_parts_skip; try done.
  - clear Ho. induction others as [|p o IH]; cbn [foldr]; [apply bytes_of_bound|].
    apply Forall_app. split; [apply bytes_of_bound|]. by repeat (constructor; [done|]).
Qed.

(** ** The life of a session *)

Section session_facts.
Context `{RedisLaws} {D : Type}.
Context (stringify : D → string) (parse : string → result (option D)) (empty_data : D).
Context (random_bytes : nat → list Z) (store : SessionStore).
Context (Hjson : ∀ d, parse (stringify d) = Ok (Some d)) (Httl : 0 < st_ttlSec store).
Notation create := (create stringify random_bytes store).
Notation touch := (touch parse store).
Notation save := (save stringify store).
Notation sessionMiddleware := (sessionMiddleware stringify parse empty_data random_bytes store).
Notation key := (session_key store).
Notation ttl := (ttl_ms store).

(** [alive sid data s last]: a session with these data, last used at [last]:
    created or saved, then touched, with pauses shorter than the TTL and
    anything happening to other keys in between. *)
Inductive alive (sid : string) : D → redis → Z → Prop :=
| alive_create data σ t s t' s' : create data σ t s = (Ok sid, t', s') → alive sid data s' (now_ms (view s'))
| alive_save data σ t s t' s' : save sid data σ t s = (Ok tt, t', s') → alive sid data s' (now_ms (view s'))
| alive_touch data s0 last σ t s r t' s' :
    alive sid data s0 last → s_others σ t s = s0 → touch sid σ t s = (Ok r, t', s') → alive sid data s' (now_ms (view s'))
| alive_wait data s last s' :
    alive sid data s last → elapse (view s) (view s') → now_ms (view s') < last + ttl → alive sid data s' last
| alive_other data s last s' :
    alive sid data s last → r_now (view s') = r_now (view s) →
    r_keys (view s') !! key sid = r_keys (view s) !! key sid → alive sid data s' last.

Lemma ttl_pos : 0 < ttl.
Proof. unfold ttl_ms. lia. Qed.

Lemma set_ok σ t s k x ms r t' s' : 0 < ms → roundtrip (cmd_set k x ms) σ t s = (Ok r, t', s') →
  r_keys (view s') !! k = Some (RString x, Some (now_ms (view s') + ms)).
Proof.
  intros Hms. unfold roundtrip. destruct (s_fault σ t); [done|].
  destruct (set_law k x ms (s_others σ t s) Hms) as [(s1 & -> & Hv)|(e & s1 & -> & _)]; [|done].
  intros [= <- <- <-]. rewrite Hv. cbn. by rewrite lookup_insert_eq.
Qed.

Lemma create_ok data σ t s sid t' s' : create data σ t s = (Ok sid, t', s') →
  sid = to_base64url (random_bytes t) ∧
  r_keys (view s') !! key sid = Some (RString (stringify data), Some (now_ms (view s') + ttl)).
Proof.
  unfold Session.create. intros Hr. apply io_bind_ok in Hr as (u & t1 & s1 & H1 & H2).
  apply set_ok in H1; [|apply ttl_pos]. by apply io_ret_ok in H2 as (-> & _ & ->).
Qed.

(** A touch of a key that holds a text. *)
Lemma touch_run σ t s sid x e : s_fault σ t = None →
  r_keys (view (s_others σ t s)) !! key sid = Some (RString x, e) →
  ∃ s', touch sid σ t s = (parse x, S t, s') ∧
    r_keys (view s') !! key sid = Some (RString x, Some (now_ms (view s') + ttl)).
Proof.
  intros Hf Hk. set (s0 := s_others σ t s) in *.
  assert (Hty : string_key (key sid) (view s0)) by (unfold string_key; by rewrite Hk).
  assert (Hst : string_at (key sid) (view s0) = Some x) by (unfold string_at; by rewrite Hk).
  destruct (getex_law (key sid) ttl s0 ttl_pos Hty) as (s1 & Hg & Hv). rewrite Hst in Hg.
  exists s1. split.
  - unfold Session.touch, mbind, io_bind, roundtrip. rewrite Hf. fold s0. by rewrite Hg.
  - rewrite Hv, put_ttl_eq, Hk. done.
Qed.

Lemma alive_key sid data s last : alive sid data s last →
  r_keys (view s) !! key sid = Some (RString (stringify data), Some (last + ttl)).
Proof.
  induction 1 as [data σ t s t' s' Hr|data σ t s t' s' Hr|data s0 last σ t s r t' s' _ IH <- Hr|
    data s last s' _ IH He Hnow|data s last s' _ IH _ ->]; [by apply create_ok in Hr as [_ ?]|..|done].
  - apply set_ok in Hr; [done|apply ttl_pos].
  - destruct (s_fault σ t) as [f|] eqn:Hf.
    { unfold Session.touch, mbind, io_bind, roundtrip in Hr. by rewrite Hf in Hr. }
    destruct (touch_run σ t s sid _ _ Hf IH) as (s1 & Hr1 & Hk). rewrite Hr in Hr1. by injection Hr1 as _ _ ->.
  - destruct He as (_ & _ & Hkeep). apply Hkeep; [done|]. by intros e [= <-].
Qed.

(** An active user is never logged out.  However long ago a session was
    created, as long as it is used at least once per TTL (strictly within it)
    a request finds it with the data last saved, and that use starts a full
    TTL again; a session left alone for longer than the TTL is gone. *)
Theorem session_rolling sid data s last σ t s0 :
  alive sid data s last → s_fault σ t = None → elapse (view s) (view (s_others σ t s0)) →
  (now_ms (view (s_others σ t s0)) < last + ttl →
   ∃ s', touch sid σ t s0 = (Ok (Some data), S t, s') ∧ alive sid data s' (now_ms (view s'))) ∧
  (last + ttl < now_ms (view (s_others σ t s0)) → ∃ s', touch sid σ t s0 = (Ok None, S t, s')).
Proof.
  intros Ha Hf He. split; intros Hlt.
  - assert (Ha' : alive sid data (s_others σ t s0) last) by by eapply alive_wait.
    destruct (touch_run σ t s0 sid _ _ Hf (alive_key _ _ _ _ Ha')) as (s' & Hr & _). rewrite Hjson in Hr.
    exists s'. split; [done|]. by eapply alive_touch.
  - assert (Hnone : r_keys (view (s_others σ t s0)) !! key sid = None).
    { destruct (r_keys (view (s_others σ t s0)) !! key sid) as [x|] eqn:Hx; [|done]. exfalso.
      destruct He as (_ & Hold & _). destruct (Hold _ _ Hx) as [Hk Hexp]. rewrite (alive_key _ _ _ _ Ha) in Hk.
      injection Hk as <-. specialize (Hexp _ eq_refl). lia. }
    assert (Hty : string_key (key sid) (view (s_others σ t s0))) by (unfold string_key; by rewrite Hnone).
    destruct (getex_law (key sid) ttl _ ttl_pos Hty) as (s1 & Hg & _).
    assert (Hst : string_at (key sid) (view (s_others σ t s0)) = None) by (unfold string_at; by rewrite Hnone).
    rewrite Hst in Hg. exists s1. unfold Session.touch, mbind, io_bind, roundtrip. by rewrite Hf, Hg.
Qed.

(** The browser gets its session back.  When a browser returns the cookie of
    a live session, between whatever other cookies, the request is served with
    that session, its data and a renewed TTL, and no new cookie is sent; when
    the cookie names nothing (none sent, unknown or expired) the request gets a
    new session under an id the server has drawn, never under the id the
    client sent. *)
Theorem session_middleware_sound σ t s :
  (∀ others sid data last,
     Forall (λ p, 59 ∉ bytes_of p ∧ cookie_name (bytes_of p) ≠ SESSION_COOKIE) others →
     Forall (λ c, visible c ∧ c ≠ 59 ∧ c ≠ 61) (bytes_of sid) → sid ≠ "" →
     s_fault σ t = None → alive sid data (s_others σ t s) last →
     ∃ s', sessionMiddleware (Some (cookie_header others (SESSION_COOKIE +:+ "=" +:+ sid))) σ t s =
         (Ok (RequestSessionOf sid data false, None), S t, s') ∧ alive sid data s' (now_ms (view s'))) ∧
  (∀ cookie q set t' s', sessionMiddleware cookie σ t s = (Ok (q, set), t', s') → rq_isNew q = true →
     (∃ t1, rq_id q = to_base64url (random_bytes t1)) ∧ set = Some (set_cookie (rq_id q)) ∧
     alive (rq_id q) empty_data s' (now_ms (view s'))).
Proof.
  split.
  - intros others sid data last Ho Hid Hne Hf Ha.
    destruct (touch_run σ t s sid _ _ Hf (alive_key _ _ _ _ Ha)) as (s' & Hr & _). rewrite Hjson in Hr.
    exists s'. split; [|by eapply alive_touch]. unfold Session.sessionMiddleware. rewrite read_header by done.
    assert (Htr : truthy (Some sid) = Some sid) by (by destruct sid). rewrite Htr. cbv zeta.
    by rewrite (io_bind_run _ _ _ _ _ _ _ _ Hr).
  - intros cookie q set t' s' Hrun Hnew. unfold Session.sessionMiddleware in Hrun. cbv zeta in Hrun.
    apply io_bind_ok in Hrun as (existing & t1 & s1 & _ & Hrun).
    assert (Hcreate : (sid ← create empty_data; mret (RequestSessionOf sid empty_data true, Some (set_cookie sid))) σ t1 s1
      = (Ok (q, set), t', s')).
    { destruct (truthy _), existing; try done. apply io_ret_ok in Hrun as ([= -> ->] & _ & _). done. }
    apply io_bind_ok in Hcreate as (sid & t2 & s2 & Hc & Hq). apply io_ret_ok in Hq as ([= -> ->] & -> & ->). cbn.
    split_and!; [|done|by eapply alive_create]. exists t1. by apply create_ok in Hc as [-> _].
Qed.
End session_facts.

(** ** A visitor who comes back *)

#[local] Existing Instance sim_redis.
#[local] Existing Instance sim_redis_laws.

Definition day_store : SessionStore := SessionStoreOf 1800 "sess:".
Definition visit_bytes (t : nat) : list Z := repeat (Z.of_nat t + 77) 24.
Definition visit_sid : string := to_base64url (visit_bytes 0).
Definition visit_sched (ms : Z) : asched rview := Schedule no_fault (λ _, at_ms ms) (λ _, ms) (λ _, "").
Definition visit (ms : Z) (cookie : option string) (s : rview) :
    result (RequestSession string * option string) * nat * rview :=
  sessionMiddleware (H := sim_redis) sim_stringify sim_parse "" visit_bytes day_store cookie (visit_sched ms) 0%nat s.
Definition first_visit : rview := (visit 1000 None (sim_start 0)).2.
Definition browser : option string := Some (cookie_header ["lang=uk"; "theme=dark"] (SESSION_COOKIE +:+ "=" +:+ visit_sid)).

Lemma first_visit_alive : alive (H := sim_redis) sim_stringify sim_parse visit_bytes day_store visit_sid "" first_visit 1000.
Proof.
  destruct (create (H := sim_redis) sim_stringify visit_bytes day_store "" (visit_sched 1000) 0%nat (sim_start 0)) as [[r t'] s'] eqn:Hr.
  assert (Hs : (create (H := sim_redis) sim_stringify visit_bytes day_store "" (visit_sched 1000) 0%nat (sim_start 0)) =
    (Ok visit_sid, 1%nat, first_visit)) by (vm_compute; reflexivity).
  exact (alive_create (H := sim_redis) sim_stringify sim_parse visit_bytes day_store visit_sid "" _ _ _ _ _ Hs).
Qed.

(** Nobody writes for 1799 seconds. *)
Lemma visit_elapse ms : 1000 ≤ ms ≤ 1801000 → elapse first_visit (at_ms ms first_visit).
Proof.
  intros Ht. split_and!; [|intros k x Hx|intros k x Hx _; exact Hx].
  - change (r_now first_visit) with (1000 * 1000). cbn. lia.
  - change (r_keys first_visit !! k = Some x) in Hx. split; [exact Hx|].
    assert (Hall : map_Forall (λ _ x, ∀ e, x.2 = Some e → ms ≤ e) (r_keys first_visit)).
    { apply map_Forall_to_list. vm_compute map_to_list. constructor; [|constructor]. intros e [= <-]. lia. }
    intros e He. specialize (Hall k x Hx e He). unfold now_ms, at_ms. cbn.
    rewrite (Z.mul_comm 1000), Z.div_mul by done. exact Hall.
Qed.

Lemma session_rolling_witness : ∃ s',
  touch (H := sim_redis) sim_parse day_store visit_sid (visit_sched 1800000) 0%nat first_visit = (Ok (Some ""), 1%nat, s').
Proof.
  destruct (session_rolling (H := sim_redis) sim_stringify sim_parse visit_bytes day_store ltac:(reflexivity) ltac:(reflexivity)
    visit_sid "" first_visit 1000 (visit_sched 1800000) 0%nat first_visit first_visit_alive eq_refl) as [Hlive _].
  - apply visit_elapse. lia.
  - destruct Hlive as (s' & Hr & _); [vm_compute; reflexivity|]. exists s'. exact Hr.
Defined.

Lemma session_middleware_sound_witness : ∃ s',
  visit 1000 browser first_visit = (Ok (RequestSessionOf visit_sid "" false, None), 1%nat, s').
Proof.
  destruct (session_middleware_sound (H := sim_redis) sim_stringify sim_parse "" visit_bytes day_store ltac:(reflexivity) ltac:(reflexivity)
    (visit_sched 1000) 0%nat first_visit) as [Hknown _].
  destruct (Hknown ["lang=uk"; "theme=dark"] visit_sid "" 1000) as (s' & Hr & _).
  - apply (bool_decide_unpack _). vm_compute. exact Logic.I.
  - apply base64url_visible. vm_compute. repeat constructor; discriminate.
  - discriminate.
  - reflexivity.
  - exact first_visit_alive.
  - exists s'. exact Hr.
Defined.
