(* ===== verification/Cdn.v ===== *)
(** The CDN edge in front of the closed bucket and the publication of hashed
    assets (src/cdn/edge.ts, src/cdn/assets.ts).

    The store the edge asks is any state with a GetObject and a PutObject; the
    world of a request is the edge's cache, its counter and that store. *)
From S2P Require Import Prelude JsNumber JsText Schema Sql Async Limits Storage.
#[local] Open Scope Z_scope.

Definition ASSET_PREFIX : string := "assets/".
Definition IMMUTABLE : string := "public, max-age=31536000, immutable".

(** ** JavaScript pieces *)

Definition hex2 (l : list Z) : option (Z * list Z) :=
  match l with
  | a :: b :: r =>
      x ← digit_value a; y ← digit_value b;
      if (x <? 16) && (y <? 16) then Some (16 * x + y, r) else None
  | _ => None
  end.
(** How many continuation bytes follow a first byte. *)
Definition utf8_more (b : Z) : option nat :=
  if (194 <=? b) && (b <=? 223) then Some 1%nat
  else if (224 <=? b) && (b <=? 239) then Some 2%nat
  else if (240 <=? b) && (b <=? 244) then Some 3%nat
  else None.
(** No overlong form, no surrogate, nothing above U+10FFFF. *)
Definition utf8_ok (b : Z) (cs : list Z) : bool :=
  forallb (λ c, (128 <=? c) && (c <=? 191)) cs &&
  match cs with
  | c :: _ =>
      if b =? 224 then 160 <=? c else if b =? 237 then c <=? 159 else
      if b =? 240 then 144 <=? c else if b =? 244 then c <=? 143 else true
  | [] => true
  end.
Fixpoint escaped (n : nat) (l : list Z) : option (list Z * list Z) :=
  match n, l with
  | O, _ => Some ([], l)
  | S n, 37 :: r => x ← hex2 r; y ← escaped n x.2; Some (x.1 :: y.1, y.2)
  | S _, _ => None
  end.
Fixpoint decode_uri (fuel : nat) (l : list Z) : option (list Z) :=
  match fuel, l with
  | O, _ => None
  | S _, [] => Some []
  | S fuel, 37 :: r =>
      x ← hex2 r;
      if x.1 <? 128 then cons x.1 <$> decode_uri fuel x.2 else
      n ← utf8_more x.1; y ← escaped n x.2;
      if utf8_ok x.1 y.1 then app (x.1 :: y.1) <$> decode_uri fuel y.2 else None
  | S fuel, c :: r => cons c <$> decode_uri fuel r
  end.
(** [None] is a URIError; the text shrinks with every step. *)
Definition decodeURIComponent (l : list Z) : option (list Z) := decode_uri (S (length l)) l.

Fixpoint includes (sub l : list Z) : bool :=
  bool_decide (is_Some (strip_prefix sub l)) || match l with [] => false | _ :: l => includes sub l end.

(** [lastIndexOf(c)] *)
Fixpoint last_index (c i : Z) (l : list Z) (found : Z) : Z :=
  match l with [] => found | x :: l => last_index c (i + 1) l (if x =? c then i else found) end.

(** [x <= n] for an integer [n]. *)
Definition num_le_Z (x : num) (n : Z) : bool :=
  match x with
  | Fin m e => let '(a, d) := frac m e in a <=? n * d
  | NInf => true
  | PInf | NaN => false
  end.
Definition num_positive (x : num) : bool :=
  match x with Fin m _ => 0 <? m | PInf => true | NInf | NaN => false end.

(** ** Cache-Control *)

Definition word_char (c : Z) : bool :=
  ((48 <=? c) && (c <=? 57)) || ((65 <=? c) && (c <=? 90)) || ((97 <=? c) && (c <=? 122)) || (c =? 95).
(** [\b] between the character before (is it a word character?) and the rest. *)
Definition boundary (before : bool) (l : list Z) : bool :=
  xorb before (match l with c :: _ => word_char c | [] => false end).

(** /\b(no-store|no-cache|private)\b/ *)
Definition FORBIDDING : list (list Z) := [bytes_of "no-store"; bytes_of "no-cache"; bytes_of "private"].
Fixpoint forbids (before : bool) (l : list Z) : bool :=
  (boundary before l &&
   existsb (λ w, match strip_prefix w l with Some rest => boundary true rest | None => false end) FORBIDDING) ||
  match l with [] => false | c :: l => forbids (word_char c) l end.

Fixpoint leading_digits (l : list Z) : list Z :=
  match l with c :: l => if (48 <=? c) && (c <=? 57) then c :: leading_digits l else [] | [] => [] end.
(** /\b<name>=(\d+)/: the digits of the first match. *)
Fixpoint directive (name : list Z) (before : bool) (l : list Z) : option (list Z) :=
  let here := if boundary before l then leading_digits <$> strip_prefix name l else None in
  match here, l with
  | Some (d :: ds), _ => Some (d :: ds)
  | _, [] => None
  | _, c :: l => directive name (word_char c) l
  end.

Definition ttlSec (cc : string) : num :=
  let l := lower <$> bytes_of cc in
  if forbids false l then num_of_Z 0 else
  match directive (bytes_of "s-maxage=") false l with
  | Some ds => StringToNumber (text_of ds)
  | None =>
      match directive (bytes_of "max-age=") false l with
      | Some ds => StringToNumber (text_of ds)
      | None => num_of_Z 0
      end
  end.

Example ttl_examples :
  ttlSec IMMUTABLE = num_of_Z 31536000 ∧ ttlSec "" = num_of_Z 0 ∧ ttlSec "max-age=60, s-maxage=5" = num_of_Z 5 ∧
  ttlSec "Max-Age=60, Private" = num_of_Z 0 ∧ ttlSec "max-age=x" = num_of_Z 0 ∧ ttlSec "privately, max-age=7" = num_of_Z 7.
Proof. vm_compute. done. Qed.

(** ** The edge *)

Record Entry := EntryOf {
  en_body : list Z;
  en_type : string;
  en_etag : option string;
  en_cc : string;
  en_expires : num;
}.
Record origin_object := OriginObject {
  oo_body : list Z;
  oo_CacheControl : option string;
  oo_ContentType : option string;
  oo_ETag : option string;
}.
Record edge_response := EdgeResponse {
  er_status : Z;
  er_headers : list (string * string);
  er_body : list Z;
}.
Definition empty_response (status : Z) : edge_response := EdgeResponse status [] [].

(** The bucket key a URL stands for; [None] is a URIError. *)
Definition asset_key (url : option string) : option string :=
  let path := match js_split 63 (bytes_of (default "/" url)) with p :: _ => p | [] => [] end in
  l ← decodeURIComponent path;
  Some (text_of (match l with 47 :: l => l | _ => l end)).

(** What the edge may serve. *)
Definition public_key (key : string) : bool :=
  bool_decide (is_Some (strip_prefix (bytes_of ASSET_PREFIX) (bytes_of key))) && negb (includes (bytes_of "..") (bytes_of key)).

Section edge.
Context {store : Type} (getObject : string → string → store → result origin_object).
Context (putObject : string → string → list Z → string → string → store → result unit * store).
Context (sha256_hex : list Z → list Z) (bucket : string).

Record edge := Edge { e_cache : gmap string Entry; e_origin : Z; e_store : store }.
Notation io := (async edge).

(** A step of the handler between two awaits. *)
Definition sync {A} (f : edge → A * edge) : io A := λ σ t w, let '(a, w) := f w in (Ok a, t, w).

(** [cache.get(key)], dropping an entry that has expired. *)
Definition lookup_fresh (now : Z) (key : string) (w : edge) : option Entry * edge :=
  match e_cache w !! key with
  | Some hit =>
      if num_le_Z (en_expires hit) now then (None, Edge (delete key (e_cache w)) (e_origin w) (e_store w)) else (Some hit, w)
  | None => (None, w)
  end.

(** The entry of an object that arrives at [now]. *)
Definition entry_of (now : Z) (o : origin_object) : Entry :=
  let cc := default "" (oo_CacheControl o) in
  EntryOf (oo_body o) (default "application/octet-stream" (oo_ContentType o)) (oo_ETag o) cc
    (num_add (num_of_Z now) (num_mul (ttlSec cc) (num_of_Z 1000))).

Definition serve_entry (hit : Entry) (xcache : string) : edge_response :=
  EdgeResponse 200
    ([("Content-Type", en_type hit); ("Cache-Control", en_cc hit)] ++
     (match truthy (en_etag hit) with Some etag => [("ETag", etag)] | None => [] end) ++ [("X-Cache", xcache)])
    (en_body hit).

(** The request handler of [startEdge]; an exception here is a rejection nobody
    handles. *)
Definition handle (method : string) (url : option string) : io edge_response :=
  match asset_key url with
  | None => io_throw (JsError "URI malformed")
  | Some key =>
      if negb (String.eqb method "GET") || negb (public_key key) then mret (empty_response 403) else
      now ← io_date;
      hit ← sync (lookup_fresh now key);
      match hit with
      | Some hit => mret (serve_entry hit "HIT")
      | None =>
          _ ← sync (λ w, (tt, Edge (e_cache w) (e_origin w + 1) (e_store w)));
          r ← io_try (roundtrip (λ w, (getObject bucket key (e_store w), w)));
          match r with
          | Err e => mret (empty_response (if String.eqb (errName e) "NoSuchKey" || (errStatus e =? 404) then 404 else 502))
          | Ok o =>
              now ← io_date;
              let hit := entry_of now o in
              _ ← sync (λ w, (tt, if num_positive (ttlSec (en_cc hit))
                                  then Edge (<[key := hit]> (e_cache w)) (e_origin w) (e_store w) else w));
              mret (serve_entry hit "MISS")
          end
      end
  end.

(** ** Publication (src/cdn/assets.ts) *)

Definition hashedKey (name : string) (body : list Z) : string :=
  let l := bytes_of name in
  let hash := take 8 (sha256_hex body) in
  let dot := last_index 46 0 l (-1) in
  let '(stem, ext) := if 0 <? dot then (take (Z.to_nat dot) l, drop (Z.to_nat dot) l) else (l, []) in
  text_of (bytes_of ASSET_PREFIX ++ stem ++ 46 :: hash ++ ext).

Definition publishAsset (name : string) (body : list Z) (contentType : string) : io string :=
  let key := hashedKey name body in
  _ ← roundtrip (λ w, let '(r, s) := putObject bucket key body contentType IMMUTABLE (e_store w) in
                      (r, Edge (e_cache w) (e_origin w) s));
  mret key.
End edge.

Arguments Edge {store}.
Arguments e_cache {store}.
Arguments e_origin {store}.
Arguments e_store {store}.

(** ** What the edge serves *)

Lemma num_le_Z_int x z n : num_to_Z x = Some z → num_le_Z x n = (z <=? n).
Proof.
  destruct x as [m e| | |]; try done. intros Hx%num_to_Z_frac. cbn. pose proof (frac_pos m e).
  destruct (frac m e) as [a d]. cbn in *. subst a. apply Bool.eq_iff_eq_true. rewrite !Z.leb_le. nia.
Qed.

(** The lifetime in exact arithmetic. *)
Lemma entry_expires t0 o z : num_to_Z (ttlSec (default "" (oo_CacheControl o))) = Some z →
  0 ≤ t0 → 0 ≤ z → t0 + z * 1000 < 2 ^ 53 → num_to_Z (en_expires (entry_of t0 o)) = Some (t0 + z * 1000).
Proof.
  intros Hz Ht Hz0 Hb. unfold entry_of. cbn [en_expires]. apply num_add_int; [apply rnd_int_exact; lia| |lia].
  apply num_mul_int; [done|apply rnd_int_exact; lia|lia].
Qed.

Section edge_facts.
Context {store : Type} (getObject : string → string → store → result origin_object) (bucket : string).
Context (Answer : string → origin_object → Z → Prop) (σ : asched (edge (store := store))).
Notation edge := (edge (store := store)).
Notation handle := (handle getObject bucket).

(** Every entry is a cacheable answer of the origin for a public key, with the
    lifetime the origin gave it. *)
Definition edge_ok (w : edge) : Prop := ∀ key en, e_cache w !! key = Some en →
  public_key key = true ∧ num_positive (ttlSec (en_cc en)) = true ∧
  ∃ o t0, Answer key o t0 ∧ en = entry_of t0 o.

Context (Hothers : ∀ t w, edge_ok w → edge_ok (s_others σ t w)).
Context (Horigin : ∀ t w key o, public_key key = true →
  getObject bucket key (e_store (s_others σ t w)) = Ok o → Answer key o (s_clock σ (S t))).

(** The object was answered at [t0] and its lifetime is not over at [now]. *)
Definition fresh (o : origin_object) (t0 now : Z) : Prop :=
  ∀ z, num_to_Z (ttlSec (default "" (oo_CacheControl o))) = Some z → 0 ≤ t0 → 0 ≤ z → t0 + z * 1000 < 2 ^ 53 →
    now < t0 + z * 1000.

Lemma lookup_fresh_ok now key w : edge_ok w → edge_ok (lookup_fresh now key w).2.
Proof.
  intros Hw. unfold lookup_fresh. destruct (e_cache w !! key) as [hit|]; [|done].
  destruct (num_le_Z _ _); [|done]. intros k en. cbn. intros [_ Hk]%lookup_delete_Some. by apply Hw.
Qed.
Lemma lookup_fresh_hit now key w hit : edge_ok w → (lookup_fresh now key w).1 = Some hit →
  num_positive (ttlSec (en_cc hit)) = true ∧ ∃ o t0, Answer key o t0 ∧ hit = entry_of t0 o ∧ fresh o t0 now.
Proof.
  intros Hw. unfold lookup_fresh. destruct (e_cache w !! key) as [en|] eqn:Hk; [|done].
  destruct (num_le_Z _ _) eqn:Hle; [done|]. intros [= <-]. destruct (Hw _ _ Hk) as (_ & Hpos & o & t0 & Ha & ->).
  split; [done|]. exists o, t0. split_and!; [done|done|]. intros z Hz Ht Hz0 Hb.
  rewrite (num_le_Z_int _ _ _ (entry_expires t0 o z Hz Ht Hz0 Hb)) in Hle. zify_bools. lia.
Qed.

(** The edge serves only public assets and nothing stale.  Under any
    interleaving with other requests, an answer with a body is for a GET of a
    key under [assets/] without [..]; it is the origin's answer for that very
    key, either just received (MISS) or received earlier (HIT), cacheable by
    its own Cache-Control and younger than the lifetime this gives it; and the
    edge never keeps anything else. *)
Theorem edge_serves_public_fresh method url t w resp t' w' :
  edge_ok w → handle method url σ t w = (Ok resp, t', w') →
  edge_ok w' ∧
  ((er_status resp ≠ 200 ∧ er_body resp = []) ∨
   ∃ key o t0, method = "GET" ∧ asset_key url = Some key ∧ public_key key = true ∧ Answer key o t0 ∧
     ((resp = serve_entry (entry_of t0 o) "MISS" ∧ t0 = s_clock σ (S t)) ∨
      (resp = serve_entry (entry_of t0 o) "HIT" ∧ num_positive (ttlSec (default "" (oo_CacheControl o))) = true ∧
       fresh o t0 (s_clock σ t)))).
Proof.
  intros Hw Hrun. unfold Cdn.handle in Hrun. destruct (asset_key url) as [key|]; [|done].
  destruct (String.eqb_spec method "GET") as [Hm|Hm]; cbn [negb orb] in Hrun.
  2: { apply io_ret_ok in Hrun as (-> & -> & ->). split; [done|by left]. }
  destruct (public_key key) eqn:Hpub; cbn [negb] in Hrun.
  2: { apply io_ret_ok in Hrun as (-> & -> & ->). split; [done|by left]. }
  apply io_bind_ok in Hrun as (now & t1 & w1 & H1 & Hrun). unfold io_date in H1. injection H1 as <- <- <-.
  apply io_bind_ok in Hrun as (hit & t1 & w1 & H1 & Hrun). unfold sync in H1.
  pose proof (lookup_fresh_ok (s_clock σ t) key w Hw) as Hw1.
  pose proof (λ h, lookup_fresh_hit (s_clock σ t) key w h Hw) as Hhit.
  destruct (lookup_fresh _ _ _) as [h wh]. injection H1 as <- <- <-. cbn [fst snd] in *. destruct h as [h|].
  { apply io_ret_ok in Hrun as (-> & -> & ->). split; [done|]. right.
    destruct (Hhit h eq_refl) as (Hpos & o & t0 & Ha & -> & Hf). exists key, o, t0. split_and!; try done. right. done. }
  apply io_bind_ok in Hrun as (u & t1 & w1 & H1 & Hrun). unfold sync in H1. injection H1 as _ <- <-.
  apply io_bind_ok in Hrun as (r & t1 & w1 & H1 & Hrun). unfold io_try in H1.
  set (w2 := Edge _ _ _) in H1. assert (Hw2 : edge_ok w2) by exact Hw1.
  destruct (roundtrip _ σ t w2) as [[x tx] wx] eqn:Hx. injection H1 as <- <- <-.
  assert (Hcase : tx = S t ∧ edge_ok wx ∧ ∀ o, x = Ok o → getObject bucket key (e_store (s_others σ t w2)) = Ok o).
  { unfold roundtrip in Hx. destruct (s_fault σ t) as [f|]; injection Hx as <- <- <-.
    - split; [done|]. split; [destruct (f_applied f); by apply Hothers|done].
    - split; [done|]. split; [by apply Hothers|done]. }
  destruct Hcase as (-> & Hwx & Ho). destruct x as [o|e].
  2: { apply io_ret_ok in Hrun as (-> & -> & ->). split; [done|]. left. split; [|done]. by destruct (_ || _). }
  specialize (Ho o eq_refl). apply Horigin in Ho; [|done].
  apply io_bind_ok in Hrun as (now & t2 & w3 & H3 & Hrun). unfold io_date in H3. injection H3 as <- <- <-.
  apply io_bind_ok in Hrun as (u' & t2 & w3 & H3 & Hrun). unfold sync in H3. injection H3 as _ <- <-.
  apply io_ret_ok in Hrun as (-> & -> & ->). split.
  - destruct (num_positive _) eqn:Hpos; [|done]. intros k en. cbn. intros [[<- <-]|[_ Hk]]%lookup_insert_Some; [|by apply Hwx].
    split_and!; [done|done|eauto].
  - right. exists key, o, (s_clock σ (S t)). split_and!; try done. by left.
Qed.
End edge_facts.

(** A URL that cannot be decoded is no answer at all: the promise of the
    handler rejects and nothing handles it. *)
Lemma malformed_url_rejects {store} (getObject : string → string → store → result origin_object) bucket σ t w :
  handle getObject bucket "GET" (Some "/assets/%E0%A4%A") σ t w = (Err (JsError "URI malformed"), t, w).
Proof. vm_compute. reflexivity. Qed.

(** ** A stylesheet fetched once and served from the edge *)

Definition shelf : Type := gmap string origin_object.
Definition shelf_get (_ key : string) (s : shelf) : result origin_object :=
  match s !! key with Some o => Ok o | None => Err (SdkError (Some "NoSuchKey") None None (Some 404)) end.
Definition css : origin_object := OriginObject (bytes_of "a{}") (Some IMMUTABLE) (Some "text/css") (Some "e1").
Definition edge_sched (now : Z) : asched (edge (store := shelf)) := Schedule no_fault (λ _ w, w) (λ _, now) (λ _, "").
Definition edge_start : edge (store := shelf) := Edge ∅ 0 {["assets/app.15c42ab7.css" := css; "uploads/1/x.jpg" := css]}.
Definition edge_get (now : Z) (url : string) (w : edge (store := shelf)) :=
  handle shelf_get "assets" "GET" (Some url) (edge_sched now) 0%nat w.
Definition edge_warm : edge (store := shelf) := (edge_get 1000 "/assets/app.15c42ab7.css" edge_start).2.

Example edge_private : (edge_get 1000 "/uploads/1/x.jpg" edge_start).1.1 = Ok (empty_response 403) ∧
  (edge_get 1000 "/assets/%2e%2e/uploads/1/x.jpg" edge_start).1.1 = Ok (empty_response 403).
Proof. vm_compute. done. Qed.

Definition from_shelf (key : string) (o : origin_object) (t0 : Z) : Prop := (o = css ∧ t0 = 1000) ∨ t0 = 5000.

Lemma warm_ok : edge_ok from_shelf edge_warm.
Proof.
  assert (Hall : map_Forall (λ k en, public_key k = true ∧ num_positive (ttlSec (en_cc en)) = true ∧ en = entry_of 1000 css) (e_cache edge_warm)).
  { apply map_Forall_to_list.
    assert (Hl : map_to_list (e_cache edge_warm) = [("assets/app.15c42ab7.css", entry_of 1000 css)]) by (vm_compute; reflexivity).
    rewrite Hl. constructor; [|constructor]. split; [vm_compute; reflexivity|]. split; [vm_compute; reflexivity|reflexivity]. }
  intros k en Hk. destruct (Hall k en Hk) as (H1 & H2 & H3). split_and!; [exact H1|exact H2|]. exists css, 1000.
  split; [left; split; reflexivity|exact H3].
Qed.

Definition second_get := edge_get 5000 "/assets/app.15c42ab7.css" edge_warm.
Definition hit_answer : edge_response := serve_entry (entry_of 1000 css) "HIT".

Lemma second_get_run : ∃ t' w', second_get = (Ok hit_answer, t', w').
Proof.
  assert (Hr : second_get.1.1 = Ok hit_answer) by (vm_compute; reflexivity).
  destruct second_get as [[r t'] w']. exists t', w'. cbn in Hr. by rewrite Hr.
Qed.

Lemma serve_entry_xcache h x : last (er_headers (serve_entry h x)) = Some ("X-Cache", x).
Proof. unfold serve_entry. cbn [er_headers]. by rewrite app_assoc, last_snoc. Qed.

Lemma edge_serves_public_fresh_witness : ∃ o t0,
  hit_answer = serve_entry (entry_of t0 o) "HIT" ∧ from_shelf "assets/app.15c42ab7.css" o t0 ∧ fresh o t0 5000.
Proof.
  destruct second_get_run as (t' & w' & Hrun).
  destruct (edge_serves_public_fresh shelf_get "assets" from_shelf (edge_sched 5000) (λ _ _ H, H) (λ _ _ _ _ _ _, or_intror eq_refl)
    "GET" (Some "/assets/app.15c42ab7.css") 0%nat edge_warm hit_answer t' w' warm_ok Hrun)
    as [_ [[Hn _]|(key & o & t0 & _ & Hkey & _ & Ha & [[Hm _]|(Hh & _ & Hf)])]].
  - exfalso. apply Hn. reflexivity.
  - exfalso. apply (f_equal (λ r, last (er_headers r))) in Hm. unfold hit_answer in Hm.
    rewrite !serve_entry_xcache in Hm. discriminate Hm.
  - exists o, t0. split; [exact Hh|]. split; [exact Ha|exact Hf].
Defined.
