(* ===== verification/Migrations.v ===== *)
(** The migrations (src/migrations): every [up] and [down] as the list of its
    DDL statements, the statements as operations on a catalogue of tables,
    constraints and indexes, the columns the entity classes of src/entities
    declare, and what a catalogue demands of the rows of [Schema].

    A statement fails where Postgres refuses it for a reason of the catalogue;
    [ADD COLUMN] of a NOT NULL column without a default, which fails on a table
    with rows, always fails here.  Key constraints and indexes share the name
    space of the tables, constraint names are local to a table. *)
From S2P Require Import Prelude JsNumber Events Schema Sql Fixtures Checkout.
#[local] Open Scope Z_scope.

(** ** The catalogue *)

Inductive sql_type := bigint | integer | smallint | numeric (precision scale : Z)
  | text | boolean | uuid | timestamptz | jsonb.
#[export] Instance sql_type_eq_dec : EqDecision sql_type.
Proof. solve_decision. Defined.

Inductive sql_default := D_now | D_uuid | D_true | D_int (z : Z) | D_text (s : string).
#[export] Instance sql_default_eq_dec : EqDecision sql_default.
Proof. solve_decision. Defined.

(** [c_identity]: GENERATED ALWAYS AS IDENTITY. *)
Record column := Column {
  c_type : sql_type;
  c_not_null : bool;
  c_default : option sql_default;
  c_identity : bool;
}.
#[export] Instance column_eq_dec : EqDecision column.
Proof. solve_decision. Defined.

(** Conditions of CHECK constraints and of partial indexes. *)
Inductive cond :=
| Ge (x : string) (n : Z)
| Gt (x : string) (n : Z)
| Between (x : string) (a b : Z)
| In_ (x : string) (l : list string)
| Is_null (x : string)
| Is_not_null (x : string).
#[export] Instance cond_eq_dec : EqDecision cond.
Proof. solve_decision. Defined.

Inductive on_delete := CASCADE | RESTRICT.
#[export] Instance on_delete_eq_dec : EqDecision on_delete.
Proof. solve_decision. Defined.

Inductive constraint :=
| PRIMARY_KEY (cols : list string)
| UNIQUE (cols : list string)
| CHECK (c : cond)
| FOREIGN_KEY (col ref refcol : string) (del : on_delete).
#[export] Instance constraint_eq_dec : EqDecision constraint.
Proof. solve_decision. Defined.

Record table := Table { columns : list (string * column); constraints : gmap string constraint }.
#[export] Instance table_eq_dec : EqDecision table.
Proof. solve_decision. Defined.

Record index := Index { ix_table : string; ix_unique : bool; ix_cols : list string; ix_where : option cond }.
#[export] Instance index_eq_dec : EqDecision index.
Proof. solve_decision. Defined.

Record catalogue := Catalogue { tables : gmap string table; indexes : gmap string index }.
#[export] Instance catalogue_eq_dec : EqDecision catalogue.
Proof. solve_decision. Defined.

Definition no_catalogue : catalogue := Catalogue ∅ ∅.

Definition cond_col (c : cond) : string :=
  match c with Ge x _ | Gt x _ | Between x _ _ | In_ x _ | Is_null x | Is_not_null x => x end.

(** The columns of its own table a constraint or an index mentions. *)
Definition own_cols (k : constraint) : list string :=
  match k with
  | PRIMARY_KEY l | UNIQUE l => l
  | CHECK c => [cond_col c]
  | FOREIGN_KEY x _ _ _ => [x]
  end.
Definition index_cols (ix : index) : list string := ix_cols ix ++ from_option (λ c, [cond_col c]) [] (ix_where ix).

Definition is_key (k : constraint) : bool :=
  match k with PRIMARY_KEY _ | UNIQUE _ => true | _ => false end.
Definition refers (k : constraint) (n : string) : bool :=
  match k with FOREIGN_KEY _ r _ _ => bool_decide (r = n) | _ => false end.

Definition names (t : table) : list string := (columns t).*1.
Definition known (l : list string) (t : table) : Prop := Forall (λ x, x ∈ names t) l.

(** The target of a foreign key must be the columns of a key constraint. *)
Definition keyed (x : string) (t : table) : Prop :=
  map_Exists (λ _ k, k = PRIMARY_KEY [x] ∨ k = UNIQUE [x]) (constraints t).

Definition fits (ts : gmap string table) (t : table) (k : constraint) : Prop :=
  known (own_cols k) t ∧
  match k with
  | FOREIGN_KEY _ r y _ => from_option (keyed y) False (ts !! r)
  | _ => True
  end.
#[export] Instance fits_dec ts t k : Decision (fits ts t k).
Proof. unfold fits, known, keyed. destruct k; cbn; try apply _. destruct (ts !! ref); cbn; apply _. Defined.

(** No relation has this name yet. *)
Definition free (c : catalogue) (n : string) : Prop :=
  tables c !! n = None ∧ indexes c !! n = None ∧
  map_Forall (λ _ t, ¬ from_option is_key false (constraints t !! n)) (tables c).
#[export] Instance free_dec c n : Decision (free c n).
Proof. unfold free. apply _. Defined.

(** ** Statements *)

Inductive ddl :=
| CREATE_TABLE (n : string) (cols : list (string * column)) (ks : list (string * constraint))
| DROP_TABLE (n : string)
| ADD_COLUMN (n x : string) (col : column)
| DROP_COLUMN (n x : string)
| ADD_CONSTRAINT (n m : string) (k : constraint)
| DROP_CONSTRAINT (n m : string)
| CREATE_INDEX (m : string) (ix : index)
| DROP_INDEX (m : string).

Definition set_table (c : catalogue) (n : string) (t : table) : catalogue :=
  Catalogue (<[n := t]> (tables c)) (indexes c).

(** Some other table has a foreign key into [n] (into its column [x]). *)
Definition referenced (c : catalogue) (n : string) : Prop :=
  map_Exists (λ n' t, n' ≠ n ∧ map_Exists (λ _ k, refers k n = true) (constraints t)) (tables c).
#[export] Instance referenced_dec c n : Decision (referenced c n).
Proof. unfold referenced. apply _. Defined.

Definition into_column (n x : string) (k : constraint) : bool :=
  match k with FOREIGN_KEY _ r y _ => bool_decide (r = n ∧ y = x) | _ => false end.
Definition column_referenced (c : catalogue) (n x : string) : Prop :=
  map_Exists (λ _ t, map_Exists (λ _ k, into_column n x k = true) (constraints t)) (tables c).
#[export] Instance column_referenced_dec c n x : Decision (column_referenced c n x).
Proof. unfold column_referenced. apply _. Defined.

Definition guard {A} (P : Prop) `{Decision P} (a : option A) : option A := if decide P then a else None.

Definition exec (s : ddl) (c : catalogue) : option catalogue :=
  match s with
  | CREATE_TABLE n cols ks =>
      let t := Table cols (list_to_map ks) in
      guard (free c n ∧ NoDup (cols.*1) ∧ NoDup (ks.*1) ∧
             map_Forall (λ m k, fits (tables c) t k ∧ (is_key k = true → free c m)) (constraints t))
        (Some (set_table c n t))
  | DROP_TABLE n =>
      guard (is_Some (tables c !! n) ∧ ¬ referenced c n)
        (Some (Catalogue (delete n (tables c)) (filter (λ p, ix_table p.2 ≠ n) (indexes c))))
  | ADD_COLUMN n x col =>
      t ← tables c !! n;
      guard (x ∉ names t ∧ (c_not_null col = true → is_Some (c_default col)))
        (Some (set_table c n (Table (columns t ++ [(x, col)]) (constraints t))))
  | DROP_COLUMN n x =>
      t ← tables c !! n;
      guard (x ∈ names t ∧ ¬ column_referenced c n x)
        (Some (Catalogue
          (<[n := Table (filter (λ p, p.1 ≠ x) (columns t)) (filter (λ p, x ∉ own_cols p.2) (constraints t))]> (tables c))
          (filter (λ p, ¬ (ix_table p.2 = n ∧ x ∈ index_cols p.2)) (indexes c))))
  | ADD_CONSTRAINT n m k =>
      t ← tables c !! n;
      guard (constraints t !! m = None ∧ fits (tables c) t k ∧ (is_key k = true → free c m))
        (Some (set_table c n (Table (columns t) (<[m := k]> (constraints t)))))
  | DROP_CONSTRAINT n m =>
      t ← tables c !! n;
      k ← constraints t !! m;
      guard (is_key k = true → Forall (λ x, ¬ column_referenced c n x) (own_cols k))
        (Some (set_table c n (Table (columns t) (delete m (constraints t)))))
  | CREATE_INDEX m ix =>
      t ← tables c !! ix_table ix;
      guard (free c m ∧ known (index_cols ix) t)
        (Some (Catalogue (tables c) (<[m := ix]> (indexes c))))
  | DROP_INDEX m =>
      guard (is_Some (indexes c !! m)) (Some (Catalogue (tables c) (delete m (indexes c))))
  end.

Fixpoint run (l : list ddl) (c : catalogue) : option catalogue :=
  match l with [] => Some c | s :: l => c' ← exec s c; run l c' end.

(** ** The migrations of the repository *)

Record migration := Migration { m_name : string; up : list ddl; down : list ddl }.

Definition not_null ty d := Column ty true d false.
Definition nullable ty := Column ty false None false.
Definition identity := Column bigint true None true.
Definition amount_type := numeric 12 2.

Definition Init1789200734124 : migration := Migration "Init1789200734124"
  [CREATE_TABLE "products"
     [("id", identity); ("sku", not_null text None); ("name", not_null text None);
      ("price", not_null amount_type None); ("is_active", not_null boolean (Some D_true));
      ("created_at", not_null timestamptz (Some D_now))]
     [("UQ_c44ac33a05b144dd0d9ddcf9327", UNIQUE ["sku"]);
      ("CHK_4f89fdb25537b37409d3b781c8", CHECK (Ge "price" 0));
      ("PK_0806c755e0aca124e67c0cf6d7d", PRIMARY_KEY ["id"])];
   CREATE_TABLE "order_items"
     [("id", identity); ("quantity", not_null integer None); ("unit_price", not_null amount_type None);
      ("order_id", not_null bigint None); ("product_id", not_null bigint None)]
     [("CHK_46bd93eb22f1b9e485817fa953", CHECK (Ge "unit_price" 0));
      ("CHK_6e5d794f7711186091b3156024", CHECK (Gt "quantity" 0));
      ("PK_005269d8574e6fac0493715c308", PRIMARY_KEY ["id"])];
   CREATE_TABLE "users"
     [("id", identity); ("email", not_null text None); ("full_name", not_null text None);
      ("created_at", not_null timestamptz (Some D_now))]
     [("UQ_97672ac88f789774dd47f7c8be3", UNIQUE ["email"]);
      ("PK_a3ffb1c0c8416b9fc6f907b7433", PRIMARY_KEY ["id"])];
   CREATE_TABLE "orders"
     [("id", identity); ("customer_email", not_null text None); ("status", not_null text None);
      ("total_amount", not_null amount_type None); ("created_at", not_null timestamptz (Some D_now));
      ("buyer_id", not_null bigint None)]
     [("CHK_2fe235fb102ba1b61fc731f97f", CHECK (Ge "total_amount" 0));
      ("CHK_761019fb76eb9b866e3c45b42d", CHECK (In_ "status" ["pending"; "paid"; "shipped"; "cancelled"; "refunded"]));
      ("PK_710e2d4957aa5878dfe94e4ac2f", PRIMARY_KEY ["id"])];
   ADD_CONSTRAINT "order_items" "FK_145532db85752b29c57d2b7b1f1" (FOREIGN_KEY "order_id" "orders" "id" CASCADE);
   ADD_CONSTRAINT "order_items" "FK_9263386c35b6b242540f9493b00" (FOREIGN_KEY "product_id" "products" "id" RESTRICT);
   ADD_CONSTRAINT "orders" "FK_5e90e93d0e036c3fadbaefa4d0a" (FOREIGN_KEY "buyer_id" "users" "id" RESTRICT)]
  [DROP_CONSTRAINT "orders" "FK_5e90e93d0e036c3fadbaefa4d0a";
   DROP_CONSTRAINT "order_items" "FK_9263386c35b6b242540f9493b00";
   DROP_CONSTRAINT "order_items" "FK_145532db85752b29c57d2b7b1f1";
   DROP_TABLE "orders"; DROP_TABLE "users"; DROP_TABLE "order_items"; DROP_TABLE "products"].

Definition CheckoutQueue1789303849705 : migration := Migration "CheckoutQueue1789303849705"
  [CREATE_TABLE "job_queue"
     [("id", identity); ("kind", not_null text (Some (D_text "post_processing")));
      ("status", not_null text (Some (D_text "new"))); ("worker", nullable text);
      ("processed", not_null integer (Some (D_int 0))); ("created_at", not_null timestamptz (Some D_now));
      ("order_id", not_null bigint None)]
     [("CHK_761951a3e133f36408c00e68b8", CHECK (In_ "status" ["new"; "done"]));
      ("PK_276b4a8597badbcd15d9fae6115", PRIMARY_KEY ["id"])];
   ADD_COLUMN "products" "stock" (not_null integer (Some (D_int 0)));
   ADD_COLUMN "users" "balance" (not_null amount_type (Some (D_int 1000000)));
   ADD_CONSTRAINT "products" "CHK_aea3ee263e1d44e36e5f5b5783" (CHECK (Ge "stock" 0));
   ADD_CONSTRAINT "users" "CHK_c02441849c51cb89e480be94b1" (CHECK (Ge "balance" 0));
   ADD_CONSTRAINT "job_queue" "FK_1a72003ffb581115ff10c57e259" (FOREIGN_KEY "order_id" "orders" "id" CASCADE)]
  [DROP_CONSTRAINT "job_queue" "FK_1a72003ffb581115ff10c57e259";
   DROP_CONSTRAINT "users" "CHK_c02441849c51cb89e480be94b1";
   DROP_CONSTRAINT "products" "CHK_aea3ee263e1d44e36e5f5b5783";
   DROP_COLUMN "users" "balance"; DROP_COLUMN "products" "stock"; DROP_TABLE "job_queue"].

Definition OrderReceipts1789400000000 : migration := Migration "OrderReceipts1789400000000"
  [CREATE_TABLE "order_receipts"
     [("event_id", not_null uuid None); ("order_id", not_null text None); ("buyer_id", not_null text None);
      ("total_amount", not_null amount_type None); ("created_at", not_null timestamptz (Some D_now))]
     [("PK_order_receipts_event_id", PRIMARY_KEY ["event_id"])]]
  [DROP_TABLE "order_receipts"].

Definition Outbox1789500000000 : migration := Migration "Outbox1789500000000"
  [CREATE_TABLE "outbox"
     [("id", not_null uuid (Some D_uuid)); ("aggregate_type", not_null text None); ("aggregate_id", not_null text None);
      ("type", not_null text None); ("payload", not_null jsonb None); ("created_at", not_null timestamptz (Some D_now));
      ("published_at", nullable timestamptz); ("attempts", not_null integer (Some (D_int 0)))]
     [("PK_outbox_id", PRIMARY_KEY ["id"])];
   CREATE_INDEX "IDX_outbox_unpublished" (Index "outbox" false ["created_at"; "id"] (Some (Is_null "published_at")));
   CREATE_TABLE "processed_messages"
     [("message_id", not_null uuid None); ("consumer", not_null text None);
      ("processed_at", not_null timestamptz (Some D_now))]
     [("PK_processed_messages", PRIMARY_KEY ["message_id"; "consumer"])];
   CREATE_TABLE "idempotency_keys"
     [("key", not_null text None); ("order_id", nullable bigint); ("created_at", not_null timestamptz (Some D_now))]
     [("PK_idempotency_keys", PRIMARY_KEY ["key"]);
      ("FK_idempotency_keys_order", FOREIGN_KEY "order_id" "orders" "id" CASCADE)];
   CREATE_INDEX "UQ_order_receipts_order_id" (Index "order_receipts" true ["order_id"] None)]
  [DROP_INDEX "UQ_order_receipts_order_id"; DROP_TABLE "idempotency_keys"; DROP_TABLE "processed_messages";
   DROP_INDEX "IDX_outbox_unpublished"; DROP_TABLE "outbox"].

Definition Reviews1789600000000 : migration := Migration "Reviews1789600000000"
  [CREATE_TABLE "reviews"
     [("id", identity); ("product_id", not_null bigint None); ("rating", not_null smallint None);
      ("created_at", not_null timestamptz (Some D_now))]
     [("PK_reviews", PRIMARY_KEY ["id"]); ("CHK_reviews_rating", CHECK (Between "rating" 1 5));
      ("FK_reviews_product", FOREIGN_KEY "product_id" "products" "id" CASCADE)];
   CREATE_INDEX "IDX_reviews_product" (Index "reviews" false ["product_id"] None)]
  [DROP_TABLE "reviews"].

Definition Auth1789700000000 : migration := Migration "Auth1789700000000"
  [ADD_COLUMN "users" "password_hash" (nullable text);
   ADD_COLUMN "users" "role" (not_null text (Some (D_text "customer")));
   ADD_CONSTRAINT "users" "CHK_users_role" (CHECK (In_ "role" ["customer"; "seller"; "admin"]));
   CREATE_TABLE "refresh_tokens"
     [("id", identity); ("token_hash", not_null text None); ("family_id", not_null uuid None);
      ("user_id", not_null bigint None); ("used_at", nullable timestamptz); ("revoked_at", nullable timestamptz);
      ("expires_at", not_null timestamptz None); ("created_at", not_null timestamptz (Some D_now))]
     [("PK_refresh_tokens", PRIMARY_KEY ["id"]);
      ("FK_refresh_tokens_user", FOREIGN_KEY "user_id" "users" "id" CASCADE)];
   CREATE_INDEX "UQ_refresh_tokens_token_hash" (Index "refresh_tokens" true ["token_hash"] None);
   CREATE_INDEX "IDX_refresh_tokens_family" (Index "refresh_tokens" false ["family_id"] None);
   CREATE_TABLE "access_denylist"
     [("jti", not_null uuid None); ("expires_at", not_null timestamptz None)]
     [("PK_access_denylist", PRIMARY_KEY ["jti"])];
   CREATE_INDEX "IDX_access_denylist_expires" (Index "access_denylist" false ["expires_at"] None)]
  [DROP_TABLE "access_denylist"; DROP_TABLE "refresh_tokens"; DROP_CONSTRAINT "users" "CHK_users_role";
   DROP_COLUMN "users" "role"; DROP_COLUMN "users" "password_hash"].

Definition Files1789800000000 : migration := Migration "Files1789800000000"
  [CREATE_TABLE "files"
     [("id", not_null uuid (Some D_uuid)); ("key", not_null text None); ("owner_id", not_null bigint None);
      ("status", not_null text (Some (D_text "PENDING"))); ("content_type", not_null text None);
      ("size", not_null bigint None); ("upload_id", nullable text); ("etag", nullable text);
      ("idempotency_key", nullable text); ("created_at", not_null timestamptz (Some D_now));
      ("completed_at", nullable timestamptz)]
     [("PK_files", PRIMARY_KEY ["id"]); ("UQ_files_key", UNIQUE ["key"]);
      ("CHK_files_status", CHECK (In_ "status" ["PENDING"; "COMPLETED"]));
      ("CHK_files_size", CHECK (Gt "size" 0));
      ("FK_files_owner", FOREIGN_KEY "owner_id" "users" "id" CASCADE)];
   CREATE_INDEX "IDX_files_owner_created" (Index "files" false ["owner_id"; "created_at"] None);
   CREATE_INDEX "IDX_files_pending" (Index "files" false ["created_at"] (Some (In_ "status" ["PENDING"])));
   CREATE_INDEX "UQ_files_idempotency"
     (Index "files" true ["owner_id"; "idempotency_key"] (Some (Is_not_null "idempotency_key")))]
  [DROP_TABLE "files"].

(** In the order of their timestamps, in which [migration:run] applies them. *)
Definition migrations : list migration :=
  [Init1789200734124; CheckoutQueue1789303849705; OrderReceipts1789400000000; Outbox1789500000000;
   Reviews1789600000000; Auth1789700000000; Files1789800000000].

Definition migrate (ms : list migration) : list ddl := concat (up <$> ms).
(** [migration:revert] takes back the last migration first. *)
Definition revert (ms : list migration) : list ddl := concat (down <$> reverse ms).

Example migrations_run : is_Some (run (migrate migrations) no_catalogue).
Proof. apply (bool_decide_unpack _). vm_compute. exact Logic.I. Qed.

(** ** A catalogue in which everything mentioned exists *)

Record wf (c : catalogue) : Prop := {
  wf_constraints : map_Forall (λ _ t, map_Forall (λ _ k, fits (tables c) t k) (constraints t)) (tables c);
  wf_indexes : map_Forall (λ _ ix, ∃ t, tables c !! ix_table ix = Some t ∧ known (index_cols ix) t) (indexes c);
}.

Lemma wf_no_catalogue : wf no_catalogue.
Proof. split; apply map_Forall_empty. Qed.

(** Tables, columns and constraints are only added. *)
Definition grows (t t' : table) : Prop := names t ⊆ names t' ∧ constraints t ⊆ constraints t'.
Definition extends (ts ts' : gmap string table) : Prop :=
  ∀ n t, ts !! n = Some t → ∃ t', ts' !! n = Some t' ∧ grows t t'.

#[export] Instance grows_refl : Reflexive grows.
Proof. by split. Qed.

Lemma known_mono l t t' : grows t t' → known l t → known l t'.
Proof. intros [Hn _] H. unfold known in *. rewrite Forall_forall in *. set_solver. Qed.

Lemma keyed_mono x t t' : grows t t' → keyed x t → keyed x t'.
Proof.
  intros [_ Hc] (m & k & Hm & Hk). exists m, k. split; [|done]. by eapply lookup_weaken.
Qed.

Lemma fits_mono ts ts' t t' k : extends ts ts' → grows t t' → fits ts t k → fits ts' t' k.
Proof.
  intros He Hg [Hk Hf]. split; [by eapply known_mono|].
  destruct k; try done. destruct (ts !! ref) as [r|] eqn:Hr; [|done].
  destruct (He _ _ Hr) as (r' & -> & Hrr). cbn in *. by eapply keyed_mono.
Qed.

Lemma extends_insert ts n t t' :
  ts !! n = t → from_option (λ t, grows t t') True t → extends ts (<[n := t']> ts).
Proof.
  intros Hn Hg n0 t0 H0. rewrite lookup_insert. case_decide as Hd.
  - subst. rewrite H0 in Hg. by eexists.
  - exists t0. by split.
Qed.

(** A table that replaces a smaller one (or none) keeps the catalogue well formed. *)
Lemma wf_set_table c n t :
  wf c → from_option (λ t0, grows t0 t) True (tables c !! n) →
  map_Forall (λ _ k, fits (tables c) t k) (constraints t) → wf (set_table c n t).
Proof.
  intros [Hc Hi] Hg Hf. pose proof (extends_insert _ n _ t eq_refl Hg) as He. split; cbn.
  - apply map_Forall_insert_2.
    + eapply map_Forall_impl; [exact Hf|]. cbn. intros m k. by apply fits_mono.
    + eapply map_Forall_impl; [exact Hc|]. cbn. intros n' t' Ht'.
      eapply map_Forall_impl; [exact Ht'|]. cbn. intros m k. by apply fits_mono.
  - eapply map_Forall_impl; [exact Hi|]. cbn. intros m ix (t0 & Ht0 & Hk).
    destruct (He _ _ Ht0) as (t' & Ht' & Hg'). exists t'. split; [done|]. by eapply known_mono.
Qed.

Lemma guard_Some {A} (P : Prop) `{Decision P} (a : option A) x : guard P a = Some x → P ∧ a = Some x.
Proof. unfold guard. case_decide; [done|discriminate]. Qed.

Lemma guard_true {A} (P : Prop) `{Decision P} (a : option A) : P → guard P a = a.
Proof. intros HP. unfold guard. by rewrite decide_True. Qed.

Lemma run_one s c : run [s] c = exec s c.
Proof. cbn. by destruct (exec s c). Qed.

(** Read off what a statement that succeeded found. *)
Ltac exec_inv H :=
  rewrite ?run_one in H; cbn [exec] in H;
  repeat (let x := fresh "x" in let Hx := fresh "Hx" in apply bind_Some in H as (x & Hx & H));
  repeat match type of H with guard _ _ = Some _ =>
    let Hg := fresh "Hg" in apply guard_Some in H as [Hg H] end;
  injection H as <-.

Lemma set_table_back c n t t' : tables c !! n = Some t → set_table (set_table c n t') n t = c.
Proof. intros H. destruct c. unfold set_table. cbn in *. by rewrite insert_insert_eq, insert_id. Qed.

(** ** Taking statements back *)

(** Whatever catalogue [u] succeeds on, [d] restores. *)
Definition undone (u d : list ddl) : Prop :=
  ∀ c c', wf c → run u c = Some c' → wf c' ∧ run d c' = Some c.

Lemma run_app l l' c : run (l ++ l') c = c' ← run l c; run l' c'.
Proof. revert c. induction l as [|s l IH]; intros c; [done|]. cbn. destruct (exec s c); cbn; auto. Qed.

Lemma undone_nil : undone [] [].
Proof. by intros c c' Hwf [= <-]. Qed.

Lemma undone_app u1 d1 u2 d2 : undone u1 d1 → undone u2 d2 → undone (u1 ++ u2) (d2 ++ d1).
Proof.
  intros H1 H2 c c' Hwf Hr. rewrite run_app in Hr. apply bind_Some in Hr as (c1 & Hr1 & Hr2).
  destruct (H1 _ _ Hwf Hr1) as [Hwf1 Hd1]. destruct (H2 _ _ Hwf1 Hr2) as [Hwf2 Hd2].
  split; [done|]. rewrite run_app, Hd2. done.
Qed.

Lemma undone_cons s d u ds : undone [s] [d] → undone u ds → undone (s :: u) (ds ++ [d]).
Proof. apply (undone_app [s] [d] u ds). Qed.

(** In a well-formed catalogue nothing refers to what does not exist. *)
Lemma wf_own_cols c n t m k x :
  wf c → tables c !! n = Some t → constraints t !! m = Some k → x ∈ own_cols k → x ∈ names t.
Proof.
  intros Hwf Hn Hm Hx. destruct (wf_constraints _ Hwf n t Hn m k Hm) as [Hk _].
  unfold known in Hk. rewrite Forall_forall in Hk. auto.
Qed.

Lemma wf_column_referenced c n t x :
  wf c → tables c !! n = Some t → column_referenced c n x → x ∈ names t.
Proof.
  intros Hwf Hn (n' & t' & Hn' & m & k & Hm & Hk).
  destruct (wf_constraints _ Hwf n' t' Hn' m k Hm) as [_ Hf]. destruct k; try discriminate Hk.
  apply bool_decide_eq_true in Hk as [-> ->]. rewrite Hn in Hf. destruct Hf as (m' & k & Hm' & Hk).
  eapply (wf_own_cols c n t m' k); [done..|]. destruct Hk as [-> | ->]; cbn; set_solver.
Qed.

Lemma wf_referenced c n : wf c → tables c !! n = None → ¬ referenced c n.
Proof.
  intros Hwf Hn (n' & t' & Hn' & _ & m & k & Hm & Hk).
  destruct (wf_constraints _ Hwf n' t' Hn' m k Hm) as [_ Hf]. destruct k; try discriminate Hk.
  apply bool_decide_eq_true in Hk as ->. by rewrite Hn in Hf.
Qed.

Lemma wf_index c m ix : wf c → indexes c !! m = Some ix →
  ∃ t, tables c !! ix_table ix = Some t ∧ ∀ x, x ∈ index_cols ix → x ∈ names t.
Proof.
  intros Hwf Hm. destruct (wf_indexes _ Hwf m ix Hm) as (t & Ht & Hk). exists t.
  unfold known in Hk. rewrite Forall_forall in Hk. auto.
Qed.

(** References only depend on the constraints of the tables. *)
Lemma column_referenced_set c n t t' n' x :
  tables c !! n = Some t → constraints t' = constraints t →
  column_referenced (set_table c n t') n' x → column_referenced c n' x.
Proof.
  intros Hn Hc (n1 & t1 & H1 & Hk). cbn in H1. apply lookup_insert_Some in H1 as [[<- <-]|[_ H1]].
  - exists n, t. by rewrite <- Hc.
  - by exists n1, t1.
Qed.

Lemma names_add cols ks x col : names (Table (cols ++ [(x, col)]) ks) = cols.*1 ++ [x].
Proof. unfold names. cbn. by rewrite fmap_app. Qed.

Lemma grows_add t x col : grows t (Table (columns t ++ [(x, col)]) (constraints t)).
Proof. split; [|done]. rewrite names_add. unfold names. set_solver. Qed.

Lemma undone_add_column n x col : undone [ADD_COLUMN n x col] [DROP_COLUMN n x].
Proof.
  intros c c' Hwf Hr. exec_inv Hr. destruct Hg as [Hx0 _]. rename x0 into t. split.
  - apply wf_set_table; [done| |].
    + rewrite Hx. apply grows_add.
    + eapply map_Forall_impl; [exact (wf_constraints _ Hwf n t Hx)|]. intros m k.
      apply fits_mono; [by intros ? ? ?; eexists|]. apply grows_add.
  - rewrite run_one. cbn [exec set_table tables]. rewrite lookup_insert_eq. cbn [mbind option_bind]. rewrite guard_true; cycle 1.
    { split; [rewrite names_add; set_solver|]. intros Hr. apply Hx0.
      apply (wf_column_referenced c n t x Hwf Hx). by refine (column_referenced_set c n t _ n x Hx _ Hr). }
    cbn. rewrite insert_insert_eq. f_equal. destruct c as [ts ixs]. f_equal.
    + apply insert_id. cbn in Hx. rewrite Hx. f_equal. destruct t as [cols ks]. cbn. f_equal.
      * rewrite filter_app, filter_cons_False by (cbn; tauto). rewrite app_nil_r.
        symmetry. apply filter_all. intros [y z] Hy. cbn. intros ->. apply Hx0.
        exact (list_elem_of_fmap_2 fst _ _ Hy).
      * symmetry. apply map_filter_id. intros m k Hm. cbn. intros Hin. apply Hx0.
        by eapply (wf_own_cols (Catalogue ts ixs)).
    + apply map_filter_id. intros m ix Hm [Hn Hin]. cbn in Hin. subst n.
      destruct (wf_index _ m ix Hwf Hm) as (t' & Ht' & Hcols). apply Hx0. cbn in Ht', Hx.
      rewrite Hx in Ht'. injection Ht' as <-. auto.
Qed.

Lemma undone_add_constraint n m k :
  is_key k = false → undone [ADD_CONSTRAINT n m k] [DROP_CONSTRAINT n m].
Proof.
  intros Hk c c' Hwf Hr. exec_inv Hr. destruct Hg as (Hm & Hf & _). rename x into t.
  assert (grows t (Table (columns t) (<[m := k]> (constraints t)))) as Hg.
  { split; [done|]. cbn. by apply insert_subseteq. }
  split.
  - apply wf_set_table; [done|by rewrite Hx|]. cbn. apply map_Forall_insert_2.
    + eapply fits_mono; [|exact Hg|exact Hf]. by intros ? ? ?; eexists.
    + eapply map_Forall_impl; [exact (wf_constraints _ Hwf n t Hx)|]. intros m' k'.
      apply fits_mono; [by intros ? ? ?; eexists|done].
  - rewrite run_one. cbn [exec set_table tables]. rewrite lookup_insert_eq. cbn. rewrite lookup_insert_eq. cbn.
    rewrite guard_true by (rewrite Hk; discriminate). f_equal. destruct c as [ts ixs]. unfold set_table. cbn in *.
    rewrite insert_insert_eq, delete_insert_id by done. f_equal. apply insert_id. by destruct t.
Qed.

Lemma undone_create_index m ix : undone [CREATE_INDEX m ix] [DROP_INDEX m].
Proof.
  intros c c' Hwf Hr. exec_inv Hr. destruct Hg as [(_ & Hm & _) Hk]. rename x into t. split.
  - split; [exact (wf_constraints _ Hwf)|]. cbn. apply map_Forall_insert_2; [by eexists|exact (wf_indexes _ Hwf)].
  - rewrite run_one. cbn. rewrite lookup_insert_eq, guard_true by by eexists.
    rewrite delete_insert_id by done. by destruct c.
Qed.

(** A new table with the indexes on it goes away with the table. *)
Definition create_indexes (n : string) (l : list (string * index)) : Prop := Forall (λ p, ix_table p.2 = n) l.

Lemma run_create_indexes n l c c' :
  create_indexes n l → run ((λ p, CREATE_INDEX p.1 p.2) <$> l) c = Some c' → wf c →
  wf c' ∧ tables c' = tables c ∧
  filter (λ p, ix_table p.2 ≠ n) (indexes c') = filter (λ p, ix_table p.2 ≠ n) (indexes c).
Proof.
  intros Hl. revert c. induction Hl as [|[m ix] l Hix _ IH]; intros c; [by intros [= <-]|].
  intros Hr Hwf. cbn [fmap list_fmap run] in Hr. apply bind_Some in Hr as (c1 & H1 & Hr).
  destruct (undone_create_index m ix c c1 Hwf) as [Hwf1 _]; [by rewrite run_one|].
  destruct (IH _ Hr Hwf1) as (? & Ht & Hi). split; [done|]. exec_inv H1. cbn in *.
  split; [done|]. rewrite Hi. destruct Hg as [(_ & Hm & _) _].
  rewrite map_filter_insert_False by (cbn; intros Hne; by apply Hne). by rewrite delete_id.
Qed.

Lemma undone_create_table n cols ks l :
  create_indexes n l →
  undone (CREATE_TABLE n cols ks :: ((λ p, CREATE_INDEX p.1 p.2) <$> l)) [DROP_TABLE n].
Proof.
  intros Hl c c' Hwf Hr. cbn [run] in Hr. apply bind_Some in Hr as (c1 & H1 & Hr). exec_inv H1.
  destruct Hg as ((Hn & _ & _) & _ & _ & Hks).
  assert (wf (set_table c n (Table cols (list_to_map ks)))) as Hwf1.
  { apply wf_set_table; [done|by rewrite Hn|]. eapply map_Forall_impl; [exact Hks|]. by cbn; intros ? ? []. }
  destruct (run_create_indexes _ _ _ _ Hl Hr Hwf1) as (Hwf' & Ht & Hi). split; [done|].
  rewrite run_one. cbn. rewrite Ht. cbn. rewrite guard_true.
  - f_equal. destruct c as [ts ixs]. cbn in *. rewrite delete_insert_id by done. f_equal.
    rewrite Hi. apply map_filter_id. intros m ix Hm. cbn. intros Hix. subst n.
    destruct (wf_index _ m ix Hwf Hm) as (t & Hn' & _). pose proof (eq_trans (eq_sym Hn) Hn') as Hc. discriminate Hc.
  - split; [rewrite lookup_insert_eq; by eexists|]. intros (n' & t' & Hn' & Hne & Href).
    rewrite Ht in Hn'. cbn in Hn'. rewrite lookup_insert_ne in Hn' by done.
    apply (wf_referenced c n Hwf Hn). by exists n', t'.
Qed.

(** *** The migrations of the repository *)

Ltac index_list l :=
  match l with
  | [] => constr:(@nil (string * index))
  | CREATE_INDEX ?m ?ix :: ?r => let t := index_list r in constr:((m, ix) :: t)
  end.

(** One statement of [down] takes back one statement of [up], or a new table
    together with its indexes. *)
Ltac undo_one :=
  match goal with
  | |- undone [ADD_COLUMN _ _ _] _ => apply undone_add_column
  | |- undone [ADD_CONSTRAINT _ _ _] _ => apply undone_add_constraint; reflexivity
  | |- undone [CREATE_INDEX _ _] _ => apply undone_create_index
  | |- undone (CREATE_TABLE ?n ?cols ?ks :: ?l) _ =>
      let ixs := index_list l in apply (undone_create_table n cols ks ixs); repeat constructor
  end.

(** The last statement of [down] takes back the first [k] of [up]. *)
Ltac undo k :=
  match goal with
  | |- undone ?u ?d =>
      let n := eval cbv in (pred (length d)) in
      change (undone (take k u ++ drop k u) (take n d ++ drop n d));
      apply undone_app; cbn [take drop]; [undo_one|]
  end.

Lemma undone_migration m : m ∈ migrations → undone (up m) (down m).
Proof.
  unfold migrations. rewrite !elem_of_cons, elem_of_nil.
  intros [->|[->|[->|[->|[->|[->|[->|[]]]]]]]]; cbn [up down Init1789200734124 CheckoutQueue1789303849705
    OrderReceipts1789400000000 Outbox1789500000000 Reviews1789600000000 Auth1789700000000 Files1789800000000].
  - do 7 undo 1%nat. apply undone_nil.
  - do 6 undo 1%nat. apply undone_nil.
  - undo 1%nat. apply undone_nil.
  - do 5 undo 1%nat. apply undone_nil.
  - undo 2%nat. apply undone_nil.
  - do 3 undo 1%nat. undo 3%nat. undo 2%nat. apply undone_nil.
  - undo 4%nat. apply undone_nil.
Qed.

Lemma undone_migrations ms : Forall (λ m, m ∈ migrations) ms → undone (migrate ms) (revert ms).
Proof.
  induction 1 as [|m ms Hm _ IH]; [apply undone_nil|].
  unfold migrate, revert. cbn [fmap list_fmap concat]. rewrite reverse_cons, fmap_app, concat_app. cbn.
  rewrite app_nil_r. apply undone_app; [by apply undone_migration|exact IH].
Qed.

(** ** What a catalogue demands of the rows *)

(** A [jsonb] value is only ever known to be one: no constraint looks inside. *)
Inductive value := VNull | VZ (z : Z) | VNum (hundredths : Z) | VT (s : string) | VB (b : bool) | VJ.
#[export] Instance value_eq_dec : EqDecision value.
Proof. solve_decision. Defined.

Definition tuple : Type := list (string * value).

(** The value of a column, where the model keeps that column. *)
Fixpoint col (r : tuple) (x : string) : option value :=
  match r with
  | [] => None
  | (y, v) :: r => if String.eqb x y then Some v else col r x
  end.

Definition int2 (z : Z) : bool := (-32768 <=? z) && (z <=? 32767).

Definition has_type (ty : sql_type) (v : value) : bool :=
  match ty, v with
  | _, VNull => true
  | bigint, VZ z => int8 z
  | integer, VZ z => int4 z
  | smallint, VZ z => int2 z
  | numeric p s, VNum h => (s =? 2) && (Z.abs h <? 10 ^ p)
  | text, VT s => bool_decide (text_in s = Some s)
  | boolean, VB _ => true
  | uuid, VT s => uuid_shape s
  | timestamptz, VZ _ => true
  | jsonb, VJ => true
  | _, _ => false
  end.

(** A CHECK holds unless its condition is false: NULL passes. *)
Definition cond_holds (c : cond) (r : tuple) : bool :=
  match c, col r (cond_col c) with
  | Is_null _, v => bool_decide (v = Some VNull)
  | Is_not_null _, v => bool_decide (v ≠ Some VNull)
  | Ge _ n, Some (VZ z) => n <=? z
  | Ge _ n, Some (VNum h) => 100 * n <=? h
  | Gt _ n, Some (VZ z) => n <? z
  | Gt _ n, Some (VNum h) => 100 * n <? h
  | Between _ a b, Some (VZ z) => (a <=? z) && (z <=? b)
  | In_ _ l, Some (VT s) => bool_decide (s ∈ l)
  | _, _ => true
  end.

(** The values of the columns of a key, [None] where one is NULL. *)
Definition key_of (cols : list string) (r : tuple) : option (list value) :=
  mapM (λ x, match col r x with Some VNull | None => None | Some v => Some v end) cols.

Definition keys_unique (P : tuple → bool) (cols : list string) (rows : list tuple) : Prop :=
  NoDup (omap (λ r, if P r then key_of cols r else None) rows).

(** The tables as Postgres shows them; columns the model leaves out ([created_at]
    where no query reads it) are absent. *)
Definition nullable_text (s : option string) : value := from_option VT VNull s.
Definition nullable_int (z : option Z) : value := from_option VZ VNull z.

Definition status_text (s : order_status) : string :=
  match s with pending => "pending" | paid => "paid" | shipped => "shipped" | cancelled => "cancelled" | refunded => "refunded" end.
Definition job_status_text (s : job_status) : string := match s with job_new => "new" | job_done => "done" end.
Definition role_text (r : role) : string := match r with customer => "customer" | seller => "seller" | admin => "admin" end.
Definition file_status_text (s : file_status) : string := match s with PENDING => "PENDING" | COMPLETED => "COMPLETED" end.

Definition user_tuple (p : Z * user_row) : tuple :=
  [("id", VZ p.1); ("email", VT (u_email p.2)); ("full_name", VT (u_full_name p.2)); ("balance", VNum (u_balance p.2));
   ("password_hash", nullable_text (u_password_hash p.2)); ("role", VT (role_text (u_role p.2)))].
Definition product_tuple (p : Z * product_row) : tuple :=
  [("id", VZ p.1); ("sku", VT (p_sku p.2)); ("name", VT (p_name p.2)); ("price", VNum (p_price p.2));
   ("is_active", VB (p_is_active p.2)); ("stock", VZ (p_stock p.2))].
Definition order_tuple (p : Z * order_row) : tuple :=
  [("id", VZ p.1); ("customer_email", VT (o_customer_email p.2)); ("status", VT (status_text (o_status p.2)));
   ("total_amount", VNum (o_total_amount p.2)); ("created_at", VZ (o_created_at p.2)); ("buyer_id", VZ (o_buyer_id p.2))].
Definition item_tuple (p : Z * order_item_row) : tuple :=
  [("id", VZ p.1); ("quantity", VZ (oi_quantity p.2)); ("unit_price", VNum (oi_unit_price p.2));
   ("order_id", VZ (oi_order_id p.2)); ("product_id", VZ (oi_product_id p.2))].
Definition job_tuple (p : Z * job_row) : tuple :=
  [("id", VZ p.1); ("kind", VT (j_kind p.2)); ("status", VT (job_status_text (j_status p.2)));
   ("worker", nullable_text (j_worker p.2)); ("processed", VZ (j_processed p.2)); ("order_id", VZ (j_order_id p.2))].
Definition key_tuple (p : string * option Z) : tuple := [("key", VT p.1); ("order_id", nullable_int p.2)].
Definition outbox_tuple (p : string * outbox_row) : tuple :=
  [("id", VT p.1); ("aggregate_type", VT (ob_aggregate_type p.2)); ("aggregate_id", VT (ob_aggregate_id p.2));
   ("type", VT (ob_type p.2)); ("payload", VJ); ("created_at", VZ (ob_created_at p.2));
   ("published_at", nullable_int (ob_published_at p.2)); ("attempts", VZ (ob_attempts p.2))].
Definition processed_tuple (p : string * string) : tuple := [("message_id", VT p.1); ("consumer", VT p.2)].
Definition receipt_tuple (p : string * receipt_row) : tuple :=
  [("event_id", VT p.1); ("order_id", VT (rc_order_id p.2)); ("buyer_id", VT (rc_buyer_id p.2));
   ("total_amount", VNum (rc_total_amount p.2))].
Definition token_tuple (p : Z * refresh_row) : tuple :=
  [("id", VZ p.1); ("token_hash", VT (rt_token_hash p.2)); ("family_id", VT (rt_family_id p.2));
   ("user_id", VZ (rt_user_id p.2)); ("used_at", nullable_int (rt_used_at p.2));
   ("revoked_at", nullable_int (rt_revoked_at p.2)); ("expires_at", VZ (rt_expires_at p.2))].
Definition denied_tuple (p : string * Z) : tuple := [("jti", VT p.1); ("expires_at", VZ p.2)].
Definition file_tuple (p : string * file_row) : tuple :=
  [("id", VT p.1); ("key", VT (f_key p.2)); ("owner_id", VZ (f_owner_id p.2)); ("status", VT (file_status_text (f_status p.2)));
   ("content_type", VT (f_content_type p.2)); ("size", VZ (f_size p.2)); ("upload_id", nullable_text (f_upload_id p.2));
   ("etag", nullable_text (f_etag p.2)); ("idempotency_key", nullable_text (f_idempotency_key p.2))].

Definition rows (d : db) (n : string) : list tuple :=
  if String.eqb n "users" then user_tuple <$> map_to_list (users d)
  else if String.eqb n "products" then product_tuple <$> map_to_list (products d)
  else if String.eqb n "orders" then order_tuple <$> map_to_list (orders d)
  else if String.eqb n "order_items" then item_tuple <$> map_to_list (order_items d)
  else if String.eqb n "job_queue" then job_tuple <$> map_to_list (job_queue d)
  else if String.eqb n "idempotency_keys" then key_tuple <$> map_to_list (idempotency_keys d)
  else if String.eqb n "outbox" then outbox_tuple <$> map_to_list (outbox d)
  else if String.eqb n "processed_messages" then processed_tuple <$> elements (processed_messages d)
  else if String.eqb n "order_receipts" then receipt_tuple <$> map_to_list (order_receipts d)
  else if String.eqb n "refresh_tokens" then token_tuple <$> map_to_list (refresh_tokens d)
  else if String.eqb n "access_denylist" then denied_tuple <$> map_to_list (access_denylist d)
  else if String.eqb n "files" then file_tuple <$> map_to_list (files d)
  else [].

(** Every value fits its column, every constraint and unique index holds. *)
Definition constraint_holds (d : db) (n : string) (k : constraint) : Prop :=
  match k with
  | PRIMARY_KEY l | UNIQUE l => keys_unique (λ _, true) l (rows d n)
  | CHECK c => Forall (λ r, cond_holds c r = true) (rows d n)
  | FOREIGN_KEY x r y _ =>
      Forall (λ t, from_option (λ v, v = VNull ∨ Exists (λ t', col t' y = Some v) (rows d r)) True (col t x)) (rows d n)
  end.

Definition column_holds (x : string) (k : column) (r : tuple) : Prop :=
  from_option (λ v, has_type (c_type k) v = true ∧ (c_not_null k = true → v ≠ VNull)) True (col r x).

Record enforced (c : catalogue) (d : db) : Prop := {
  enf_columns : map_Forall (λ n t, Forall (λ p, Forall (column_holds p.1 p.2) (rows d n)) (columns t)) (tables c);
  enf_constraints : map_Forall (λ n t, map_Forall (λ _ k, constraint_holds d n k) (constraints t)) (tables c);
  enf_unique : map_Forall (λ _ ix, ix_unique ix = true →
    keys_unique (λ r, from_option (λ w, cond_holds w r) true (ix_where ix)) (ix_cols ix) (rows d (ix_table ix))) (indexes c);
}.

#[export] Instance from_option_dec {A} (P : A → Prop) (Q : Prop) (o : option A) :
  (∀ a, Decision (P a)) → Decision Q → Decision (from_option P Q o).
Proof. destruct o; cbn; apply _. Defined.
#[export] Instance column_holds_dec x k r : Decision (column_holds x k r).
Proof. unfold column_holds. apply _. Defined.
#[export] Instance constraint_holds_dec d n k : Decision (constraint_holds d n k).
Proof. destruct k; unfold constraint_holds, keys_unique; apply _. Defined.
#[export] Instance enforced_dec c d : Decision (enforced c d).
Proof.
  refine (cast_if_and3
    (decide (map_Forall (λ n t, Forall (λ p, Forall (column_holds p.1 p.2) (rows d n)) (columns t)) (tables c)))
    (decide (map_Forall (λ n t, map_Forall (λ _ k, constraint_holds d n k) (constraints t)) (tables c)))
    (decide (map_Forall (λ _ ix, ix_unique ix = true →
      keys_unique (λ r, from_option (λ w, cond_holds w r) true (ix_where ix)) (ix_cols ix) (rows d (ix_table ix))) (indexes c))));
    solve [by split | by intros []].
Defined.

(** The result of all migrations on an empty database. *)
Definition migrated : catalogue := default no_catalogue (run (migrate migrations) no_catalogue).









(** What the program itself keeps, and Postgres does not check: a committed key
    is bound, jobs count up, ids of files and identity sequences. *)
Record program_keeps (d : db) : Prop := {
  keep_keys : map_Forall (λ _ o, is_Some o) (idempotency_keys d);
  keep_jobs : map_Forall (λ _ j, 0 ≤ j_processed j) (job_queue d);
  keep_file_ids : map_Forall (λ id f, f_id f = id) (files d);
  keep_orders : map_Forall (λ i _, i ≤ seq_orders d) (orders d);
  keep_items : map_Forall (λ i _, i ≤ seq_items d) (order_items d);
  keep_job_ids : map_Forall (λ i _, i ≤ seq_jobs d) (job_queue d);
  keep_tokens : map_Forall (λ i _, i ≤ seq_tokens d) (refresh_tokens d);
}.

#[export] Instance program_keeps_dec d : Decision (program_keeps d).
Proof.
  refine (cast_if (decide (map_Forall (λ _ o, is_Some o) (idempotency_keys d) ∧
    map_Forall (λ _ j, 0 ≤ j_processed j) (job_queue d) ∧ map_Forall (λ id f, f_id f = id) (files d) ∧
    map_Forall (λ i _, i ≤ seq_orders d) (orders d) ∧ map_Forall (λ i _, i ≤ seq_items d) (order_items d) ∧
    map_Forall (λ i _, i ≤ seq_jobs d) (job_queue d) ∧ map_Forall (λ i _, i ≤ seq_tokens d) (refresh_tokens d))));
    [by destruct_and!; split | intros []; tauto].
Defined.

Lemma rows_users d : rows d "users" = user_tuple <$> map_to_list (users d). Proof. done. Qed.
Lemma rows_products d : rows d "products" = product_tuple <$> map_to_list (products d). Proof. done. Qed.
Lemma rows_orders d : rows d "orders" = order_tuple <$> map_to_list (orders d). Proof. done. Qed.
Lemma rows_items d : rows d "order_items" = item_tuple <$> map_to_list (order_items d). Proof. done. Qed.
Lemma rows_jobs d : rows d "job_queue" = job_tuple <$> map_to_list (job_queue d). Proof. done. Qed.
Lemma rows_keys d : rows d "idempotency_keys" = key_tuple <$> map_to_list (idempotency_keys d). Proof. done. Qed.
Lemma rows_outbox d : rows d "outbox" = outbox_tuple <$> map_to_list (outbox d). Proof. done. Qed.
Lemma rows_denied d : rows d "access_denylist" = denied_tuple <$> map_to_list (access_denylist d). Proof. done. Qed.
Lemma rows_receipts d : rows d "order_receipts" = receipt_tuple <$> map_to_list (order_receipts d). Proof. done. Qed.
Lemma rows_tokens d : rows d "refresh_tokens" = token_tuple <$> map_to_list (refresh_tokens d). Proof. done. Qed.
Lemma rows_files d : rows d "files" = file_tuple <$> map_to_list (files d). Proof. done. Qed.
Create HintDb rows.
#[export] Hint Rewrite rows_users rows_products rows_orders rows_items rows_jobs rows_keys rows_outbox rows_denied rows_receipts rows_tokens rows_files : rows.


Section enforcement.
Context (d : db) (He : enforced migrated d).













End enforcement.


(** C21: migrations can be taken back.  Whatever list of the repository's
    migrations Postgres has applied to a database in which every constraint and
    index refers to something that exists, [migration:revert] in the opposite
    order is accepted statement by statement and leaves exactly the catalogue
    from before; and the migrated catalogue is itself such a database. *)
Theorem migrations_revert ms c c' :
  Forall (λ m, m ∈ migrations) ms → wf c → run (migrate ms) c = Some c' →
  run (revert ms) c' = Some c ∧ wf c'.
Proof. intros Hms Hwf Hr. destruct (undone_migrations ms Hms c c' Hwf Hr). by split. Qed.

Lemma migrations_revert_witness :
  run (migrate migrations) no_catalogue = Some migrated ∧ run (revert migrations) migrated = Some no_catalogue.
Proof.
  assert (run (migrate migrations) no_catalogue = Some migrated) as Hr by (vm_compute; reflexivity).
  split; [exact Hr|]. refine (proj1 (migrations_revert migrations no_catalogue migrated _ wf_no_catalogue Hr)).
  apply Forall_forall. intros m Hm. exact Hm.
Defined.


#[local] Existing Instance fix_text.
#[local] Existing Instance fix_events.

(** The rows after one purchase. *)
Definition bought : db :=
  (checkout (Env 1000 2000 "00000000-0000-4000-8000-000000000000") no_hook buy no_fault 0%nat fix_db).2.


(** Two things the schema does not keep out: an unbound idempotency key, and a
    job processed less than no time. *)
Definition unbound_key : db := set_keys (λ _, {["key" := None]}) fix_db.
Definition undone_job : db := set_job_queue (alter (λ j, JobRow (j_order_id j) (j_kind j) (j_status j) (j_worker j) (-1)) 1) (seq_jobs bought) bought.
Example schema_admits : enforced migrated unbound_key ∧ ¬ program_keeps unbound_key ∧ enforced migrated undone_job ∧ ¬ program_keeps undone_job.
Proof. split_and!; apply (bool_decide_unpack _); vm_compute; exact Logic.I. Qed.

(** Rows outside the constraints are not admitted: a negative stock. *)
Example negative_stock_refused :
  ¬ enforced migrated (set_products <[7 := ProductRow "SKU-1" "Keyboard" 1299 true (-1)]> fix_db).
Proof. apply (bool_decide_unpack _). vm_compute. exact Logic.I. Qed.

(** ** The entity classes

    What the decorators of src/entities declare: TypeORM's columns are NOT NULL
    unless [nullable: true]; [PrimaryGeneratedColumn('identity')] is the primary
    key; a [ManyToOne] with its [JoinColumn] is a column of the type of the
    target's key and a foreign key to it. *)

Record entity := Entity {
  e_table : string;
  e_columns : list (string * column);
  e_unique : list string;
  e_checks : list cond;
  e_many_to_one : list (string * string * on_delete);
}.

Definition User_entity : entity := Entity "users"
  [("id", identity); ("email", not_null text None); ("full_name", not_null text None);
   ("balance", not_null amount_type (Some (D_int 1000000))); ("created_at", not_null timestamptz (Some D_now))]
  ["email"] [Ge "balance" 0] [].

Definition Product_entity : entity := Entity "products"
  [("id", identity); ("sku", not_null text None); ("name", not_null text None); ("price", not_null amount_type None);
   ("is_active", not_null boolean (Some D_true)); ("stock", not_null integer (Some (D_int 0)));
   ("created_at", not_null timestamptz (Some D_now))]
  ["sku"] [Ge "price" 0; Ge "stock" 0] [].

Definition Order_entity : entity := Entity "orders"
  [("id", identity); ("customer_email", not_null text None); ("status", not_null text None);
   ("total_amount", not_null amount_type None); ("created_at", not_null timestamptz (Some D_now))]
  [] [In_ "status" ["pending"; "paid"; "shipped"; "cancelled"; "refunded"]; Ge "total_amount" 0]
  [("buyer_id", "users", RESTRICT)].

Definition OrderItem_entity : entity := Entity "order_items"
  [("id", identity); ("quantity", not_null integer None); ("unit_price", not_null amount_type None)]
  [] [Gt "quantity" 0; Ge "unit_price" 0] [("order_id", "orders", CASCADE); ("product_id", "products", RESTRICT)].

Definition JobQueue_entity : entity := Entity "job_queue"
  [("id", identity); ("kind", not_null text (Some (D_text "post_processing"))); ("status", not_null text (Some (D_text "new")));
   ("worker", nullable text); ("processed", not_null integer (Some (D_int 0))); ("created_at", not_null timestamptz (Some D_now))]
  [] [In_ "status" ["new"; "done"]] [("order_id", "orders", CASCADE)].

(** src/data-source.ts [dataSourceOptions.entities] *)
Definition entities : list entity := [User_entity; Product_entity; Order_entity; OrderItem_entity; JobQueue_entity].

(** The columns and the constraints an entity stands for. *)
Definition entity_columns (e : entity) : list (string * column) :=
  e_columns e ++ ((λ r, (r.1.1, not_null bigint None)) <$> e_many_to_one e).
Definition entity_constraints (e : entity) : list constraint :=
  PRIMARY_KEY ["id"] :: ((λ x, UNIQUE [x]) <$> e_unique e) ++ (CHECK <$> e_checks e) ++
  ((λ r, FOREIGN_KEY r.1.1 r.1.2 "id" r.2) <$> e_many_to_one e).

(** The migrated table has the entity's columns and, beyond [extra], no others;
    its constraints are those of the entity, beyond the ones on [extra]. *)
Definition entity_fits (extra : list string) (e : entity) : Prop :=
  match tables migrated !! e_table e with
  | Some t =>
      let ks := filter (λ k, Forall (λ x, x ∉ extra) (own_cols k)) ((map_to_list (constraints t)).*2) in
      filter (λ p, p.1 ∉ extra) (columns t) ≡ₚ entity_columns e ∧ ks ≡ₚ entity_constraints e
  | None => False
  end.
#[export] Instance entity_fits_dec extra e : Decision (entity_fits extra e).
Proof. unfold entity_fits. destruct (tables migrated !! e_table e); apply _. Defined.

(** The entity classes and the migrations declare the same tables; the columns
    of the authentication migration are the only ones TypeORM does not know. *)
Theorem entities_match_migrations :
  entity_fits ["password_hash"; "role"] User_entity ∧
  Forall (entity_fits []) [Product_entity; Order_entity; OrderItem_entity; JobQueue_entity].
Proof. apply (bool_decide_unpack _). vm_compute. exact Logic.I. Qed.
