(* ===== verification/Env.v ===== *)
(** The configuration schema (src/config/env.schema.ts): the zod schema as data,
    what parsing a variable means, the cross-variable rule and [validate].

    zod is third-party code.  Its combinators are data ([zod]) with their
    documented meaning; the WHATWG URL parser, the texts of its messages and
    whether a refinement still runs after other issues are the class [Zod]. *)
From stdpp Require Import pretty.
From Stdlib Require Import Ascii.
From S2P Require Import Prelude JsNumber JsText Events Schema Fixtures Token Limits Storage.
#[local] Open Scope Z_scope.

(** ** zod *)

Inductive zod_issue :=
| invalid_type
| not_integer
| too_small (n : Z)
| too_big (n : Z)
| invalid_url
| invalid_enum_value
| custom (message : string).
#[export] Instance zod_issue_eq_dec : EqDecision zod_issue.
Proof. solve_decision. Defined.

(** A variable is a text or not set; defaults are values. *)
Inductive value := Undefined | Str (s : string) | Num (z : Z).
#[export] Instance value_eq_dec : EqDecision value.
Proof. solve_decision. Defined.

Inductive zod :=
| z_enum (l : list string)
| z_string (min : Z)
| z_url
| z_coerce_int (lo : Z) (hi : option Z)
| z_default (z : zod) (d : value)
| z_optional (z : zod)
| z_refine (z : zod) (f : string → bool) (message : string)
| z_preprocess (f : value → value) (z : zod).

Class Zod := {
  zod_url : string → bool;
  zod_message : zod_issue → string;
  zod_continues : list zod_issue → bool;
}.
Class ZodLaws `{Zod} := {
  zod_custom : ∀ m, zod_message (custom m) = m;
  (** a value without issues is refined *)
  zod_clean : zod_continues [] = true;
}.

(** The curve of a key object: [asymmetricKeyType] and [namedCurve]. *)
Class KeyDetails `{JwtLib} := {
  private_details : private_key → string * option string;
  public_details : public_key → string * option string;
}.

(** [n < x] for an integer [n]. *)
Definition Z_lt_num (n : Z) (x : num) : bool :=
  match x with
  | Fin m e => let '(a, d) := frac m e in n * d <? a
  | PInf => true
  | _ => false
  end.

Section env.
Context `{Zod, KeyDetails}.

Definition when (b : bool) (i : zod_issue) : list zod_issue := if b then [i] else [].

(** [z.coerce.number().int().min(lo).max(hi)]: [Number(input)], then the checks. *)
Definition parse_number (lo : Z) (hi : option Z) (x : num) : list zod_issue * option value :=
  match x with
  | NaN => ([invalid_type], None)
  | _ =>
      let issues := when (bool_decide (num_to_Z x = None)) not_integer ++ when (Z_gt_num lo x) (too_small lo) ++
                    from_option (λ hi, when (Z_lt_num hi x) (too_big hi)) [] hi in
      (issues, Some (Num (default 0 (num_to_Z x))))
  end.

(** The issues of a value and, unless parsing was abandoned, its output. *)
Fixpoint parse (z : zod) (v : value) : list zod_issue * option value :=
  match z with
  | z_enum l =>
      match v with
      | Str s => if bool_decide (s ∈ l) then ([], Some v) else ([invalid_enum_value], None)
      | _ => ([invalid_type], None)
      end
  | z_string min =>
      match v with
      | Str s => (when (js_length s <? min) (too_small min), Some v)
      | _ => ([invalid_type], None)
      end
  | z_url =>
      match v with
      | Str s => (when (negb (zod_url s)) invalid_url, Some v)
      | _ => ([invalid_type], None)
      end
  | z_coerce_int lo hi =>
      match v with
      | Undefined => ([invalid_type], None)
      | Str s => parse_number lo hi (StringToNumber s)
      | Num n => parse_number lo hi (num_of_Z n)
      end
  | z_default z d => parse z (match v with Undefined => d | _ => v end)
  | z_optional z => match v with Undefined => ([], Some Undefined) | _ => parse z v end
  | z_refine z f message =>
      match parse z v with
      | (l, Some (Str s)) => (l ++ when (zod_continues l && negb (f s)) (custom message), Some (Str s))
      | r => r
      end
  | z_preprocess f z => parse z (f v)
  end.

(** ** The schema *)

Definition blankToUndefined (v : value) : value := match v with Str "" => Undefined | _ => v end.

Inductive key_kind := kind_private | kind_public.

Definition isEcKey (kind : key_kind) (b64 : string) : bool :=
  let pem := fromB64 b64 in
  match kind with
  | kind_private => from_option (λ k, bool_decide (private_details k = ("ec", Some "prime256v1"))) false (createPrivateKey pem)
  | kind_public => from_option (λ k, bool_decide (public_details k = ("ec", Some "prime256v1"))) false (createPublicKey pem)
  end.

Definition ecMessage (kind : string) : string := "має бути base64 від PEM " +:+ kind +:+ " ключа EC P-256 (ES256)".

Definition envSchema : list (string * zod) :=
  [("NODE_ENV", z_default (z_enum ["development"; "production"; "test"]) (Str "development"));
   ("PORT", z_default (z_coerce_int 1 (Some 65535)) (Num 3000));
   ("DB_URL", z_url);
   ("DB_PASSWORD_FILE", z_default (z_string 1) (Str "./secrets/db_password"));
   ("JWT_PRIVATE_KEY", z_refine (z_string 1) (isEcKey kind_private) (ecMessage "PKCS#8"));
   ("JWT_PUBLIC_KEY", z_refine (z_string 1) (isEcKey kind_public) (ecMessage "SPKI"));
   ("JWT_KID", z_string 1);
   ("REFRESH_TOKEN_PEPPER", z_string 8);
   ("JWT_PREVIOUS_KID", z_preprocess blankToUndefined (z_optional (z_string 1)));
   ("JWT_PREVIOUS_PUBLIC_KEY",
     z_preprocess blankToUndefined (z_optional (z_refine (z_string 0) (isEcKey kind_public) (ecMessage "SPKI"))));
   ("STORAGE_ENDPOINT", z_preprocess blankToUndefined (z_optional z_url));
   ("STORAGE_REGION", z_default (z_string 1) (Str "us-east-1"));
   ("STORAGE_ACCESS_KEY", z_string 1);
   ("STORAGE_SECRET_KEY", z_string 1);
   ("STORAGE_BUCKET", z_string 3);
   ("STORAGE_PUT_EXPIRES_SEC", z_default (z_coerce_int 10 (Some 3600)) (Num 300));
   ("STORAGE_PART_EXPIRES_SEC", z_default (z_coerce_int 10 (Some 3600)) (Num 900));
   ("STORAGE_GET_EXPIRES_SEC", z_default (z_coerce_int 5 (Some 3600)) (Num 60));
   ("STORAGE_MULTIPART_THRESHOLD", z_default (z_coerce_int 5242880 None) (Num 8388608));
   ("ACCESS_TOKEN_TTL_SEC", z_default (z_coerce_int 30 (Some 3600)) (Num 600));
   ("REFRESH_TOKEN_TTL_SEC", z_default (z_coerce_int 60 None) (Num 604800))].

(** The validated environment: [config.get(name)]. *)
Definition Env : Type := list (string * value).
Fixpoint get (e : Env) (name : string) : value :=
  match e with
  | [] => Undefined
  | (n, v) :: e => if String.eqb name n then v else get e name
  end.

(** A variable that is neither absent nor blank: [Boolean(env.X)]. *)
Definition set_value (v : value) : bool := match v with Str s => negb (String.eqb s "") | _ => false end.

(** [superRefine]: the two keys of the overlap are set together, the ids differ. *)
Definition cross_rules (prevKid prevPub kid : value) : list (string * zod_issue) :=
  (if xorb (set_value prevKid) (set_value prevPub)
   then [("JWT_PREVIOUS_KID", custom "JWT_PREVIOUS_KID і JWT_PREVIOUS_PUBLIC_KEY задаються лише разом")] else []) ++
  (if set_value prevKid && bool_decide (prevKid = kid)
   then [("JWT_PREVIOUS_KID", custom "має відрізнятись від JWT_KID")] else []).

Definition raw_value (raw : gmap string string) (name : string) : value := from_option Str Undefined (raw !! name).

Definition shape_issues (raw : gmap string string) : list (string * zod_issue) :=
  envSchema ≫= λ '(name, z), (λ i, (name, i)) <$> (parse z (raw_value raw name)).1.
Definition output (raw : gmap string string) : Env :=
  (λ '(name, z), (name, default Undefined (parse z (raw_value raw name)).2)) <$> envSchema.

(** [envSchema.safeParse(raw)] *)
Definition safeParse (raw : gmap string string) : list (string * zod_issue) + Env :=
  let issues := shape_issues raw in
  let e := output raw in
  let more := if zod_continues issues.*2
              then cross_rules (get e "JWT_PREVIOUS_KID") (get e "JWT_PREVIOUS_PUBLIC_KEY") (get e "JWT_KID") else [] in
  match issues ++ more with [] => inr e | l => inl l end.

Definition newline : string := String (ascii_of_N 10) "".
Fixpoint join_lines (l : list string) : string :=
  match l with [] => "" | [s] => s | s :: l => s +:+ newline +:+ join_lines l end.
Definition detail (i : string * zod_issue) : string := "  - " +:+ i.1 +:+ ": " +:+ zod_message i.2.

Definition validate (raw : gmap string string) : result Env :=
  match safeParse raw with
  | inr e => Ok e
  | inl issues => Err (JsError ("Некоректна конфігурація середовища — застосунок не стартує:" +:+ newline +:+
                               join_lines (detail <$> issues)))
  end.

(** What the services read from the configuration. *)
Definition str (v : value) : string := match v with Str s => s | _ => "" end.
Definition optional_str (v : value) : option string := match v with Str s => Some s | _ => None end.
Definition int (v : value) : Z := match v with Num z => z | _ => 0 end.

(** src/auth/token.service.ts [TokenService.constructor] *)
Definition token_config_of (e : Env) : token_config :=
  TokenConfig (str (get e "JWT_KID")) (str (get e "JWT_PRIVATE_KEY")) (str (get e "JWT_PUBLIC_KEY"))
    (optional_str (get e "JWT_PREVIOUS_KID")) (optional_str (get e "JWT_PREVIOUS_PUBLIC_KEY"))
    (int (get e "ACCESS_TOKEN_TTL_SEC")).

(** src/files/storage.service.ts [StorageService.constructor] *)
Definition StorageService_new (e : Env) : StorageService :=
  StorageServiceOf (str (get e "STORAGE_BUCKET")) (int (get e "STORAGE_PUT_EXPIRES_SEC"))
    (int (get e "STORAGE_PART_EXPIRES_SEC")) (int (get e "STORAGE_GET_EXPIRES_SEC"))
    (int (get e "STORAGE_MULTIPART_THRESHOLD")).

(** ** What a clean parse yields *)

Fixpoint good (z : zod) (v : value) : Prop :=
  match z with
  | z_enum l => ∃ s, v = Str s ∧ s ∈ l
  | z_string min => ∃ s, v = Str s ∧ min ≤ js_length s
  | z_url => ∃ s, v = Str s ∧ zod_url s = true
  | z_coerce_int lo hi => ∃ n, v = Num n ∧ lo ≤ n ∧ from_option (λ hi, n ≤ hi) True hi
  | z_default z _ => good z v
  | z_optional z => v = Undefined ∨ good z v
  | z_refine z f _ => good z v ∧ ∀ s, v = Str s → f s = true
  | z_preprocess _ z => good z v
  end.

Lemma Z_lt_num_int n x z : num_to_Z x = Some z → Z_lt_num n x = (n <? z).
Proof.
  destruct x as [m e| | |]; try done. intros Hx%num_to_Z_frac. cbn. pose proof (frac_pos m e).
  destruct (frac m e) as [a d]. cbn in *. subst a. apply eq_true_iff_eq. rewrite !Z.ltb_lt. nia.
Qed.

Lemma when_nil b i : when b i = [] → b = false.
Proof. by destruct b. Qed.

Lemma parse_number_good lo hi x :
  (parse_number lo hi x).1 = [] →
  ∃ n, num_to_Z x = Some n ∧ (parse_number lo hi x).2 = Some (Num n) ∧ lo ≤ n ∧ from_option (λ hi, n ≤ hi) True hi.
Proof.
  intros Hi.
  assert (∃ n, num_to_Z x = Some n ∧ (parse_number lo hi x).2 = Some (Num n) ∧ Z_gt_num lo x = false ∧
    from_option (λ hi, Z_lt_num hi x = false) True hi) as (n & Hn & Hp & Hlo & Hhi).
  { destruct x; cbn [parse_number fst snd] in *; [|by (apply app_nil in Hi as [Hi _])..|done].
    apply app_nil in Hi as [Ha [Hb%when_nil Hc]%app_nil]. apply when_nil, bool_decide_eq_false in Ha.
    destruct (num_to_Z _) as [n|]; [|done]. exists n. split_and!; try done. destruct hi; [|done]. by apply when_nil in Hc. }
  exists n. split_and!; try done.
  - rewrite (Z_gt_num_int _ _ _ Hn) in Hlo. zify_bools. lia.
  - destruct hi; [|done]. cbn in *. rewrite (Z_lt_num_int _ _ _ Hn) in Hhi. zify_bools. lia.
Qed.

Context `{!ZodLaws}.

Lemma parse_good z v : (parse z v).1 = [] → ∃ o, (parse z v).2 = Some o ∧ good z o.
Proof.
  revert v. induction z as [l|min| |lo hi|z IH d|z IH|z IH f m|f z IH]; intros v; cbn [parse good].
  - destruct v; try done. case_bool_decide; cbn; [eauto|done].
  - destruct v; try done. cbn. intros Hw%when_nil. zify_bools. eauto.
  - destruct v; try done. cbn. intros Hw%when_nil. zify_bools. eauto.
  - destruct v; try done; cbn; intros Hi; destruct (parse_number_good _ _ _ Hi) as (n & _ & ? & ? & ?); eauto 10.
  - apply IH.
  - destruct v; [by eauto|..]; intros Hi; destruct (IH _ Hi) as (o & ? & ?); eauto.
  - intros Hi. destruct (parse z v) as [l o] eqn:Hp. specialize (IH v). rewrite Hp in IH. cbn in IH.
    destruct o as [[|s|n]|]; cbn in *.
    1,3,4: destruct (IH Hi) as (o & Ho & ?); [eexists; split; [exact Ho|split; [done|by intros s' ->]]].
    apply app_nil in Hi as [-> Hw%when_nil]. destruct (IH eq_refl) as (o & [= <-] & Hg).
    rewrite zod_clean in Hw. cbn in Hw. apply negb_false_iff in Hw. eexists. split; [done|]. split; [done|]. by intros s' [= <-].
  - apply IH.
Qed.

Lemma get_map (f : string → zod → value) l name z :
  NoDup l.*1 → (name, z) ∈ l → get ((λ '(n, z), (n, f n z)) <$> l) name = f name z.
Proof.
  induction l as [|[n z'] l IH]; intros Hnd Hin; [by apply elem_of_nil in Hin|].
  cbn in Hnd. apply NoDup_cons in Hnd as [Hn Hnd]. cbn.
  apply elem_of_cons in Hin as [[= <- <-]|Hin]; [by rewrite String.eqb_refl|].
  destruct (String.eqb_spec name n) as [<-|]; [|auto].
  destruct Hn. by apply (list_elem_of_fmap_2 fst) in Hin.
Qed.

Lemma envSchema_names : NoDup envSchema.*1.
Proof. cbn [fmap list_fmap envSchema fst]. apply (bool_decide_unpack _). vm_compute. exact Logic.I. Qed.

Lemma shape_nil raw name z : shape_issues raw = [] → (name, z) ∈ envSchema → (parse z (raw_value raw name)).1 = [].
Proof.
  unfold shape_issues. generalize envSchema. intros l Hi Hin. induction l as [|[n z'] l IH]; [by apply elem_of_nil in Hin|].
  cbn in Hi. apply app_nil in Hi as [H1' H2']. apply elem_of_cons in Hin as [[= <- <-]|Hin]; [|auto].
  by apply fmap_nil_inv in H1'.
Qed.

Lemma safeParse_ok raw e : safeParse raw = inr e →
  e = output raw ∧ (∀ name z, (name, z) ∈ envSchema → good z (get e name)) ∧
  cross_rules (get e "JWT_PREVIOUS_KID") (get e "JWT_PREVIOUS_PUBLIC_KEY") (get e "JWT_KID") = [].
Proof.
  unfold safeParse. destruct (_ ++ _) eqn:Happ; [|done]. intros [= <-]. apply app_nil in Happ as [Hs Hc].
  rewrite Hs in Hc. cbn in Hc. rewrite zod_clean in Hc. split_and!; [done| |done].
  intros name z Hin. unfold output. rewrite (get_map (λ n z, default Undefined (parse z (raw_value raw n)).2) _ name z envSchema_names Hin).
  destruct (parse_good z (raw_value raw name)) as (o & -> & Hg); [by apply shape_nil|exact Hg].
Qed.

(** ** The validated environment *)

Definition text_of_length (m : Z) (v : value) : Prop := ∃ s, v = Str s ∧ m ≤ js_length s.
Definition int_from_to (lo hi : Z) (v : value) : Prop := ∃ n, v = Num n ∧ lo ≤ n ≤ hi.
Definition key_text (kind : key_kind) (v : value) : Prop := ∃ s, v = Str s ∧ isEcKey kind s = true.

Record env_ok (e : Env) : Prop := {
  ok_mode : get e "NODE_ENV" ∈ [Str "development"; Str "production"; Str "test"];
  ok_port : int_from_to 1 65535 (get e "PORT");
  ok_db : ∃ s, get e "DB_URL" = Str s ∧ zod_url s = true;
  ok_password_file : text_of_length 1 (get e "DB_PASSWORD_FILE");
  ok_private_key : key_text kind_private (get e "JWT_PRIVATE_KEY");
  ok_public_key : key_text kind_public (get e "JWT_PUBLIC_KEY");
  ok_kid : text_of_length 1 (get e "JWT_KID");
  ok_pepper : text_of_length 8 (get e "REFRESH_TOKEN_PEPPER");
  (** no previous key, or an id and a key of the right curve, the id a new one *)
  ok_previous :
    (get e "JWT_PREVIOUS_KID" = Undefined ∧ set_value (get e "JWT_PREVIOUS_PUBLIC_KEY") = false) ∨
    (text_of_length 1 (get e "JWT_PREVIOUS_KID") ∧ key_text kind_public (get e "JWT_PREVIOUS_PUBLIC_KEY") ∧
     set_value (get e "JWT_PREVIOUS_PUBLIC_KEY") = true ∧ get e "JWT_PREVIOUS_KID" ≠ get e "JWT_KID");
  ok_endpoint : get e "STORAGE_ENDPOINT" = Undefined ∨ ∃ s, get e "STORAGE_ENDPOINT" = Str s ∧ zod_url s = true;
  ok_region : text_of_length 1 (get e "STORAGE_REGION");
  ok_access_key : text_of_length 1 (get e "STORAGE_ACCESS_KEY");
  ok_secret_key : text_of_length 1 (get e "STORAGE_SECRET_KEY");
  ok_bucket : text_of_length 3 (get e "STORAGE_BUCKET");
  ok_put : int_from_to 10 3600 (get e "STORAGE_PUT_EXPIRES_SEC");
  ok_part : int_from_to 10 3600 (get e "STORAGE_PART_EXPIRES_SEC");
  ok_get : int_from_to 5 3600 (get e "STORAGE_GET_EXPIRES_SEC");
  (** whatever goes multipart is larger than the smallest part S3 takes *)
  ok_threshold : ∃ n, get e "STORAGE_MULTIPART_THRESHOLD" = Num n ∧ MIN_PART ≤ n;
  ok_access_ttl : int_from_to 30 3600 (get e "ACCESS_TOKEN_TTL_SEC");
  ok_refresh_ttl : ∃ n, get e "REFRESH_TOKEN_TTL_SEC" = Num n ∧ 60 ≤ n;
}.

Lemma js_length_pos s : 1 ≤ js_length s → s ≠ "".
Proof. by intros Hl ->. Qed.

(** Variable by variable: what the entry of the schema says of its output. *)
Lemma safeParse_entries raw e : safeParse raw = inr e → Forall (λ p, good p.2 (get e p.1)) envSchema.
Proof. intros (_ & Hg & _)%safeParse_ok. apply Forall_forall. intros [n z] Hin. by apply Hg. Qed.

Lemma good_int lo hi d v : good (z_default (z_coerce_int lo (Some hi)) d) v → int_from_to lo hi v.
Proof. done. Qed.
Lemma good_key kind m msg v : good (z_refine (z_string m) (isEcKey kind) msg) v → key_text kind v.
Proof. intros [(s & -> & _) Hs]. exists s. auto. Qed.

Lemma cross_rules_ok prevKid prevPub kid msg :
  cross_rules prevKid prevPub kid = [] →
  good (z_preprocess blankToUndefined (z_optional (z_string 1))) prevKid →
  good (z_preprocess blankToUndefined (z_optional (z_refine (z_string 0) (isEcKey kind_public) msg))) prevPub →
  (prevKid = Undefined ∧ set_value prevPub = false) ∨
  (text_of_length 1 prevKid ∧ key_text kind_public prevPub ∧ set_value prevPub = true ∧ prevKid ≠ kid).
Proof.
  unfold cross_rules. intros [Ha Hb]%app_nil Hk Hp. cbn [good] in Hk, Hp.
  destruct (xorb _ _) eqn:Hx in Ha; [done|]. destruct (_ && _) eqn:Hd in Hb; [done|].
  destruct Hk as [->|(s & -> & Hs)].
  - left. split; [done|]. cbn in Hx. by destruct (set_value prevPub).
  - right. assert (set_value (Str s) = true) as Hset.
    { cbn. apply negb_true_iff, String.eqb_neq. by apply js_length_pos. }
    rewrite Hset in Hx, Hd. split; [by eexists|]. split.
    + destruct Hp as [->|Hp]; [done|]. destruct Hp as [(s' & -> & _) Hs']. exists s'. auto.
    + split; [by destruct (set_value prevPub)|]. by apply bool_decide_eq_false in Hd.
Qed.

Lemma safeParse_env_ok raw e : safeParse raw = inr e → env_ok e.
Proof.
  intros Hp. pose proof (safeParse_entries _ _ Hp) as Hall. destruct (safeParse_ok _ _ Hp) as (_ & _ & Hc).
  unfold envSchema in Hall. rewrite !Forall_cons in Hall. cbn [fst snd] in Hall.
  destruct Hall as (Hmode & ? & ? & ? & ? & ? & ? & ? & Hkid & Hpub & Hend & ? & ? & ? & ? & ? & ? & ? & Hth & ? & Hrt & _).
  split; eauto using good_int, good_key, cross_rules_ok; try done.
  - destruct Hmode as (s & -> & Hs). set_solver.
  - destruct Hth as (n & -> & Hn & _). by exists n.
  - destruct Hrt as (n & -> & Hn & _). by exists n.
Qed.

Lemma validate_ok raw e : validate raw = Ok e → safeParse raw = inr e.
Proof. unfold validate. by destruct (safeParse raw); intros [= <-]. Qed.

(** *** The token service on a validated environment *)

Context `{!JwtLaws}.

Lemma key_text_private v : key_text kind_private v → ∃ k, createPrivateKey (fromB64 (str v)) = Some k.
Proof. intros (s & -> & Hk). unfold isEcKey in Hk. cbn. destruct (createPrivateKey _); [by eexists|done]. Qed.
Lemma key_text_public v : key_text kind_public v → ∃ k, createPublicKey (fromB64 (str v)) = Some k.
Proof. intros (s & -> & Hk). unfold isEcKey in Hk. cbn. destruct (createPublicKey _); [by eexists|done]. Qed.
Lemma text_truthy v : text_of_length 1 v → truthy (optional_str v) = Some (str v) ∧ str v ≠ "".
Proof. intros (s & -> & Hs%js_length_pos). cbn. by destruct s. Qed.
Lemma key_optional v : key_text kind_public v → optional_str v = Some (str v).
Proof. by intros (s & -> & _). Qed.
Lemma unset_truthy v : set_value v = false → truthy (optional_str v) = None.
Proof. destruct v as [|s|n]; try done. cbn. destruct s; [done|]. discriminate. Qed.

(** The keys the constructor ends up with: the current one under its own id,
    a previous one beside it. *)
Lemma service_keys e now probe sk pk :
  env_ok e → createPrivateKey (fromB64 (str (get e "JWT_PRIVATE_KEY"))) = Some sk →
  createPublicKey (fromB64 (str (get e "JWT_PUBLIC_KEY"))) = Some pk →
  ∃ keys, keys !! str (get e "JWT_KID") = Some pk ∧
    (size keys = if set_value (get e "JWT_PREVIOUS_KID") then 2 else 1)%nat ∧
    let s := Service sk (str (get e "JWT_KID")) keys (int (get e "ACCESS_TOKEN_TTL_SEC")) in
    TokenService_new (token_config_of e) now probe =
      match verify s now (sign s now probe "0" customer probe).1.1 with inr _ => Ok s | inl _ => Err key_mismatch end.
Proof.
  intros He Hsk Hpk. unfold TokenService_new, token_config_of, rbind, key_or_throw.
  cbn [Token.JWT_KID JWT_PRIVATE_KEY JWT_PUBLIC_KEY JWT_PREVIOUS_KID JWT_PREVIOUS_PUBLIC_KEY ACCESS_TOKEN_TTL_SEC].
  rewrite Hsk, Hpk. destruct (ok_previous _ He) as [[Hu Hp]|(Hk & Hp & Hset & Hne)].
  - rewrite Hu. cbn [optional_str truthy set_value]. exists {[str (get e "JWT_KID") := pk]}.
    split; [apply lookup_singleton_eq|]. split; [apply map_size_singleton|done].
  - destruct (text_truthy _ Hk) as [Ht Hs]. rewrite Ht, (key_optional _ Hp).
    destruct (key_text_public _ Hp) as [k Hpub]. destruct Hp as (pub & Hpe & _). rewrite Hpe in Hpub, Hset |- *. cbn [str] in Hpub |- *.
    destruct Hk as (kid' & Hke & _). destruct (ok_kid _ He) as (kid & Hkid & _). rewrite Hke, Hkid in *. cbn [str set_value] in *.
    destruct pub as [|c pub]; [done|].
    cbn [truthy]. rewrite Hpub. cbn. exists (<[kid' := k]> {[kid := pk]}).
    split; [rewrite lookup_insert_ne by congruence; apply lookup_singleton_eq|]. split; [|done].
    rewrite map_size_insert_None by (apply lookup_singleton_ne; congruence). rewrite map_size_singleton.
    by apply String.eqb_neq in Hs as ->.
Qed.

(** ** Which environments are accepted *)

(** What a variable may be: independent of how zod goes about it. *)
Fixpoint admits (z : zod) (v : value) : Prop :=
  match z with
  | z_enum l => ∃ s, v = Str s ∧ s ∈ l
  | z_string min => ∃ s, v = Str s ∧ min ≤ js_length s
  | z_url => ∃ s, v = Str s ∧ zod_url s = true
  | z_coerce_int lo hi =>
      ∃ n, match v with
           | Str s => num_to_Z (StringToNumber s) = Some n
           | Num k => num_to_Z (num_of_Z k) = Some n
           | Undefined => False
           end ∧ lo ≤ n ∧ from_option (λ hi, n ≤ hi) True hi
  | z_default z d => admits z (match v with Undefined => d | _ => v end)
  | z_optional z => v = Undefined ∨ admits z v
  | z_refine z f _ => admits z v ∧ ∀ s, v = Str s → f s = true
  | z_preprocess f z => admits z (f v)
  end.

(** Refinements of the schema are refinements of plain texts. *)
Fixpoint plain (z : zod) : Prop :=
  match z with
  | z_refine (z_string _) _ _ => True
  | z_refine _ _ _ => False
  | z_default z _ | z_optional z | z_preprocess _ z => plain z
  | _ => True
  end.

Lemma parse_number_admits lo hi x :
  (parse_number lo hi x).1 = [] ↔ ∃ n, num_to_Z x = Some n ∧ lo ≤ n ∧ from_option (λ hi, n ≤ hi) True hi.
Proof.
  split; [intros Hi; destruct (parse_number_good _ _ _ Hi) as (n & ? & _ & ?); by exists n|].
  intros (n & Hn & Hlo & Hhi). destruct x; try done. unfold parse_number. cbn [fst].
  rewrite bool_decide_eq_false_2 by congruence. rewrite (Z_gt_num_int _ _ _ Hn), (proj2 (Z.ltb_ge _ _)) by lia.
  destruct hi as [hi|]; [|done]. cbn [from_option] in *. by rewrite (Z_lt_num_int _ _ _ Hn), (proj2 (Z.ltb_ge _ _)) by lia.
Qed.

Lemma when_nil_iff b i : when b i = [] ↔ b = false.
Proof. by destruct b. Qed.

Lemma parse_admits z v : plain z → (parse z v).1 = [] ↔ admits z v.
Proof.
  revert v. induction z as [l|min| |lo hi|z IH d|z IH|z IH f m|f z IH]; intros v Hz; cbn [parse admits].
  - destruct v; [|case_bool_decide|]; cbn; naive_solver.
  - destruct v; cbn; [naive_solver| |naive_solver]. rewrite when_nil_iff, Z.ltb_ge. naive_solver.
  - destruct v; cbn; [naive_solver| |naive_solver]. rewrite when_nil_iff, negb_false_iff. naive_solver.
  - destruct v; [cbn; naive_solver|apply parse_number_admits|apply parse_number_admits].
  - by apply IH.
  - destruct v; [cbn; naive_solver|..]; (rewrite IH by done); naive_solver.
  - destruct z; try done. destruct v as [|s|n]; cbn; [naive_solver| |naive_solver].
    split.
    + intros [Hm Hw]%app_nil. rewrite Hm, zod_clean in Hw. apply when_nil_iff in Hm, Hw. zify_bools. cbn in Hw.
      apply negb_false_iff in Hw. split; [eauto|]. by intros s' [= <-].
    + intros [(s' & [= <-] & Hl) Hf]. rewrite (proj2 (when_nil_iff _ _)) by (apply Z.ltb_ge; lia).
      cbn. rewrite zod_clean, Hf by done. done.
  - by apply IH.
Qed.

Lemma envSchema_plain name z : (name, z) ∈ envSchema → plain z.
Proof.
  assert (Forall (λ p, plain p.2) envSchema) as Hp by (unfold envSchema; repeat constructor).
  intros Hin. rewrite Forall_forall in Hp. exact (Hp _ Hin).
Qed.

(** The overlap of two signing keys, read off the variables as they are set. *)
Definition overlap_rule (raw : gmap string string) : Prop :=
  (truthy (raw !! "JWT_PREVIOUS_KID") = None ↔ truthy (raw !! "JWT_PREVIOUS_PUBLIC_KEY") = None) ∧
  (∀ s, truthy (raw !! "JWT_PREVIOUS_KID") = Some s → raw !! "JWT_KID" ≠ Some s).

Lemma output_value raw name z : (name, z) ∈ envSchema →
  get (output raw) name = default Undefined (parse z (raw_value raw name)).2.
Proof.
  intros Hin. exact (get_map (λ n z, default Undefined (parse z (raw_value raw n)).2) _ name z envSchema_names Hin).
Qed.

Lemma cross_rules_overlap raw :
  cross_rules (get (output raw) "JWT_PREVIOUS_KID") (get (output raw) "JWT_PREVIOUS_PUBLIC_KEY") (get (output raw) "JWT_KID") = [] ↔
  overlap_rule raw.
Proof.
  assert (get (output raw) "JWT_PREVIOUS_KID" = from_option Str Undefined (truthy (raw !! "JWT_PREVIOUS_KID"))) as ->.
  { rewrite (output_value raw _ _ (list_elem_of_lookup_2 envSchema 8%nat _ eq_refl)). unfold raw_value.
    destruct (raw !! "JWT_PREVIOUS_KID") as [[|c s]|]; done. }
  assert (get (output raw) "JWT_PREVIOUS_PUBLIC_KEY" = from_option Str Undefined (truthy (raw !! "JWT_PREVIOUS_PUBLIC_KEY"))) as ->.
  { rewrite (output_value raw _ _ (list_elem_of_lookup_2 envSchema 9%nat _ eq_refl)). unfold raw_value.
    destruct (raw !! "JWT_PREVIOUS_PUBLIC_KEY") as [[|c s]|]; done. }
  assert (get (output raw) "JWT_KID" = from_option Str Undefined (raw !! "JWT_KID")) as ->.
  { rewrite (output_value raw _ _ (list_elem_of_lookup_2 envSchema 6%nat _ eq_refl)). unfold raw_value. by destruct (raw !! "JWT_KID"). }
  assert (∀ o, set_value (from_option Str Undefined (truthy o)) = bool_decide (is_Some (truthy o))) as Hset.
  { intros [[|c s]|]; done. }
  unfold cross_rules, overlap_rule. rewrite !Hset.
  destruct (truthy (raw !! "JWT_PREVIOUS_KID")) as [k|], (truthy (raw !! "JWT_PREVIOUS_PUBLIC_KEY")) as [p|]; cbn;
    [|naive_solver..].
  case_bool_decide as Hk; cbn; destruct (raw !! "JWT_KID"); cbn in *; naive_solver.
Qed.

Lemma shape_issues_names raw name :
  name ∈ (shape_issues raw).*1 ↔ ∃ z, (name, z) ∈ envSchema ∧ ¬ admits z (raw_value raw name).
Proof.
  unfold shape_issues. rewrite list_elem_of_fmap. setoid_rewrite list_elem_of_bind. split.
  - intros ([n i] & -> & [n' z] & Hi & Hin). apply list_elem_of_fmap in Hi as (i' & [= -> ->] & Hi).
    exists z. split; [done|]. cbn. rewrite <- parse_admits by (by eapply envSchema_plain). intros Hnil.
    rewrite Hnil in Hi. by apply elem_of_nil in Hi.
  - intros (z & Hin & Ha). rewrite <- parse_admits in Ha by (by eapply envSchema_plain).
    destruct ((parse z (raw_value raw name)).1) as [|i l] eqn:Hp; [done|].
    exists (name, i). split; [done|]. exists (name, z). split; [|done].
    apply list_elem_of_fmap. exists i. split; [done|]. rewrite Hp. apply elem_of_cons. by left.
Qed.

Lemma cross_rules_names prevKid prevPub kid name :
  name ∈ (cross_rules prevKid prevPub kid).*1 → name = "JWT_PREVIOUS_KID".
Proof. unfold cross_rules. destruct (xorb _ _), (_ && _); cbn; set_solver. Qed.

Definition admitted (raw : gmap string string) : Prop :=
  ∀ name z, (name, z) ∈ envSchema → admits z (raw_value raw name).

Lemma admitted_shape raw : admitted raw → shape_issues raw = [].
Proof.
  intros Ha. destruct (shape_issues raw) as [|[n i] l] eqn:Hs; [done|]. exfalso.
  destruct (proj1 (shape_issues_names raw n)) as (z & Hin & Hn); [rewrite Hs; cbn; set_solver|]. by apply Hn, Ha.
Qed.

Lemma safeParse_exact raw :
  match safeParse raw with
  | inr _ => admitted raw ∧ overlap_rule raw
  | inl issues => issues ≠ [] ∧
      (∀ name z, (name, z) ∈ envSchema → ¬ admits z (raw_value raw name) → name ∈ issues.*1) ∧
      (∀ name, name ∈ issues.*1 →
        (∃ z, (name, z) ∈ envSchema ∧ ¬ admits z (raw_value raw name)) ∨ (name = "JWT_PREVIOUS_KID" ∧ ¬ overlap_rule raw)) ∧
      (admitted raw → ¬ overlap_rule raw)
  end.
Proof.
  destruct (safeParse raw) as [issues|e] eqn:Hp.
  - unfold safeParse in Hp. destruct (_ ++ _) as [|i l] eqn:Happ in Hp; [done|]. injection Hp as <-.
    set (more := if zod_continues _ then _ else _) in Happ.
    assert (more = [] ∨ ¬ overlap_rule raw) as Hmore.
    { destruct (decide (more = [])) as [|Hne]; [by left|right]. intros Ho. apply Hne. unfold more.
      destruct (zod_continues _); [by apply cross_rules_overlap|done]. }
    rewrite <- Happ. split_and!.
    + by rewrite Happ.
    + intros name z Hin Ha. rewrite fmap_app. apply elem_of_app. left. apply shape_issues_names. eauto.
    + intros name. rewrite fmap_app, elem_of_app. intros [Hs|Hm]; [left; by apply shape_issues_names|right].
      split; [|by destruct Hmore as [Hm'|]; [rewrite Hm' in Hm; by apply elem_of_nil in Hm|]].
      unfold more in Hm. destruct (zod_continues _); [by eapply cross_rules_names|by apply elem_of_nil in Hm].
    + intros Ha. destruct Hmore as [Hm|]; [|done]. rewrite (admitted_shape _ Ha), Hm in Happ. done.
  - destruct (safeParse_ok _ _ Hp) as (-> & _ & Hc). split; [|by apply cross_rules_overlap].
    unfold safeParse in Hp. destruct (_ ++ _) eqn:Happ in Hp; [|done]. apply app_nil in Happ as [Hs _].
    intros name z Hin. apply parse_admits; [by eapply envSchema_plain|]. by apply shape_nil.
Qed.

(** ** Properties *)

(** C26: validation is exact and complete.  [validate] answers normally for
    exactly the environments in which every variable of the schema is admitted
    and the overlap rule holds; otherwise the one error it throws has a line for
    every variable that is not admitted, and for no other but [JWT_PREVIOUS_KID]
    when the overlap rule is broken. *)
Theorem validate_exact raw :
  match validate raw with
  | Ok e => e = output raw ∧ admitted raw ∧ overlap_rule raw
  | Err err => ¬ (admitted raw ∧ overlap_rule raw) ∧ ∃ issues,
      err = JsError ("Некоректна конфігурація середовища — застосунок не стартує:" +:+ newline +:+ join_lines (detail <$> issues)) ∧
      (∀ name z, (name, z) ∈ envSchema → ¬ admits z (raw_value raw name) → name ∈ issues.*1) ∧
      (∀ name, name ∈ issues.*1 →
        (∃ z, (name, z) ∈ envSchema ∧ ¬ admits z (raw_value raw name)) ∨ (name = "JWT_PREVIOUS_KID" ∧ ¬ overlap_rule raw))
  end.
Proof.
  pose proof (safeParse_exact raw) as He. unfold validate. destruct (safeParse raw) as [issues|e] eqn:Hp.
  - destruct He as (_ & Hall & Honly & Hno). split; [intros [Ha Ho]; by apply Hno|]. by exists issues.
  - split; [|done]. by apply safeParse_ok in Hp as [-> _].
Qed.

(** The types of the configuration.  A validated environment has every
    variable the services read, of its type and within its bounds: ports,
    lifetimes, thresholds, keys on the right curve, and either no previous
    signing key or a complete one under a new id. *)
Theorem validate_typed raw e : validate raw = Ok e → env_ok e.
Proof. intros Hv%validate_ok. by eapply safeParse_env_ok. Qed.

(** A validated configuration starts the token service.  The constructor
    cannot stumble over a key; it fails for a public key that does not belong to
    the private one and for nothing else.  The service it makes signs under a
    key id that names its own public key, which a previous key never shadows,
    knows exactly one more key during an overlap, and issues tokens that live
    between half a minute and an hour. *)
Theorem validated_service_starts raw e now probe :
  validate raw = Ok e → 0 ≤ now < 2 ^ 60 → ∃ sk pk,
    createPrivateKey (fromB64 (str (get e "JWT_PRIVATE_KEY"))) = Some sk ∧
    createPublicKey (fromB64 (str (get e "JWT_PUBLIC_KEY"))) = Some pk ∧
    (key_pair sk pk → ∃ s, TokenService_new (token_config_of e) now probe = Ok s) ∧
    (TokenService_new (token_config_of e) now probe = Err key_mismatch ∨
     ∃ s, TokenService_new (token_config_of e) now probe = Ok s ∧
       kid s ≠ "" ∧ verifyKeys s !! kid s = Some pk ∧
       size (verifyKeys s) = (if set_value (get e "JWT_PREVIOUS_KID") then 2 else 1)%nat ∧
       30 ≤ accessTtlSec s ≤ 3600).
Proof.
  intros Hv Hnow. pose proof (safeParse_env_ok _ _ (validate_ok _ _ Hv)) as He.
  destruct (key_text_private _ (ok_private_key _ He)) as [sk Hsk], (key_text_public _ (ok_public_key _ He)) as [pk Hpk].
  destruct (service_keys e now probe sk pk He Hsk Hpk) as (keys & Hk & Hsize & Hnew). cbv zeta in Hnew.
  set (s := Service _ _ keys _) in Hnew.
  destruct (text_truthy _ (ok_kid _ He)) as [_ Hkid]. destruct (ok_access_ttl _ He) as (ttl & Httl & Hb).
  assert (accessTtlSec s = ttl) as Hs by (unfold s; by rewrite Httl).
  assert (sane_ttl s now) as Hsane.
  { unfold sane_ttl. rewrite Hs. pose proof (Z.div_pos now 1000). pose proof (Z.div_le_upper_bound now 1000 (2 ^ 52)). lia. }
  exists sk, pk. split_and!; try done; rewrite Hnew.
  - intros Hpair. exists s. rewrite (verify_sign s s pk) by done.
    rewrite Hs, (proj2 (Z.ltb_lt _ _)) by lia. done.
  - destruct (verify _ _ _); [by left|right]. exists s. rewrite Hs. split_and!; try done; lia.
Qed.
End env.

(** ** Concrete environments *)

Section env_witnesses.
#[local] Existing Instance fix_jwt.
#[local] Existing Instance fix_jwt_laws.

(** URLs with a scheme; an issue that abandons a value keeps refinements from
    running, as zod 3 does. *)
#[local] Instance fix_zod : Zod := {|
  zod_url s := bool_decide (6 < js_length s);
  zod_message i := match i with custom m => m | invalid_type => "Required" | _ => "Invalid" end;
  zod_continues l := forallb (λ i, negb (bool_decide (i = invalid_type ∨ i = invalid_enum_value))) l;
|}.
#[local] Instance fix_zod_laws : ZodLaws.
Proof. by split. Qed.
#[local] Instance fix_details : KeyDetails :=
  {| private_details _ := ("ec", Some "prime256v1"); public_details _ := ("ec", Some "prime256v1") |}.

Definition raw_env : gmap string string := list_to_map
  [("PORT", "8080"); ("DB_URL", "postgres://db/shop"); ("JWT_PRIVATE_KEY", "key-2"); ("JWT_PUBLIC_KEY", "key-2");
   ("JWT_KID", "k2"); ("REFRESH_TOKEN_PEPPER", "pepper-pepper"); ("JWT_PREVIOUS_KID", "k1");
   ("JWT_PREVIOUS_PUBLIC_KEY", "key-1"); ("STORAGE_ENDPOINT", ""); ("STORAGE_ACCESS_KEY", "a"); ("STORAGE_SECRET_KEY", "s");
   ("STORAGE_BUCKET", "shop"); ("ACCESS_TOKEN_TTL_SEC", " 900 ")].
Definition valid_env : Env := output raw_env.

Lemma raw_env_valid : validate raw_env = Ok valid_env.
Proof. vm_compute. reflexivity. Qed.

Lemma validate_typed_witness : env_ok valid_env ∧ get valid_env "PORT" = Num 8080 ∧ get valid_env "ACCESS_TOKEN_TTL_SEC" = Num 900.
Proof.
  split; [exact (validate_typed raw_env valid_env raw_env_valid)|]. split; vm_compute; reflexivity.
Defined.

Lemma validated_service_starts_witness : ∃ s,
  TokenService_new (token_config_of valid_env) 5000 "probe" = Ok s.
Proof.
  assert (0 ≤ 5000 < 2 ^ 60) as Hnow by (split; [discriminate|reflexivity]).
  destruct (validated_service_starts raw_env valid_env 5000 "probe" raw_env_valid Hnow) as (sk & pk & Hsk & Hpk & Hok & _).
  apply Hok. cbn in Hsk, Hpk. injection Hsk as <-. injection Hpk as <-. reflexivity.
Defined.

(** The message is meant to name every broken variable at once.  With an issue
    that abandons its variable the overlap rule is not looked at: the previous
    key id without its key is only reported on the next start. *)
Definition half_overlap : gmap string string := delete "DB_URL" (delete "JWT_PREVIOUS_PUBLIC_KEY" raw_env).
Theorem overlap_reported_late :
  ¬ overlap_rule half_overlap ∧ safeParse half_overlap = inl [("DB_URL", invalid_type)].
Proof.
  split; [|vm_compute; reflexivity]. intros [[_ Hr] _].
  assert (truthy (half_overlap !! "JWT_PREVIOUS_PUBLIC_KEY") = None) as Hn by (vm_compute; reflexivity).
  assert (truthy (half_overlap !! "JWT_PREVIOUS_KID") = Some "k1") as Hk by (vm_compute; reflexivity).
  rewrite (Hr Hn) in Hk. discriminate Hk.
Qed.

(** That start is refused, with an error that names the missing address. *)
Lemma validate_exact_witness : ∃ issues,
  validate half_overlap = Err (JsError ("Некоректна конфігурація середовища — застосунок не стартує:" +:+ newline +:+ join_lines (detail <$> issues))) ∧
  "DB_URL" ∈ issues.*1 ∧ ¬ (admitted half_overlap ∧ overlap_rule half_overlap).
Proof.
  pose proof (validate_exact half_overlap) as Hx.
  destruct (validate half_overlap) as [e|err] eqn:Hv; [vm_compute in Hv; discriminate Hv|].
  destruct Hx as [Hno (issues & -> & Hall & _)]. exists issues. split; [reflexivity|]. split; [|exact Hno].
  apply (Hall "DB_URL" z_url); [apply (list_elem_of_lookup_2 _ 2); reflexivity|].
  intros (s & Hs & _). vm_compute in Hs. discriminate Hs.
Defined.
End env_witnesses.
