(* ===== verification/Seed.v ===== *)
(** The seed script (src/seed.ts): upserts of users and products, find-or-create
    of orders and their items.  Nothing wraps the whole run in a transaction:
    each [save] commits by itself.

    Ids travel as the values of their [bigint] columns.  The identity sequences
    of users and products are the parameter [next]: an unused value.  Where two
    rows match a [findOne], which one is returned is up to Postgres; here it is
    the first of the table's list. *)
From S2P Require Import Prelude JsNumber Events Schema Sql Fixtures Checkout.
#[local] Open Scope Z_scope.

(** ** Data *)

Record SeedOrderItem := SeedItem { si_sku : string; si_quantity : Z }.
Record SeedOrder := SeedOrderOf { so_buyer : string; so_status : order_status; so_daysOffset : Z; so_items : list SeedOrderItem }.

Definition USERS : list (string * string) :=
  [("anna@example.com", "Анна Коваль"); ("bogdan@example.com", "Богдан Ткаченко"); ("iryna@example.com", "Ірина Мельник");
   ("petro@example.com", "Петро Бондар"); ("olena@example.com", "Олена Шевченко"); ("mykola@example.com", "Микола Іванов")].

Record seed_product := SeedProduct { sp_sku : string; sp_name : string; sp_price : Z; sp_active : bool }.

(** A double quote in a name. *)
Definition inch : string := String (Ascii.ascii_of_nat 34) "".

Definition PRODUCTS : list seed_product :=
  [SeedProduct "SKU-001" "Клавіатура механічна" 1200 true; SeedProduct "SKU-002" "Миша бездротова" 450 true;
   SeedProduct "SKU-003" ("Монітор 27" +:+ inch) 7800 true; SeedProduct "SKU-004" ("Ноутбук 14" +:+ inch) 42000 true;
   SeedProduct "SKU-005" "Хаб USB-C" 890 true; SeedProduct "SKU-006" "Навушники" 1500 false].

(** [new Date('2025-01-01T00:00:00.000Z').getTime()] *)
Definition BASE_DATE : Z := 1735689600000.
Definition DAY_MS : Z := 24 * 60 * 60 * 1000.

Definition ORDERS : list SeedOrder :=
  [SeedOrderOf "anna@example.com" paid 0 [SeedItem "SKU-001" 1; SeedItem "SKU-002" 2];
   SeedOrderOf "bogdan@example.com" pending 1 [SeedItem "SKU-003" 1];
   SeedOrderOf "iryna@example.com" shipped 2 [SeedItem "SKU-004" 1; SeedItem "SKU-005" 3];
   SeedOrderOf "petro@example.com" cancelled 3 [SeedItem "SKU-006" 2];
   SeedOrderOf "olena@example.com" refunded 4 [SeedItem "SKU-001" 2];
   SeedOrderOf "mykola@example.com" paid 5 [SeedItem "SKU-002" 1; SeedItem "SKU-004" 1];
   SeedOrderOf "anna@example.com" shipped 6 [SeedItem "SKU-005" 1];
   SeedOrderOf "bogdan@example.com" pending 7 [SeedItem "SKU-003" 2; SeedItem "SKU-006" 1]].

(** ** Statements *)

(** A number as the value of a [numeric(12,2)] column. *)
Definition numeric_column (x : num) : option Z := num_text x ≫= numeric_of.
(** [column = $1] *)
Definition numeric_eq (c : Z) (x : decimal) : bool := 100 * dcoef x =? c * 10 ^ dscale x.

Section seed.
Context (next : gset Z → Z).

(** One row of INSERT ... ON CONFLICT (key) DO UPDATE SET ... = EXCLUDED... *)
Definition upsert_row {A} (key : A → string) (k : string) (upd : A → A) (new : A) (m : gmap Z A) : gmap Z A :=
  match list_find (λ p, key p.2 = k) (map_to_list m) with
  | Some (_, (i, a)) => <[i := upd a]> m
  | None => <[next (dom m) := new]> m
  end.

(** [userRepo.upsert(USERS, ['email'])]: balance and role are column defaults *)
Definition upsert_user (m : gmap Z user_row) (u : string * string) : gmap Z user_row :=
  upsert_row u_email u.1
    (λ r, UserRow u.1 u.2 (u_balance r) (u_password_hash r) (u_role r)) (UserRow u.1 u.2 100000000 None customer) m.
Definition upsert_users (l : list (string * string)) (d : db) : result unit * db :=
  (Ok tt, set_users (λ m, foldl upsert_user m l) d).

(** [productRepo.upsert(PRODUCTS, ['sku'])]: stock is a column default *)
Definition upsert_product (m : gmap Z product_row) (p : seed_product) : option (gmap Z product_row) :=
  price ← numeric_column (num_of_Z (sp_price p));
  if price <? 0 then None else
  Some (upsert_row p_sku (sp_sku p)
    (λ r, ProductRow (sp_sku p) (sp_name p) price (sp_active p) (p_stock r))
    (ProductRow (sp_sku p) (sp_name p) price (sp_active p) 0) m).
Fixpoint upsert_all (l : list seed_product) (m : gmap Z product_row) : option (gmap Z product_row) :=
  match l with [] => Some m | p :: l => m' ← upsert_product m p; upsert_all l m' end.
Definition upsert_products (l : list seed_product) (d : db) : result unit * db :=
  match upsert_all l (products d) with
  | Some m => (Ok tt, set_products (λ _, m) d)
  | None => (Err (PgError "22003"), d)
  end.

(** [repo.find()] *)
Definition find_users (d : db) : result (list (Z * user_row)) * db := (Ok (map_to_list (users d)), d).
Definition find_products (d : db) : result (list (Z * product_row)) * db := (Ok (map_to_list (products d)), d).

(** [orderRepo.findOne({ where: { buyer: { id }, createdAt } })] *)
Definition find_order (buyer createdAt : Z) (d : db) : result (option Z) * db :=
  (Ok ((λ r, r.2.1) <$> list_find (λ p, o_buyer_id p.2 = buyer ∧ o_created_at p.2 = createdAt) (map_to_list (orders d))), d).

(** INSERT INTO orders (customer_email, status, total_amount, created_at, buyer_id) ... RETURNING id *)
Definition insert_seed_order (buyer : Z) (email : string) (status : order_status) (totalAmount : num) (createdAt : Z) (d : db) :
    result Z * db :=
  match numeric_column totalAmount with
  | None => (Err (PgError "22003"), d)
  | Some total =>
      if total <? 0 then (Err (PgError "23514"), d) else
      match users d !! buyer with
      | None => (Err (PgError "23503"), d)
      | Some _ =>
          let id := seq_orders d + 1 in
          (Ok id, set_orders <[id := OrderRow buyer email status total createdAt]> id d)
      end
  end.

(** [itemRepo.findOne({ where: { order, product, quantity, unitPrice } })] *)
Definition find_item (order product quantity : Z) (unitPrice : num) (d : db) : result bool * db :=
  match num_text unitPrice with
  | None => (Err (PgError "22P02"), d)
  | Some x =>
      (Ok (bool_decide (map_Exists (λ _ it, oi_order_id it = order ∧ oi_product_id it = product ∧
                                            oi_quantity it = quantity ∧ numeric_eq (oi_unit_price it) x = true) (order_items d))), d)
  end.

(** INSERT INTO order_items (quantity, unit_price, order_id, product_id) ... RETURNING id *)
Definition insert_seed_item (order product quantity : Z) (unitPrice : num) (d : db) : result Z * db :=
  match numeric_column unitPrice with
  | None => (Err (PgError "22003"), d)
  | Some price =>
      if (quantity <=? 0) || (price <? 0) then (Err (PgError "23514"), d) else
      if negb (int4 quantity) then (Err (PgError "22003"), d) else
      match orders d !! order, products d !! product with
      | Some _, Some _ =>
          let id := seq_items d + 1 in
          (Ok id, set_order_items <[id := OrderItemRow order product quantity price]> id d)
      | _, _ => (Err (PgError "23503"), d)
      end
  end.

Definition count_orders (d : db) : result nat * db := (Ok (size (orders d)), d).
Definition count_items (d : db) : result nat * db := (Ok (size (order_items d)), d).

(** ** The script *)

(** [repo.save(entity)] of TypeORM, as documented: the statement in a
    transaction of its own. *)
Definition save {A} (stmt : db → result A * db) : sql A :=
  transaction (a ← query stmt; mret (Commit a)).

(** [new Map(rows.map((r) => [key(r), r]))] *)
Definition map_by {A} (key : A → string) (l : list (Z * A)) : gmap string (Z * A) :=
  foldl (λ m p, <[key p.2 := p]> m) ∅ l.

Record line := Line { ln_product : Z; ln_quantity : Z; ln_unitPrice : num }.

Definition order_lines (productBySku : gmap string (Z * product_row)) (items : list SeedOrderItem) : result (list line) :=
  foldr (λ it rest,
    match productBySku !! si_sku it with
    | None => Err (JsError ("Невідомий товар у seed: " +:+ si_sku it))
    | Some (id, p) => rbind rest (λ ls, Ok (Line id (si_quantity it) (num_of_cents (p_price p)) :: ls))
    end) (Ok []) items.

Definition total_amount (ls : list line) : num :=
  foldl (λ sum l, num_add sum (num_mul (ln_unitPrice l) (num_of_Z (ln_quantity l)))) (num_of_Z 0) ls.

Definition seed_line (orderId : Z) (inserted : nat) (l : line) : sql nat :=
  exists_ ← query (find_item orderId (ln_product l) (ln_quantity l) (ln_unitPrice l));
  if (exists_ : bool) then mret inserted
  else save (insert_seed_item orderId (ln_product l) (ln_quantity l) (ln_unitPrice l)) ≫= λ _, mret (S inserted).

Fixpoint seed_lines (orderId : Z) (inserted : nat) (ls : list line) : sql nat :=
  match ls with
  | [] => mret inserted
  | l :: ls => seed_line orderId inserted l ≫= λ inserted, seed_lines orderId inserted ls
  end.

Definition lift {A} (r : result A) : sql A := match r with Ok a => mret a | Err e => throw e end.

Definition seed_order (userByEmail : gmap string (Z * user_row)) (productBySku : gmap string (Z * product_row))
    (n : nat * nat) (so : SeedOrder) : sql (nat * nat) :=
  match userByEmail !! so_buyer so with
  | None => throw (JsError ("Невідомий покупець у seed: " +:+ so_buyer so))
  | Some (buyer, u) =>
      let createdAt := BASE_DATE + so_daysOffset so * DAY_MS in
      lines ← lift (order_lines productBySku (so_items so));
      let totalAmount := total_amount lines in
      found ← query (find_order buyer createdAt);
      '(orderId, insertedOrders) ←
        match (found : option Z) with
        | Some id => mret (id, n.1)
        | None => save (insert_seed_order buyer (u_email u) (so_status so) totalAmount createdAt) ≫= λ id, mret (id, S n.1)
        end;
      insertedItems ← seed_lines orderId n.2 lines;
      mret (insertedOrders, insertedItems)
  end.

Fixpoint seed_orders (userByEmail : gmap string (Z * user_row)) (productBySku : gmap string (Z * product_row))
    (n : nat * nat) (l : list SeedOrder) : sql (nat * nat) :=
  match l with
  | [] => mret n
  | so :: l => seed_order userByEmail productBySku n so ≫= λ n, seed_orders userByEmail productBySku n l
  end.

(** What [main] prints: users, products, new and all orders, new and all items. *)
Record seed_report := Report { rp_users : nat; rp_products : nat; rp_new_orders : nat; rp_orders : nat; rp_new_items : nat; rp_items : nat }.

Definition main : sql seed_report :=
  _ ← query (upsert_users USERS);
  _ ← query (upsert_products PRODUCTS);
  us ← query find_users;
  let userByEmail := map_by u_email us in
  ps ← query find_products;
  let productBySku := map_by p_sku ps in
  '(insertedOrders, insertedItems) ← seed_orders userByEmail productBySku (0, 0)%nat ORDERS;
  orderCount ← query count_orders;
  itemCount ← query count_items;
  mret (Report (size userByEmail) (size productBySku) insertedOrders orderCount insertedItems itemCount).
End seed.

Definition fix_next (X : gset Z) : Z := fresh X.
Example seed_twice :
  let r1 := main fix_next no_fault 0%nat empty_db in
  let r2 := main fix_next no_fault 0%nat r1.2 in
  r1.1.1 = Ok (Report 6 6 8 8 12 12) ∧ r2.1.1 = Ok (Report 6 6 0 8 0 12).
Proof. vm_compute. done. Qed.

(** ** Triples *)

(** A statement in a transaction of its own. *)
Lemma triple_save {A} (P : db → Prop) (stmt : db → result A * db) (Q : A → db → Prop) (E : db → Prop) :
  (∀ d, P d → ∃ a, (stmt d).1 = Ok a ∧ Q a (stmt d).2 ∧ E (stmt d).2 ∧ E d ∧ E (rollback d (stmt d).2)) →
  triple P (save stmt) Q E.
Proof.
  intros Hs φ t d r t' d' HP Hr. destruct (Hs d HP) as (a & Ha & HQ & HE & HE' & HE'').
  assert (E (rollback d d)) as HEr by (by destruct d).
  unfold save, transaction in Hr. destruct (φ t) as [f|] eqn:Hf.
  { injection Hr as <- <- <-. split; [exists t; congruence|done]. }
  unfold mbind, sql_bind, query in Hr. destruct (stmt d) as [r0 d0]. cbn in *. subst r0.
  destruct (φ (S t)) as [f|] eqn:Hf1.
  { injection Hr as <- <- <-. split; [exists (S t); congruence|]. by destruct (f_applied f). }
  cbn in Hr. destruct (φ (S (S t))) as [f|] eqn:Hf2; injection Hr as <- <- <-; [|done].
  split; [exists (S (S t)); congruence|]. by destruct (f_applied f).
Qed.

(** ** Upserts *)

Section upserts.
Context (next : gset Z → Z) (next_fresh : ∀ X, next X ∉ X) {A : Type} (key : A → string).

Notation upsert := (upsert_row next key).
Definition keyed_once (m : gmap Z A) : Prop := unique (λ a, Some (key a)) m.
Definition has (m : gmap Z A) (k : string) (P : A → Prop) : Prop := ∃ i a, m !! i = Some a ∧ key a = k ∧ P a.

(** An upsert changes the row of the key, or adds one under a new id. *)
Lemma upsert_cases k upd new m :
  (∃ i a, m !! i = Some a ∧ key a = k ∧ upsert k upd new m = <[i := upd a]> m) ∨
  (∃ i, m !! i = None ∧ (∀ j a, m !! j = Some a → key a ≠ k) ∧ upsert k upd new m = <[i := new]> m).
Proof.
  unfold upsert_row. destruct (list_find _ _) as [[n [i a]]|] eqn:Hf.
  - apply list_find_Some in Hf as (Hl & Hk & _). left. exists i, a. split; [|done].
    apply elem_of_map_to_list. by eapply list_elem_of_lookup_2.
  - apply list_find_None in Hf. right. exists (next (dom m)). split; [by apply not_elem_of_dom|]. split; [|done].
    intros j a Hj. rewrite Forall_forall in Hf. apply (Hf (j, a)). by apply elem_of_map_to_list.
Qed.

Context (k : string) (upd : A → A) (new : A).
Context (Hupd : ∀ a, key (upd a) = k) (Hnew : key new = k).

Lemma upsert_keyed_once m : keyed_once m → keyed_once (upsert k upd new m).
Proof.
  intros Hu. destruct (upsert_cases k upd new m) as [(i & a & Hi & Hk & ->)|(i & Hi & Hno & ->)];
    intros x y b c s; rewrite !lookup_insert; repeat case_decide; intros; simplify_eq/=; try done.
  - eapply Hu; [exact Hi|done|done|]. congruence.
  - eapply Hu; [done|exact Hi|done|]. congruence.
  - eapply Hu; [eassumption|eassumption|reflexivity|congruence].
  - exfalso. eapply Hno; [done|]. congruence.
  - exfalso. eapply Hno; [done|]. congruence.
  - eapply Hu; [eassumption|eassumption|reflexivity|congruence].
Qed.

Lemma upsert_has (P : A → Prop) m : (∀ a, P (upd a)) → P new → has (upsert k upd new m) k P.
Proof.
  intros HP1 HP2. destruct (upsert_cases k upd new m) as [(i & a & _ & _ & ->)|(i & _ & _ & ->)];
    exists i; rewrite lookup_insert_eq; eauto.
Qed.

Lemma upsert_keeps (P : A → Prop) k' m : k' ≠ k → has m k' P → has (upsert k upd new m) k' P.
Proof.
  intros Hne (j & b & Hj & Hkb & HPb). exists j, b. split; [|done].
  destruct (upsert_cases k upd new m) as [(i & a & Hi & Hka & ->)|(i & Hi & _ & ->)];
    rewrite lookup_insert_ne; try done; intros ->; congruence.
Qed.

Lemma upsert_again (P : A → Prop) m :
  keyed_once m → has m k P → (∀ a, key a = k → P a → upd a = a) → upsert k upd new m = m.
Proof.
  intros Hu (j & b & Hj & Hkb & HPb) Hid.
  destruct (upsert_cases k upd new m) as [(i & a & Hi & Hka & ->)|(i & _ & Hno & ->)].
  - assert (j = i) as -> by (eapply (Hu j i b a k); congruence). assert (a = b) as -> by congruence.
    rewrite Hid by done. by apply insert_id.
  - by destruct (Hno _ _ Hj).
Qed.

(** Every row keeps its id. *)
Lemma upsert_dom m : dom m ⊆ dom (upsert k upd new m).
Proof. destruct (upsert_cases k upd new m) as [(i & a & _ & _ & ->)|(i & _ & _ & ->)]; set_solver. Qed.
End upserts.

(** ** What the seed is about, and what it keeps *)

Definition stamp (so : SeedOrder) : Z := BASE_DATE + so_daysOffset so * DAY_MS.

(** The tables as the script may find them: natural keys are keys, no buyer has
    two orders stamped with the same seed date, sequences are ahead. *)
Record seed_ok (d : db) : Prop := {
  sok_emails : unique (λ u, Some (u_email u)) (users d);
  sok_skus : unique (λ p, Some (p_sku p)) (products d);
  sok_stamps : ∀ i j a b, orders d !! i = Some a → orders d !! j = Some b → o_buyer_id a = o_buyer_id b →
    o_created_at a = o_created_at b → o_created_at a ∈ stamp <$> ORDERS → i = j;
  sok_orders : ∀ i, is_Some (orders d !! i) → i ≤ seq_orders d;
  sok_items : ∀ i, is_Some (order_items d !! i) → i ≤ seq_items d;
}.

(** The price of a product of the seed, and the total of an order, in hundredths. *)
Definition seed_price (sku : string) : Z := 100 * default 0 ((λ r, sp_price r.2) <$> list_find (λ p, sp_sku p = sku) PRODUCTS).
Definition seed_cents (items : list SeedOrderItem) : Z := sumZ (λ it, seed_price (si_sku it) * si_quantity it) items.

Definition seeded_user (u : user_row) (name : string) : user_row := UserRow (u_email u) name (u_balance u) (u_password_hash u) (u_role u).
Definition seeded_product (sp : seed_product) (stock : Z) : product_row := ProductRow (sp_sku sp) (sp_name sp) (100 * sp_price sp) (sp_active sp) stock.

(** Order [oid] stands for the seed order [so]: the buyer and the date. *)
Definition placed (so : SeedOrder) (oid : Z) (d : db) : Prop := ∃ o u,
  orders d !! oid = Some o ∧ users d !! o_buyer_id o = Some u ∧ u_email u = so_buyer so ∧ o_created_at o = stamp so.

(** The rows the seed itself writes, every column of them. *)
Definition seed_order_row (d : db) (o : order_row) : Prop := ∃ so u, so ∈ ORDERS ∧ users d !! o_buyer_id o = Some u ∧ u_email u = so_buyer so ∧
  o = OrderRow (o_buyer_id o) (so_buyer so) (so_status so) (seed_cents (so_items so)) (stamp so).
Definition seed_item_row (d : db) (i : order_item_row) : Prop := ∃ so it p, so ∈ ORDERS ∧ it ∈ so_items so ∧ placed so (oi_order_id i) d ∧
  products d !! oi_product_id i = Some p ∧ p_sku p = si_sku it ∧
  i = OrderItemRow (oi_order_id i) (oi_product_id i) (si_quantity it) (seed_price (si_sku it)).

(** The orders and items of [d'] that [d] does not have are of the seed. *)
Definition additions (d d' : db) : Prop :=
  (∀ i o, orders d' !! i = Some o → orders d !! i = None → seed_order_row d' o) ∧
  (∀ i it, order_items d' !! i = Some it → order_items d !! i = None → seed_item_row d' it).

(** No order and no item is touched; of a user only the name, of a product only
    name, price and activity may change, and only to what the seed says of that
    e-mail or sku; what is new is a row of the seed, every column of it. *)
Record kept (d d' : db) : Prop := {
  kept_users : ∀ i u, users d !! i = Some u → ∃ u', users d' !! i = Some u' ∧
    (u' = u ∨ ∃ name, (u_email u, name) ∈ USERS ∧ u' = seeded_user u name);
  kept_products : ∀ i p, products d !! i = Some p → ∃ p', products d' !! i = Some p' ∧
    (p' = p ∨ ∃ sp, sp ∈ PRODUCTS ∧ sp_sku sp = p_sku p ∧ p' = seeded_product sp (p_stock p));
  kept_orders : orders d ⊆ orders d';
  kept_items : order_items d ⊆ order_items d';
  new_users : ∀ i u, users d' !! i = Some u → users d !! i = None →
    ∃ name, (u_email u, name) ∈ USERS ∧ u = UserRow (u_email u) name 100000000 None customer;
  new_products : ∀ i p, products d' !! i = Some p → products d !! i = None → ∃ sp, sp ∈ PRODUCTS ∧ p = seeded_product sp 0;
  new_rows : additions d d';
}.

(** Rows of the seed stay rows of the seed. *)
Record keyed_le (d d' : db) : Prop := {
  kl_users : ∀ i u, users d !! i = Some u → ∃ u', users d' !! i = Some u' ∧ u_email u' = u_email u;
  kl_products : ∀ i p, products d !! i = Some p → ∃ p', products d' !! i = Some p' ∧ p_sku p' = p_sku p;
  kl_orders : orders d ⊆ orders d';
  kl_items : order_items d ⊆ order_items d';
}.
Lemma kept_keyed d d' : kept d d' → keyed_le d d'.
Proof.
  intros [Hu Hp Ho Hi _ _ _]. split; try done.
  - intros i u Hiu. destruct (Hu i u Hiu) as (u' & Hu' & [->|(name & _ & ->)]); eauto.
  - intros i p Hip. destruct (Hp i p Hip) as (p' & Hp' & [->|(sp & _ & Hs & ->)]); eauto.
Qed.
Lemma placed_keyed d d' so oid : keyed_le d d' → placed so oid d → placed so oid d'.
Proof.
  intros [Hu _ Ho _] (o & u & Hoo & Hou & He & Hs). destruct (Hu _ _ Hou) as (u' & Hu' & He').
  exists o, u'. split_and!; [by eapply lookup_weaken|done|congruence|done].
Qed.
Lemma order_row_keyed d d' o : keyed_le d d' → seed_order_row d o → seed_order_row d' o.
Proof. intros [Hu _ _ _] (so & u & Hso & Hou & He & Hrow). destruct (Hu _ _ Hou) as (u' & Hu' & He'). exists so, u'. split_and!; congruence. Qed.
Lemma item_row_keyed d d' i : keyed_le d d' → seed_item_row d i → seed_item_row d' i.
Proof.
  intros Hle (so & it & p & Hso & Hit & Hpl & Hp & Hs & Hrow). destruct (kl_products _ _ Hle _ _ Hp) as (p' & Hp' & Hs').
  exists so, it, p'. split_and!; try done; [by eapply placed_keyed|congruence].
Qed.
Lemma additions_trans d1 d2 d3 : keyed_le d2 d3 → additions d1 d2 → additions d2 d3 → additions d1 d3.
Proof.
  intros Hle [Ho1 Hi1] [Ho2 Hi2]. split.
  - intros i o Ho Hn. destruct (orders d2 !! i) as [o2|] eqn:H2; [|by eapply Ho2].
    pose proof (lookup_weaken _ _ _ _ H2 (kl_orders _ _ Hle)). assert (o2 = o) as -> by congruence. eapply order_row_keyed; [done|by eapply Ho1].
  - intros i o Ho Hn. destruct (order_items d2 !! i) as [o2|] eqn:H2; [|by eapply Hi2].
    pose proof (lookup_weaken _ _ _ _ H2 (kl_items _ _ Hle)). assert (o2 = o) as -> by congruence. eapply item_row_keyed; [done|by eapply Hi1].
Qed.
Lemma additions_none d d' : orders d' = orders d → order_items d' = order_items d → additions d d'.
Proof. intros Ho Hi. split; intros; congruence. Qed.

#[export] Instance kept_preorder : PreOrder kept.
Proof.
  split.
  - intros d. split; try done; [eauto|eauto|congruence|congruence|by apply additions_none].
  - intros d1 d2 d3 H12 H23. pose proof (kept_keyed _ _ H23) as Hle. pose proof H12 as [Hu1 Hp1 Ho1 Hi1 Nu1 Np1 Nr1]. pose proof H23 as [Hu2 Hp2 Ho2 Hi2 Nu2 Np2 Nr2].
    split; [| |by etrans|by etrans| | |by eapply additions_trans].
    + intros i u Hu. destruct (Hu1 _ _ Hu) as (u2 & H2 & C2), (Hu2 _ _ H2) as (u3 & H3 & C3). exists u3. split; [done|].
      destruct C2 as [->|(n2 & Hn2 & ->)], C3 as [->|(n3 & Hn3 & ->)]; eauto.
    + intros i p Hp. destruct (Hp1 _ _ Hp) as (p2 & H2 & C2), (Hp2 _ _ H2) as (p3 & H3 & C3). exists p3. split; [done|].
      destruct C2 as [->|(s2 & Hs2 & Hk2 & ->)], C3 as [->|(s3 & Hs3 & Hk3 & ->)]; eauto. right. exists s3. cbn in Hk3. split_and!; [done|congruence|done].
    + intros i u3 H3 Hn. destruct (users d2 !! i) as [u2|] eqn:H2; [|by eapply Nu2].
      destruct (Nu1 _ _ H2 Hn) as (n2 & Hn2 & Hu2'), (Hu2 _ _ H2) as (u3' & H3' & C3). assert (u3' = u3) as -> by congruence.
      destruct C3 as [->|(n3 & Hn3 & ->)]; [eauto|]. exists n3. split; [done|]. by rewrite Hu2'.
    + intros i p3 H3 Hn. destruct (products d2 !! i) as [p2|] eqn:H2; [|by eapply Np2].
      destruct (Np1 _ _ H2 Hn) as (s2 & Hs2 & ->), (Hp2 _ _ H2) as (p3' & H3' & C3). assert (p3' = p3) as -> by congruence.
      destruct C3 as [->|(s3 & Hs3 & _ & ->)]; [eauto|]. by exists s3.
Qed.

(** The loop only adds orders and items of the seed. *)
Definition grow (d d' : db) : Prop :=
  users d' = users d ∧ products d' = products d ∧ orders d ⊆ orders d' ∧ order_items d ⊆ order_items d' ∧ additions d d'.
Lemma grow_keyed d d' : grow d d' → keyed_le d d'.
Proof. intros (Hu & Hp & Ho & Hi & _). split; rewrite ?Hu, ?Hp; eauto. Qed.
#[export] Instance grow_preorder : PreOrder grow.
Proof.
  split; [intros d; split_and!; try done; by apply additions_none|]. intros d1 d2 d3 (?&?&?&?&?) Hg. pose proof (grow_keyed _ _ Hg).
  destruct Hg as (?&?&?&?&?). split_and!; [by etrans..|by eapply additions_trans].
Qed.
Lemma grow_kept d d' : grow d d' → kept d d'.
Proof. intros (Hu & Hp & Ho & Hi & Ha). split; rewrite ?Hu, ?Hp; try done; [eauto|eauto|congruence|congruence]. Qed.

(** The rows of one seed order are there. *)
Definition item_done (d : db) (oid : Z) (it : SeedOrderItem) : Prop :=
  ∃ pid p iid i, products d !! pid = Some p ∧ p_sku p = si_sku it ∧ order_items d !! iid = Some i ∧
    oi_order_id i = oid ∧ oi_product_id i = pid ∧ oi_quantity i = si_quantity it ∧ oi_unit_price i = p_price p.
Definition order_done (d : db) (so : SeedOrder) : Prop :=
  ∃ b u oid o, users d !! b = Some u ∧ u_email u = so_buyer so ∧ orders d !! oid = Some o ∧
    o_buyer_id o = b ∧ o_created_at o = stamp so ∧ Forall (item_done d oid) (so_items so).

Lemma item_done_grow d d' oid it : grow d d' → item_done d oid it → item_done d' oid it.
Proof.
  intros (_ & Hp & _ & Hi & _) (pid & p & iid & i & ? & ? & Hl & ?). exists pid, p, iid, i. rewrite Hp.
  split_and!; try done; [by eapply lookup_weaken|tauto..].
Qed.
Lemma order_done_grow d d' so : grow d d' → order_done d so → order_done d' so.
Proof.
  intros Hg (b & u & oid & o & ? & ? & Ho & ? & ? & Hit). pose proof Hg as (Hu & _ & Hos & _ & _).
  exists b, u, oid, o. rewrite Hu. split_and!; try done; [by eapply lookup_weaken|].
  eapply Forall_impl; [exact Hit|]. intros it. by apply item_done_grow.
Qed.

Definition users_seeded (m : gmap Z user_row) : Prop := Forall (λ u, has u_email m u.1 (λ r, u_full_name r = u.2)) USERS.
Definition product_as (p : seed_product) (r : product_row) : Prop :=
  p_name r = sp_name p ∧ p_price r = 100 * sp_price p ∧ p_is_active r = sp_active p.
Definition products_seeded (m : gmap Z product_row) : Prop := Forall (λ p, has p_sku m (sp_sku p) (product_as p)) PRODUCTS.

(** Everything the script is to put in place. *)
Record seeded (d : db) : Prop := {
  sd_users : users_seeded (users d);
  sd_products : products_seeded (products d);
  sd_orders : Forall (order_done d) ORDERS;
}.

(** ** The constants of the script, computed *)

Definition seed_total (items : list SeedOrderItem) : num :=
  foldl (λ sum it, num_add sum (num_mul (num_of_cents (seed_price (si_sku it))) (num_of_Z (si_quantity it)))) (num_of_Z 0) items.

Lemma USERS_once : NoDup USERS.*1.
Proof. apply (bool_decide_unpack _). vm_compute. exact Logic.I. Qed.
Lemma PRODUCTS_once : NoDup (sp_sku <$> PRODUCTS).
Proof. apply (bool_decide_unpack _). vm_compute. exact Logic.I. Qed.
Lemma PRODUCTS_prices : Forall (λ p, numeric_column (num_of_Z (sp_price p)) = Some (100 * sp_price p) ∧ 0 ≤ 100 * sp_price p) PRODUCTS.
Proof. apply (bool_decide_unpack _). vm_compute. exact Logic.I. Qed.
Lemma ORDERS_buyers : Forall (λ so, so_buyer so ∈ USERS.*1) ORDERS.
Proof. apply (bool_decide_unpack _). vm_compute. exact Logic.I. Qed.
(** The sum of the script's floats is the total to the cent. *)
Lemma ORDERS_totals : Forall (λ so, numeric_column (seed_total (so_items so)) = Some (seed_cents (so_items so)) ∧ 0 ≤ seed_cents (so_items so)) ORDERS.
Proof. apply (bool_decide_unpack _). vm_compute. exact Logic.I. Qed.

Definition item_fits (it : SeedOrderItem) : Prop :=
  let x := num_of_cents (seed_price (si_sku it)) in
  (∃ p, p ∈ PRODUCTS ∧ sp_sku p = si_sku it) ∧ 0 < si_quantity it ∧ int4 (si_quantity it) = true ∧ 0 ≤ seed_price (si_sku it) ∧
  numeric_column x = Some (seed_price (si_sku it)) ∧
  ∃ t, num_text x = Some t ∧ ∀ c, numeric_eq c t = true ↔ c = seed_price (si_sku it).

Definition item_check (it : SeedOrderItem) : bool :=
  let c := seed_price (si_sku it) in
  let x := num_of_cents c in
  bool_decide (si_sku it ∈ sp_sku <$> PRODUCTS) && (0 <? si_quantity it) && int4 (si_quantity it) && (0 <=? c) &&
  bool_decide (numeric_column x = Some c) &&
  match num_text x with Some t => (0 <=? dscale t) && numeric_eq c t | None => false end.

Lemma numeric_eq_unique c c' t : 0 ≤ dscale t → numeric_eq c t = true → numeric_eq c' t = true ↔ c' = c.
Proof.
  unfold numeric_eq. intros Hs Hc. rewrite !Z.eqb_eq in *. pose proof (Z.pow_pos_nonneg 10 (dscale t)). nia.
Qed.

Lemma item_check_fits it : item_check it = true → item_fits it.
Proof.
  unfold item_check, item_fits. cbv zeta. destruct (num_text _) as [t|]; [|by rewrite andb_false_r].
  rewrite !andb_true_iff, !bool_decide_eq_true, Z.ltb_lt, !Z.leb_le.
  intros [[[[[Hp Hq] Hi] Hc] Hn] [Hs He]]. apply list_elem_of_fmap in Hp as (p & Hsku & Hp).
  split_and!; try done; [by exists p|]. exists t. split; [done|]. intros c. by apply numeric_eq_unique.
Qed.

Lemma ORDERS_items : Forall (λ so, Forall item_fits (so_items so)) ORDERS.
Proof.
  assert (forallb (λ so, forallb item_check (so_items so)) ORDERS = true) as Hc by (vm_compute; reflexivity).
  apply Forall_forall. intros so Hso. apply Forall_forall. intros it Hit. apply item_check_fits.
  apply list_elem_of_In in Hso, Hit. rewrite List.forallb_forall in Hc. specialize (Hc _ Hso).
  rewrite List.forallb_forall in Hc. by apply Hc.
Qed.

Lemma seed_price_of p : p ∈ PRODUCTS → seed_price (sp_sku p) = 100 * sp_price p.
Proof.
  assert (Forall (λ p, seed_price (sp_sku p) = 100 * sp_price p) PRODUCTS) as Hf
    by (apply (bool_decide_unpack _); vm_compute; exact Logic.I).
  rewrite Forall_forall in Hf. auto.
Qed.

(** ** The upserts of the script *)

Section script.
Context (next : gset Z → Z) (next_fresh : ∀ X, next X ∉ X).

Lemma upsert_users_seeded l : ∀ done m,
  NoDup (done ++ l).*1 → keyed_once u_email m → Forall (λ u, has u_email m u.1 (λ r, u_full_name r = u.2)) done →
  keyed_once u_email (foldl (upsert_user next) m l) ∧
  Forall (λ u, has u_email (foldl (upsert_user next) m l) u.1 (λ r, u_full_name r = u.2)) (done ++ l).
Proof.
  induction l as [|u l IH]; intros dn m Hnd Hm Hd; [by rewrite app_nil_r|]. cbn [foldl].
  specialize (IH (dn ++ [u]) (upsert_user next m u)). rewrite <- app_assoc in IH. apply IH; [done|by apply upsert_keyed_once|].
  apply Forall_app. split; [|apply Forall_singleton; by apply upsert_has].
  rewrite Forall_forall in *. intros u' Hu'. apply upsert_keeps; [done|done| |by apply Hd].
  intros He. rewrite fmap_app, NoDup_app in Hnd. destruct Hnd as (_ & Hdis & _).
  apply (Hdis u'.1); [by apply list_elem_of_fmap_2|]. cbn. rewrite He. set_solver.
Qed.

Lemma upsert_users_again l m :
  keyed_once u_email m → Forall (λ u, has u_email m u.1 (λ r, u_full_name r = u.2)) l → foldl (upsert_user next) m l = m.
Proof.
  intros Hm. induction 1 as [|u l Hu _ IH]; [done|]. cbn [foldl].
  assert (upsert_user next m u = m) as ->; [|exact IH].
  eapply upsert_again; [done|done|exact Hu|]. intros [] <- <-. done.
Qed.

Lemma upsert_products_seeded l : ∀ done m,
  Forall (λ p, numeric_column (num_of_Z (sp_price p)) = Some (100 * sp_price p) ∧ 0 ≤ 100 * sp_price p) l →
  NoDup (sp_sku <$> done ++ l) → keyed_once p_sku m → Forall (λ p, has p_sku m (sp_sku p) (product_as p)) done →
  ∃ m', upsert_all next l m = Some m' ∧ keyed_once p_sku m' ∧
    Forall (λ p, has p_sku m' (sp_sku p) (product_as p)) (done ++ l).
Proof.
  induction l as [|p l IH]; intros dn m Hl Hnd Hm Hd; [exists m; by rewrite app_nil_r|].
  apply Forall_cons in Hl as [[Hp H0] Hl]. cbn [upsert_all]. unfold upsert_product. rewrite Hp. cbn [mbind option_bind].
  rewrite (proj2 (Z.ltb_ge _ _)) by done.
  set (m1 := upsert_row _ _ _ _ _ m). specialize (IH (dn ++ [p]) m1). rewrite <- app_assoc in IH.
  apply IH; [done|done|by apply upsert_keyed_once|].
  apply Forall_app. split; [|apply Forall_singleton; by apply upsert_has].
  rewrite Forall_forall in *. intros p' Hp'. apply upsert_keeps; [done|done| |by apply Hd].
  intros He. rewrite fmap_app, NoDup_app in Hnd. destruct Hnd as (_ & Hdis & _).
  apply (Hdis (sp_sku p')); [by apply list_elem_of_fmap_2|]. cbn. rewrite He. set_solver.
Qed.

Lemma upsert_products_again l m :
  Forall (λ p, numeric_column (num_of_Z (sp_price p)) = Some (100 * sp_price p) ∧ 0 ≤ 100 * sp_price p) l →
  keyed_once p_sku m → Forall (λ p, has p_sku m (sp_sku p) (product_as p)) l → upsert_all next l m = Some m.
Proof.
  intros Hl Hm. induction l as [|p l IH]; intros Hd; [done|].
  apply Forall_cons in Hl as [[Hp H0] Hl]. apply Forall_cons in Hd as [Hd1 Hd].
  cbn [upsert_all]. unfold upsert_product. rewrite Hp. cbn [mbind option_bind]. rewrite (proj2 (Z.ltb_ge _ _)) by done.
  erewrite upsert_again; [by apply IH|done|done|exact Hd1|]. intros [] <- (<- & <- & <-). done.
Qed.

(** Upserts keep everything else about a row, and what they add is the seed's. *)
Lemma upsert_users_kept l m i u : m !! i = Some u →
  ∃ u', foldl (upsert_user next) m l !! i = Some u' ∧ (u' = u ∨ ∃ name, (u_email u, name) ∈ l ∧ u' = seeded_user u name).
Proof.
  revert m u. induction l as [|x l IH]; intros m u Hi; [eauto|]. cbn [foldl].
  destruct (upsert_cases next next_fresh u_email x.1
    (λ r, UserRow x.1 x.2 (u_balance r) (u_password_hash r) (u_role r)) (UserRow x.1 x.2 100000000 None customer) m)
    as [(j & a & Hj & Hk & Hu)|(j & Hj & _ & Hu)]; unfold upsert_user at 2; rewrite Hu.
  - destruct (decide (i = j)) as [->|Hne].
    + assert (a = u) as -> by congruence.
      destruct (IH (<[j := UserRow x.1 x.2 (u_balance u) (u_password_hash u) (u_role u)]> m)
        (UserRow x.1 x.2 (u_balance u) (u_password_hash u) (u_role u))) as (u' & Hn & Hc); [apply lookup_insert_eq|].
      exists u'. split; [exact Hn|]. right. destruct x as [e n]. cbn in Hk, Hc. subst e.
      destruct Hc as [->|(name & Hin & ->)]; eexists; (split; [|reflexivity]); [left|by right].
    + destruct (IH (<[j := UserRow x.1 x.2 (u_balance a) (u_password_hash a) (u_role a)]> m) u) as (u' & Hn & Hc); [by rewrite lookup_insert_ne|].
      exists u'. split; [exact Hn|]. destruct Hc as [->|(name & Hin & ->)]; [by left|right]. exists name. split; [by right|done].
  - destruct (IH (<[j := UserRow x.1 x.2 100000000 None customer]> m) u) as (u' & Hn & Hc); [rewrite lookup_insert_ne; [done|congruence]|].
    exists u'. split; [exact Hn|]. destruct Hc as [->|(name & Hin & ->)]; [by left|right]. exists name. split; [by right|done].
Qed.

Lemma upsert_users_new l m i u : foldl (upsert_user next) m l !! i = Some u → m !! i = None →
  ∃ name, (u_email u, name) ∈ l ∧ u = UserRow (u_email u) name 100000000 None customer.
Proof.
  revert m. induction l as [|x l IH]; intros m Hi Hn; [cbn in Hi; congruence|]. cbn [foldl] in Hi.
  destruct (upsert_cases next next_fresh u_email x.1
    (λ r, UserRow x.1 x.2 (u_balance r) (u_password_hash r) (u_role r)) (UserRow x.1 x.2 100000000 None customer) m)
    as [(j & a & Hj & Hk & Hu)|(j & Hj & _ & Hu)]; unfold upsert_user at 2 in Hi; rewrite Hu in Hi.
  - destruct (IH _ Hi) as (name & Hin & Hrow); [rewrite lookup_insert_ne; [done|congruence]|]. exists name. split; [by right|done].
  - destruct (decide (j = i)) as [->|Hne].
    + destruct (upsert_users_kept l _ i _ (lookup_insert_eq m i (UserRow x.1 x.2 100000000 None customer))) as (u' & Hu' & Hc).
      assert (u' = u) as -> by congruence. destruct x as [e n]. cbn in Hc.
      destruct Hc as [->|(name & Hin & ->)]; eexists; (split; [|reflexivity]); [left|by right].
    + destruct (IH _ Hi) as (name & Hin & Hrow); [by rewrite lookup_insert_ne|]. exists name. split; [by right|done].
Qed.

Definition priced (p : seed_product) : Prop := numeric_column (num_of_Z (sp_price p)) = Some (100 * sp_price p) ∧ 0 ≤ 100 * sp_price p.

Lemma upsert_product_run p m : priced p → upsert_product next m p =
  Some (upsert_row next p_sku (sp_sku p) (λ r, seeded_product p (p_stock r)) (seeded_product p 0) m).
Proof. intros [Hp H0]. unfold upsert_product. rewrite Hp. cbn [mbind option_bind]. by rewrite (proj2 (Z.ltb_ge _ _)). Qed.

Lemma upsert_products_kept l m m' i p : Forall priced l → upsert_all next l m = Some m' → m !! i = Some p →
  ∃ p', m' !! i = Some p' ∧ (p' = p ∨ ∃ sp, sp ∈ l ∧ sp_sku sp = p_sku p ∧ p' = seeded_product sp (p_stock p)).
Proof.
  intros Hl. revert m p. induction Hl as [|x l Hx _ IH]; intros m p Hu Hi; [injection Hu as <-; eauto|].
  cbn [upsert_all] in Hu. rewrite (upsert_product_run _ _ Hx) in Hu. cbn [mbind option_bind] in Hu.
  destruct (upsert_cases next next_fresh p_sku (sp_sku x) (λ r, seeded_product x (p_stock r)) (seeded_product x 0) m)
    as [(j & a & Hj & Hk & Hrow)|(j & Hj & _ & Hrow)]; rewrite Hrow in Hu.
  - destruct (decide (i = j)) as [->|Hne].
    + assert (a = p) as -> by congruence. destruct (IH _ (seeded_product x (p_stock p)) Hu) as (p' & Hn & Hc); [apply lookup_insert_eq|].
      exists p'. split; [exact Hn|]. right. cbn [p_sku seeded_product] in Hc. destruct Hc as [->|(sp & Hin & Hs & ->)]; [exists x|exists sp]; (split_and!; [|congruence|done]); [left|by right].
    + destruct (IH _ p Hu) as (p' & Hn & Hc); [by rewrite lookup_insert_ne|]. exists p'. split; [exact Hn|].
      destruct Hc as [->|(sp & Hin & Hs & ->)]; [by left|right; exists sp; split_and!; [by right|done..]].
  - destruct (IH _ p Hu) as (p' & Hn & Hc); [rewrite lookup_insert_ne; [done|congruence]|]. exists p'. split; [exact Hn|].
    destruct Hc as [->|(sp & Hin & Hs & ->)]; [by left|right; exists sp; split_and!; [by right|done..]].
Qed.

Lemma upsert_products_new l m m' i p : Forall priced l → upsert_all next l m = Some m' → m' !! i = Some p → m !! i = None →
  ∃ sp, sp ∈ l ∧ p = seeded_product sp 0.
Proof.
  intros Hl. revert m. induction Hl as [|x l Hx Hl IH]; intros m Hu Hi Hn; [cbn in Hu; congruence|].
  cbn [upsert_all] in Hu. rewrite (upsert_product_run _ _ Hx) in Hu. cbn [mbind option_bind] in Hu.
  destruct (upsert_cases next next_fresh p_sku (sp_sku x) (λ r, seeded_product x (p_stock r)) (seeded_product x 0) m)
    as [(j & a & Hj & Hk & Hrow)|(j & Hj & _ & Hrow)]; rewrite Hrow in Hu.
  - destruct (IH _ Hu Hi) as (sp & Hin & Hp); [rewrite lookup_insert_ne; [done|congruence]|]. exists sp. split; [by right|done].
  - destruct (decide (j = i)) as [->|Hne].
    + destruct (upsert_products_kept l _ _ i _ Hl Hu (lookup_insert_eq m i (seeded_product x 0))) as (p' & Hp' & Hc).
      assert (p' = p) as -> by congruence. destruct Hc as [->|(sp & Hin & _ & ->)]; eexists; (split; [|reflexivity]); [left|by right].
    + destruct (IH _ Hu Hi) as (sp & Hin & Hp); [by rewrite lookup_insert_ne|]. exists sp. split; [by right|done].
Qed.

(** ** Looking rows up by their natural keys *)

Lemma map_by_lookup {A} (key : A → string) (k : string) (p : Z * A) : ∀ l (acc : gmap string (Z * A)),
  (∀ q, q ∈ l → key q.2 = k → q = p) → (p ∈ l ∧ key p.2 = k ∨ acc !! k = Some p) →
  foldl (λ m q, <[key q.2 := q]> m) acc l !! k = Some p.
Proof.
  induction l as [|q l IH]; intros acc Hu Hp; cbn [foldl].
  - destruct Hp as [[Hp _]|Hp]; [by apply elem_of_nil in Hp|done].
  - apply IH; [intros q' Hq'; apply Hu; set_solver|].
    destruct (decide (key q.2 = k)) as [Hk|Hk].
    + right. rewrite Hk, lookup_insert_eq. f_equal. apply Hu; [set_solver|done].
    + destruct Hp as [[Hp Hkp]|Hp].
      * apply elem_of_cons in Hp as [->|Hp]; [done|by left].
      * right. by rewrite lookup_insert_ne.
Qed.

Lemma map_by_has {A} (key : A → string) (m : gmap Z A) k P :
  keyed_once key m → has key m k P →
  ∃ i a, map_by key (map_to_list m) !! k = Some (i, a) ∧ m !! i = Some a ∧ key a = k ∧ P a.
Proof.
  intros Hu (i & a & Hi & Hk & HP). exists i, a. split; [|done]. apply map_by_lookup.
  - intros [j b] Hj Hkb. apply elem_of_map_to_list in Hj. cbn in Hkb.
    assert (j = i) as -> by (eapply (Hu j i b a k); congruence). congruence.
  - left. split; [by apply elem_of_map_to_list|done].
Qed.

(** ** One order *)

(** Where the loop works: the tables of users and products are seeded. *)
Context (d0 : db).
Context (Husers : users_seeded (users d0)) (Hproducts : products_seeded (products d0)) (Hok0 : seed_ok d0).

Definition productBySku := map_by p_sku (map_to_list (products d0)).
Definition userByEmail := map_by u_email (map_to_list (users d0)).

(** What a line of the order stands for. *)
Definition line_of (it : SeedOrderItem) (l : line) : Prop :=
  ∃ p, products d0 !! ln_product l = Some p ∧ p_sku p = si_sku it ∧ p_price p = seed_price (si_sku it) ∧
    ln_quantity l = si_quantity it ∧ ln_unitPrice l = num_of_cents (seed_price (si_sku it)).

Lemma product_found it : item_fits it → ∃ i p,
  productBySku !! si_sku it = Some (i, p) ∧ products d0 !! i = Some p ∧ p_sku p = si_sku it ∧ p_price p = seed_price (si_sku it).
Proof.
  intros ((sp & Hsp & Hsku) & _). unfold products_seeded in Hproducts. rewrite Forall_forall in Hproducts.
  destruct (map_by_has _ _ _ _ (sok_skus _ Hok0) (Hproducts sp Hsp)) as (i & p & Hm & Hi & Hk & (_ & Hpr & _)).
  exists i, p. unfold productBySku. rewrite <- Hsku. split_and!; try done. by rewrite Hpr, seed_price_of.
Qed.

Lemma order_lines_ok items : Forall item_fits items →
  ∃ ls, order_lines productBySku items = Ok ls ∧ Forall2 line_of items ls.
Proof.
  induction 1 as [|it items Hit _ (ls & Hls & Hall)]; [by exists []|].
  destruct (product_found it Hit) as (i & p & Hl & Hi & Hk & Hpr).
  exists (Line i (si_quantity it) (num_of_cents (p_price p)) :: ls). cbn. rewrite Hl.
  unfold order_lines in Hls. rewrite Hls. split; [done|]. constructor; [|done]. exists p. rewrite Hpr. by split_and!.
Qed.

Lemma total_amount_seed items ls : Forall2 line_of items ls → total_amount ls = seed_total items.
Proof.
  unfold total_amount, seed_total. generalize (num_of_Z 0). intros acc Hall. revert acc.
  induction Hall as [|it l items ls (p & _ & _ & _ & Hq & Hu) _ IH]; intros acc; [done|]. cbn [foldl]. by rewrite Hq, Hu, IH.
Qed.

(** The loop's states: grown from [d0], well formed, with [X] still true. *)
Definition at_loop (X : db → Prop) (d : db) : Prop := grow d0 d ∧ seed_ok d ∧ X d.
Definition stable (X : db → Prop) : Prop := ∀ d d', grow d d' → X d → X d'.
Definition loop_err (d : db) : Prop := grow d0 d ∧ seed_ok d.

Lemma rollback_err d d' : loop_err d → seq_le d d' → loop_err (rollback d d').
Proof.
  intros [(Hu & Hp & Ho & Hi & Ha) [He Hs Hst Ho' Hi']] (Hl1 & Hl2 & _). split; [by split_and!|]. split; try done; cbn.
  - intros i Hx%Ho'. lia.
  - intros i Hx%Hi'. lia.
Qed.

Lemma insert_item_ok d so oid it l : so ∈ ORDERS → it ∈ so_items so → item_fits it → line_of it l → grow d0 d → seed_ok d → placed so oid d →
  let stmt := insert_seed_item oid (ln_product l) (ln_quantity l) (ln_unitPrice l) in
  ∃ id, (stmt d).1 = Ok id ∧ grow d (stmt d).2 ∧ seed_ok (stmt d).2 ∧ item_done (stmt d).2 oid it ∧
    seq_le d (stmt d).2.
Proof.
  intros Hso Hin (_ & Hq & Hint & Hpos & Hcol & _) (p & Hp & Hsku & Hpr & Hlq & Hlu) Hg Hok Hpl. pose proof Hpl as (o & _ & Ho & _).
  cbv zeta. unfold insert_seed_item. rewrite Hlq, Hlu, Hcol.
  rewrite (proj2 (Z.leb_gt _ _)), (proj2 (Z.ltb_ge _ _)), Hint by done. cbn [orb negb].
  assert (products d !! ln_product l = Some p) as Hp' by (destruct Hg as (_ & -> & _); done). rewrite Ho, Hp'. cbn.
  assert (order_items d !! (seq_items d + 1) = None) as Hfree.
  { apply eq_None_not_Some. intros Hs%(sok_items _ Hok). lia. }
  eexists. split_and!; [done| | | |unfold seq_le; cbn; lia].
  - split_and!; try done; [by apply insert_subseteq|]. split; [intros; cbn in *; congruence|]. intros i x. cbn. rewrite lookup_insert.
    case_decide; [|congruence]. intros [= <-] _. exists so, it, p. by split_and!.
  - destruct Hok as [He Hs Hst Ho' Hi]. split; try done. cbn. intros i. rewrite lookup_insert. case_decide; [lia|].
    intros Hs'%Hi. lia.
  - exists (ln_product l), p, (seq_items d + 1). eexists. cbn. rewrite lookup_insert_eq. by split_and!.
Qed.

Lemma at_loop_err X d : at_loop X d → loop_err d.
Proof. by intros (? & ? & _). Qed.
Lemma at_loop_grow X Y d d' : stable X → at_loop X d → grow d d' → seed_ok d' → Y d' → at_loop (λ d, X d ∧ Y d) d'.
Proof. intros HX (Hg & _ & Hx) Hgd Hok HY. split_and!; [by etrans|done|by eapply HX|done]. Qed.

Lemma find_item_cases d oid it l : item_fits it → line_of it l → grow d0 d →
  ∃ b, find_item oid (ln_product l) (ln_quantity l) (ln_unitPrice l) d = (Ok b, d) ∧ (b = true ↔ item_done d oid it).
Proof.
  intros (_ & _ & _ & _ & _ & t & Ht & Heq) (p & Hp & Hsku & Hpr & Hlq & Hlu) (_ & Hps & _).
  unfold find_item. rewrite Hlu, Ht. eexists. split; [done|]. rewrite bool_decide_eq_true. split.
  - intros (iid & i & Hi & Ho & Hpi & Hqi & Hui). apply Heq in Hui.
    exists (ln_product l), p, iid, i. rewrite Hps. split_and!; congruence.
  - intros (pid & p' & iid & i & Hp' & Hsku' & Hi & Ho & Hpi & Hqi & Hui). exists iid, i.
    rewrite Hps in Hp'. assert (pid = ln_product l) as ->.
    { eapply (sok_skus _ Hok0 pid (ln_product l) p' p (si_sku it)); congruence. }
    assert (p' = p) as -> by congruence. split_and!; [done|done|done|congruence|]. apply Heq. congruence.
Qed.

Lemma seed_line_triple X so oid n it l :
  so ∈ ORDERS → it ∈ so_items so → stable X → (∀ d, grow d0 d → X d → placed so oid d) → item_fits it → line_of it l →
  triple (at_loop X) (seed_line oid n l) (λ _, at_loop (λ d, X d ∧ item_done d oid it)) loop_err.
Proof.
  intros Hso Hin HX Hoid Hfit Hline. unfold seed_line. eapply triple_bind.
  - apply (triple_query _ _ (λ b d, at_loop X d ∧ (b = true → item_done d oid it))). intros d Hd.
    destruct (find_item_cases d oid it l Hfit Hline (proj1 Hd)) as (b & -> & Hb). exists b. cbn.
    split_and!; try done; [tauto|by eapply at_loop_err..].
  - intros [].
    + apply triple_ret. intros d [(? & ? & ?) Hi]. by split_and!; auto.
    + apply (triple_bind _ _ _ (λ _, at_loop (λ d, X d ∧ item_done d oid it))); [|intros id; by apply triple_ret].
      apply triple_save. intros d [Hd _]. pose proof Hd as (Hg & Hok & HXd).
      destruct (insert_item_ok d so oid it l Hso Hin Hfit Hline Hg Hok (Hoid _ Hg HXd)) as (id & H1 & Hgr & Hok' & Hdone & Hseq).
      exists id. split_and!; [done|exact (at_loop_grow X (λ d, item_done d oid it) _ _ HX Hd Hgr Hok' Hdone)|split; [by etrans|done]|by eapply at_loop_err|].
      apply rollback_err; [by eapply at_loop_err|done].
Qed.

Lemma stable_and X Y : stable X → stable Y → stable (λ d, X d ∧ Y d).
Proof. intros HX HY d d' Hg [??]. split; [by eapply HX|by eapply HY]. Qed.
Lemma stable_item oid it : stable (λ d, item_done d oid it).
Proof. intros d d' Hg. by apply item_done_grow. Qed.
Lemma stable_order so : stable (λ d, order_done d so).
Proof. intros d d' Hg. by apply order_done_grow. Qed.
Lemma stable_some oid b s : stable (λ d, ∃ o, orders d !! oid = Some o ∧ o_buyer_id o = b ∧ o_created_at o = s).
Proof. intros d d' (_ & _ & Ho & _) (o & Hoo & ?). exists o. split; [by eapply lookup_weaken|done]. Qed.

Lemma seed_lines_triple so oid items ls : so ∈ ORDERS → Forall2 line_of items ls → Forall item_fits items → Forall (λ it, it ∈ so_items so) items →
  ∀ X n, stable X → (∀ d, grow d0 d → X d → placed so oid d) →
  triple (at_loop X) (seed_lines oid n ls) (λ _, at_loop (λ d, X d ∧ Forall (item_done d oid) items)) loop_err.
Proof.
  intros Hso. induction 1 as [|it l items ls Hl _ IH]; intros Hfit Hin X n HX Hoid; cbn [seed_lines].
  - apply triple_ret. by intros d (? & ? & ?).
  - apply Forall_cons in Hfit as [Hf Hfit]. apply Forall_cons in Hin as [Hin1 Hin]. eapply triple_bind; [by eapply seed_line_triple|]. intros n'.
    eapply triple_weaken; [apply (IH Hfit Hin (λ d, X d ∧ item_done d oid it))|done| |done].
    + apply stable_and; [done|apply stable_item].
    + intros d Hg [HXd _]. auto.
    + intros _ d (Hg & Hok & [HXd Hi] & Hall). split_and!; try done. by constructor.
Qed.

Lemma find_order_cases d b s :
  ∃ r, find_order b s d = (Ok r, d) ∧
    match r with
    | Some oid => ∃ o, orders d !! oid = Some o ∧ o_buyer_id o = b ∧ o_created_at o = s
    | None => ∀ oid o, orders d !! oid = Some o → ¬ (o_buyer_id o = b ∧ o_created_at o = s)
    end.
Proof.
  unfold find_order. eexists. split; [done|]. destruct (list_find _ _) as [[n [oid o]]|] eqn:Hf; cbn.
  - apply list_find_Some in Hf as (Hl & [Hb Hs] & _). exists o. split; [|done].
    apply elem_of_map_to_list. by eapply list_elem_of_lookup_2.
  - apply list_find_None in Hf. rewrite Forall_forall in Hf. intros oid o Ho. apply (Hf (oid, o)). by apply elem_of_map_to_list.
Qed.

Lemma insert_order_ok d b u so items :
  so ∈ ORDERS → users d0 !! b = Some u → u_email u = so_buyer so → loop_err d → items = so_items so →
  (∀ oid o, orders d !! oid = Some o → ¬ (o_buyer_id o = b ∧ o_created_at o = stamp so)) →
  let stmt := insert_seed_order b (u_email u) (so_status so) (seed_total items) (stamp so) in
  ∃ id, (stmt d).1 = Ok id ∧ grow d (stmt d).2 ∧ seed_ok (stmt d).2 ∧ seq_le d (stmt d).2 ∧
    ∃ o, orders (stmt d).2 !! id = Some o ∧ o_buyer_id o = b ∧ o_created_at o = stamp so.
Proof.
  intros Hso Hu Hue [Hg Hok] -> Hno. cbv zeta. unfold insert_seed_order.
  pose proof ORDERS_totals as Ht. rewrite Forall_forall in Ht. specialize (Ht so Hso).
  destruct Ht as [-> Ht]. rewrite (proj2 (Z.ltb_ge _ _)) by done.
  assert (users d !! b = Some u) as Hub by (destruct Hg as (-> & _); done). rewrite Hub. cbn.
  assert (orders d !! (seq_orders d + 1) = None) as Hfree.
  { apply eq_None_not_Some. intros Hs%(sok_orders _ Hok). lia. }
  eexists. split_and!; [done| | |unfold seq_le; cbn; lia|].
  - split_and!; try done; [by apply insert_subseteq|]. split; [|intros; cbn in *; congruence]. intros i x. cbn. rewrite lookup_insert.
    case_decide; [|congruence]. intros [= <-] _. exists so, u. cbn. rewrite Hue. by split_and!.
  - destruct Hok as [He Hs Hst Ho' Hi]. split; try done; cbn.
    + intros i j a a' Ha Ha' Hb Hc Hin. rewrite lookup_insert in Ha, Ha'.
      repeat case_decide; simplify_eq/=; try done;
        try (exfalso; eapply Hno; [eassumption|]; split; congruence). by eapply Hst.
    + intros i. rewrite lookup_insert. case_decide; [lia|]. intros Hs'%Ho'. lia.
  - eexists. rewrite lookup_insert_eq. by split.
Qed.

Lemma buyer_found so : so ∈ ORDERS → ∃ b u,
  userByEmail !! so_buyer so = Some (b, u) ∧ users d0 !! b = Some u ∧ u_email u = so_buyer so.
Proof.
  intros Hso. pose proof ORDERS_buyers as Hb. rewrite Forall_forall in Hb. specialize (Hb so Hso).
  apply list_elem_of_fmap in Hb as (x & Hx & Hin). unfold users_seeded in Husers. rewrite Forall_forall in Husers.
  destruct (map_by_has _ _ _ _ (sok_emails _ Hok0) (Husers x Hin)) as (i & u & Hm & Hi & Hk & _).
  exists i, u. unfold userByEmail. rewrite Hx. by split_and!.
Qed.

Lemma ORDERS_fit so : so ∈ ORDERS → Forall item_fits (so_items so).
Proof. intros Hso. pose proof ORDERS_items as Hf. rewrite Forall_forall in Hf. auto. Qed.

Lemma seed_order_triple X n so :
  so ∈ ORDERS → stable X →
  triple (at_loop X) (seed_order userByEmail productBySku n so) (λ _, at_loop (λ d, X d ∧ order_done d so)) loop_err.
Proof.
  intros Hso HX. unfold seed_order. destruct (buyer_found so Hso) as (b & u & -> & Hu & Hue).
  destruct (order_lines_ok (so_items so) (ORDERS_fit so Hso)) as (ls & -> & Hls).
  cbv zeta. fold (stamp so). cbn [lift].
  set (Y oid := λ d, X d ∧ ∃ o, orders d !! oid = Some o ∧ o_buyer_id o = b ∧ o_created_at o = stamp so).
  apply (triple_bind _ _ _ (λ l d, at_loop X d ∧ l = ls)); [by apply triple_ret|]. intros l.
  apply (triple_bind _ _ _ (λ found d, at_loop X d ∧ l = ls ∧
    match found with
    | Some oid => ∃ o, orders d !! oid = Some o ∧ o_buyer_id o = b ∧ o_created_at o = stamp so
    | None => ∀ oid o, orders d !! oid = Some o → ¬ (o_buyer_id o = b ∧ o_created_at o = stamp so)
    end)).
  { apply triple_query. intros d [Hd ->]. destruct (find_order_cases d b (stamp so)) as (r & -> & Hr). exists r.
    split_and!; try done; by eapply at_loop_err. }
  intros found. apply (triple_bind _ _ _ (λ r d, at_loop (Y r.1) d ∧ l = ls)).
  - destruct found as [oid|].
    + apply triple_ret. intros d ((? & ? & ?) & -> & Ho). split; [|done]. by split_and!.
    + apply (triple_bind _ _ _ (λ oid d, at_loop (Y oid) d ∧ l = ls)); [|intros oid; by apply triple_ret].
      apply triple_save. intros d (Hd & -> & Hno). rewrite (total_amount_seed _ _ Hls).
      assert (loop_err d) as He by (by eapply at_loop_err).
      destruct (insert_order_ok d b u so _ Hso Hu Hue He eq_refl Hno) as (id & H1 & Hgr & Hok' & Hseq & Ho). exists id.
      split_and!; [done| |done|split; [etrans; [apply He|exact Hgr]|done]|done|by apply rollback_err].
      apply (at_loop_grow X (λ d, ∃ o, orders d !! id = Some o ∧ o_buyer_id o = b ∧ o_created_at o = stamp so) d); done.
  - intros [oid no]. cbn [fst].
    apply (triple_bind _ _ _ (λ _, at_loop (λ d, Y oid d ∧ Forall (item_done d oid) (so_items so)))).
    + intros φ t d r t' d' [Hd ->]. revert Hd. generalize d. clear d. intros d Hd Hr.
      refine (seed_lines_triple so oid (so_items so) ls Hso Hls (ORDERS_fit so Hso) _ (Y oid) n.2 _ _ φ t d r t' d' Hd Hr).
      * by apply Forall_forall.
      * apply stable_and; [done|apply stable_some].
      * intros d1 (Hu1 & _) (_ & o & Ho & Hob & Hos). exists o, u. rewrite Hob, Hu1. by split_and!.
    + intros m. apply triple_ret. intros d (Hg & Hok & (Hx & o & Ho & Hob & Hos) & Hit). split_and!; try done.
      exists b, u, oid, o. destruct Hg as (Hgu & _). rewrite Hgu. by split_and!.
Qed.

Lemma seed_orders_triple l : ∀ X n, Forall (λ so, so ∈ ORDERS) l → stable X →
  triple (at_loop X) (seed_orders userByEmail productBySku n l) (λ _, at_loop (λ d, X d ∧ Forall (order_done d) l)) loop_err.
Proof.
  induction l as [|so l IH]; intros X n Hl HX; cbn [seed_orders].
  - apply triple_ret. by intros d (? & ? & ?).
  - apply Forall_cons in Hl as [Hso Hl]. eapply triple_bind; [by eapply seed_order_triple|]. intros n'.
    eapply triple_weaken; [apply (IH (λ d, X d ∧ order_done d so) n' Hl)|done| |done].
    + apply stable_and; [done|apply stable_order].
    + intros _ d (Hg & Hok & [HXd Hi] & Hall). split_and!; try done. by constructor.
Qed.

(** ** A second run finds everything *)

Lemma seed_lines_again oid n items ls : Forall2 line_of items ls → Forall item_fits items → Forall (item_done d0 oid) items →
  triple (eq d0) (seed_lines oid n ls) (λ m d, m = n ∧ d = d0) (eq d0).
Proof.
  induction 1 as [|it l items ls Hl _ IH]; intros Hfit Hd; cbn [seed_lines]; [by apply triple_ret|].
  apply Forall_cons in Hfit as [Hf Hfit]. apply Forall_cons in Hd as [Hd1 Hd].
  apply (triple_bind _ _ _ (λ m d, m = n ∧ d = d0)).
  - unfold seed_line. destruct (find_item_cases d0 oid it l Hf Hl) as (b & Hrun & Hb); [reflexivity|].
    apply (triple_bind _ _ _ (λ b d, b = true ∧ d = d0)).
    + apply triple_query. intros d <-. exists b. rewrite Hrun. cbn. split_and!; try done. by apply Hb.
    + intros []; [apply triple_ret; naive_solver|]. intros φ t d r t' d' [? _]. done.
  - intros m φ t d r t' d' [-> ->]. by apply IH.
Qed.

Lemma seed_order_again n so : so ∈ ORDERS → order_done d0 so →
  triple (eq d0) (seed_order userByEmail productBySku n so) (λ m d, m = n ∧ d = d0) (eq d0).
Proof.
  intros Hso (b' & u' & oid & o & Hu' & Hue' & Ho & Hob & Hos & Hit).
  unfold seed_order. destruct (buyer_found so Hso) as (b & u & -> & Hu & Hue).
  assert (b' = b) as -> by (eapply (sok_emails _ Hok0 b' b u' u (so_buyer so)); congruence).
  destruct (order_lines_ok (so_items so) (ORDERS_fit so Hso)) as (ls & -> & Hls).
  cbv zeta. fold (stamp so). cbn [lift].
  apply (triple_bind _ _ _ (λ l d, l = ls ∧ d = d0)); [by apply triple_ret|]. intros l.
  apply (triple_bind _ _ _ (λ found d, l = ls ∧ found = Some oid ∧ d = d0)).
  { apply triple_query. intros d [-> ->]. destruct (find_order_cases d0 b (stamp so)) as (r & -> & Hr). exists r.
    split_and!; try done. destruct r as [oid'|]; [|by destruct (Hr oid o)]. f_equal.
    destruct Hr as (o' & Ho' & Hb' & Hs'). eapply (sok_stamps _ Hok0); [exact Ho'|exact Ho|congruence|congruence|].
    rewrite Hs'. by apply list_elem_of_fmap_2. }
  intros found. apply (triple_bind _ _ _ (λ r d, r = (oid, n.1) ∧ l = ls ∧ d = d0)).
  - intros φ t d r t' d' (-> & -> & ->). by intros [= <- <- <-].
  - intros r φ t d r' t' d' (-> & -> & ->). cbn.
    refine (triple_bind (eq d0) _ _ (λ m d, m = n.2 ∧ d = d0) (λ m d, m = n ∧ d = d0) (eq d0) _ _ φ t d0 r' t' d' eq_refl).
    + by apply (seed_lines_again oid n.2 (so_items so)); [|by apply ORDERS_fit|].
    + intros m. apply triple_ret. intros d [-> ->]. by destruct n.
Qed.

Lemma seed_orders_again l n : Forall (λ so, so ∈ ORDERS) l → Forall (order_done d0) l →
  triple (eq d0) (seed_orders userByEmail productBySku n l) (λ m d, m = n ∧ d = d0) (eq d0).
Proof.
  induction l as [|so l IH]; intros Hl Hd; cbn [seed_orders]; [by apply triple_ret|].
  apply Forall_cons in Hl as [Hso Hl]. apply Forall_cons in Hd as [Hd1 Hd].
  apply (triple_bind _ _ _ (λ m d, m = n ∧ d = d0)); [by apply seed_order_again|].
  intros m φ t d r t' d' [-> ->]. by apply IH.
Qed.
End script.

(** ** The whole run *)

Section whole.
Context (next : gset Z → Z) (next_fresh : ∀ X, next X ∉ X).

Lemma users_step d : seed_ok d → let d1 := (upsert_users next USERS d).2 in
  seed_ok d1 ∧ users_seeded (users d1) ∧ kept d d1 ∧ products d1 = products d.
Proof.
  intros [He Hs Hst Ho Hi]. cbn.
  destruct (upsert_users_seeded next next_fresh USERS [] (users d) USERS_once He (Forall_nil_2 _)) as [He' Hsd].
  split_and!; [by split|done| |done]. split; try done; [..|by apply additions_none].
  - intros i u Hu. exact (upsert_users_kept next next_fresh USERS (users d) i u Hu).
  - intros i p Hp. exists p. split; [done|by left].
  - intros i u Hu Hn. exact (upsert_users_new next next_fresh USERS (users d) i u Hu Hn).
  - cbn. congruence.
Qed.

Lemma products_step d : seed_ok d → users_seeded (users d) →
  (upsert_products next PRODUCTS d).1 = Ok tt ∧ let d1 := (upsert_products next PRODUCTS d).2 in
  seed_ok d1 ∧ users_seeded (users d1) ∧ products_seeded (products d1) ∧ kept d d1.
Proof.
  intros [He Hs Hst Ho Hi] Hu. unfold upsert_products.
  destruct (upsert_products_seeded next next_fresh PRODUCTS [] (products d) PRODUCTS_prices PRODUCTS_once Hs (Forall_nil_2 _))
    as (m & Hm & Hkeyed & Hsd). rewrite Hm. cbn [fst snd]. split; [reflexivity|]. cbv zeta.
  split; [by split|]. split; [exact Hu|]. split; [exact Hsd|]. split; [| |reflexivity|reflexivity| | |by apply additions_none].
  - intros i u Hu'. exists u. split; [exact Hu'|by left].
  - intros i p Hp. exact (upsert_products_kept next next_fresh PRODUCTS (products d) m i p PRODUCTS_prices Hm Hp).
  - cbn. congruence.
  - intros i p Hp Hn. exact (upsert_products_new next next_fresh PRODUCTS (products d) m i p PRODUCTS_prices Hm Hp Hn).
Qed.

Definition ran (d d' : db) : Prop := seed_ok d' ∧ kept d d'.

Lemma main_triple d : seed_ok d → triple (eq d) (main next) (λ _ d', ran d d' ∧ seeded d') (ran d).
Proof.
  intros Hok. destruct (users_step d Hok) as (Hok1 & Hu1 & Hk1 & _). cbv zeta in *.
  set (d1 := (upsert_users next USERS d).2) in *.
  destruct (products_step d1 Hok1 Hu1) as (Hr2 & Hok2 & Hu2 & Hp2 & Hk2). cbv zeta in *.
  set (d2 := (upsert_products next PRODUCTS d1).2) in *.
  assert (ran d d) as R0 by by split. assert (ran d d1) as R1 by by split.
  assert (ran d d2) as R2 by (split; [done|by etrans]).
  assert (∀ d', loop_err d2 d' → ran d d') as Hloop.
  { intros d' [Hg Hok']. split; [done|]. etrans; [exact (proj2 R2)|by apply grow_kept]. }
  unfold main.
  apply (triple_bind _ _ _ (λ _, eq d1)); [apply triple_query; intros ? <-; exists tt; split; [reflexivity|split; [reflexivity|split; [exact R1|exact R0]]]|]. intros _.
  apply (triple_bind _ _ _ (λ _, eq d2)); [apply triple_query; intros ? <-; exists tt; split; [exact Hr2|split; [reflexivity|split; [exact R2|exact R1]]]|]. intros _.
  apply (triple_bind _ _ _ (λ us d', us = map_to_list (users d2) ∧ d' = d2)).
  { apply triple_read; intros ? <-; [split; reflexivity|exact R2]. }
  intros us. cbv zeta. apply (triple_bind _ _ _ (λ ps d', us = map_to_list (users d2) ∧ ps = map_to_list (products d2) ∧ d' = d2)).
  { apply triple_read; intros ? [-> ->]; [split; [reflexivity|split; reflexivity]|exact R2]. }
  intros ps. apply (triple_bind _ _ _ (λ _ d', ran d d' ∧ seeded d')).
  - clearbody d2. intros φ t x r t' d' (-> & -> & ->) Hr.
    pose proof (seed_orders_triple next next_fresh d2 Hu2 Hp2 Hok2 ORDERS (λ _, True) (0, 0)%nat) as Htr.
    assert (Forall (λ so, so ∈ ORDERS) ORDERS) as Hall by (apply Forall_forall; intros so Hso; exact Hso).
    assert (at_loop d2 (λ _, True) d2) as Hat by (split; [reflexivity|split; [exact Hok2|exact Logic.I]]).
    assert (stable (λ _, True)) as Hst by (intros ? ? _ _; exact Logic.I).
    specialize (Htr Hall Hst φ t d2 r t' d' Hat Hr). destruct r as [n|e].
    + destruct Htr as (Hg & Hok' & _ & Hord). split; [apply Hloop; split; [exact Hg|exact Hok']|].
      destruct Hg as (Hgu & Hgp & _). split; [rewrite Hgu; exact Hu2|rewrite Hgp; exact Hp2|exact Hord].
    + destruct Htr as [Hf Hl]. split; [exact Hf|exact (Hloop _ Hl)].
  - intros [no ni]. apply (triple_bind _ _ _ (λ _ d', ran d d' ∧ seeded d')); [apply triple_read; intros d' Hd'; [exact Hd'|exact (proj1 Hd')]|].
    intros c1. apply (triple_bind _ _ _ (λ _ d', ran d d' ∧ seeded d')); [apply triple_read; intros d' Hd'; [exact Hd'|exact (proj1 Hd')]|].
    intros c2. apply triple_ret. intros d' Hd'. exact Hd'.
Qed.

Lemma main_again d : seed_ok d → seeded d →
  triple (eq d) (main next) (λ r d', d' = d ∧ rp_new_orders r = 0%nat ∧ rp_new_items r = 0%nat) (eq d).
Proof.
  intros Hok [Hu Hp Ho].
  assert ((upsert_users next USERS d).2 = d) as E1.
  { unfold upsert_users. cbn [snd]. unfold set_users.
    rewrite (upsert_users_again next next_fresh USERS (users d) (sok_emails _ Hok) Hu). by destruct d. }
  assert ((upsert_products next PRODUCTS d) = (Ok tt, d)) as E2.
  { unfold upsert_products. rewrite (upsert_products_again next next_fresh PRODUCTS (products d) PRODUCTS_prices (sok_skus _ Hok) Hp).
    unfold set_products. by destruct d. }
  unfold main.
  apply (triple_bind _ _ _ (λ _, eq d)).
  { apply triple_query. intros ? <-. exists tt. rewrite E1. split; [reflexivity|split; [reflexivity|split; reflexivity]]. }
  intros _. apply (triple_bind _ _ _ (λ _, eq d)).
  { apply triple_query. intros ? <-. exists tt. rewrite E2. split; [reflexivity|split; [reflexivity|split; reflexivity]]. }
  intros _. apply (triple_bind _ _ _ (λ us d', us = map_to_list (users d) ∧ d' = d)).
  { apply triple_read; intros ? <-; [split; reflexivity|reflexivity]. }
  intros us. cbv zeta. apply (triple_bind _ _ _ (λ ps d', us = map_to_list (users d) ∧ ps = map_to_list (products d) ∧ d' = d)).
  { apply triple_read; intros ? [-> ->]; [split; [reflexivity|split; reflexivity]|reflexivity]. }
  intros ps. apply (triple_bind _ _ _ (λ n d', n = (0, 0)%nat ∧ d' = d)).
  { intros φ t x r t' d' (-> & -> & ->) Hr.
    assert (Forall (λ so, so ∈ ORDERS) ORDERS) as Hall by (apply Forall_forall; intros so Hso; exact Hso).
    exact (seed_orders_again next next_fresh d Hu Hp Hok ORDERS (0, 0)%nat Hall Ho φ t d r t' d' eq_refl Hr). }
  intros [no ni]. apply (triple_bind _ _ _ (λ _ d', (no, ni) = (0, 0)%nat ∧ d' = d)); [apply triple_read; intros d' [Hn ->]; [split; [exact Hn|reflexivity]|reflexivity]|].
  intros c1. apply (triple_bind _ _ _ (λ _ d', (no, ni) = (0, 0)%nat ∧ d' = d)); [apply triple_read; intros d' [Hn ->]; [split; [exact Hn|reflexivity]|reflexivity]|].
  intros c2. apply triple_ret. intros d' [[= -> ->] ->]. split; [reflexivity|split; reflexivity].
Qed.

(** C35: the seed can be run again after anything.  Whatever happened to an
    earlier run, a later run without faults answers and leaves every user,
    product, order and item of the seed in place.  Neither touches an order or an
    item that was there; of the users and products that were there only those of
    the seed's e-mails and skus change, and of those nothing but full_name, and
    name, price and activity, which become the seed's.  Every row a run has added
    is a row of the seed to the last column: an order has the status of the seed
    and the exact total of its lines, an item the quantity and the price.  No
    second order is ever stamped for a buyer and date, and from then on a run
    adds nothing and changes nothing. *)
Theorem seed_reruns φ t0 d0 r0 t d t2 :
  seed_ok d0 → main next φ t0 d0 = (r0, t, d) →
  kept d0 d ∧ seed_ok d ∧
  ∃ rep t' d', main next no_fault t2 d = (Ok rep, t', d') ∧ kept d d' ∧ seed_ok d' ∧ seeded d' ∧
  ∀ t3, ∃ rep' t4, main next no_fault t3 d' = (Ok rep', t4, d') ∧ rp_new_orders rep' = 0%nat ∧ rp_new_items rep' = 0%nat.
Proof.
  intros Hok0 Hr0.
  assert (ran d0 d) as [Hok Hk].
  { pose proof (main_triple d0 Hok0 φ t0 d0 r0 t d eq_refl Hr0) as H. destruct r0; [exact (proj1 H)|exact (proj2 H)]. }
  split; [exact Hk|]. split; [exact Hok|].
  destruct (main next no_fault t2 d) as [[[rep|e] t'] d'] eqn:Hr.
  - pose proof (main_triple d Hok no_fault t2 d _ t' d' eq_refl Hr) as [[Hok' Hk'] Hs].
    exists rep, t', d'. split; [reflexivity|]. split; [exact Hk'|]. split; [exact Hok'|]. split; [exact Hs|]. intros t3.
    destruct (main next no_fault t3 d') as [[[rep'|e] t4] d4] eqn:Hr'.
    + pose proof (main_again d' Hok' Hs no_fault t3 d' _ t4 d4 eq_refl Hr') as (-> & Ho & Hi).
      exists rep', t4. split; [reflexivity|]. split; [exact Ho|exact Hi].
    + pose proof (main_again d' Hok' Hs no_fault t3 d' _ t4 d4 eq_refl Hr') as [[n Hn] _]. destruct (Hn eq_refl).
  - pose proof (main_triple d Hok no_fault t2 d _ t' d' eq_refl Hr) as [[n Hn] _]. destruct (Hn eq_refl).
Qed.
End whole.

(** A run that loses its connection at its seventeenth round trip. *)
Definition cut_off : oracle := λ n, if (n =? 17)%nat then Some (Fault true (JsError "ECONNRESET")) else None.
Definition after_cut : result seed_report * nat * db := main fix_next cut_off 0%nat fix_db.

Lemma fix_next_fresh X : fix_next X ∉ X.
Proof. apply is_fresh. Qed.

Lemma fix_db_seed_ok : seed_ok fix_db.
Proof.
  assert (∀ i a, orders fix_db !! i = Some a → False) as Hno by (intros i a; vm_compute; by destruct i).
  assert (∀ i a, order_items fix_db !! i = Some a → False) as Hno' by (intros i a; vm_compute; by destruct i).
  split.
  - exact (ok_email _ fix_db_ok).
  - intros i j a b k. cbn. rewrite !lookup_insert, !lookup_empty. repeat case_decide; naive_solver.
  - intros i j a b Ha. by destruct (Hno i a).
  - intros i [a Ha]. by destruct (Hno i a).
  - intros i [a Ha]. by destruct (Hno' i a).
Qed.

Lemma seed_reruns_witness :
  after_cut.1.1 = Err (JsError "ECONNRESET") ∧ size (orders after_cut.2) = 1%nat ∧
  ∃ rep t' d', main fix_next no_fault 0%nat after_cut.2 = (Ok rep, t', d') ∧ seeded d'.
Proof.
  split; [vm_compute; reflexivity|]. split; [vm_compute; reflexivity|].
  destruct (seed_reruns fix_next fix_next_fresh cut_off 0%nat fix_db after_cut.1.1 after_cut.1.2 after_cut.2 0%nat fix_db_seed_ok)
    as (_ & _ & rep & t' & d' & Hr & _ & _ & Hs & _).
  { unfold after_cut. by destruct (main fix_next cut_off 0%nat fix_db) as [[? ?] ?]. }
  exists rep, t', d'. split; [exact Hr|exact Hs].
Defined.
