(* ===== verification/ProductCard.v ===== *)
(** The product card (src/redis/product-card.ts) on the tables [products] and
    [reviews] (src/migrations/1789600000000-Reviews.ts): the heavy read the
    cache of [Cache] stands in front of.

    [AVG] of a smallint is a [numeric] whose error is below any tie of
    [ROUND(_, 2)] for fewer than 10^13 reviews: their composition is the exact
    mean rounded to hundredths, half away from zero. *)
From stdpp Require Import pretty.
From S2P Require Import Prelude JsNumber Events Schema Sql Fixtures Checkout.
#[local] Open Scope Z_scope.

Record review_row := ReviewRow { rv_product_id : Z; rv_rating : Z }.

(** CHK_reviews_rating *)
Definition review_ok (r : review_row) : Prop := 1 ≤ rv_rating r ≤ 5.

Record ProductCard := Card {
  pc_id : Z;
  pc_sku : string;
  pc_name : string;
  pc_price : num;
  pc_stock : Z;
  pc_rating : num;
  pc_reviews : num;
}.

(** A row of the SELECT: [numeric] columns in hundredths, COUNT a bigint. *)
Record CardRow := CardRowOf {
  cr_id : Z;
  cr_sku : string;
  cr_name : string;
  cr_price : Z;
  cr_stock : Z;
  cr_rating : Z;
  cr_reviews : Z;
}.

Section card.
Context `{PgText} (reviews : gmap Z review_row).

(** The reviews the LEFT JOIN finds for a product. *)
Definition reviews_of (id : Z) : list Z :=
  rv_rating <$> filter (λ r, rv_product_id r = id) (map_to_list reviews).*2.

(** COALESCE(ROUND(AVG(r.rating), 2), 0), in hundredths *)
Definition rating_of (ratings : list Z) : Z :=
  match ratings with [] => 0 | _ => round_haz (100 * sumZ id ratings) (Z.of_nat (length ratings)) end.

(** SELECT p.id, ..., COUNT(r.id) FROM products p LEFT JOIN reviews r ... WHERE p.id = $1 GROUP BY p.id *)
Definition select_card (id : string) (d : db) : result (list CardRow) * db :=
  with_id id (λ id,
    match products d !! id with
    | None => (Ok [], d)
    | Some p =>
        let ratings := reviews_of id in
        (Ok [CardRowOf id (p_sku p) (p_name p) (p_price p) (p_stock p) (rating_of ratings) (Z.of_nat (length ratings))], d)
    end) d.

Definition loadProductCard (id : string) : sql (option ProductCard) :=
  rows ← query (select_card id);
  match rows with
  | [] => mret None
  | row :: _ =>
      mret (Some (Card (cr_id row) (cr_sku row) (cr_name row) (num_of_cents (cr_price row)) (cr_stock row)
        (num_of_cents (cr_rating row)) (num_of_Z (cr_reviews row))))
  end.

(** ** Facts *)

Lemma sumZ_bounds l a b : Forall (λ x, a ≤ x ≤ b) l → a * Z.of_nat (length l) ≤ sumZ id l ≤ b * Z.of_nat (length l).
Proof. induction 1 as [|x l Hx _ IH]; [cbn; lia|]. cbn [sumZ foldr length]. unfold sumZ in IH. unfold id at 1 3. lia. Qed.

(** Rounding to hundredths is within half a hundredth of the mean. *)
Lemma round_haz_close n d : 0 ≤ n → 0 < d → Z.abs (2 * (d * round_haz n d - n)) ≤ d.
Proof.
  intros Hn Hd. unfold round_haz. rewrite (proj2 (Z.ltb_ge _ _)) by lia.
  pose proof (Z.mul_div_le (2 * n + d) (2 * d)). pose proof (Z.mul_succ_div_gt (2 * n + d) (2 * d)). lia.
Qed.

Lemma round_haz_bounds n d a b : 0 < d → 0 ≤ a → d * a ≤ n ≤ d * b → a ≤ round_haz n d ≤ b.
Proof.
  intros Hd Ha Hn. unfold round_haz. rewrite (proj2 (Z.ltb_ge _ _)) by nia. split.
  - apply Z.div_le_lower_bound; [lia|]. nia.
  - apply Z.lt_succ_r, Z.div_lt_upper_bound; [lia|]. nia.
Qed.

Lemma reviews_of_bounds id : map_Forall (λ _, review_ok) reviews → Forall (λ x, 1 ≤ x ≤ 5) (reviews_of id).
Proof.
  intros Hr. unfold reviews_of. apply Forall_fmap, Forall_forall. intros r [_ Hin]%list_elem_of_filter.
  apply list_elem_of_fmap in Hin as ([i r'] & -> & Hin). apply elem_of_map_to_list in Hin. exact (Hr i r' Hin).
Qed.

(** C40: the card tells the truth about the product.  Without faults
    [loadProductCard] answers [null] for exactly the ids no product has;
    otherwise the card carries the row's own data, the number of its reviews and
    their mean rating to within half a hundredth, a value from 1 to 5 when there
    are reviews and 0 when there are none.  It never writes. *)
Theorem product_card_exact id z t d :
  map_Forall (λ _, review_ok) reviews → bigint_in id = Some z → Z.of_nat (length (reviews_of z)) < 2 ^ 53 →
  ∃ card t', loadProductCard id no_fault t d = (Ok card, t', d) ∧
    match products d !! z, card with
    | None, None => True
    | Some p, Some c =>
        pc_id c = z ∧ pc_sku c = p_sku p ∧ pc_name c = p_name p ∧ pc_stock c = p_stock p ∧ pc_price c = num_of_cents (p_price p) ∧
        let n := Z.of_nat (length (reviews_of z)) in
        num_to_Z (pc_reviews c) = Some n ∧
        ∃ r, pc_rating c = num_of_cents r ∧
          if n =? 0 then r = 0
          else 100 ≤ r ≤ 500 ∧ Z.abs (2 * (n * r - 100 * sumZ Datatypes.id (reviews_of z))) ≤ n
    | _, _ => False
    end.
Proof.
  intros Hr Hid Hn. unfold loadProductCard, mbind, sql_bind, query, no_fault, select_card, with_id. rewrite Hid.
  destruct (products d !! z) as [p|]; cbn; [|by eexists _, _].
  eexists _, _. split; [done|]. cbn. split_and!; try done; [apply rnd_int_exact; lia|].
  exists (rating_of (reviews_of z)). split; [done|]. pose proof (sumZ_bounds _ _ _ (reviews_of_bounds z Hr)) as Hb.
  unfold rating_of. destruct (reviews_of z) as [|x l] eqn:Hl; [done|].
  set (n := Z.of_nat (length (x :: l))) in *. assert (0 < n) by (unfold n; cbn; lia).
  rewrite (proj2 (Z.eqb_neq _ _)) by lia. split.
  - apply round_haz_bounds; lia.
  - apply round_haz_close; lia.
Qed.
End card.

#[local] Existing Instance fix_text.
Definition fix_reviews : gmap Z review_row :=
  list_to_map [(1, ReviewRow 7 5); (2, ReviewRow 7 4); (3, ReviewRow 9 1); (4, ReviewRow 7 4)].

Lemma product_card_exact_witness : ∃ c t',
  loadProductCard fix_reviews "7" no_fault 0%nat fix_db = (Ok (Some c), t', fix_db) ∧ num_to_Z (pc_reviews c) = Some 3 ∧
  pc_rating c = num_of_cents 433.
Proof.
  destruct (product_card_exact fix_reviews "7" 7 0%nat fix_db) as (card & t' & Hrun & Hc).
  - apply (bool_decide_unpack _). vm_compute. exact Logic.I.
  - reflexivity.
  - vm_compute. reflexivity.
  - assert (products fix_db !! 7 = Some fix_product) as Hp by (vm_compute; reflexivity). rewrite Hp in Hc.
    destruct card as [c|]; [|destruct Hc]. exists c, t'. split; [exact Hrun|].
    destruct Hc as (_ & _ & _ & _ & _ & Hn & _). split; [exact Hn|].
    assert ((loadProductCard fix_reviews "7" no_fault 0%nat fix_db).1.1 =
      Ok (Some (Card 7 "SKU-1" "Keyboard" (num_of_cents 1299) 10 (num_of_cents 433) (num_of_Z 3)))) as Hv by (vm_compute; reflexivity).
    rewrite Hrun in Hv. injection Hv as ->. reflexivity.
Defined.
