(* ===== verification/Isolation.v ===== *)
(** Concurrent transactions under READ COMMITTED, the isolation level of every
    transaction the project opens without naming one.

    A session runs a script, its statements one at a time; between two of them
    other sessions run.  A statement sees the committed rows and the rows its
    own transaction has written.  Writing a row takes its lock, which is kept
    until COMMIT or ROLLBACK; a statement that would write a row another open
    transaction holds waits: it is run when the row is free again, on the rows
    committed by then, which is also what Postgres does when it re-evaluates the
    WHERE clause of a blocked UPDATE.  Identity sequences are shared and never
    taken back. *)
From S2P Require Import Prelude Schema Sql.
#[local] Open Scope Z_scope.

(** ** Rows of all tables, uniformly *)

Inductive row :=
| RUser (id : Z) | RProduct (id : Z) | ROrder (id : Z) | RItem (id : Z) | RJob (id : Z)
| RKey (key : string) | ROutbox (id : string) | RProcessed (key : string * string) | RReceipt (id : string)
| RToken (id : Z) | RDenied (jti : string) | RFile (id : string).

#[export] Instance row_eq_dec : EqDecision row.
Proof. solve_decision. Defined.

Definition row_code (r : row) : Z * Z * string * string :=
  match r with
  | RUser i => (0, i, "", "") | RProduct i => (1, i, "", "") | ROrder i => (2, i, "", "")
  | RItem i => (3, i, "", "") | RJob i => (4, i, "", "") | RKey k => (5, 0, k, "")
  | ROutbox k => (6, 0, k, "") | RProcessed (k, c) => (7, 0, k, c) | RReceipt k => (8, 0, k, "")
  | RToken i => (9, i, "", "") | RDenied k => (10, 0, k, "") | RFile k => (11, 0, k, "")
  end.
Definition row_decode (x : Z * Z * string * string) : option row :=
  let '(t, i, k, c) := x in
  match t with
  | 0 => Some (RUser i) | 1 => Some (RProduct i) | 2 => Some (ROrder i) | 3 => Some (RItem i) | 4 => Some (RJob i)
  | 5 => Some (RKey k) | 6 => Some (ROutbox k) | 7 => Some (RProcessed (k, c)) | 8 => Some (RReceipt k)
  | 9 => Some (RToken i) | 10 => Some (RDenied k) | 11 => Some (RFile k) | _ => None
  end.
#[export] Instance row_countable : Countable row.
Proof. refine (inj_countable row_code row_decode _). by intros [| | | | | | |[]| | | |]. Defined.

Inductive cell :=
| CUser (u : user_row) | CProduct (p : product_row) | COrder (o : order_row) | CItem (i : order_item_row)
| CJob (j : job_row) | CKey (o : option Z) | COutbox (o : outbox_row) | CProcessed | CReceipt (r : receipt_row)
| CToken (t : refresh_row) | CDenied (expires : Z) | CFile (f : file_row).

Definition cell_at (d : db) (r : row) : option cell :=
  match r with
  | RUser i => CUser <$> users d !! i
  | RProduct i => CProduct <$> products d !! i
  | ROrder i => COrder <$> orders d !! i
  | RItem i => CItem <$> order_items d !! i
  | RJob i => CJob <$> job_queue d !! i
  | RKey k => CKey <$> idempotency_keys d !! k
  | ROutbox k => COutbox <$> outbox d !! k
  | RProcessed k => if decide (k ∈ processed_messages d) then Some CProcessed else None
  | RReceipt k => CReceipt <$> order_receipts d !! k
  | RToken i => CToken <$> refresh_tokens d !! i
  | RDenied k => CDenied <$> access_denylist d !! k
  | RFile k => CFile <$> files d !! k
  end.

Lemma fmap_eq_inj {A B} (f : A → B) `{!Inj (=) (=) f} (x y : option A) : f <$> x = f <$> y → x = y.
Proof. destruct x, y; intros [=]; f_equal; by apply (inj f). Qed.

#[export] Instance CUser_inj : Inj (=) (=) CUser. Proof. by intros ?? [=]. Qed.
#[export] Instance CProduct_inj : Inj (=) (=) CProduct. Proof. by intros ?? [=]. Qed.
#[export] Instance COrder_inj : Inj (=) (=) COrder. Proof. by intros ?? [=]. Qed.
#[export] Instance CItem_inj : Inj (=) (=) CItem. Proof. by intros ?? [=]. Qed.
#[export] Instance CJob_inj : Inj (=) (=) CJob. Proof. by intros ?? [=]. Qed.
#[export] Instance CKey_inj : Inj (=) (=) CKey. Proof. by intros ?? [=]. Qed.
#[export] Instance COutbox_inj : Inj (=) (=) COutbox. Proof. by intros ?? [=]. Qed.
#[export] Instance CReceipt_inj : Inj (=) (=) CReceipt. Proof. by intros ?? [=]. Qed.
#[export] Instance CToken_inj : Inj (=) (=) CToken. Proof. by intros ?? [=]. Qed.
#[export] Instance CDenied_inj : Inj (=) (=) CDenied. Proof. by intros ?? [=]. Qed.
#[export] Instance CFile_inj : Inj (=) (=) CFile. Proof. by intros ?? [=]. Qed.

Lemma map_by_cells {K A} `{Countable K} (f : A → cell) `{!Inj (=) (=) f} (m m' : gmap K A) :
  (∀ k, f <$> m !! k = f <$> m' !! k) → m = m'.
Proof. intros Hm. apply map_eq. intros k. by apply (fmap_eq_inj f). Qed.

(** Rows determine a database up to its sequences. *)
Lemma cell_ext d d' : (∀ r, cell_at d r = cell_at d' r) → same_rows d d'.
Proof.
  intros Hc. unfold same_rows, rollback. destruct d, d'. f_equal.
  1-7: first
    [ apply (map_by_cells CUser); intros k; apply (Hc (RUser k))
    | apply (map_by_cells CProduct); intros k; apply (Hc (RProduct k))
    | apply (map_by_cells COrder); intros k; apply (Hc (ROrder k))
    | apply (map_by_cells CItem); intros k; apply (Hc (RItem k))
    | apply (map_by_cells CJob); intros k; apply (Hc (RJob k))
    | apply (map_by_cells CKey); intros k; apply (Hc (RKey k))
    | apply (map_by_cells COutbox); intros k; apply (Hc (ROutbox k)) ].
  - apply set_eq. intros k. pose proof (Hc (RProcessed k)) as Hk. cbn in Hk. by repeat case_decide.
  - apply (map_by_cells CReceipt); intros k; apply (Hc (RReceipt k)).
  - apply (map_by_cells CToken); intros k; apply (Hc (RToken k)).
  - apply (map_by_cells CDenied); intros k; apply (Hc (RDenied k)).
  - apply (map_by_cells CFile); intros k; apply (Hc (RFile k)).
Qed.

Lemma cell_same d d' : same_rows d d' → ∀ r, cell_at d r = cell_at d' r.
Proof. intros <- r. by destruct r. Qed.

(** ** What a transaction sees *)

(** The rows of [m] where [here] holds and those of [M] elsewhere. *)
Definition overlay {K A} `{Countable K} (here : K → bool) (m M : gmap K A) : gmap K A :=
  filter (λ kv, here kv.1 = true) m ∪ filter (λ kv, here kv.1 = false) M.

Lemma lookup_overlay {K A} `{Countable K} (here : K → bool) (m M : gmap K A) k :
  overlay here m M !! k = if here k then m !! k else M !! k.
Proof.
  unfold overlay. destruct (here k) eqn:Hk.
  - destruct (m !! k) as [x|] eqn:Hm.
    + apply lookup_union_Some_l, map_lookup_filter_Some. by split.
    + apply lookup_union_None. split; apply map_lookup_filter_None; [by left|right; cbn; intros; congruence].
  - rewrite lookup_union_r by (apply map_lookup_filter_None; right; cbn; intros; congruence).
    destruct (M !! k) as [x|] eqn:Hm.
    + apply map_lookup_filter_Some. by split.
    + apply map_lookup_filter_None. by left.
Qed.

(** The rows of [L] from the transaction's own version [v], all others as
    committed in [D]. *)
Definition view (L : gset row) (v D : db) : db :=
  let own r := bool_decide (r ∈ L) in
  Db (overlay (λ i, own (RUser i)) (users v) (users D)) (overlay (λ i, own (RProduct i)) (products v) (products D))
     (overlay (λ i, own (ROrder i)) (orders v) (orders D)) (overlay (λ i, own (RItem i)) (order_items v) (order_items D))
     (overlay (λ i, own (RJob i)) (job_queue v) (job_queue D))
     (overlay (λ k, own (RKey k)) (idempotency_keys v) (idempotency_keys D))
     (overlay (λ k, own (ROutbox k)) (outbox v) (outbox D))
     (filter (λ k, own (RProcessed k) = true) (processed_messages v) ∪ filter (λ k, own (RProcessed k) = false) (processed_messages D))
     (overlay (λ k, own (RReceipt k)) (order_receipts v) (order_receipts D))
     (overlay (λ i, own (RToken i)) (refresh_tokens v) (refresh_tokens D))
     (overlay (λ k, own (RDenied k)) (access_denylist v) (access_denylist D))
     (overlay (λ k, own (RFile k)) (files v) (files D))
     (seq_orders D) (seq_items D) (seq_jobs D) (seq_tokens D).

Lemma cell_view L v D r : cell_at (view L v D) r = if decide (r ∈ L) then cell_at v r else cell_at D r.
Proof.
  assert (HP : ∀ k, cell_at (view L v D) (RProcessed k) = if decide (RProcessed k ∈ L) then cell_at v (RProcessed k) else cell_at D (RProcessed k)).
  { intros k. cbn -[bool_decide].
    destruct (decide (k ∈ processed_messages v)), (decide (k ∈ processed_messages D)), (decide (RProcessed k ∈ L));
      case_decide as Hk; try done; exfalso; revert Hk; rewrite elem_of_union, !elem_of_filter, bool_decide_eq_true, bool_decide_eq_false; naive_solver. }
  destruct (decide (r ∈ L)) as [HL|HL];
    (destruct r; first
      [ rewrite HP; by case_decide
      | cbn -[bool_decide overlay]; rewrite lookup_overlay;
        first [by rewrite bool_decide_eq_true_2 by exact HL|by rewrite bool_decide_eq_false_2 by exact HL] ]).
Qed.

(** ** Scripts

    A transaction body with its statements told apart.  [locks] are the rows the
    statement writes when it is run on the given rows. *)
Inductive script (A : Type) : Type :=
| Ret (x : result (tx_exit A))
| Stmt {B : Type} (st : db → result B * db) (locks : db → gset row) (k : B → script A).
Arguments Ret {A} x.
Arguments Stmt {A B} st locks k.

(** The body a script stands for. *)
Fixpoint body_of {A} (s : script A) : sql (tx_exit A) :=
  match s with
  | Ret (Ok x) => mret x
  | Ret (Err e) => throw e
  | Stmt st _ k => b ← query st; body_of (k b)
  end.

(** The next statement on the given rows: the rows it writes, the rest of the
    script or the error, the rows after it. *)
Definition exec {A} (s : script A) (d : db) : option (gset row * result (script A) * db) :=
  match s with
  | Ret _ => None
  | Stmt st locks k => let '(r, d') := st d in Some (locks d, match r with Ok b => Ok (k b) | Err e => Err e end, d')
  end.

Lemma exec_ok {A B} (st : db → result B * db) locks (k : B → script A) d b d' rows :
  st d = (Ok b, d') → locks d = rows → exec (Stmt st locks k) d = Some (rows, Ok (k b), d').
Proof. cbn. by intros -> <-. Qed.

Lemma exec_rows {A B} (st : db → result B * db) locks (k : B → script A) d rows x d' :
  exec (Stmt st locks k) d = Some (rows, x, d') → rows = locks d.
Proof. cbn. destruct (st d). by intros [= <- _ _]. Qed.

(** At most [n] statements are left. *)
Fixpoint within {A} (n : nat) (s : script A) {struct s} : Prop :=
  match s, n with
  | Ret _, _ => True
  | Stmt _ _ _, O => False
  | Stmt _ _ k, S n => ∀ b, within n (k b)
  end.

Lemma within_le {A} (s : script A) : ∀ m n, within m s → (m ≤ n)%nat → within n s.
Proof.
  induction s as [x|B st locks k IH]; intros m n Hm Hle; [done|].
  destruct m as [|m]; [destruct Hm|]. destruct n as [|n]; [lia|]. cbn in *. intros b. apply (IH b m); [done|lia].
Qed.

Lemma within_exec {A} n (s s' : script A) d rows d' :
  within n s → exec s d = Some (rows, Ok s', d') → ∃ m, n = S m ∧ within m s'.
Proof.
  destruct s as [x|B st locks k]; [done|]. intros Hn. cbn. destruct (st d) as [[b|e] d1]; intros [= _ <- _].
  destruct n as [|n]; [destruct Hn|]. eauto.
Qed.

(** ** Sessions and their steps *)

Inductive session (A : Type) : Type :=
| Waiting (s : script A)
| Open (L : gset row) (v : db) (s : script A)
| Closed (r : result A).
Arguments Waiting {A} s.
Arguments Open {A} L v s.
Arguments Closed {A} r.

Definition held {A} (x : session A) : gset row := match x with Open L _ _ => L | _ => ∅ end.
Definition is_closed {A} (x : session A) : bool := match x with Closed _ => true | _ => false end.

Record state (A : Type) : Type := State { committed : db; sessions : gmap nat (session A) }.
Arguments State {A} committed sessions.
Arguments committed {A} s.
Arguments sessions {A} s.

(** No other session holds one of the rows. *)
Definition free_for {A} (i : nat) (rows : gset row) (ss : gmap nat (session A)) : Prop :=
  map_Forall (λ j x, j = i ∨ rows ## held x) ss.
#[export] Instance free_for_dec {A} i rows (ss : gmap nat (session A)) : Decision (free_for i rows ss).
Proof. unfold free_for. apply map_Forall_dec. intros j x. apply _. Defined.

Definition finished {A} (s : state A) : Prop := map_Forall (λ _ x, is_closed x = true) (sessions s).

(** One step of one session.  With [faults] a connection may break at any
    moment, the answer to a COMMIT may be lost, and others may draw from the
    sequences. *)
Inductive step {A} (faults : bool) : state A → state A → Prop :=
| s_begin i s D ss :
    ss !! i = Some (Waiting s) → step faults (State D ss) (State D (<[i := Open ∅ D s]> ss))
| s_query i L v s D ss rows s' d' :
    ss !! i = Some (Open L v s) → exec s (view L v D) = Some (rows, Ok s', d') → free_for i rows ss →
    step faults (State D ss) (State (rollback D d') (<[i := Open (L ∪ rows) d' s']> ss))
| s_error i L v s D ss rows e d' :
    ss !! i = Some (Open L v s) → exec s (view L v D) = Some (rows, Err e, d') → free_for i rows ss →
    step faults (State D ss) (State (rollback D d') (<[i := Closed (Err e)]> ss))
| s_commit i L v a D ss :
    ss !! i = Some (Open L v (Ret (Ok (Commit a)))) →
    step faults (State D ss) (State (view L v D) (<[i := Closed (Ok a)]> ss))
| s_rollback i L v a D ss :
    ss !! i = Some (Open L v (Ret (Ok (Rollback a)))) →
    step faults (State D ss) (State D (<[i := Closed (Ok a)]> ss))
| s_throw i L v e D ss :
    ss !! i = Some (Open L v (Ret (Err e))) →
    step faults (State D ss) (State D (<[i := Closed (Err e)]> ss))
| s_broken i x e D ss :
    faults = true → ss !! i = Some x → is_closed x = false →
    step faults (State D ss) (State D (<[i := Closed (Err e)]> ss))
| s_commit_lost i L v a e D ss :
    faults = true → ss !! i = Some (Open L v (Ret (Ok (Commit a)))) →
    step faults (State D ss) (State (view L v D) (<[i := Closed (Err e)]> ss))
| s_sequences D D' ss :
    faults = true → same_rows D D' → seq_le D D' → step faults (State D ss) (State D' ss).

(** ** Termination *)

(** Steps a session has left: BEGIN, statements, COMMIT or ROLLBACK. *)
Definition budget {A} (n : nat) (x : session A) : Prop :=
  match x with
  | Waiting s => ∃ m, within m s ∧ (m + 2 ≤ n)%nat
  | Open _ _ s => ∃ m, within m s ∧ (m + 1 ≤ n)%nat
  | Closed _ => True
  end.

Definition budgets {A} (b : gmap nat nat) (ss : gmap nat (session A)) : Prop :=
  map_Forall (λ i x, ∃ n, b !! i = Some n ∧ budget n x) ss.
Definition total (b : gmap nat nat) : nat := map_fold (λ _ n acc, n + acc)%nat 0%nat b.

Lemma total_insert b i n : b !! i = Some (S n) → total b = S (total (<[i := n]> b)).
Proof.
  intros Hi. rewrite <-(insert_delete_id b i (S n) Hi) at 1. rewrite <-(insert_delete_eq b i n). unfold total.
  rewrite !map_fold_insert_L; [lia|intros; lia|apply lookup_delete_eq|intros; lia|apply lookup_delete_eq].
Qed.

Lemma step_budget {A} (s s' : state A) b :
  step false s s' → budgets b (sessions s) → ∃ b', budgets b' (sessions s') ∧ total b = S (total b').
Proof.
  intros Hstep Hb.
  assert (Hupd : ∀ i x x' D ss, s = State D ss → ss !! i = Some x →
    (∀ n, budget n x → ∃ m, n = S m ∧ budget m x') → ∃ b', budgets b' (<[i := x']> ss) ∧ total b = S (total b')).
  { intros i x x' D ss -> Hi Hx. cbn in Hb. destruct (Hb i x Hi) as (n & Hn & Hbud).
    destruct (Hx n Hbud) as (m & -> & Hm). exists (<[i := m]> b). split; [|by apply total_insert].
    intros j y. destruct (decide (j = i)) as [->|Hji].
    - rewrite lookup_insert_eq. intros [= <-]. exists m. by rewrite lookup_insert_eq.
    - rewrite !lookup_insert_ne by done. apply Hb. }
  destruct Hstep; try done; eapply Hupd; try done; cbn.
  - intros n (m & Hm & Hle). exists (n - 1)%nat. split; [lia|]. exists m. split; [done|lia].
  - intros n (m & Hm & Hle). destruct (within_exec _ _ _ _ _ _ Hm H0) as (m' & -> & Hm').
    exists (n - 1)%nat. split; [lia|]. exists m'. split; [done|lia].
  - intros n (m & Hm & Hle). exists (n - 1)%nat. split; [lia|done].
  - intros n (m & Hm & Hle). exists (n - 1)%nat. split; [lia|done].
  - intros n (m & Hm & Hle). exists (n - 1)%nat. split; [lia|done].
  - intros n (m & Hm & Hle). exists (n - 1)%nat. split; [lia|done].
Qed.

(** Without faults no run is longer than the budget. *)
Lemma steps_bounded {A} n (s s' : state A) b :
  nsteps (step false) n s s' → budgets b (sessions s) → (n ≤ total b)%nat.
Proof.
  intros Hn. revert b. induction Hn as [s|n s1 s2 s3 H12 _ IH]; intros b Hb; [lia|].
  destruct (step_budget _ _ _ H12 Hb) as (b' & Hb' & ->). apply IH in Hb'. lia.
Qed.

(** A blocked session is blocked by a session that holds one of its rows. *)
Lemma blocked {A} i rows (ss : gmap nat (session A)) :
  ¬ free_for i rows ss → ∃ j x r, ss !! j = Some x ∧ j ≠ i ∧ r ∈ rows ∧ r ∈ held x.
Proof.
  intros Hn. apply map_not_Forall in Hn as (j & x & Hj & Hx); [|intros; apply _].
  assert (¬ rows ## held x) as Hd by naive_solver.
  destruct (decide (rows ∩ held x = ∅)) as [He|He]; [exfalso; apply Hd; set_solver|].
  apply set_choose_L in He as [r Hr]. exists j, x, r. set_solver.
Qed.

(** An open session whose next statement is not blocked can move. *)
Lemma open_moves {A} faults i L v (s : script A) D ss :
  ss !! i = Some (Open L v s) →
  (∀ rows x d', exec s (view L v D) = Some (rows, x, d') → free_for i rows ss) →
  ∃ s', step faults (State D ss) s'.
Proof.
  intros Hi Hf. destruct (exec s (view L v D)) as [[[rows [s'|e]] d']|] eqn:He.
  - eexists. eapply s_query; eauto.
  - eexists. eapply s_error; eauto.
  - destruct s as [[[a|a]|e]|B st locks k]; [eexists; by eapply s_commit|eexists; by eapply s_rollback|eexists; by eapply s_throw|].
    cbn in He. by destruct (st _).
Qed.

(** ** Executable schedules *)

(** The step of session [i], if it can make one. *)
Definition step_of {A} (i : nat) (s : state A) : option (state A) :=
  let D := committed s in
  let set x D' := Some (State D' (<[i := x]> (sessions s))) in
  match sessions s !! i with
  | Some (Waiting q) => set (Open ∅ D q) D
  | Some (Open L v q) =>
      match exec q (view L v D), q with
      | Some (rows, x, d'), _ =>
          if decide (free_for i rows (sessions s)) then
            set (match x with Ok q' => Open (L ∪ rows) d' q' | Err e => Closed (Err e) end) (rollback D d')
          else None
      | None, Ret (Ok (Commit a)) => set (Closed (Ok a)) (view L v D)
      | None, Ret (Ok (Rollback a)) => set (Closed (Ok a)) D
      | None, Ret (Err e) => set (Closed (Err e)) D
      | None, Stmt _ _ _ => None
      end
  | _ => None
  end.

Lemma step_of_sound {A} faults i (s s' : state A) : step_of i s = Some s' → step faults s s'.
Proof.
  destruct s as [D ss]. unfold step_of. cbn. destruct (ss !! i) as [[q|L v q|r]|] eqn:Hi; try done.
  - intros [= <-]. by apply s_begin.
  - destruct (exec q (view L v D)) as [[[rows [q'|e]] d']|] eqn:He.
    + case_decide as Hf; [|done]. intros [= <-]. by eapply s_query.
    + case_decide as Hf; [|done]. intros [= <-]. by eapply s_error.
    + destruct q as [[[a|a]|e]|]; intros [= <-]; [by eapply s_commit|by eapply s_rollback|by eapply s_throw].
Qed.

(** Every session that can makes a step, in turn; [rounds] times. *)
Definition round {A} (ids : list nat) (s : state A) : state A := foldl (λ s i, default s (step_of i s)) s ids.
Definition rounds {A} (n : nat) (ids : list nat) (s : state A) : state A := Nat.iter n (round ids) s.

Lemma round_sound {A} faults ids (s : state A) : rtc (step faults) s (round ids s).
Proof.
  unfold round. revert s. induction ids as [|i ids IH]; intros s; cbn; [apply rtc_refl|].
  destruct (step_of i s) as [s1|] eqn:Hs; cbn; [|apply IH]. eapply rtc_l; [by eapply step_of_sound|apply IH].
Qed.
Lemma rounds_sound {A} faults n ids (s : state A) : rtc (step faults) s (rounds n ids s).
Proof. induction n as [|n IH]; cbn; [apply rtc_refl|]. etrans; [exact IH|apply round_sound]. Qed.
