(* ===== verification/Race.v ===== *)
(** Checkouts that run at the same time (src/checkout.ts under READ COMMITTED,
    src/demo-race.ts): the statements of [checkout] as a script of [Isolation],
    any number of such sessions interleaved, and what every interleaving comes
    to. *)
From stdpp Require Import pretty.
From S2P Require Import Prelude JsNumber Events Schema Sql Fixtures Checkout Isolation.
#[local] Open Scope Z_scope.

(** ** The transaction of [checkout], statement by statement *)

Section script.
Context `{PgText, EventLib}.

(** The row an UPDATE ... RETURNING has written, if it found one. *)
Definition returned {A} (r : row) (x : result (answer A) * db) : gset row :=
  match x.1 with Ok a => match unwrapReturning a with [] => ∅ | _ => {[r]} end | Err _ => ∅ end.

Definition on_product (p : CheckoutParams) (d : db) : gset row :=
  match bigint_in (productId p) with
  | Some id => returned (RProduct id) (take_stock (quantity p) (productId p) d) | None => ∅ end.
Definition on_buyer (p : CheckoutParams) (total : num) (d : db) : gset row :=
  match bigint_in (buyerId p) with
  | Some id => returned (RUser id) (charge_balance total (buyerId p) d) | None => ∅ end.
Definition on_key (key : string) (d : db) : gset row :=
  match idempotency_keys d !! key with None => {[RKey key]} | Some _ => ∅ end.

Definition s_outbox (e : env) (h : hook) (p : CheckoutParams) (price oid : Z) : script CheckoutResult :=
  let totalAmount := num_mul (num_of_cents price) (num_of_Z (quantity p)) in
  let event := toOrderPlacedEvent
    (PlacedOrder (pretty oid) (buyerId p) (productId p) (num_of_Z (quantity p)) totalAmount (date e)) in
  Stmt (insert_outbox e (pretty oid) (ev_type event) (event_json event)) (λ _, {[ROutbox (outbox_id e)]}) (λ _,
    Ret match h with Ok _ => Ok (Commit (CheckoutSuccess (pretty oid) totalAmount false)) | Err err => Err err end).

Definition s_bind e h p price oid : script CheckoutResult :=
  match idempotencyKey p with
  | Some key => Stmt (bind_key oid key) (λ _, {[RKey key]}) (λ _, s_outbox e h p price oid)
  | None => s_outbox e h p price oid
  end.

Definition s_job e h p price oid : script CheckoutResult :=
  Stmt (insert_job oid) (λ d, {[RJob (seq_jobs d + 1)]}) (λ _, s_bind e h p price oid).

Definition s_item e h p price oid : script CheckoutResult :=
  Stmt (insert_item oid (productId p) (quantity p) (num_of_cents price)) (λ d, {[RItem (seq_items d + 1)]})
    (λ _, s_job e h p price oid).

Definition s_order e h p price (buyerRows : list string) : script CheckoutResult :=
  Stmt (insert_order e (buyerId p) (default "" (head buyerRows)) (num_mul (num_of_cents price) (num_of_Z (quantity p))))
    (λ d, {[ROrder (seq_orders d + 1)]})
    (λ rows, match rows with oid :: _ => s_item e h p price oid | [] => Ret (Err (JsError "TypeError")) end).

Definition s_email e h p price : script CheckoutResult :=
  Stmt (select_email (buyerId p)) (λ _, ∅) (s_order e h p price).

Definition s_charge e h p price : script CheckoutResult :=
  let totalAmount := num_mul (num_of_cents price) (num_of_Z (quantity p)) in
  Stmt (charge_balance totalAmount (buyerId p)) (on_buyer p totalAmount) (λ balanceAnswer,
    match unwrapReturning balanceAnswer with
    | [] => Ret (Ok (Rollback (CheckoutFailure insufficient_funds)))
    | _ :: _ => s_email e h p price
    end).

Definition s_stock e h p : script CheckoutResult :=
  Stmt (take_stock (quantity p) (productId p)) (on_product p) (λ stockAnswer,
    match unwrapReturning stockAnswer with
    | [] => Ret (Ok (Rollback (CheckoutFailure out_of_stock)))
    | price :: _ => s_charge e h p price
    end).

Definition s_previous (key : string) : script CheckoutResult :=
  Stmt (previous_order key) (λ _, ∅) (λ prev, Ret
    match prev with
    | row :: _ => Ok (Rollback (CheckoutSuccess (pretty row.1) (num_of_cents row.2) true))
    | [] => Err (JsError "TypeError")
    end).

Definition checkout_script e h p : script CheckoutResult :=
  match idempotencyKey p with
  | None => s_stock e h p
  | Some key => Stmt (claim_key key) (on_key key) (λ claimed,
      match claimed with [] => s_previous key | _ :: _ => s_stock e h p end)
  end.

(** The script is the body of [checkout]. *)
Lemma bind_ext {A B} (m : sql A) (f g : A → sql B) φ t d :
  (∀ a t' d', f a φ t' d' = g a φ t' d') → (m ≫= f) φ t d = (m ≫= g) φ t d.
Proof. intros Hfg. unfold mbind, sql_bind. by destruct (m φ t d) as [[[a|e] t'] d']. Qed.

Lemma script_place e h p φ t d : body_of (s_stock e h p) φ t d = place e h p φ t d.
Proof.
  unfold place, s_stock. cbn [body_of]. apply bind_ext. intros a1 t1 d1. destruct (unwrapReturning a1) as [|price l]; [done|].
  unfold s_charge. cbn [body_of]. apply bind_ext. intros a2 t2 d2. destruct (unwrapReturning a2); [done|].
  unfold s_email. cbn [body_of]. apply bind_ext. intros a3 t3 d3.
  unfold s_order. cbn [body_of]. apply bind_ext. intros a4 t4 d4. destruct a4 as [|oid l4]; [done|].
  rewrite (bind_run (first (oid :: l4)) _ φ t4 d4 oid t4 d4 eq_refl).
  unfold s_item. cbn [body_of]. apply bind_ext. intros a5 t5 d5.
  unfold s_job. cbn [body_of]. apply bind_ext. intros a6 t6 d6.
  assert (Hout : ∀ t d, body_of (s_outbox e h p price oid) φ t d =
    (let event := toOrderPlacedEvent (PlacedOrder (pretty oid) (buyerId p) (productId p) (num_of_Z (quantity p))
       (num_mul (num_of_cents price) (num_of_Z (quantity p))) (date e)) in
     _ ← query (insert_outbox e (pretty oid) (ev_type event) (event_json event));
     match h with
     | Ok _ => mret (Commit (CheckoutSuccess (pretty oid) (num_mul (num_of_cents price) (num_of_Z (quantity p))) false))
     | Err err => throw err
     end) φ t d).
  { intros t7 d7. unfold s_outbox. cbn [body_of]. apply bind_ext. intros. by destruct h. }
  unfold s_bind. destruct (idempotencyKey p); cbn [body_of]; [apply bind_ext; intros; apply Hout|apply Hout].
Qed.

Lemma script_is_checkout e h p φ t d : body_of (checkout_script e h p) φ t d = checkout_body e h p φ t d.
Proof.
  unfold checkout_script, checkout_body. destruct (idempotencyKey p) as [key|]; [|apply script_place].
  cbn [body_of]. apply bind_ext. intros [|x l] t1 d1; [|apply script_place].
  unfold s_previous. cbn [body_of]. apply bind_ext. by intros [|r l] t2 d2.
Qed.

Lemma script_within e h p : within 10 (checkout_script e h p).
Proof.
  unfold checkout_script, s_previous, s_stock, s_charge, s_email, s_order, s_item, s_job, s_bind, s_outbox.
  destruct (idempotencyKey p); cbn; intros; repeat (case_match; cbn; intros); done.
Qed.
End script.

(** ** Writes of an open transaction *)

(** For every row written: what is committed and what the transaction has. *)
#[local] Notation writes := (gmap row (option cell * cell)).
Definition matches (W : writes) (D v : db) : Prop :=
  ∀ r o n, W !! r = Some (o, n) → cell_at D r = o ∧ cell_at v r = Some n.

Lemma view_cell W D v r : matches W D v →
  cell_at (view (dom W) v D) r = match W !! r with Some (_, n) => Some n | None => cell_at D r end.
Proof.
  intros HW. rewrite cell_view. destruct (W !! r) as [[o n]|] eqn:Hr.
  - rewrite decide_True by (by apply elem_of_dom). by apply (HW r o n).
  - by rewrite decide_False by (by apply not_elem_of_dom).
Qed.

Lemma view_out W D v r : matches W D v → W !! r = None → cell_at (view (dom W) v D) r = cell_at D r.
Proof. intros HW Hr. by rewrite view_cell, Hr. Qed.
Lemma view_in W D v r o n : matches W D v → W !! r = Some (o, n) → cell_at (view (dom W) v D) r = Some n.
Proof. intros HW Hr. by rewrite view_cell, Hr. Qed.

Lemma matches_keep W D v d' : matches W D v → same_rows (view (dom W) v D) d' → matches W (rollback D d') d'.
Proof.
  intros HW Hd r o n Hr. rewrite <-(cell_same D (rollback D d') (rollback_same D d')), <-(cell_same _ _ Hd).
  split; [by apply (HW r o n)|]. by eapply view_in.
Qed.

Lemma matches_write W D v d' r0 o n :
  matches W D v → (∀ r, cell_at d' r = if decide (r = r0) then Some n else cell_at (view (dom W) v D) r) →
  cell_at D r0 = o → matches (<[r0 := (o, n)]> W) (rollback D d') d'.
Proof.
  intros HW Hd Ho r o' n'. rewrite <-(cell_same D (rollback D d') (rollback_same D d')), Hd, lookup_insert.
  destruct (decide (r0 = r)) as [->|Hne].
  - intros [= -> ->]. by rewrite decide_True.
  - rewrite decide_False by congruence. intros Hr. split; [by apply (HW r o' n')|by eapply view_in].
Qed.

(** Committing the writes of another transaction. *)
Lemma matches_commit W D v W' v' :
  matches W D v → matches W' D v' → dom W ## dom W' → matches W (view (dom W') v' D) v.
Proof.
  intros HW HW' Hd r o n Hr. destruct (HW r o n Hr) as [Ho Hn]. split; [|done].
  rewrite (view_out _ _ _ _ HW'); [done|]. apply not_elem_of_dom. apply elem_of_dom_2 in Hr. set_solver.
Qed.

Lemma cell_users d i u : cell_at d (RUser i) = Some (CUser u) ↔ users d !! i = Some u.
Proof. cbn. destruct (users d !! i); cbn; split; intros [=]; by subst. Qed.
Lemma cell_products d i p : cell_at d (RProduct i) = Some (CProduct p) ↔ products d !! i = Some p.
Proof. cbn. destruct (products d !! i); cbn; split; intros [=]; by subst. Qed.
Lemma cell_none {A} (x : option A) (f : A → cell) : f <$> x = None ↔ x = None.
Proof. by destruct x. Qed.

(** A write to one table, on all rows. *)
Ltac cell_write :=
  intros; match goal with r : row |- _ => destruct r end; cbn;
  try rewrite lookup_insert; repeat case_decide; simplify_eq; done.
Lemma cell_set_users i u d r : cell_at (set_users <[i := u]> d) r = if decide (r = RUser i) then Some (CUser u) else cell_at d r.
Proof. cell_write. Qed.
Lemma cell_set_products i p d r : cell_at (set_products <[i := p]> d) r = if decide (r = RProduct i) then Some (CProduct p) else cell_at d r.
Proof. cell_write. Qed.
Lemma cell_set_orders i o n d r : cell_at (set_orders <[i := o]> n d) r = if decide (r = ROrder i) then Some (COrder o) else cell_at d r.
Proof. cell_write. Qed.
Lemma cell_set_items i o n d r : cell_at (set_order_items <[i := o]> n d) r = if decide (r = RItem i) then Some (CItem o) else cell_at d r.
Proof. cell_write. Qed.
Lemma cell_set_jobs i o n d r : cell_at (set_job_queue <[i := o]> n d) r = if decide (r = RJob i) then Some (CJob o) else cell_at d r.
Proof. cell_write. Qed.
Lemma cell_set_keys i o d r : cell_at (set_keys <[i := o]> d) r = if decide (r = RKey i) then Some (CKey o) else cell_at d r.
Proof. cell_write. Qed.
Lemma cell_set_outbox i o d r : cell_at (set_outbox <[i := o]> d) r = if decide (r = ROutbox i) then Some (COutbox o) else cell_at d r.
Proof. cell_write. Qed.

(** ** Checkouts one after the other *)

Record client := Client { c_env : env; c_params : CheckoutParams; c_pid : Z; c_bid : Z }.

Section race.
Context `{PgText, EventLib} (clients : gmap nat client).

Definition start (D : db) : state CheckoutResult :=
  State D ((λ c, Waiting (checkout_script (c_env c) no_hook (c_params c))) <$> clients).

(** The identity columns hand out ids no row has. *)
Definition fresh_ids (d : db) : Prop :=
  orders d !! (seq_orders d + 1) = None ∧ order_items d !! (seq_items d + 1) = None ∧ job_queue d !! (seq_jobs d + 1) = None.

(** [checkout] alone on the rows of [D], wherever the sequences stand. *)
Definition alone (c : client) (D : db) (r : CheckoutResult) (D' : db) : Prop :=
  ∃ d t' d', same_rows D d ∧ fresh_ids d ∧ same_rows d' D' ∧
    checkout (c_env c) no_hook (c_params c) no_fault 0%nat d = (Ok r, t', d').

Inductive serial (D0 : db) : list (nat * CheckoutResult) → db → Prop :=
| serial_nil D : same_rows D0 D → serial D0 [] D
| serial_snoc l D i c r D' :
    serial D0 l D → clients !! i = Some c → alone c D r D' → serial D0 (l ++ [(i, r)]) D'.

Lemma serial_same D0 l D D' : serial D0 l D → same_rows D D' → serial D0 l D'.
Proof.
  intros [D1 Hs|l' D1 i c r D2 Hl Hc (d & t' & d' & ? & ? & Hs & ?)] HD; [apply serial_nil; by etrans|].
  eapply serial_snoc; [done..|]. exists d, t', d'. split_and!; try done. by etrans.
Qed.

(** What the invariant of one open session needs of the committed rows. *)
Record good (D : db) : Prop := {
  good_users : map_Forall (λ _, user_ok) (users D);
  good_products : map_Forall (λ _, product_ok) (products D);
  good_keys : ∀ k o, idempotency_keys D !! k = Some o → ∃ oid, o = Some oid ∧ is_Some (orders D !! oid);
  good_orders : ∀ i, is_Some (orders D !! i) → i ≤ seq_orders D;
  good_items : ∀ i, is_Some (order_items D !! i) → i ≤ seq_items D;
  good_jobs : ∀ i, is_Some (job_queue D !! i) → i ≤ seq_jobs D;
}.

Lemma db_ok_good D : db_ok D → good D.
Proof.
  intros Hok. split; apply Hok.
Qed.

Lemma good_sequences D D' : good D → same_rows D D' → seq_le D D' → good D'.
Proof.
  intros [? ? ? ? ? ?] <- (? & ? & ? & ?). split; cbn; try done; intros i Hi; etrans; eauto.
Qed.

(** The rows a checkout has written, in the order of its statements. *)
Section written.
Context (e : env) (p : CheckoutParams) (pid bid : Z) (pr : product_row) (u : user_row).
Let q := quantity p.
Let cost := p_price pr * q.
Definition w_claim : writes :=
  match idempotencyKey p with Some k => {[RKey k := (None, CKey None)]} | None => ∅ end.
Definition w_stock : writes :=
  <[RProduct pid := (Some (CProduct pr), CProduct (ProductRow (p_sku pr) (p_name pr) (p_price pr) (p_is_active pr) (p_stock pr - q)))]> w_claim.
Definition w_charge : writes :=
  <[RUser bid := (Some (CUser u), CUser (UserRow (u_email u) (u_full_name u) (u_balance u - cost) (u_password_hash u) (u_role u)))]> w_stock.
Definition w_order (oid : Z) : writes :=
  <[ROrder oid := (None, COrder (OrderRow bid (u_email u) paid cost (now e)))]> w_charge.
Definition w_item (oid iid : Z) : writes :=
  <[RItem iid := (None, CItem (OrderItemRow oid pid q (p_price pr)))]> (w_order oid).
Definition w_job (oid iid jid : Z) : writes :=
  <[RJob jid := (None, CJob (JobRow oid "post_processing" job_new None 0))]> (w_item oid iid).
Definition w_bind (oid iid jid : Z) : writes :=
  match idempotencyKey p with
  | Some k => <[RKey k := (None, CKey (Some oid))]> (w_job oid iid jid) | None => w_job oid iid jid end.
Definition w_outbox (oid iid jid : Z) : writes :=
  <[ROutbox (outbox_id e) := (None, COutbox (OutboxRow "Order" (pretty oid) "order.placed"
     (event_json (spec_event e p oid (p_price pr))) (now e) None 0))]> (w_bind oid iid jid).
End written.

(** What lets the order go through. *)
Record fits (p : CheckoutParams) (pr : product_row) (u : user_row) : Prop := {
  fits_product : product_ok pr;
  fits_stock : quantity p ≤ p_stock pr;
  fits_user : user_ok u;
  fits_balance : affordable (u_balance u) (p_price pr) (quantity p) = true;
}.

(** Rows written before the order is known to go through. *)
Definition early (W : writes) : Prop :=
  ∀ r, is_Some (W !! r) → match r with RKey _ | RProduct _ | RUser _ => True | _ => False end.

(** Where an open session of [c] stands: the rows it has written and the
    statements it has left. *)
Inductive stage (c : client) (D : db) : writes → script CheckoutResult → Prop :=
| at_start : stage c D ∅ (checkout_script (c_env c) no_hook (c_params c))
| at_previous k oid o :
    idempotencyKey (c_params c) = Some k → idempotency_keys D !! k = Some (Some oid) → orders D !! oid = Some o →
    stage c D ∅ (s_previous k)
| at_stock : stage c D (w_claim (c_params c)) (s_stock (c_env c) no_hook (c_params c))
| at_charge pr : product_ok pr → quantity (c_params c) ≤ p_stock pr →
    stage c D (w_stock (c_params c) (c_pid c) pr) (s_charge (c_env c) no_hook (c_params c) (p_price pr))
| at_email pr u : fits (c_params c) pr u →
    stage c D (w_charge (c_params c) (c_pid c) (c_bid c) pr u) (s_email (c_env c) no_hook (c_params c) (p_price pr))
| at_order pr u : fits (c_params c) pr u →
    stage c D (w_charge (c_params c) (c_pid c) (c_bid c) pr u) (s_order (c_env c) no_hook (c_params c) (p_price pr) [u_email u])
| at_item pr u oid : fits (c_params c) pr u → oid ≤ seq_orders D →
    stage c D (w_order (c_env c) (c_params c) (c_pid c) (c_bid c) pr u oid) (s_item (c_env c) no_hook (c_params c) (p_price pr) oid)
| at_job pr u oid iid : fits (c_params c) pr u → oid ≤ seq_orders D → iid ≤ seq_items D →
    stage c D (w_item (c_env c) (c_params c) (c_pid c) (c_bid c) pr u oid iid) (s_job (c_env c) no_hook (c_params c) (p_price pr) oid)
| at_bind pr u oid iid jid : fits (c_params c) pr u → oid ≤ seq_orders D → iid ≤ seq_items D → jid ≤ seq_jobs D →
    stage c D (w_job (c_env c) (c_params c) (c_pid c) (c_bid c) pr u oid iid jid) (s_bind (c_env c) no_hook (c_params c) (p_price pr) oid)
| at_outbox pr u oid iid jid : fits (c_params c) pr u → oid ≤ seq_orders D → iid ≤ seq_items D → jid ≤ seq_jobs D →
    stage c D (w_bind (c_env c) (c_params c) (c_pid c) (c_bid c) pr u oid iid jid) (s_outbox (c_env c) no_hook (c_params c) (p_price pr) oid)
| at_commit pr u oid iid jid : fits (c_params c) pr u → oid ≤ seq_orders D → iid ≤ seq_items D → jid ≤ seq_jobs D →
    stage c D (w_outbox (c_env c) (c_params c) (c_pid c) (c_bid c) pr u oid iid jid)
      (Ret (Ok (Commit (CheckoutSuccess (pretty oid) (num_mul (num_of_cents (p_price pr)) (num_of_Z (quantity (c_params c)))) false))))
| at_rollback W r : (∀ o m, r ≠ CheckoutSuccess o m false) → early W → stage c D W (Ret (Ok (Rollback r))).

(** ** Running the checkout alone *)

Definition claimed (p : CheckoutParams) (d : db) : db :=
  match idempotencyKey p with Some k => set_keys <[k := None]> d | None => d end.

Lemma checkout_place e p d t0 (P : tx_exit CheckoutResult → db → Prop) :
  (∀ k, idempotencyKey p = Some k → idempotency_keys d !! k = None) →
  (∀ t, ∃ x t' d1, place e no_hook p no_fault t (claimed p d) = (Ok x, t', d1) ∧ P x d1) →
  ∃ x t' d1, P x d1 ∧ checkout e no_hook p no_fault t0 d =
    (Ok (match x with Commit r | Rollback r => r end), t', match x with Commit _ => d1 | Rollback _ => rollback d d1 end).
Proof.
  intros Hk Hplace. unfold checkout, transaction, checkout_body, claimed, no_fault in *. cbn.
  destruct (idempotencyKey p) as [k|].
  - erewrite bind_run; [|apply query_run; unfold claim_key; rewrite (Hk k eq_refl); reflexivity]. cbv beta iota.
    destruct (Hplace (S (S t0))) as (x & t' & d1 & -> & HP). exists x. destruct x; eauto.
  - destruct (Hplace (S t0)) as (x & t' & d1 & -> & HP). exists x. destruct x; eauto.
Qed.

Lemma good_fresh D : good D → fresh_ids D.
Proof. intros Hg. destruct Hg. split_and!; by apply fresh_seq. Qed.

Lemma claimed_rows p d : products (claimed p d) = products d ∧ users (claimed p d) = users d ∧ outbox (claimed p d) = outbox d ∧
  seq_orders (claimed p d) = seq_orders d.
Proof. unfold claimed. by destruct (idempotencyKey p). Qed.

Section alone.
Context (c : client) (D : db).
Let e := c_env c.
Let p := c_params c.
Context (Hreq : request_ok p (c_pid c) (c_bid c)).
Context (Hkey : ∀ k, idempotencyKey p = Some k → idempotency_keys D !! k = None).

Lemma alone_refused r : good D →
  (∀ t, ∃ t' d1, place e no_hook p no_fault t (claimed p D) = (Ok (Rollback r), t', d1)) → alone c D r D.
Proof.
  intros Hgood Hp. destruct (checkout_place e p D 0%nat (λ x _, x = Rollback r) Hkey) as (x & t' & d1 & -> & Hrun).
  { intros t. destruct (Hp t) as (t' & d1 & Hr). eauto 10. }
  exists D, t', (rollback D d1). split_and!; [done|by apply good_fresh|symmetry; apply rollback_same|done].
Qed.

Lemma alone_out_of_stock : good D →
  (∀ pr, products D !! c_pid c = Some pr → p_stock pr < quantity p) → alone c D (CheckoutFailure out_of_stock) D.
Proof.
  intros Hgood Hp. destruct (claimed_rows p D) as (Ep & _). apply alone_refused; [done|]. intros t. do 2 eexists.
  apply (place_out_of_stock e p (c_pid c)); [apply Hreq|apply Hreq|]. by rewrite Ep.
Qed.

Lemma alone_insufficient pr : good D → products D !! c_pid c = Some pr → quantity p ≤ p_stock pr →
  (∀ u, users D !! c_bid c = Some u → affordable (u_balance u) (p_price pr) (quantity p) = false) →
  alone c D (CheckoutFailure insufficient_funds) D.
Proof.
  intros Hgood Hp Hle Hu. destruct (claimed_rows p D) as (Ep & Eu & _). apply alone_refused; [done|]. intros t.
  destruct (place_insufficient e p (c_pid c) (c_bid c) pr (claimed p D) t) as (d1 & Hrun & _); [done|by rewrite Ep| |done| |by eauto].
  - by apply (good_products _ Hgood) in Hp.
  - rewrite Eu. intros u Hu'. split; [by apply (good_users _ Hgood) in Hu'|by apply Hu].
Qed.

Lemma alone_purchase d pr u : fresh_ids d → same_rows D d → fits p pr u →
  products D !! c_pid c = Some pr → users D !! c_bid c = Some u → outbox D !! outbox_id e = None →
  alone c D (CheckoutSuccess (pretty (seq_orders d + 1)) (num_mul (num_of_cents (p_price pr)) (num_of_Z (quantity p))) false)
    (purchase e p (c_pid c) (c_bid c) pr u d).
Proof.
  intros Hf Hs [Hpo Hq Huo Haff] Hp Hu Ho. rewrite <-Hs in Hf |- *. unfold rollback in *.
  set (d0 := Db _ _ _ _ _ _ _ _ _ _ _ _ _ _ _ _) in *.
  destruct (claimed_rows p d0) as (Ep & Eu & Eo & Es).
  destruct (checkout_place e p d0 0%nat
    (λ x d1, x = Commit (CheckoutSuccess (pretty (seq_orders d0 + 1)) (num_mul (num_of_cents (p_price pr)) (num_of_Z (quantity p))) false) ∧
             d1 = purchase e p (c_pid c) (c_bid c) pr u d0) Hkey) as (x & t' & d1 & [-> ->] & Hrun).
  { intros t. destruct (place_commits e p (c_pid c) (c_bid c) pr u (claimed p d0) t) as (t' & Hrun); rewrite ?Ep, ?Eu, ?Eo; try done.
    - intros k Hk. unfold claimed. rewrite Hk. cbn. rewrite lookup_insert_eq. eauto.
    - do 3 eexists. split; [exact Hrun|]. rewrite Es. split; [done|]. unfold claimed.
      destruct (idempotencyKey p) as [k|] eqn:Hk; [by apply purchase_claimed|done]. }
  exists d0, t', (purchase e p (c_pid c) (c_bid c) pr u d0). split_and!; [done|done|done|exact Hrun].
Qed.

Lemma alone_replayed k oid o : good D → idempotencyKey p = Some k → idempotency_keys D !! k = Some (Some oid) → orders D !! oid = Some o →
  alone c D (CheckoutSuccess (pretty oid) (num_of_cents (o_total_amount o)) true) D.
Proof.
  intros Hgood Hk Hkd Ho. eexists D, _, _. split_and!; [done|by apply good_fresh| |].
  2:{ unfold checkout, transaction, checkout_body, no_fault. fold e p. cbn. rewrite Hk.
      erewrite bind_run; [|apply query_run; unfold claim_key; rewrite Hkd; reflexivity]. cbv beta iota.
      erewrite bind_run; [|apply query_run; unfold previous_order; rewrite Hkd, Ho; reflexivity]. cbv beta iota.
      erewrite bind_run; [|reflexivity]. reflexivity. }
  symmetry. apply rollback_same.
Qed.
End alone.

(** ** One statement of an open session *)

Lemma row_cases {A} (x : option A) (P : A → Prop) `{∀ a, Decision (P a)} :
  (∃ a, x = Some a ∧ P a) ∨ (∀ a, x = Some a → ¬ P a).
Proof. destruct x as [a|]; [|by right]. destruct (decide (P a)); [left; eauto|right; by intros ? [= <-]]. Qed.

Section view_rows.
Context (W : writes) (D v : db) (HW : matches W D v).
Let V := view (dom W) v D.
Lemma view_products_out i : W !! RProduct i = None → products V !! i = products D !! i.
Proof. intros Hi. apply (fmap_eq_inj CProduct), (view_out W D v (RProduct i) HW Hi). Qed.
Lemma view_products_in i o p : W !! RProduct i = Some (o, CProduct p) → products V !! i = Some p.
Proof. intros Hi. apply (fmap_eq_inj CProduct), (view_in W D v (RProduct i) _ _ HW Hi). Qed.
Lemma view_users_out i : W !! RUser i = None → users V !! i = users D !! i.
Proof. intros Hi. apply (fmap_eq_inj CUser), (view_out W D v (RUser i) HW Hi). Qed.
Lemma view_users_in i o u : W !! RUser i = Some (o, CUser u) → users V !! i = Some u.
Proof. intros Hi. apply (fmap_eq_inj CUser), (view_in W D v (RUser i) _ _ HW Hi). Qed.
Lemma view_orders_in i o x : W !! ROrder i = Some (o, COrder x) → orders V !! i = Some x.
Proof. intros Hi. apply (fmap_eq_inj COrder), (view_in W D v (ROrder i) _ _ HW Hi). Qed.
Lemma view_orders_out i : W !! ROrder i = None → orders V !! i = orders D !! i.
Proof. intros Hi. apply (fmap_eq_inj COrder), (view_out W D v (ROrder i) HW Hi). Qed.
Lemma view_keys_out i : W !! RKey i = None → idempotency_keys V !! i = idempotency_keys D !! i.
Proof. intros Hi. apply (fmap_eq_inj CKey), (view_out W D v (RKey i) HW Hi). Qed.
Lemma view_keys_in i o x : W !! RKey i = Some (o, CKey x) → idempotency_keys V !! i = Some x.
Proof. intros Hi. apply (fmap_eq_inj CKey), (view_in W D v (RKey i) _ _ HW Hi). Qed.
Lemma view_outbox_out i : W !! ROutbox i = None → outbox V !! i = outbox D !! i.
Proof. intros Hi. apply (fmap_eq_inj COutbox), (view_out W D v (ROutbox i) HW Hi). Qed.
End view_rows.

Lemma rollback_view L v D : rollback D (view L v D) = D.
Proof. by destruct D. Qed.

(** Lookups in what a checkout has written. *)
Ltac w_look :=
  unfold w_outbox, w_bind, w_job, w_item, w_order, w_charge, w_stock, w_claim in *;
  repeat first
    [ rewrite lookup_insert_eq | rewrite lookup_insert_ne by congruence | rewrite lookup_singleton_eq
    | rewrite lookup_singleton_ne by congruence | rewrite lookup_empty | case_match ]; try done.

Definition advance (c : client) (D : db) (W : writes) (x : option (gset row * result (script CheckoutResult) * db)) : Prop :=
  ∃ rows s' d' W', x = Some (rows, Ok s', d') ∧ dom W' = dom W ∪ rows ∧ matches W' (rollback D d') d' ∧ seq_le D d' ∧
    stage c (rollback D d') W' s' ∧ ∀ r, s' = Ret (Ok (Rollback r)) → alone c D r D.

Lemma advance_read c D W v s' x : matches W D v → x = Some (∅, Ok s', view (dom W) v D) →
  stage c D W s' → (∀ r, s' = Ret (Ok (Rollback r)) → alone c D r D) → advance c D W x.
Proof.
  intros HW -> Hs Hr. exists ∅, s', (view (dom W) v D), W. split_and!; try done; [set_solver| |by rewrite rollback_view].
  by apply (matches_keep W D v).
Qed.

Lemma advance_write c D W v s' x r0 o n d' : matches W D v → x = Some ({[r0]}, Ok s', d') →
  (∀ r, cell_at d' r = if decide (r = r0) then Some n else cell_at (view (dom W) v D) r) → cell_at D r0 = o →
  seq_le D d' → stage c (rollback D d') (<[r0 := (o, n)]> W) s' → (∀ r, s' ≠ Ret (Ok (Rollback r))) → advance c D W x.
Proof.
  intros HW -> Hd Ho Hle Hs Hr. exists {[r0]}, s', d', (<[r0 := (o, n)]> W). split_and!; try done.
  - rewrite dom_insert_L. set_solver.
  - by eapply matches_write.
  - intros r Hs'. by destruct (Hr r).
Qed.

Section statements.
Context (c : client) (D v : db).
Let e := c_env c.
Let p := c_params c.
Let pid := c_pid c.
Let bid := c_bid c.
Context (Hreq : request_ok p pid bid) (Hgood : good D).

Lemma seq_le_refl D' : seq_le D' D'. Proof. reflexivity. Qed.

Lemma key_unclaimed W : matches W D v → (∀ k, idempotencyKey p = Some k → ∃ n, W !! RKey k = Some (None, n)) →
  ∀ k, idempotencyKey p = Some k → idempotency_keys D !! k = None.
Proof.
  intros HW Hk k Hp. destruct (Hk k Hp) as [n Hn]. apply HW in Hn as [Hn _]. by apply cell_none in Hn.
Qed.

Lemma advance_claim k : matches ∅ D v → idempotencyKey p = Some k →
  advance c D ∅ (exec (checkout_script e no_hook p) (view (dom (∅ : writes)) v D)).
Proof.
  intros HW Hk. unfold checkout_script. rewrite Hk.
  assert (idempotency_keys (view (dom (∅ : writes)) v D) !! k = idempotency_keys D !! k) as Hview
    by (apply view_keys_out; [done|apply lookup_empty]).
  cbn [exec]. unfold claim_key, on_key. rewrite Hview. destruct (idempotency_keys D !! k) as [o|] eqn:HD.
  - destruct (good_keys _ Hgood k o HD) as (oid & -> & [ord Ho]).
    eapply (advance_read c D ∅ v (s_previous k)); [done|done| |done]. by eapply at_previous.
  - eapply (advance_write c D ∅ v (s_stock e no_hook p) _ (RKey k) None (CKey None)); [done|done| | | | |done].
    + intros r. apply cell_set_keys.
    + cbn. by rewrite HD.
    + done.
    + assert (<[RKey k := (None, CKey None)]> ∅ = w_claim p) as -> by (unfold w_claim; by rewrite Hk). apply at_stock.
Qed.

Lemma advance_previous k oid o : matches ∅ D v → idempotencyKey p = Some k →
  idempotency_keys D !! k = Some (Some oid) → orders D !! oid = Some o →
  advance c D ∅ (exec (s_previous k) (view (dom (∅ : writes)) v D)).
Proof.
  intros HW Hk HD Ho. unfold s_previous. cbn [exec]. unfold previous_order.
  rewrite (view_keys_out ∅ D v HW k), HD, (view_orders_out ∅ D v HW oid), Ho by apply lookup_empty.
  eapply (advance_read c D ∅ v); [done|reflexivity| |].
  - apply at_rollback; [done|]. intros r Hr. rewrite lookup_empty in Hr. by destruct Hr.
  - intros r [= <-]. by apply (alone_replayed c D k oid o).
Qed.

Lemma early_claim : early (w_claim p).
Proof. intros r. unfold w_claim. destruct (idempotencyKey p); [|rewrite lookup_empty; by intros []].
  rewrite lookup_singleton. case_decide; [by subst|by intros []]. Qed.
Lemma early_stock pr : early (w_stock p pid pr).
Proof. intros r. unfold w_stock. rewrite lookup_insert. case_decide; [by subst|apply early_claim]. Qed.

Lemma advance_stock : matches (w_claim p) D v →
  advance c D (w_claim p) (exec (s_stock e no_hook p) (view (dom (w_claim p)) v D)).
Proof.
  intros HW. pose proof Hreq as [Hq Hi Hpid Hbid]. set (V := view _ v D).
  assert (Hkey : ∀ k, idempotencyKey p = Some k → idempotency_keys D !! k = None).
  { apply (key_unclaimed (w_claim p)); [done|]. intros k Hk. unfold w_claim. rewrite Hk, lookup_singleton_eq. eauto. }
  assert (Hview : products V !! pid = products D !! pid) by (apply view_products_out; [done|w_look]).
  assert (Hlocks : on_product p V = returned (RProduct pid) (take_stock (quantity p) (productId p) V)) by (unfold on_product; by rewrite Hpid).
  destruct (row_cases (products D !! pid) (λ pr, quantity p ≤ p_stock pr)) as [(pr & HD & Hle)|Hno].
  - pose proof (good_products _ Hgood _ _ HD) as Hpr. pose proof (take_stock_ok p pid pr V Hi Hq Hpid) as Hst.
    unfold s_stock. erewrite exec_ok; [|apply Hst; [by rewrite Hview|done..]|rewrite Hlocks, Hst; [reflexivity|by rewrite Hview|done..]].
    eapply (advance_write c D _ v _ _ (RProduct pid)); [done|reflexivity| | | | |done].
    + intros r. apply cell_set_products.
    + cbn. rewrite HD. reflexivity.
    + done.
    + by apply at_charge.
  - assert (Hlt : ∀ pr, products D !! pid = Some pr → p_stock pr < quantity p).
    { intros pr HD%Hno. lia. }
    assert (Hst : take_stock (quantity p) (productId p) V = (Ok (tuple []), V)) by (apply (take_stock_none p pid); rewrite ?Hview; done).
    unfold s_stock. erewrite exec_ok; [|exact Hst|rewrite Hlocks, Hst; reflexivity].
    eapply (advance_read c D _ v); [done|reflexivity|apply at_rollback; [done|apply early_claim]|].
    intros r [= <-]. by apply alone_out_of_stock.
Qed.

(** The claimed key, whatever was written after it. *)
Lemma key_in_stock pr : ∀ k, idempotencyKey p = Some k → ∃ n, w_stock p pid pr !! RKey k = Some (None, n).
Proof. intros k Hk. exists (CKey None). unfold w_stock, w_claim. by rewrite Hk, lookup_insert_ne, lookup_singleton_eq. Qed.

Lemma advance_charge pr : product_ok pr → quantity p ≤ p_stock pr → matches (w_stock p pid pr) D v →
  advance c D (w_stock p pid pr) (exec (s_charge e no_hook p (p_price pr)) (view (dom (w_stock p pid pr)) v D)).
Proof.
  intros Hpr Hle HW. pose proof Hreq as [Hq Hi Hpid Hbid]. pose proof (int4_range _ Hi). set (V := view _ v D).
  assert (Hview : users V !! bid = users D !! bid) by (apply view_users_out; [done|w_look]).
  assert (HD : products D !! pid = Some pr) by (apply cell_products; eapply HW; w_look).
  destruct (affordable_amount 0 (p_price pr) (quantity p)) as (x & Hx & _); [apply Hpr|lia|unfold numeric_max; lia|].
  assert (Hlocks : on_buyer p (num_mul (num_of_cents (p_price pr)) (num_of_Z (quantity p))) V =
    returned (RUser bid) (charge_balance (num_mul (num_of_cents (p_price pr)) (num_of_Z (quantity p))) (buyerId p) V))
    by (unfold on_buyer; by rewrite Hbid).
  assert (Haff : ∀ u, affordable (u_balance u) (p_price pr) (quantity p) = numeric_ge (u_balance u) x)
    by (intros u; unfold affordable; by rewrite Hx).
  destruct (row_cases (users D !! bid) (λ u, affordable (u_balance u) (p_price pr) (quantity p) = true)) as [(u & HDu & Hu)|Hno].
  - pose proof (good_users _ Hgood _ _ HDu) as Hok.
    destruct (affordable_amount (u_balance u) (p_price pr) (quantity p)) as (x' & Hx' & Ha & Hge & _); [apply Hpr|lia|done|].
    rewrite Hu in Ha. symmetry in Ha. destruct (Hge Ha) as (Hcost & _ & Hsub).
    assert (Hch := charge_ok p bid u (p_price pr) V x' Hbid). rewrite Hview in Hch. specialize (Hch HDu Hx' Ha Hsub Hcost).
    unfold s_charge. erewrite exec_ok; [|exact Hch|rewrite Hlocks, Hch; reflexivity].
    eapply (advance_write c D _ v _ _ (RUser bid)); [done|reflexivity| | | | |done].
    + intros r. apply cell_set_users.
    + cbn. rewrite HDu. reflexivity.
    + done.
    + by apply at_email.
  - assert (Hch : charge_balance (num_mul (num_of_cents (p_price pr)) (num_of_Z (quantity p))) (buyerId p) V = (Ok (tuple []), V)).
    { apply (charge_none p bid _ _ x Hbid Hx). rewrite Hview. intros u Hu%Hno. rewrite Haff in Hu. by destruct (numeric_ge _ _). }
    unfold s_charge. erewrite exec_ok; [|exact Hch|rewrite Hlocks, Hch; reflexivity].
    eapply (advance_read c D _ v); [done|reflexivity|apply at_rollback; [done|apply early_stock]|].
    intros r [= <-]. apply (alone_insufficient c D Hreq) with pr; try done.
    + apply (key_unclaimed (w_stock p pid pr)); [done|apply key_in_stock].
    + intros u Hu%Hno. by destruct (affordable _ _ _).
Qed.

Context (pr : product_row) (u : user_row) (Hfits : fits p pr u).

Lemma advance_email : matches (w_charge p pid bid pr u) D v →
  advance c D (w_charge p pid bid pr u) (exec (s_email e no_hook p (p_price pr)) (view (dom (w_charge p pid bid pr u)) v D)).
Proof.
  intros HW. set (V := view _ v D).
  assert (Hview : users V !! bid = Some (UserRow (u_email u) (u_full_name u) (u_balance u - p_price pr * quantity p) (u_password_hash u) (u_role u)))
    by (eapply view_users_in; [done|w_look]).
  unfold s_email. erewrite exec_ok; [|unfold select_email, with_id; rewrite (rq_buyer _ _ _ Hreq), Hview; reflexivity|reflexivity].
  eapply (advance_read c D _ v); [done|reflexivity|exact (at_order c D pr u Hfits)|done].
Qed.

(** The facts about prices the INSERTs check. *)
Lemma fits_cost : ∃ x, num_text (num_mul (num_of_cents (p_price pr)) (num_of_Z (quantity p))) = Some x ∧
  numeric_of x = Some (p_price pr * quantity p) ∧ 0 ≤ p_price pr * quantity p.
Proof.
  destruct Hfits as [[Hpr _] Hle Hu Haff]. pose proof Hreq as [Hq Hi _ _]. pose proof (int4_range _ Hi).
  destruct (affordable_amount (u_balance u) (p_price pr) (quantity p)) as (x & Hx & Ha & Hge & _); [done|lia|done|].
  rewrite Haff in Ha. destruct (Hge (eq_sym Ha)) as (_ & Hof & _). exists x. split_and!; [done|done|nia].
Qed.

Lemma advance_order : matches (w_charge p pid bid pr u) D v →
  advance c D (w_charge p pid bid pr u) (exec (s_order e no_hook p (p_price pr) [u_email u]) (view (dom (w_charge p pid bid pr u)) v D)).
Proof.
  intros HW. set (V := view _ v D). destruct fits_cost as (x & Hx & Hof & Hpos).
  assert (Hview : ∃ u', users V !! bid = Some u') by (eexists; eapply view_users_in; [done|w_look]). destruct Hview as [u' Hview].
  unfold s_order. erewrite exec_ok; [| |reflexivity].
  2:{ unfold insert_order, numeric_param, with_id. rewrite Hx, (rq_buyer _ _ _ Hreq), Hof.
      rewrite (proj2 (Z.ltb_ge _ _)) by done. rewrite Hview. reflexivity. }
  eapply (advance_write c D _ v _ _ (ROrder (seq_orders D + 1)) None); [done|reflexivity| | | | |done].
  - intros r. apply cell_set_orders.
  - apply cell_none, fresh_seq, Hgood.
  - unfold seq_le. cbn. lia.
  - apply at_item; [done|]. cbn. lia.
Qed.

Lemma advance_item oid : oid ≤ seq_orders D → matches (w_order e p pid bid pr u oid) D v →
  advance c D (w_order e p pid bid pr u oid) (exec (s_item e no_hook p (p_price pr) oid) (view (dom (w_order e p pid bid pr u oid)) v D)).
Proof.
  intros Hoid HW. set (V := view _ v D). pose proof Hreq as [Hq Hi Hpid Hbid].
  destruct (cents_text (p_price pr)) as (y & Hy & Hyof); [apply Hfits|]. pose proof (proj1 (fits_product _ _ _ Hfits)) as Hprice.
  assert (Hvo : ∃ o, orders V !! oid = Some o) by (eexists; eapply view_orders_in; [done|w_look]). destruct Hvo as [o Hvo].
  assert (Hvp : ∃ o, products V !! pid = Some o) by (eexists; eapply view_products_in; [done|w_look]). destruct Hvp as [o' Hvp].
  unfold s_item. erewrite exec_ok; [| |reflexivity].
  2:{ unfold insert_item, numeric_param, with_id. rewrite Hy, Hpid, Hyof.
      rewrite (proj2 (Z.ltb_ge _ _)), (proj2 (Z.leb_gt _ _)) by lia. cbn [orb]. rewrite Hvp, Hvo. reflexivity. }
  eapply (advance_write c D _ v _ _ (RItem (seq_items D + 1)) None); [done|reflexivity| | | | |done].
  - intros r. apply cell_set_items.
  - apply cell_none, fresh_seq, Hgood.
  - unfold seq_le. cbn. lia.
  - apply at_job; [done|done|]. cbn. lia.
Qed.

Lemma advance_job oid iid : oid ≤ seq_orders D → iid ≤ seq_items D → matches (w_item e p pid bid pr u oid iid) D v →
  advance c D (w_item e p pid bid pr u oid iid) (exec (s_job e no_hook p (p_price pr) oid) (view (dom (w_item e p pid bid pr u oid iid)) v D)).
Proof.
  intros Hoid Hiid HW. set (V := view _ v D).
  assert (Hvo : ∃ o, orders V !! oid = Some o) by (eexists; eapply view_orders_in; [done|w_look]). destruct Hvo as [o Hvo].
  unfold s_job. erewrite exec_ok; [|unfold insert_job; rewrite Hvo; reflexivity|reflexivity].
  eapply (advance_write c D _ v _ _ (RJob (seq_jobs D + 1)) None); [done|reflexivity| | | | |].
  - intros r. apply cell_set_jobs.
  - apply cell_none, fresh_seq, Hgood.
  - unfold seq_le. cbn. lia.
  - apply at_bind; [done|done|done|]. cbn. lia.
  - unfold s_bind. by destruct (idempotencyKey p).
Qed.

Context (oid iid jid : Z) (Hoid : oid ≤ seq_orders D) (Hiid : iid ≤ seq_items D) (Hjid : jid ≤ seq_jobs D).

Lemma advance_outbox : outbox D !! outbox_id e = None → matches (w_bind e p pid bid pr u oid iid jid) D v →
  advance c D (w_bind e p pid bid pr u oid iid jid)
    (exec (s_outbox e no_hook p (p_price pr) oid) (view (dom (w_bind e p pid bid pr u oid iid jid)) v D)).
Proof.
  intros Ho HW. set (V := view _ v D).
  assert (Hview : outbox V !! outbox_id e = None).
  { rewrite <-Ho. apply view_outbox_out; [done|]. w_look. }
  unfold s_outbox. erewrite exec_ok; [|unfold insert_outbox; rewrite Hview; reflexivity|reflexivity].
  eapply (advance_write c D _ v _ _ (ROutbox (outbox_id e)) None); [done|reflexivity| | |done| |done].
  - intros r. apply cell_set_outbox.
  - by apply cell_none.
  - exact (at_commit c (rollback D _) pr u oid iid jid Hfits Hoid Hiid Hjid).
Qed.

Lemma advance_bind : outbox D !! outbox_id e = None → matches (w_job e p pid bid pr u oid iid jid) D v →
  advance c D (w_job e p pid bid pr u oid iid jid)
    (exec (s_bind e no_hook p (p_price pr) oid) (view (dom (w_job e p pid bid pr u oid iid jid)) v D)).
Proof.
  intros Ho HW. set (V := view _ v D). destruct (idempotencyKey p) as [k|] eqn:Hk.
  2:{ assert (w_job e p pid bid pr u oid iid jid = w_bind e p pid bid pr u oid iid jid) as Heq by (unfold w_bind; by rewrite Hk).
      unfold V. rewrite Heq in HW |- *. unfold s_bind. rewrite Hk. by apply advance_outbox. }
  assert (Hw : w_job e p pid bid pr u oid iid jid !! RKey k = Some (None, CKey None)).
  { unfold w_job, w_item, w_order, w_charge, w_stock, w_claim. rewrite Hk, !lookup_insert_ne by done. apply lookup_singleton_eq. }
  assert (Hvo : ∃ o, orders V !! oid = Some o) by (eexists; eapply view_orders_in; [done|w_look]). destruct Hvo as [o Hvo].
  unfold s_bind. rewrite Hk. erewrite exec_ok; [| |reflexivity].
  2:{ unfold bind_key. unfold V. rewrite (view_keys_in _ D v HW k _ _ Hw). fold V. rewrite Hvo. reflexivity. }
  eapply (advance_write c D _ v _ _ (RKey k) None (CKey (Some oid))); [done|reflexivity| | |done| |done].
  - intros r. apply cell_set_keys.
  - by apply (HW (RKey k) _ _ Hw).
  - assert (<[RKey k := (None, CKey (Some oid))]> (w_job e p pid bid pr u oid iid jid) = w_bind e p pid bid pr u oid iid jid) as ->
      by (unfold w_bind; by rewrite Hk).
    by apply at_outbox.
Qed.
End statements.

(** Every statement of an open session answers, never raises, and leads to the
    next stage; a refusal is what the checkout alone would answer now. *)
Lemma stage_advance c D v W s :
  request_ok (c_params c) (c_pid c) (c_bid c) → good D → matches W D v → outbox D !! outbox_id (c_env c) = None →
  stage c D W s → (∃ x, s = Ret (Ok x)) ∨ advance c D W (exec s (view (dom W) v D)).
Proof.
  intros Hreq Hgood HW Ho Hs. destruct Hs; try (by left; eexists); right.
  - destruct (idempotencyKey (c_params c)) as [k|] eqn:Hk; [by apply (advance_claim c D v Hgood k)|].
    assert (∅ = w_claim (c_params c)) as Heq by (unfold w_claim; by rewrite Hk).
    rewrite Heq in HW |- *. unfold checkout_script. rewrite Hk. by apply advance_stock.
  - by eapply advance_previous.
  - by apply advance_stock.
  - by apply advance_charge.
  - by apply advance_email.
  - by apply advance_order.
  - by apply advance_item.
  - by apply advance_job.
  - by apply advance_bind.
  - by apply advance_outbox.
Qed.

(** ** COMMIT *)

Definition with_ids (oid iid jid : Z) (D : db) : db :=
  Db (users D) (products D) (orders D) (order_items D) (job_queue D) (idempotency_keys D) (outbox D) (processed_messages D)
     (order_receipts D) (refresh_tokens D) (access_denylist D) (files D) (oid - 1) (iid - 1) (jid - 1) (seq_tokens D).

Lemma purchase_cells e p pid bid pr u oid iid jid D r :
  cell_at (purchase e p pid bid pr u (with_ids oid iid jid D)) r =
    match w_outbox e p pid bid pr u oid iid jid !! r with Some (_, n) => Some n | None => cell_at D r end.
Proof.
  unfold w_outbox, w_bind, w_job, w_item, w_order, w_charge, w_stock, w_claim, purchase, with_ids. cbn [seq_orders seq_items seq_jobs].
  rewrite !Z.sub_add. destruct r; cbn; destruct (idempotencyKey p) as [k|];
    rewrite ?lookup_insert; repeat case_decide; simplify_eq; try done;
    rewrite ?lookup_insert_ne, ?lookup_singleton_ne, ?lookup_empty by congruence; try done.
Qed.

Lemma fits_paid p pr u : 0 < quantity p → int4 (quantity p) = true → fits p pr u →
  user_ok (UserRow (u_email u) (u_full_name u) (u_balance u - p_price pr * quantity p) (u_password_hash u) (u_role u)) ∧
  product_ok (ProductRow (p_sku pr) (p_name pr) (p_price pr) (p_is_active pr) (p_stock pr - quantity p)).
Proof.
  intros Hq Hi [(Hpr & Hs & Hs4) Hle Hu Haff]. pose proof (int4_range _ Hi). apply int4_range in Hs4.
  destruct (affordable_amount (u_balance u) (p_price pr) (quantity p)) as (x & _ & Ha & Hge & _); [done|lia|done|].
  rewrite Haff in Ha. destruct (Hge (eq_sym Ha)) as (Hcost & _). unfold user_ok in *.
  split; cbn; [nia|]. split_and!; cbn; [lia..|]. unfold int4. apply andb_true_iff. rewrite !Z.leb_le. lia.
Qed.

Lemma purchase_good e p pid bid pr u oid iid jid D : good D → 0 < quantity p → int4 (quantity p) = true → fits p pr u →
  oid ≤ seq_orders D → iid ≤ seq_items D → jid ≤ seq_jobs D →
  good (rollback (purchase e p pid bid pr u (with_ids oid iid jid D)) D).
Proof.
  intros Hgood Hq Hi Hf Ho Hit Hj. destruct (fits_paid p pr u Hq Hi Hf) as [Hu Hp]. destruct Hgood as [G1 G2 G3 G4 G5 G6].
  unfold purchase, with_ids, rollback. cbn. rewrite !Z.sub_add.
  assert (Hkeys : ∀ k o, idempotency_keys D !! k = Some o → ∃ oid', o = Some oid' ∧ is_Some (<[oid := OrderRow bid (u_email u) paid (p_price pr * quantity p) (now e)]> (orders D) !! oid')).
  { intros k o Hk. destruct (G3 k o Hk) as (oid' & -> & Hs). exists oid'. split; [done|by apply is_Some_insert]. }
  split; cbn; try (by apply map_Forall_insert_2).
  - destruct (idempotencyKey p) as [k'|]; [|done]. intros k o. rewrite lookup_insert. case_decide; [|apply Hkeys].
    intros [= <-]. exists oid. rewrite lookup_insert_eq. eauto.
  - intros i. rewrite lookup_insert. case_decide; [lia|apply G4].
  - intros i. rewrite lookup_insert. case_decide; [lia|apply G5].
  - intros i. rewrite lookup_insert. case_decide; [lia|apply G6].
Qed.

Lemma good_rows D D' : good D → same_rows D D' → seq_orders D' = seq_orders D → seq_items D' = seq_items D → seq_jobs D' = seq_jobs D → good D'.
Proof. intros [? ? ? ? ? ?] <- E1 E2 E3. cbn in E1, E2, E3. split; cbn; rewrite ?E1, ?E2, ?E3; done. Qed.

(** What other sessions rely on: sequences grow, keys stay bound, orders stay. *)
Definition keeps (D D' : db) : Prop :=
  seq_le D D' ∧ (∀ k oid, idempotency_keys D !! k = Some (Some oid) → idempotency_keys D' !! k = Some (Some oid)) ∧
  (∀ i o, orders D !! i = Some o → orders D' !! i = Some o).

Lemma keeps_sequences D D' : same_rows D D' → seq_le D D' → keeps D D'.
Proof. intros <- ?. by split_and!. Qed.

Lemma stage_keeps c D D' W s : keeps D D' → stage c D W s → stage c D' W s.
Proof.
  intros ((? & ? & ? & ?) & Hk & Ho) Hs. destruct Hs; try (by constructor); try (constructor; [done|lia..]).
  eapply at_previous; eauto.
Qed.

Lemma stage_commit c D v W r :
  request_ok (c_params c) (c_pid c) (c_bid c) → good D → matches W D v → outbox D !! outbox_id (c_env c) = None →
  stage c D W (Ret (Ok (Commit r))) →
  alone c D r (view (dom W) v D) ∧ good (view (dom W) v D) ∧
  (∀ k, outbox (view (dom W) v D) !! k = None ↔ k ≠ outbox_id (c_env c) ∧ outbox D !! k = None) ∧
  keeps D (view (dom W) v D).
Proof.
  intros Hreq Hgood HW Ho Hs. remember (Ret (Ok (Commit r))) as s eqn:Hr.
  destruct Hs as [| | | | | | | | | |pr u oid iid jid Hf Hoid Hiid Hjid|]; try discriminate Hr.
  1: { exfalso. revert Hr. unfold checkout_script. by destruct (idempotencyKey _). }
  1: { exfalso. revert Hr. unfold s_bind. by destruct (idempotencyKey _). }
  injection Hr as <-. pose proof Hreq as [Hq Hi Hpid Hbid].
  set (W := w_outbox _ _ _ _ _ _ _ _ _) in *. set (P := purchase (c_env c) (c_params c) (c_pid c) (c_bid c) pr u (with_ids oid iid jid D)).
  assert (Hrows : same_rows P (view (dom W) v D)).
  { apply cell_ext. intros r. rewrite (view_cell W D v r HW). apply purchase_cells. }
  assert (Hold : ∀ r o n, W !! r = Some (o, n) → cell_at D r = o) by (intros r o n Hr; by apply (HW r o n)).
  assert (Hk : ∀ k, idempotencyKey (c_params c) = Some k → idempotency_keys D !! k = None).
  { intros k Hk. apply (cell_none _ CKey), (Hold (RKey k) None (CKey (Some oid))). subst W. unfold w_outbox, w_bind.
    rewrite Hk, lookup_insert_ne, lookup_insert_eq by done. done. }
  assert (Hno : orders D !! oid = None) by (eapply cell_none; eapply (Hold (ROrder oid)); subst W; w_look).
  split; [|split; [|split]].
  - assert (Hfresh : fresh_ids (with_ids oid iid jid D)).
    { split_and!; cbn; rewrite Z.sub_add; eapply cell_none;
        [eapply (Hold (ROrder oid))|eapply (Hold (RItem iid))|eapply (Hold (RJob jid))]; subst W; w_look. }
    destruct (alone_purchase c D Hreq Hk (with_ids oid iid jid D) pr u Hfresh) as (d & t' & d' & H1 & H2 & H3 & H4); try done.
    + apply cell_products, (Hold _ _ (CProduct (ProductRow (p_sku pr) (p_name pr) (p_price pr) (p_is_active pr) (p_stock pr - quantity (c_params c))))). subst W. w_look.
    + apply cell_users, (Hold _ _ (CUser (UserRow (u_email u) (u_full_name u) (u_balance u - p_price pr * quantity (c_params c)) (u_password_hash u) (u_role u)))). subst W. w_look.
    + cbn in H4. rewrite Z.sub_add in H4. exists d, t', d'. split_and!; try done. etrans; [exact H3|exact Hrows].
  - eapply good_rows; [apply (purchase_good (c_env c) (c_params c) (c_pid c) (c_bid c) pr u oid iid jid D); done| |done..].
    etrans; [|exact Hrows]. symmetry. apply rollback_same.
  - intros k. rewrite <-(cell_none _ COutbox), <-(cell_none (outbox D !! k) COutbox).
    change (cell_at (view (dom W) v D) (ROutbox k) = None ↔ k ≠ outbox_id (c_env c) ∧ cell_at D (ROutbox k) = None).
    rewrite (view_cell W D v _ HW). destruct (decide (k = outbox_id (c_env c))) as [->|Hne].
    + assert (W !! ROutbox (outbox_id (c_env c)) ≠ None) as HWo by (subst W; unfold w_outbox; by rewrite lookup_insert_eq).
      destruct (W !! _) as [[? ?]|]; [naive_solver|done].
    + assert (W !! ROutbox k = None) as -> by (subst W; w_look). naive_solver.
  - split; [unfold seq_le; cbn; lia|]. split.
    + intros k o Hko. rewrite (view_keys_out W D v HW k); [done|]. subst W. unfold w_outbox, w_bind, w_job, w_item, w_order, w_charge, w_stock, w_claim.
      destruct (idempotencyKey (c_params c)) as [k'|]; rewrite ?lookup_insert_ne, ?lookup_empty by done; [|done].
      assert (k' ≠ k) by (intros ->; rewrite (Hk k eq_refl) in Hko; done).
      rewrite !lookup_insert_ne, lookup_singleton_ne by congruence. done.
    + intros i o Hio. rewrite (view_orders_out W D v HW i); [done|]. assert (oid ≠ i) by (intros ->; congruence). subst W. w_look.
Qed.

(** ** The invariant of all sessions *)

Definition session_ok (D : db) (c : client) (x : session CheckoutResult) : Prop :=
  match x with
  | Waiting s => s = checkout_script (c_env c) no_hook (c_params c) ∧ outbox D !! outbox_id (c_env c) = None
  | Open L v s => outbox D !! outbox_id (c_env c) = None ∧ ∃ W, L = dom W ∧ matches W D v ∧ stage c D W s
  | Closed _ => True
  end.

(** The answer a session has given, or can only give. *)
Definition decided (x : session CheckoutResult) : option CheckoutResult :=
  match x with Closed (Ok r) | Open _ _ (Ret (Ok (Rollback r))) => Some r | _ => None end.
Definition failed (x : session CheckoutResult) : Prop := ∃ e, x = Closed (Err e).

Context (faults : bool) (D0 : db).
Record inv (s : state CheckoutResult) (l : list (nat * CheckoutResult)) : Prop := {
  inv_serial : serial D0 l (committed s);
  inv_good : good (committed s);
  inv_sessions : ∀ i x, sessions s !! i = Some x → ∃ c, clients !! i = Some c ∧ session_ok (committed s) c x;
  inv_all : ∀ i, is_Some (clients !! i) → is_Some (sessions s !! i);
  inv_locks : ∀ i j x y, i ≠ j → sessions s !! i = Some x → sessions s !! j = Some y → held x ## held y;
  inv_once : NoDup l.*1;
  inv_decided : ∀ i x r, sessions s !! i = Some x → decided x = Some r → (i, r) ∈ l;
  inv_listed : ∀ i r, (i, r) ∈ l → ∃ x, sessions s !! i = Some x ∧ (decided x = Some r ∨ failed x);
  inv_failed : ∀ i x, sessions s !! i = Some x → failed x → faults = true;
}.

(** One session moves: either the order of the finished ones stays, or this one
    is appended to it. *)
Definition moves (i : nat) (x x' : session CheckoutResult) (l l' : list (nat * CheckoutResult)) : Prop :=
  (l' = l ∧ (∀ r, decided x' = Some r → decided x = Some r) ∧ (decided x' = decided x ∨ failed x') ∧ ¬ failed x) ∨
  (∃ r, l' = l ++ [(i, r)] ∧ decided x = None ∧ ¬ failed x ∧ (decided x' = Some r ∨ (decided x' = None ∧ failed x'))).

Lemma inv_move D D' ss i x x' c l l' :
  inv (State D ss) l → ss !! i = Some x → clients !! i = Some c →
  serial D0 l' D' → good D' → session_ok D' c x' →
  (∀ j y c', j ≠ i → ss !! j = Some y → clients !! j = Some c' → session_ok D c' y → session_ok D' c' y) →
  (∀ j y, j ≠ i → ss !! j = Some y → held x' ## held y) →
  moves i x x' l l' → (failed x' → faults = true) →
  inv (State D' (<[i := x']> ss)) l'.
Proof.
  intros [I1 I2 I3 I4 I5 I6 I7 I8 I9] Hi Hc Hser Hgood Hx' Hothers Hheld Hmoves Hf. cbn in *.
  split; cbn; try done.
  - intros j y. rewrite lookup_insert. case_decide; [intros [= <-]; subst; eauto|]. intros Hj.
    destruct (I3 j y Hj) as (c' & Hc' & Hok). exists c'. split; [done|]. by eapply Hothers.
  - intros j Hj. apply is_Some_insert. by apply I4.
  - intros j k y z Hjk. rewrite !lookup_insert. repeat case_decide; subst; try congruence.
    + intros [= <-] Hz. by apply (Hheld k).
    + intros Hy [= <-]. symmetry. by apply (Hheld j).
    + by apply I5.
  - destruct Hmoves as [(-> & _)|(r & -> & Hdx & Hfx & _)]; [done|]. rewrite fmap_app. apply NoDup_app. split_and!; [done| |apply NoDup_singleton].
    intros j Hj Hji. cbn in Hji. apply list_elem_of_singleton in Hji. subst j. apply list_elem_of_fmap in Hj as ([j' r'] & -> & Hin). cbn in *.
    destruct (I8 j' r' Hin) as (y & Hy & Hd). rewrite Hi in Hy. injection Hy as <-. destruct Hd; [congruence|done].
  - intros j y r. rewrite lookup_insert. case_decide; subst.
    + intros [= <-] Hd. destruct Hmoves as [(-> & Hd' & _)|(r' & -> & _ & _ & [Hd'|[Hd' _]])].
      * by eapply I7; [|apply Hd'].
      * rewrite Hd in Hd'. injection Hd' as ->. set_solver.
      * congruence.
    + intros Hj Hd. pose proof (I7 j y r Hj Hd). destruct Hmoves as [(-> & _)|(r' & -> & _)]; set_solver.
  - intros j r Hin. assert ((j, r) ∈ l ∨ (j = i ∧ (decided x' = Some r ∨ failed x') ∧ decided x = None)) as [Hl|(-> & Hd & _)].
    { destruct Hmoves as [(-> & _)|(r' & -> & Hn & _ & Hd)]; [by left|]. apply elem_of_app in Hin as [?|Hin]; [by left|].
      apply list_elem_of_singleton in Hin. injection Hin as -> ->. right. naive_solver. }
    2:{ exists x'. by rewrite lookup_insert_eq. }
    destruct (I8 j r Hl) as (y & Hy & Hd). rewrite lookup_insert. case_decide; [|eauto]. subst. rewrite Hi in Hy. injection Hy as <-.
    exists x'. split; [done|]. destruct Hmoves as [(_ & _ & Hm & Hnf)|(r' & _ & Hn & Hnf & _)]; [|naive_solver congruence].
    destruct Hd as [Hd|]; [|done]. destruct Hm as [->|]; [by left|by right].
  - intros j y. rewrite lookup_insert. case_decide; [by intros [= <-]|apply I9].
Qed.

Context (Hclients : ∀ i c, clients !! i = Some c → request_ok (c_params c) (c_pid c) (c_bid c)).
Context (Huuid : ∀ i j c c', i ≠ j → clients !! i = Some c → clients !! j = Some c' → outbox_id (c_env c) ≠ outbox_id (c_env c')).

Lemma session_keeps D D' c x : same_rows D D' → keeps D D' → session_ok D c x → session_ok D' c x.
Proof.
  intros Hs Hk. assert (outbox D' = outbox D) as Ho by (by rewrite <-Hs). destruct x as [s|L v s|r]; cbn; rewrite ?Ho; [done| |done].
  intros (Hu & W & -> & HW & Hst). split; [done|]. exists W. split_and!; [done| |by eapply stage_keeps].
  intros r o n Hr. destruct (HW r o n Hr) as [H1 H2]. by rewrite <-(cell_same D D' Hs).
Qed.

(** A step of one session that leaves the committed rows alone. *)
Lemma inv_quiet D D' ss i x x' c l :
  inv (State D ss) l → same_rows D D' → seq_le D D' → ss !! i = Some x → clients !! i = Some c →
  session_ok D' c x' → (∀ j y, j ≠ i → ss !! j = Some y → held x' ## held y) → ¬ failed x →
  (decided x' = decided x ∨ failed x' ∨ (decided x = None ∧ ∃ r, decided x' = Some r ∧ alone c D r D)) →
  (failed x' → faults = true) → ∃ l', inv (State D' (<[i := x']> ss)) l'.
Proof.
  intros Hinv Hs Hle Hi Hc Hx' Hheld Hnf Hd Hf. pose proof Hinv as [I1 I2 I3 I4 I5 I6 I7 I8 I9]. cbn in *.
  assert (Hkeep : ∀ j y c', j ≠ i → ss !! j = Some y → clients !! j = Some c' → session_ok D c' y → session_ok D' c' y).
  { intros j y c' _ _ _. by apply session_keeps, keeps_sequences. }
  assert (Hgood : good D') by (by eapply good_sequences).
  destruct Hd as [Hd|[Hd|(Hn & r & Hd & Ha)]].
  - exists l. apply (inv_move D D' ss i x x' c l l); try done; [by eapply serial_same|]. left. rewrite Hd. split_and!; auto.
  - exists l. apply (inv_move D D' ss i x x' c l l); try done; [by eapply serial_same|]. left. split_and!; auto.
    destruct Hd as [e ->]. by intros r.
  - exists (l ++ [(i, r)]). apply (inv_move D D' ss i x x' c l _); try done.
    + eapply serial_same; [|exact Hs]. by eapply serial_snoc.
    + right. exists r. split_and!; auto.
Qed.

(** A step that commits: the rows of the session become the committed ones. *)
Lemma inv_commit D ss i L v r x' c l :
  inv (State D ss) l → ss !! i = Some (Open L v (Ret (Ok (Commit r)))) → clients !! i = Some c →
  (x' = Closed (Ok r) ∨ (faults = true ∧ ∃ e, x' = Closed (Err e))) →
  inv (State (view L v D) (<[i := x']> ss)) (l ++ [(i, r)]).
Proof.
  intros Hinv Hi Hc Hx'. pose proof Hinv as [I1 I2 I3 I4 I5 I6 I7 I8 I9]. cbn in *.
  destruct (I3 _ _ Hi) as (c0 & Hc0 & Ho & W & -> & HW & Hst). rewrite Hc in Hc0. injection Hc0 as <-.
  destruct (stage_commit c D v W r (Hclients i c Hc) I2 HW Ho Hst) as (Halone & Hgood & Hout & Hkeep).
  eapply (inv_move D); [done|done|done| |done| | | | |].
  - by eapply serial_snoc.
  - by destruct Hx' as [->|[_ [e ->]]].
  - intros j y c' Hji Hj Hc'. pose proof (Huuid j i c' c Hji Hc' Hc) as Hne.
    destruct y as [s|L' v' s|r']; cbn; rewrite ?Hout; [by intros [-> ?]| |done].
    intros (? & W' & -> & HW' & Hst'). split; [done|]. exists W'. split_and!; [done| |by eapply stage_keeps].
    apply (matches_commit W' D v' W v HW' HW). apply (I5 j i _ _ Hji Hj Hi).
  - intros j y _ _. destruct Hx' as [->|[_ [e ->]]]; cbn; set_solver.
  - right. exists r. split_and!; [done|done|by intros [? ?]|]. destruct Hx' as [->|[_ [e ->]]]; [by left|right]. split; [done|by eexists].
  - destruct Hx' as [->|[? _]]; [by intros [? ?]|done].
Qed.

Lemma inv_sequences D D' ss l : inv (State D ss) l → same_rows D D' → seq_le D D' → inv (State D' ss) l.
Proof.
  intros [I1 I2 I3 I4 I5 I6 I7 I8 I9] Hs Hle. cbn in *. split; cbn; try done.
  - by eapply serial_same.
  - by eapply good_sequences.
  - intros i x Hi. destruct (I3 i x Hi) as (c & Hc & Hx). exists c. split; [done|]. eapply session_keeps; [done|by apply keeps_sequences|done].
Qed.

Lemma stage_no_throw c D W e : ¬ stage c D W (Ret (Err e)).
Proof.
  intros Hs. remember (Ret (Err e)) as s eqn:Hr. destruct Hs; try discriminate Hr; revert Hr.
  - unfold checkout_script. by destruct (idempotencyKey _).
  - unfold s_bind. by destruct (idempotencyKey _).
Qed.

Lemma inv_step s s' l : inv s l → step faults s s' → ∃ l', inv s' l'.
Proof.
  intros Hinv Hstep. pose proof Hinv as [I1 I2 I3 I4 I5 I6 I7 I8 I9].
  destruct Hstep as [i s D ss Hi|i L v s D ss rows s' d' Hi He Hfree|i L v s D ss rows e d' Hi He Hfree
    |i L v a D ss Hi|i L v a D ss Hi|i L v e D ss Hi|i x e D ss Hf Hi Hcl|i L v a e D ss Hf Hi|D D' ss Hf Hs Hle]; cbn in *.
  9: { exists l. by eapply inv_sequences. }
  all: destruct (I3 _ _ Hi) as (c & Hc & Hok).
  - destruct Hok as [-> Ho].
    eapply (inv_quiet D D); [done|done|reflexivity|done|done| | | |left; cbn; unfold checkout_script; by destruct (idempotencyKey _)|by intros [? ?]].
    + split; [done|]. exists ∅. split_and!; [done| |apply at_start]. intros r o n Hr. by rewrite lookup_empty in Hr.
    + intros j y _ _. cbn. set_solver.
    + by intros [? ?].
  - destruct Hok as (Ho & W & -> & HW & Hst). pose proof (Hclients i c Hc) as Hreq.
    destruct (stage_advance c D v W s Hreq I2 HW Ho Hst) as [[x ->]|(rows' & s'' & d'' & W' & He' & Hdom & HW' & Hle & Hst' & Hal)]; [done|].
    rewrite He' in He. injection He as -> -> ->.
    eapply (inv_quiet D (rollback D d')); [done|apply rollback_same|exact Hle|done|done| | | | |by intros [? ?]].
    + split; [done|]. exists W'. by split_and!.
    + intros j y Hji Hj. cbn. pose proof (I5 i j _ _ (not_eq_sym Hji) Hi Hj) as Hd. cbn in Hd.
      destruct (Hfree j y Hj); [done|]. set_solver.
    + by intros [? ?].
    + assert (decided (Open (dom W) v s) = None) as Hn by (destruct s as [x|]; [done|done]). rewrite Hn.
      destruct s' as [[[a|a]|e]|]; cbn; auto. right; right. split; [done|]. exists a. split; [done|]. by apply Hal.
  - destruct Hok as (Ho & W & -> & HW & Hst). pose proof (Hclients i c Hc) as Hreq.
    destruct (stage_advance c D v W s Hreq I2 HW Ho Hst) as [[x ->]|(rows' & s'' & d'' & W' & He' & _)]; [done|]. congruence.
  - eexists. eapply inv_commit; [done..|by left].
  - eapply (inv_quiet D D); [done|done|reflexivity|done|done|done| | |by left|by intros [? ?]].
    + intros j y _ _. cbn. set_solver.
    + by intros [? ?].
  - destruct Hok as (_ & W & _ & _ & Hst). by apply stage_no_throw in Hst.
  - eapply (inv_quiet D D); [done|done|reflexivity|done|done|done| | | |done].
    + intros j y _ _. cbn. set_solver.
    + by intros [? ->].
    + right; left. by eexists.
  - eexists. eapply inv_commit; [done..|right]. eauto.
Qed.

(** ** No deadlock

    Locks are taken in one order: the idempotency key, then the product, then the
    buyer; everything after that is new and nobody else's. *)

Definition kind (r : row) : nat := match r with RUser _ => 3 | RProduct _ => 2 | RKey _ => 1 | _ => 0 end.

Lemma stage_held c D W s r : stage c D W s → is_Some (W !! r) →
  match r with
  | ROrder i => i ≤ seq_orders D | RItem i => i ≤ seq_items D | RJob i => i ≤ seq_jobs D
  | ROutbox k => k = outbox_id (c_env c) | _ => True
  end.
Proof.
  intros Hs Hr. destruct Hs; try (rewrite lookup_empty in Hr; by destruct Hr).
  10: { match goal with He : early _ |- _ => specialize (He r Hr) end. by destruct r. }
  all: unfold w_outbox, w_bind, w_job, w_item, w_order, w_charge, w_stock, w_claim in Hr; destruct r; try done;
    destruct (idempotencyKey _); rewrite ?lookup_insert, ?lookup_singleton, ?lookup_empty in Hr; repeat case_decide; simplify_eq;
    try (by destruct Hr); done.
Qed.

(** The row the next statement writes: a lock beyond those already held, a row
    of the transaction itself, or a new one. *)
Lemma next_row c D v W s rows x d' r :
  stage c D W s → exec s (view (dom W) v D) = Some (rows, x, d') → r ∈ rows →
  (0 < kind r ∧ ∀ r', r' ∈ dom W → kind r' < kind r)%nat ∨ r ∈ dom W ∨
  match r with
  | ROrder i => seq_orders D < i | RItem i => seq_items D < i | RJob i => seq_jobs D < i
  | ROutbox k => k = outbox_id (c_env c) | _ => False
  end.
Proof.
  intros Hs He Hr.
  assert (Hret : ∀ A (q : row) (y : result (answer A) * db), r ∈ returned q y → r = q).
  { intros A q y. unfold returned. repeat case_match; set_solver. }
  assert (Hclaim : ∀ r', r' ∈ dom (w_claim (c_params c)) → kind r' = 1%nat).
  { intros r'. unfold w_claim. destruct (idempotencyKey _); [|set_solver]. rewrite dom_singleton_L. by intros ->%elem_of_singleton. }
  assert (Hstock : ∀ pr r', r' ∈ dom (w_stock (c_params c) (c_pid c) pr) → (kind r' ≤ 2)%nat).
  { intros pr r'. unfold w_stock. rewrite dom_insert_L. intros [->%elem_of_singleton|Hr'%Hclaim]%elem_of_union; cbn; lia. }
  assert (Hprod : r ∈ on_product (c_params c) (view (dom W) v D) → kind r = 2%nat).
  { unfold on_product. destruct (bigint_in _); [|set_solver]. by intros ->%Hret. }
  assert (Hbuyer : ∀ t, r ∈ on_buyer (c_params c) t (view (dom W) v D) → kind r = 3%nat).
  { intros t. unfold on_buyer. destruct (bigint_in _); [|set_solver]. by intros ->%Hret. }
  destruct Hs as [|k oid o Hk _ _| |pr _ _|pr u _|pr u _|pr u oid _ _|pr u oid iid _ _ _|pr u oid iid jid _ _ _ _|pr u oid iid jid _ _ _ _|pr u oid iid jid _ _ _ _|W r' _ _];
    try discriminate He; try apply exec_rows in He as ->.
  - left. split; [|set_solver]. unfold checkout_script in He. destruct (idempotencyKey _) as [k|]; apply exec_rows in He as ->.
    + unfold on_key in Hr. destruct (idempotency_keys _ !! k); [set_solver|]. apply elem_of_singleton in Hr as ->. cbn. lia.
    + rewrite Hprod; [lia|exact Hr].
  - set_solver.
  - left. rewrite Hprod by exact Hr. split; [lia|]. intros r' ->%Hclaim. lia.
  - left. rewrite (Hbuyer _ Hr). split; [lia|]. intros r' Hr'%Hstock. lia.
  - set_solver.
  - apply elem_of_singleton in Hr as ->. right; right. cbn. lia.
  - apply elem_of_singleton in Hr as ->. right; right. cbn. lia.
  - apply elem_of_singleton in Hr as ->. right; right. cbn. lia.
  - unfold s_bind in He. destruct (idempotencyKey (c_params c)) as [k|] eqn:Hk; apply exec_rows in He as ->; apply elem_of_singleton in Hr as ->; [|by right; right].
    right; left. unfold w_job, w_item, w_order, w_charge, w_stock, w_claim. rewrite Hk, !dom_insert_L, dom_singleton_L. set_solver.
  - apply elem_of_singleton in Hr as ->. by right; right.
Qed.

Lemma moves_from s l (Hinv : inv s l) : ∀ m k i L v q, (k + m = 4)%nat → sessions s !! i = Some (Open L v q) →
  (k = 0%nat ∨ ∃ r, r ∈ L ∧ (k ≤ kind r)%nat) → ∃ s', step faults s s'.
Proof.
  destruct s as [D ss]. pose proof Hinv as [I1 I2 I3 I4 I5 I6 I7 I8 I9]. cbn in *.
  induction m as [|m IH]; intros k i L v q Hkm Hi Hk.
  { exfalso. destruct Hk as [->|(r & _ & Hr)]; [lia|]. destruct r; cbn in Hr; lia. }
  destruct (exec q (view L v D)) as [[[rows x] d']|] eqn:He.
  2:{ apply (open_moves faults i L v q D ss Hi). congruence. }
  destruct (decide (free_for i rows ss)) as [Hf|(j & y & r & Hj & Hji & Hr & Hy)%blocked].
  { apply (open_moves faults i L v q D ss Hi). intros rows' x' d'' He'. rewrite He in He'. by injection He' as <- _ _. }
  destruct (I3 _ _ Hi) as (c & Hc & Ho & W & -> & HW & Hst).
  destruct y as [|L' v' q'|]; [cbn in Hy; set_solver| |cbn in Hy; set_solver]. cbn in Hy.
  destruct (I3 _ _ Hj) as (c' & Hc' & _ & W' & -> & _ & Hst').
  pose proof (stage_held c' D W' q' r Hst' (proj1 (elem_of_dom _ _) Hy)) as Hheld.
  destruct (next_row c D v W q rows x d' r Hst He Hr) as [[Hpos Hlow]|[Hin|Hnew]].
  - apply (IH (S k) j (dom W') v' q'); [lia|done|right]. exists r. split; [done|].
    destruct Hk as [->|(r' & Hr' & Hkr)]; [lia|]. specialize (Hlow r' Hr'). lia.
  - exfalso. pose proof (I5 i j _ _ (not_eq_sym Hji) Hi Hj) as Hd. cbn in Hd. set_solver.
  - exfalso. destruct r; try done; try lia. subst. by eapply (Huuid i j c c').
Qed.

Lemma progress s l : inv s l → ¬ finished s → ∃ s', step faults s s'.
Proof.
  intros Hinv Hn. unfold finished in Hn. apply map_not_Forall in Hn as (i & x & Hi & Hx); [|intros; apply _].
  destruct x as [q|L v q|r]; [|by eapply (moves_from s l Hinv 4 0); [|exact Hi|left]|done].
  destruct s as [D ss]. eexists. by eapply s_begin.
Qed.

Lemma inv_start : db_ok D0 → (∀ i c, clients !! i = Some c → outbox D0 !! outbox_id (c_env c) = None) → inv (start D0) [].
Proof.
  intros Hok Ho.
  assert (Hs : ∀ i x, sessions (start D0) !! i = Some x → ∃ c, clients !! i = Some c ∧ x = Waiting (checkout_script (c_env c) no_hook (c_params c))).
  { intros i x. cbn. rewrite lookup_fmap. destruct (clients !! i) as [c|]; [|done]. intros [= <-]. eauto. }
  split; cbn [committed].
  - by apply serial_nil.
  - by apply db_ok_good.
  - intros i x (c & Hc & ->)%Hs. exists c. split; [done|]. split; [done|by eapply Ho].
  - intros i [c Hc]. cbn. rewrite lookup_fmap, Hc. by eexists.
  - intros i j x y _ (c & _ & ->)%Hs _. cbn. set_solver.
  - constructor.
  - intros i x r (c & _ & ->)%Hs. done.
  - intros i r Hin. by apply not_elem_of_nil in Hin.
  - intros i x (c & _ & ->)%Hs. by intros [? ?].
Qed.

Lemma inv_steps s l s' : inv s l → rtc (step faults) s s' → ∃ l', inv s' l'.
Proof.
  intros Hinv Hr. revert l Hinv. induction Hr as [s|s s1 s2 Hs _ IH]; intros l Hinv; [eauto|].
  destruct (inv_step _ _ _ Hinv Hs) as [l' Hl']. eauto.
Qed.
End race.

(** Well-formed requests under their own outbox ids. *)
Record workload (clients : gmap nat client) `{PgText} (D : db) : Prop := {
  wl_request : ∀ i c, clients !! i = Some c → request_ok (c_params c) (c_pid c) (c_bid c);
  wl_uuid : ∀ i j c c', i ≠ j → clients !! i = Some c → clients !! j = Some c' → outbox_id (c_env c) ≠ outbox_id (c_env c');
  wl_new : ∀ i c, clients !! i = Some c → outbox D !! outbox_id (c_env c) = None;
}.

Section theorems.
Context `{PgText, EventLib} (clients : gmap nat client).

Lemma race_inv faults D0 s :
  db_ok D0 → workload clients D0 → rtc (step faults) (start clients D0) s → ∃ l, inv clients faults D0 s l.
Proof.
  intros Hok [H1 H2 H3] Hr. eapply inv_steps; [done|done|by apply inv_start|done].
Qed.

(** C3: concurrent checkouts are serializable.  However the statements of any
    number of checkouts interleave under READ COMMITTED, and whatever fails on
    the way, the committed rows are those of the checkouts run alone one after
    the other in some order, each at most once; every answer a client has got is
    the answer of its run in that order; and a client that got none is in it
    only if it can no longer get another. *)
Theorem checkout_serializable faults D0 s :
  db_ok D0 → workload clients D0 → rtc (step faults) (start clients D0) s →
  ∃ l, serial clients D0 l (committed s) ∧ NoDup l.*1 ∧
    (∀ i r, sessions s !! i = Some (Closed (Ok r)) → (i, r) ∈ l) ∧
    (∀ i r, (i, r) ∈ l → ∃ x, sessions s !! i = Some x ∧
      (x = Closed (Ok r) ∨ (∃ L v, x = Open L v (Ret (Ok (Rollback r)))) ∨ (faults = true ∧ ∃ e, x = Closed (Err e)))).
Proof.
  intros Hok Hw Hr. destruct (race_inv _ _ _ Hok Hw Hr) as [l [I1 I2 I3 I4 I5 I6 I7 I8 I9]].
  exists l. split_and!; [done|done|intros i r Hi; by apply (I7 i _ r Hi)|].
  intros i r Hin. destruct (I8 i r Hin) as (x & Hx & Hd). exists x. split; [done|].
  destruct Hd as [Hd|Hf]; [|right; right; split; [by eapply I9|done]].
  destruct x as [q|L v [[[a|a]|e]|]|[a|e]]; try discriminate Hd; injection Hd as ->; [right; left; eauto|by left].
Qed.

(** C4: concurrent checkouts end.  Without faults a run of [n] clients has at
    most [12 n] steps, and as long as one of them has no answer another step is
    possible: no interleaving deadlocks, because every checkout takes its locks
    in the same order. *)
Theorem checkouts_end D0 s n :
  db_ok D0 → workload clients D0 → nsteps (step false) n (start clients D0) s →
  (n ≤ 12 * size clients)%nat ∧ (finished s ∨ ∃ s', step false s s').
Proof.
  intros Hok Hw Hn. split.
  - apply (steps_bounded _ _ _ ((λ _, 12%nat) <$> clients)) in Hn.
    + etrans; [exact Hn|]. apply Nat.eq_le_incl. clear. unfold total. induction clients as [|i c m Hi IH] using map_ind; [done|].
      rewrite fmap_insert, map_fold_insert_L, IH, map_size_insert_None; [lia|done|intros; lia|by rewrite lookup_fmap, Hi].
    + intros i x. cbn. rewrite !lookup_fmap. destruct (clients !! i) as [c|]; [|done]. intros [= <-].
      exists 12%nat. split; [done|]. exists 10%nat. split; [apply script_within|lia].
  - apply rtc_nsteps_2 in Hn. destruct (race_inv _ _ _ Hok Hw Hn) as [l Hl].
    destruct (decide (finished s)) as [Hf|Hf]; [by left|right]. destruct Hw. by eapply progress.
Qed.
End theorems.

(** ** Two buyers in turn *)

Section race_witnesses.
#[local] Existing Instance fix_text.
#[local] Existing Instance fix_events.

(** Two checkouts of the same product, one of them under an idempotency key,
    statement by statement in turn: the one with the key has one statement more
    before it reaches the product, so it waits for that row and goes on when the
    other has committed. *)
Definition two : gmap nat client := list_to_map
  [(0%nat, Client (buy_env 0) buy 7 1); (1%nat, Client (buy_env 1) (Params "1" "7" 3 None) 7 1)].
Definition half_way : state CheckoutResult := rounds 5 [0; 1]%nat (start two fix_db).
Definition both_done : state CheckoutResult := rounds 30 [0; 1]%nat (start two fix_db).

Lemma two_ok : workload two fix_db.
Proof.
  assert (Hc : ∀ i c, two !! i = Some c → (i = 0%nat ∧ c = Client (buy_env 0) buy 7 1) ∨ (i = 1%nat ∧ c = Client (buy_env 1) (Params "1" "7" 3 None) 7 1)).
  { intros i c Hi. apply elem_of_list_to_map_2 in Hi. rewrite !elem_of_cons, elem_of_nil in Hi. naive_solver. }
  split.
  - intros i c [[_ ->]|[_ ->]]%Hc; split; vm_compute; reflexivity.
  - intros i j c c' Hij [[-> ->]|[-> ->]]%Hc [[-> ->]|[-> ->]]%Hc; done.
  - intros i c [[_ ->]|[_ ->]]%Hc; vm_compute; reflexivity.
Qed.

(** Half way that one is blocked and the other is not. *)
Definition can_step (i : nat) (s : state CheckoutResult) : bool := match step_of i s with Some _ => true | None => false end.
Example waiting_for_the_row :
  (is_closed <$> sessions half_way !! 0%nat, can_step 0 half_way, can_step 1 half_way) = (Some false, false, true).
Proof. vm_compute. reflexivity. Qed.

Lemma checkout_serializable_witness :
  stock_of 7 (committed both_done) = 5 ∧ ∃ l, serial two fix_db l (committed both_done) ∧ NoDup l.*1.
Proof.
  split; [vm_compute; reflexivity|].
  destruct (checkout_serializable two false fix_db both_done fix_db_ok two_ok (rounds_sound false 30 [0; 1]%nat _)) as (l & Hl & Hnd & _).
  exists l. split; [exact Hl|exact Hnd].
Defined.

Lemma checkouts_end_witness : ∃ n, (n ≤ 24)%nat ∧ nsteps (step false) n (start two fix_db) half_way ∧ ∃ s, step false half_way s.
Proof.
  destruct (rtc_nsteps_1 _ _ (rounds_sound false 5 [0; 1]%nat (start two fix_db))) as [n Hn].
  destruct (checkouts_end two fix_db half_way n fix_db_ok two_ok Hn) as [Hle Hgo].
  exists n. split; [exact Hle|]. split; [exact Hn|]. destruct Hgo as [Hf|Hs]; [|exact Hs].
  exfalso. assert (bool_decide (finished half_way) = false) as Hno by (vm_compute; reflexivity).
  apply bool_decide_eq_false in Hno. exact (Hno Hf).
Defined.
End race_witnesses.
