(* ===== verification/Oversell.v ===== *)
(** The sale of a scarce product to many buyers at once (src/demo-race.ts):
    whatever the interleaving, exactly the stock is sold. *)
From stdpp Require Import pretty.
From S2P Require Import Prelude JsNumber Events Schema Sql Fixtures Checkout Isolation Race.
#[local] Open Scope Z_scope.

(** [results.filter((r) => r.ok)] *)
Definition ok (r : CheckoutResult) : bool := match r with CheckoutSuccess _ _ _ => true | CheckoutFailure _ => false end.

(** ** One unit each of one product *)

Section sale.
Context `{PgText, EventLib} (clients : gmap nat client) (D0 : db) (pid : Z) (pr0 : product_row).

(** Everybody wants one unit and has the money for as many as there are clients. *)
Record one_each : Prop := {
  oe_product : products D0 !! pid = Some pr0;
  oe_request : ∀ i c, clients !! i = Some c → c_pid c = pid ∧ quantity (c_params c) = 1 ∧ idempotencyKey (c_params c) = None;
  oe_buyer : ∀ i c, clients !! i = Some c → ∃ u, users D0 !! c_bid c = Some u ∧ p_price pr0 * Z.of_nat (size clients) < u_balance u;
}.

Context (Hok : db_ok D0) (Hw : workload clients D0) (Hone : one_each).

Definition sold_in (l : list (nat * CheckoutResult)) : Z := Z.of_nat (length (filter (λ x, ok x.2 = true) l)).

Lemma sold_in_snoc l i r : sold_in (l ++ [(i, r)]) = sold_in l + (if ok r then 1 else 0).
Proof.
  unfold sold_in. rewrite filter_app, length_app, filter_cons. cbn. destruct (ok r); case_decide; cbn; try done; lia.
Qed.

(** The rows after [n] sales to the clients of [l]. *)
Record selling (l : list (nat * CheckoutResult)) (D : db) (n : Z) : Prop := {
  sl_product : ∃ pr, products D !! pid = Some pr ∧ p_price pr = p_price pr0 ∧ p_stock pr = p_stock pr0 - n ∧ product_ok pr;
  sl_users : ∀ b u0, users D0 !! b = Some u0 → ∃ u, users D !! b = Some u ∧ u_balance u0 - p_price pr0 * n ≤ u_balance u ≤ u_balance u0;
  sl_outbox : ∀ i c, clients !! i = Some c → i ∉ l.*1 → outbox D !! outbox_id (c_env c) = None;
}.

Lemma selling_same l D D' n : same_rows D D' → selling l D n → selling l D' n.
Proof. intros <- [? ? ?]. by split. Qed.

(** What one checkout of the sale answers and does. *)
Lemma sale_step i c D r D' pr u :
  clients !! i = Some c → products D !! pid = Some pr → product_ok pr → users D !! c_bid c = Some u → user_ok u →
  affordable (u_balance u) (p_price pr) 1 = true → outbox D !! outbox_id (c_env c) = None → alone c D r D' →
  (1 ≤ p_stock pr ∧ ok r = true ∧ ∃ d, same_rows D d ∧ same_rows (purchase (c_env c) (c_params c) pid (c_bid c) pr u d) D') ∨
  (p_stock pr < 1 ∧ ok r = false ∧ same_rows D D').
Proof.
  intros Hc Hp Hpr Hu Huok Haff Ho (d & t & d' & Hs & _ & Hs' & Hrun).
  destruct (oe_request Hone i c Hc) as (Epid & Eq & Ekey).
  pose proof (wl_request _ _ Hw i c Hc) as Hreq. rewrite Epid in Hreq.
  assert (products d = products D ∧ users d = users D ∧ outbox d = outbox D) as (E1 & E2 & E3) by (by rewrite <-Hs).
  assert (Hcl : claimed (c_params c) d = d) by (unfold claimed; by rewrite Ekey).
  assert (Hkey : ∀ k, idempotencyKey (c_params c) = Some k → idempotency_keys d !! k = None) by (by rewrite Ekey).
  destruct (Z.lt_ge_cases (p_stock pr) 1) as [Hlt|Hge]; [right|left]; split; try done.
  - destruct (checkout_place (c_env c) (c_params c) d 0%nat (λ x _, x = Rollback (CheckoutFailure out_of_stock)) Hkey) as (x & t' & d1 & -> & Hrun').
    { intros t0. do 3 eexists. split; [|reflexivity]. rewrite Hcl. apply (place_out_of_stock _ _ pid); [apply Hreq|apply Hreq|].
      rewrite E1, Hp. intros ? [= <-]. by rewrite Eq. }
    rewrite Hrun in Hrun'. injection Hrun' as -> _ ->. split; [done|]. etrans; [exact Hs|]. etrans; [|exact Hs']. apply rollback_same.
  - destruct (checkout_place (c_env c) (c_params c) d 0%nat
      (λ x d1, (∃ o m, x = Commit (CheckoutSuccess o m false)) ∧ d1 = purchase (c_env c) (c_params c) pid (c_bid c) pr u d) Hkey) as (x & t' & d1 & [(o & m & ->) ->] & Hrun').
    { intros t0. destruct (place_commits (c_env c) (c_params c) pid (c_bid c) pr u (claimed (c_params c) d) t0) as (t1 & Hr);
        rewrite ?Hcl, ?E1, ?E2, ?E3, ?Eq in *; try done; [by rewrite Ekey|]. eauto 10. }
    rewrite Hrun in Hrun'. injection Hrun' as -> _ ->. split; [done|]. exists d. by split.
Qed.

Lemma serial_length l D : serial clients D0 l D → NoDup l.*1 → (length l ≤ size clients)%nat.
Proof.
  intros Hl Hnd. rewrite <-(length_fmap fst l), <-(size_dom (D := gset nat) clients). unfold size, set_size. cbn.
  apply submseteq_length, NoDup_submseteq; [done|]. intros i Hi. apply elem_of_elements, elem_of_dom. revert i Hi.
  clear Hnd. induction Hl as [|l D i c r D' _ IH Hc _]; intros j; [by intros ?%not_elem_of_nil|]. rewrite fmap_app.
  intros [?|Hj]%elem_of_app; [by apply IH|]. cbn in Hj. apply list_elem_of_singleton in Hj. subst j. by exists c.
Qed.

(** One after the other they sell until the stock is gone. *)
Lemma serial_sale l D : serial clients D0 l D → NoDup l.*1 →
  selling l D (sold_in l) ∧ sold_in l = Z.min (Z.of_nat (length l)) (p_stock pr0).
Proof.
  pose proof (ok_products _ Hok _ _ (oe_product Hone)) as Hpr0. pose proof Hpr0 as (Hprice & Hst0 & _).
  induction 1 as [D Hs|l D i c r D' Hl IH Hc Ha]; intros Hnd.
  { change (sold_in []) with 0. split; [|cbn [length]; lia]. apply (selling_same _ D0); [done|]. split; cbn.
    - exists pr0. split_and!; try done; [apply Hone|lia].
    - intros b u0 Hu. exists u0. split; [done|lia].
    - intros i c Hc _. by apply (wl_new _ _ Hw i c). }
  rewrite fmap_app in Hnd. apply NoDup_app in Hnd as (Hnd & Hni & _). destruct (IH Hnd) as [[(pr & Hp & Ep & Es & Hpok) Hus Hob] Hn].
  assert (Hil : i ∉ l.*1) by (intros Hi; apply (Hni i Hi); by apply list_elem_of_singleton).
  assert (Hlen : Z.of_nat (length l) < Z.of_nat (size clients)).
  { pose proof (serial_length (l ++ [(i, r)]) D') as Hll. rewrite length_app in Hll. cbn in Hll.
    assert (length l + 1 ≤ size clients)%nat; [|lia]. apply Hll; [by eapply serial_snoc|].
    rewrite fmap_app. apply NoDup_app. split_and!; [done|done|apply NoDup_singleton]. }
  destruct (oe_buyer Hone i c Hc) as (u0 & Hu0 & Hmoney). destruct (Hus _ _ Hu0) as (u & Hu & Hbal).
  pose proof (ok_users _ Hok _ _ Hu0) as Hu0ok. unfold user_ok in Hu0ok.
  assert (Hsold : 0 ≤ sold_in l ≤ Z.of_nat (length l)) by lia.
  assert (Hspent : p_price pr0 * sold_in l + p_price pr0 ≤ p_price pr0 * Z.of_nat (size clients)).
  { transitivity (p_price pr0 * (sold_in l + 1)); [lia|]. apply Z.mul_le_mono_nonneg_l; lia. }
  assert (Hpay : p_price pr * 1 < u_balance u) by (rewrite Ep; lia).
  assert (Huok : user_ok u) by (unfold user_ok; lia).
  assert (Haff : affordable (u_balance u) (p_price pr) 1 = true).
  { destruct (affordable_amount (u_balance u) (p_price pr) 1) as (x & _ & -> & _ & Hx); [apply Hpok|lia|done|]. by apply Hx. }
  destruct (sale_step i c D r D' pr u Hc Hp Hpok Hu Huok Haff (Hob i c Hc Hil) Ha) as [(Hge & Hr & d & Hd & Hs)|(Hlt & Hr & Hs)].
  - assert (Hn' : sold_in (l ++ [(i, r)]) = sold_in l + 1).
    { rewrite sold_in_snoc, Hr. lia. }
    rewrite Hn', length_app. cbn [length]. split; [|lia]. apply (selling_same _ _ _ _ Hs). rewrite <-Hd.
    destruct (oe_request Hone i c Hc) as (_ & Eq & Ekey). split; cbn.
    + eexists. rewrite lookup_insert_eq. split; [done|]. cbn. split; [done|]. split; [lia|].
      apply (fits_paid (c_params c) pr u); rewrite ?Eq; [lia|done|]. by split; rewrite ?Eq.
    + intros b ub Hub. rewrite lookup_insert. case_decide as Hb.
      * subst b. rewrite Hu0 in Hub. injection Hub as <-. eexists. split; [done|]. cbn. rewrite Eq, Ep. nia.
      * destruct (Hus b ub Hub) as (u' & Hu' & Hb'). exists u'. split; [done|nia].
    + intros j c' Hj Hnj. rewrite fmap_app in Hnj. rewrite lookup_insert_ne; [apply (Hob j); [done|set_solver]|].
      apply not_eq_sym. apply (wl_uuid _ _ Hw j i c' c); try done. intros ->. apply Hnj. cbn. set_solver.
  - assert (Hn' : sold_in (l ++ [(i, r)]) = sold_in l).
    { rewrite sold_in_snoc, Hr. lia. }
    rewrite Hn', length_app. cbn [length]. split; [|lia]. apply (selling_same _ _ _ _ Hs). split; [eauto|done|].
    intros j c' Hj Hnj. apply (Hob j); [done|]. rewrite fmap_app in Hnj. set_solver.
Qed.

(** The answers given so far, by client. *)
Definition answers (s : state CheckoutResult) : list (nat * CheckoutResult) :=
  omap (λ '(i, x), match x with Closed (Ok r) => Some (i, r) | _ => None end) (map_to_list (sessions s)).

Lemma answers_spec s i r : (i, r) ∈ answers s ↔ sessions s !! i = Some (Closed (Ok r)).
Proof.
  unfold answers. rewrite list_elem_of_omap. split.
  - intros ([j x] & Hin & Hx). apply elem_of_map_to_list in Hin. destruct x as [| |[a|e]]; try done. by injection Hx as -> ->.
  - intros Hi. exists (i, Closed (Ok r)). split; [by apply elem_of_map_to_list|done].
Qed.

Lemma answers_once s : NoDup (answers s).*1.
Proof.
  unfold answers. pose proof (NoDup_fst_map_to_list (sessions s)) as Hnd. induction (map_to_list (sessions s)) as [|[i x] l IH]; [constructor|].
  cbn in Hnd. apply NoDup_cons in Hnd as [Hi Hnd]. cbn. destruct x as [| |[a|e]]; cbn; auto.
  apply NoDup_cons. split; [|auto]. intros ([j b] & -> & Hin)%list_elem_of_fmap. apply Hi. clear -Hin.
  apply list_elem_of_omap in Hin as ([j' x] & Hin & Hx). apply list_elem_of_fmap. exists (j', x). split; [|done].
  destruct x as [| |[?|?]]; try done. by injection Hx as -> ->.
Qed.

Lemma finished_order s l : inv clients false D0 s l → finished s → answers s ≡ₚ l ∧ length l = size clients.
Proof.
  intros [I1 I2 I3 I4 I5 I6 I7 I8 I9] Hf.
  assert (Hperm : answers s ≡ₚ l).
  { apply NoDup_Permutation; [by apply NoDup_fmap_1 with fst, answers_once|by apply NoDup_fmap_1 with fst|].
    intros [i r]. rewrite answers_spec. split; [intros Hi; by apply (I7 i _ r Hi)|].
    intros Hin. destruct (I8 i r Hin) as (x & Hx & Hd). pose proof (Hf i x Hx) as Hcl. destruct x as [| |[a|e]]; try done.
    - destruct Hd as [[= ->]|[e [=]]]. done.
    - by discriminate (I9 i _ Hx (ex_intro _ e eq_refl)). }
  split; [done|]. apply Nat.le_antisymm; [by eapply serial_length|].
  rewrite <-(size_dom (D := gset nat) clients), <-(length_fmap fst l). unfold size, set_size. cbn.
  apply submseteq_length, NoDup_submseteq; [apply NoDup_elements|]. intros i Hi. apply elem_of_elements, elem_of_dom in Hi.
  destruct (I4 i Hi) as [x Hx]. pose proof (Hf i x Hx) as Hcl. destruct x as [| |[a|e]]; try done.
  - apply list_elem_of_fmap. exists (i, a). split; [done|]. by apply (I7 i _ a Hx).
  - by discriminate (I9 i _ Hx (ex_intro _ e eq_refl)).
Qed.

(** When all have answered, the database is that of a sale one after the other. *)
Lemma sale_order s :
  rtc (step false) (start clients D0) s → finished s →
  ∃ n, length (answers s) = size clients ∧ sold_in (answers s) = n ∧ n = Z.min (Z.of_nat (size clients)) (p_stock pr0) ∧
    selling (answers s) (committed s) n ∧ good (committed s).
Proof.
  intros Hr Hf. destruct (race_inv clients false D0 s Hok Hw Hr) as [l Hl].
  destruct (finished_order s l Hl Hf) as [Hperm Hlen]. destruct Hl as [I1 I2 _ _ _ I6 _ _ _].
  destruct (serial_sale l _ I1 I6) as [Hsell Hn].
  assert (sold_in (answers s) = sold_in l) as Hsold by (unfold sold_in; by rewrite Hperm).
  exists (sold_in l). split_and!; [by rewrite (Permutation_length Hperm)|done|by rewrite Hn, Hlen| |done].
  destruct Hsell as [? ? Hob]. split; [done..|]. intros i c Hc Hi. apply (Hob i c Hc). by rewrite <-Hperm.
Qed.

(** C5: no oversell.  When every one of [n] concurrent buyers of one unit has
    got an answer, whatever the interleaving was, exactly as many succeeded as
    there were units (or buyers, if fewer), the stock is what is left, and no
    product has a negative stock. *)
Theorem sale_exact s :
  rtc (step false) (start clients D0) s → finished s →
  length (answers s) = size clients ∧
  sold_in (answers s) = Z.min (Z.of_nat (size clients)) (p_stock pr0) ∧
  stock_of pid (committed s) = p_stock pr0 - sold_in (answers s) ∧
  map_Forall (λ _ pr, 0 ≤ p_stock pr) (products (committed s)).
Proof.
  intros Hr Hf. destruct (sale_order s Hr Hf) as (n & Hlen & Hn & Hmin & [(pr & Hp & _ & Es & _) _ _] & Hgood).
  rewrite Hn. split_and!; [done|done| |].
  - unfold stock_of. by rewrite Hp.
  - intros i pr' Hi. by apply (good_products _ Hgood i pr').
Qed.
End sale.

(** ** src/demo-race.ts *)

Section demo.
Context `{PgText, !PgTextLaws, EventLib} (next : gset Z → Z) (next_fresh : ∀ X, next X ∉ X).

Definition ATTEMPTS : nat := 60.
Definition INITIAL_STOCK : Z := 10.

(** INSERT ... ON CONFLICT (key) DO UPDATE SET ... RETURNING id *)
Definition upsert_returning {A} (key : A → string) (k : string) (upd : A → A) (new : A) (m : gmap Z A) : Z * gmap Z A :=
  match list_find (λ p, key p.2 = k) (map_to_list m) with
  | Some (_, (i, a)) => (i, <[i := upd a]> m)
  | None => (next (dom m), <[next (dom m) := new]> m)
  end.

Definition upsert_race_product (d : db) : Z * db :=
  let '(id, m) := upsert_returning p_sku "RACE-DEMO"
    (λ p, ProductRow (p_sku p) (p_name p) 10000 (p_is_active p) INITIAL_STOCK)
    (ProductRow "RACE-DEMO" "Товар демо-гонки" 10000 true INITIAL_STOCK) (products d) in
  (id, set_products (λ _, m) d).
Definition upsert_race_buyer (d : db) : Z * db :=
  let '(id, m) := upsert_returning u_email "race-demo@example.com"
    (λ u, UserRow (u_email u) (u_full_name u) 100000000 (u_password_hash u) (u_role u))
    (UserRow "race-demo@example.com" "Покупець демо-гонки" 100000000 None customer) (users d) in
  (id, set_users (λ _, m) d).

(** The two INSERTs before the race. *)
Definition race_prepare (d : db) : Z * Z * db :=
  let '(product, d1) := upsert_race_product d in
  let '(buyer, d2) := upsert_race_buyer d1 in
  (product, buyer, d2).

(** [Array.from({ length: ATTEMPTS }, () => checkout(...))] *)
Definition race_attempts (envs : nat → env) (product buyer : Z) : gmap nat client :=
  map_seq 0 ((λ i, Client (envs i) (Params (pretty buyer) (pretty product) 1 None) product buyer) <$> seq 0 ATTEMPTS).

Record race_report := RaceReport { rr_succeeded : Z; rr_finalStock : Z; rr_negativeStockRows : Z }.

(** [await Promise.all(...)] and the three queries after it; [None]: a checkout
    has not answered or has thrown. *)
Definition race_main (s : state CheckoutResult) (product : Z) : option race_report :=
  results ← mapM (λ i, match sessions s !! i with Some (Closed (Ok r)) => Some r | _ => None end) (seq 0 ATTEMPTS);
  Some (RaceReport (Z.of_nat (length (filter (λ r, ok r = true) results))) (stock_of product (committed s))
          (Z.of_nat (size (filter (λ p, p_stock p.2 < 0) (products (committed s)))))).
Definition oversell (r : race_report) : bool :=
  negb (rr_succeeded r =? INITIAL_STOCK) || negb (rr_finalStock r =? 0) || (0 <? rr_negativeStockRows r).

Lemma upsert_returning_cases {A} (key : A → string) k upd new (m : gmap Z A) i m' :
  upsert_returning key k upd new m = (i, m') →
  (∃ a, m !! i = Some a ∧ key a = k ∧ m' = <[i := upd a]> m) ∨
  (m !! i = None ∧ (∀ j a, m !! j = Some a → key a ≠ k) ∧ m' = <[i := new]> m).
Proof.
  unfold upsert_returning. destruct (list_find _ _) as [[n [j a]]|] eqn:Hf; intros [= <- <-].
  - apply list_find_Some in Hf as (Hl & Hk & _). left. exists a. split_and!; try done.
    apply elem_of_map_to_list. by eapply list_elem_of_lookup_2.
  - apply list_find_None in Hf. right. split; [by apply not_elem_of_dom|]. split; [|done].
    intros j a Hj. rewrite Forall_forall in Hf. apply (Hf (j, a)). by apply elem_of_map_to_list.
Qed.

Lemma db_ok_products d m : db_ok d → map_Forall (λ _, product_ok) m → (∀ i, is_Some (products d !! i) → is_Some (m !! i)) →
  db_ok (set_products (λ _, m) d).
Proof.
  intros [] Hm Hdom. split; cbn; try done. eapply map_Forall_impl; [eassumption|]. intros i it (? & ? & [? ?] & ? & ?).
  split_and!; cbn; auto.
Qed.

Lemma db_ok_users d m : db_ok d → map_Forall (λ _, user_ok) m → (∀ i, is_Some (users d !! i) → is_Some (m !! i)) →
  unique (λ u, Some (u_email u)) m → db_ok (set_users (λ _, m) d).
Proof.
  intros [] Hm Hdom Hu. split; cbn; try done; (eapply map_Forall_impl; [eassumption|]); unfold order_ok, token_ok, file_ok; cbn; intros i x Hx;
    naive_solver.
Qed.

Lemma race_prepare_ok d product buyer d' : db_ok d → race_prepare d = (product, buyer, d') →
  db_ok d' ∧ outbox d' = outbox d ∧
  (∃ pr, products d' !! product = Some pr ∧ p_price pr = 10000 ∧ p_stock pr = INITIAL_STOCK) ∧
  (∃ u, users d' !! buyer = Some u ∧ u_balance u = 100000000).
Proof.
  intros Hok. unfold race_prepare, upsert_race_product, upsert_race_buyer.
  destruct (upsert_returning p_sku _ _ _ (products d)) as [i mp] eqn:Hp. cbn [users set_products].
  destruct (upsert_returning u_email _ _ _ (users d)) as [j mu] eqn:Hu. intros [= <- <- <-].
  apply upsert_returning_cases in Hp, Hu.
  assert (∀ a, product_ok (ProductRow (p_sku a) (p_name a) 10000 (p_is_active a) INITIAL_STOCK)) as Hpk by (by intros a).
  assert (∃ pr, mp = <[i := pr]> (products d) ∧ product_ok pr ∧ p_price pr = 10000 ∧ p_stock pr = INITIAL_STOCK) as (pr & -> & Hpr & E1 & E2).
  { destruct Hp as [(a & _ & _ & ->)|(_ & _ & ->)]; eexists; split_and!; [done|apply Hpk|done..|done|done|done|done]. }
  assert (∃ u, mu = <[j := u]> (users d) ∧ user_ok u ∧ u_balance u = 100000000 ∧
    ∀ j' u', j' ≠ j → users d !! j' = Some u' → u_email u' ≠ u_email u) as (u & -> & Huk & Eb & He).
  { destruct Hu as [(a & Ha & Ek & ->)|(_ & Hno & ->)]; eexists; split_and!; try done.
    - intros j' u' Hj' Hu' Heq. apply Hj'. eapply (ok_email _ Hok j' j); eauto. cbn in *. congruence.
    - intros j' u' _ Hu' Heq. by apply (Hno j' u'). }
  split; [|split; [done|split]]; cbn.
  - apply (db_ok_users (set_products (λ _, <[i:=pr]> (products d)) d)).
    + apply db_ok_products; [done|apply map_Forall_insert_2; [done|apply Hok]|intros; by apply is_Some_insert].
    + apply map_Forall_insert_2; [done|apply Hok].
    + intros. by apply is_Some_insert.
    + intros x y a b k. rewrite !lookup_insert. repeat case_decide; intros; simplify_eq; try done.
      * exfalso. apply (He y b); congruence.
      * exfalso. apply (He x a); congruence.
      * eapply (ok_email _ Hok x y a b); [done|done|reflexivity|congruence].
  - exists pr. by rewrite lookup_insert_eq.
  - exists u. by rewrite lookup_insert_eq.
Qed.

(** Answers collected by index. *)
Lemma collected {A} (f : nat → option A) idx rs : mapM f idx = Some rs →
  (∀ i r, (i, r) ∈ zip idx rs ↔ i ∈ idx ∧ f i = Some r) ∧ (zip idx rs).*1 = idx ∧ (zip idx rs).*2 = rs.
Proof.
  intros Hm%mapM_Some. induction Hm as [|i r idx rs Hi _ (IH1 & IH2 & IH3)]; cbn.
  { split; [|done]. intros i r. rewrite !elem_of_nil. naive_solver. }
  rewrite IH2, IH3. split; [|done]. intros j r'. rewrite !elem_of_cons, IH1. naive_solver.
Qed.

Lemma filter_snd l : length (filter (λ x : nat * CheckoutResult, ok x.2 = true) l) = length (filter (λ r, ok r = true) l.*2).
Proof. induction l as [|[i r] l IH]; [done|]. rewrite fmap_cons, !filter_cons. cbn. case_decide; cbn; by rewrite IH. Qed.

(** The sixty clients are a sale of one unit each. *)
Lemma race_attempts_in envs product buyer i c : race_attempts envs product buyer !! i = Some c →
  (i < ATTEMPTS)%nat ∧ c = Client (envs i) (Params (pretty buyer) (pretty product) 1 None) product buyer.
Proof.
  unfold race_attempts. rewrite lookup_map_seq_0, list_lookup_fmap. intros (x & Hx & ->)%fmap_Some.
  apply lookup_seq in Hx as [-> Hlt]. done.
Qed.

Lemma race_sale (envs : nat → env) product buyer d d' pr u :
  int8 product = true → int8 buyer = true → (∀ i j, i ≠ j → outbox_id (envs i) ≠ outbox_id (envs j)) →
  outbox d' = outbox d → (∀ i, outbox d !! outbox_id (envs i) = None) →
  products d' !! product = Some pr → p_price pr = 10000 → users d' !! buyer = Some u → u_balance u = 100000000 →
  let clients := race_attempts envs product buyer in
  size clients = ATTEMPTS ∧ workload clients d' ∧ one_each clients d' product pr.
Proof.
  intros Hp8 Hb8 Hdist Ho Hnew Hp Eprice Hu Ebal clients. pose proof (race_attempts_in envs product buyer) as Hc.
  assert (Hsize : size clients = ATTEMPTS).
  { unfold clients, race_attempts. rewrite <-(size_dom (D := gset nat)), dom_seq_L, size_set_seq. by rewrite length_fmap, length_seq. }
  split; [done|split; split].
  - intros i c (_ & ->)%Hc. split; cbn; [lia|done|by apply bigint_in_out..].
  - intros i j c c' Hij (_ & ->)%Hc (_ & ->)%Hc. by apply Hdist.
  - intros i c (_ & ->)%Hc. cbn. by rewrite Ho.
  - done.
  - by intros i c (_ & ->)%Hc.
  - intros i c (_ & ->)%Hc. exists u. split; [done|]. rewrite Hsize, Eprice, Ebal. unfold ATTEMPTS. lia.
Qed.

(** The race demonstration never fails.  Run on any database, with sixty
    checkouts under any interleaving: when all have answered, ten of them
    succeeded, the stock is 0, no row is negative, and the script exits with 0. *)
Theorem race_demo_passes d product buyer d' (envs : nat → env) s :
  db_ok d → race_prepare d = (product, buyer, d') → int8 product = true → int8 buyer = true →
  (∀ i j, i ≠ j → outbox_id (envs i) ≠ outbox_id (envs j)) → (∀ i, outbox d !! outbox_id (envs i) = None) →
  rtc (step false) (start (race_attempts envs product buyer) d') s → finished s →
  race_main s product = Some (RaceReport 10 0 0) ∧ oversell (RaceReport 10 0 0) = false.
Proof.
  intros Hok Hprep Hp8 Hb8 Hdist Hnew Hr Hf. split; [|done].
  destruct (race_prepare_ok _ _ _ _ Hok Hprep) as (Hok' & Ho & (pr & Hp & Eprice & Estock) & (u & Hu & Ebal)).
  pose proof (race_attempts_in envs product buyer) as Hc.
  destruct (race_sale envs _ _ _ _ _ _ Hp8 Hb8 Hdist Ho Hnew Hp Eprice Hu Ebal) as (Hsize & Hw & Hone).
  set (clients := race_attempts envs product buyer) in *.
  destruct (race_inv clients false d' s Hok' Hw Hr) as [l Hl].
  destruct (sale_order clients d' product pr Hok' Hw Hone s Hr Hf) as (n & _ & Hsold & Hn & [(pr' & Hp' & _ & Es & _) _ _] & Hgood).
  assert (Hall : ∀ i, (i < ATTEMPTS)%nat → ∃ r, sessions s !! i = Some (Closed (Ok r))).
  { intros i Hi. destruct (inv_all _ _ _ _ _ Hl i) as [x Hx].
    - unfold clients, race_attempts. rewrite lookup_map_seq_0, list_lookup_fmap, lookup_seq_lt by done. by eexists.
    - pose proof (Hf i x Hx) as Hcl. destruct x as [| |[r|e]]; try done; [eauto|].
      by discriminate (inv_failed _ _ _ _ _ Hl i _ Hx (ex_intro _ e eq_refl)). }
  set (f := λ i, match sessions s !! i with Some (Closed (Ok r)) => Some r | _ => None end).
  assert (is_Some (mapM f (seq 0 ATTEMPTS))) as [rs Hrs].
  { apply mapM_is_Some, Forall_forall. intros i Hi%elem_of_seq. destruct (Hall i) as [r Hx]; [lia|]. exists r. cbn. unfold f. by rewrite Hx. }
  destruct (collected _ _ _ Hrs) as (Helem & Hfst & Hsnd).
  assert (Hperm : answers s ≡ₚ zip (seq 0 ATTEMPTS) rs).
  { apply NoDup_Permutation; [apply NoDup_fmap_1 with fst, answers_once| |].
    - apply NoDup_fmap_1 with fst. rewrite Hfst. apply NoDup_seq.
    - intros [i r]. rewrite answers_spec, Helem. unfold f. split; [|intros [_ Hx]; repeat case_match; simplify_eq; done].
      intros Hx. rewrite Hx. split; [|done]. destruct (inv_sessions _ _ _ _ _ Hl i _ Hx) as (c & [Hi _]%Hc & _). apply elem_of_seq. lia. }
  assert (Hten : n = 10) by (rewrite Hn, Hsize, Estock; done).
  unfold race_main. fold f. rewrite Hrs. cbn [mbind option_bind]. f_equal. f_equal.
  - rewrite <-Hten, <-Hsold. unfold sold_in. rewrite Hperm, filter_snd. by rewrite Hsnd.
  - unfold stock_of. rewrite Hp'. cbn. by rewrite Es, Hten, Estock.
  - replace (filter _ _) with (∅ : gmap Z product_row); [done|]. symmetry. apply map_empty. intros i.
    apply map_lookup_filter_None. right. intros p Hi Hlt. apply (good_products _ Hgood) in Hi. unfold product_ok in Hi. cbn in *. lia.
Qed.
End demo.

(** ** Runs *)

Section sale_witnesses.
#[local] Existing Instance fix_text.
#[local] Existing Instance fix_text_laws.
#[local] Existing Instance fix_events.

(** Four buyers of one unit of a product of which there are three, each with an
    account of his own, all of them begun before the first one commits. *)
Definition buyer_row (b : Z) : user_row := UserRow (pretty b) "buyer" 10000000 None customer.
Definition scarce : product_row := ProductRow "SKU-7" "Scarce" 1299 true 3.
Definition sale_db : db :=
  set_products <[7 := scarce]> (set_users (λ _, list_to_map ((λ b, (b, buyer_row b)) <$> [1; 2; 3; 4])) empty_db).
Definition buyers : gmap nat client :=
  list_to_map ((λ b, (Z.to_nat b, Client (buy_env b) (Params (pretty b) "7" 1 None) 7 b)) <$> [1; 2; 3; 4]).
Definition sale_end : state CheckoutResult := rounds 60 [1; 2; 3; 4]%nat (start buyers sale_db).

Lemma buyers_in i c : buyers !! i = Some c →
  ∃ b, (b = 1 ∨ b = 2 ∨ b = 3 ∨ b = 4) ∧ i = Z.to_nat b ∧ c = Client (buy_env b) (Params (pretty b) "7" 1 None) 7 b.
Proof. intros Hi. apply elem_of_list_to_map_2, list_elem_of_fmap in Hi as (b & [= -> ->] & Hb). exists b. set_solver. Qed.

Lemma sale_db_ok : db_ok sale_db.
Proof.
  destruct db_ok_empty. split; try done.
  - apply (bool_decide_unpack _). vm_compute. exact Logic.I.
  - apply (bool_decide_unpack _). vm_compute. exact Logic.I.
  - assert (Hu : ∀ i u, users sale_db !! i = Some u → u_email u = pretty i).
    { intros i u Hi. unfold sale_db in Hi. cbn [users set_products set_users] in Hi.
      by apply elem_of_list_to_map_2, list_elem_of_fmap in Hi as (x & [= -> ->] & _). }
    intros i j a b k Hi%Hu Hj%Hu [= Hk] [= Hk']. apply (inj pretty). congruence.
Qed.

Lemma buyers_ok : workload buyers sale_db.
Proof.
  split.
  - intros i c (b & [->|[->|[->| ->]]] & _ & ->)%buyers_in; split; vm_compute; reflexivity.
  - intros i j c c' Hij (b & _ & -> & ->)%buyers_in (b' & _ & -> & ->)%buyers_in Heq. cbn in Heq.
    apply (inj pretty) in Heq. subst b'. by apply Hij.
  - intros i c (b & _ & _ & ->)%buyers_in. reflexivity.
Qed.

Lemma buyers_one_each : one_each buyers sale_db 7 scarce.
Proof.
  split; [reflexivity| |].
  - by intros i c (b & _ & _ & ->)%buyers_in.
  - intros i c (b & [->|[->|[->| ->]]] & _ & ->)%buyers_in; eexists; split; vm_compute; reflexivity.
Qed.

Lemma sale_exact_witness : length (answers sale_end) = 4%nat ∧ sold_in (answers sale_end) = 3 ∧ stock_of 7 (committed sale_end) = 0.
Proof.
  assert (Hf : finished sale_end).
  { intros i x Hx. apply (bool_decide_unpack (map_Forall (λ _ x, is_closed x = true) (sessions sale_end))) with i; [|exact Hx].
    vm_compute. exact Logic.I. }
  destruct (sale_exact buyers sale_db 7 scarce sale_db_ok buyers_ok buyers_one_each sale_end
    (rounds_sound false 60 [1; 2; 3; 4]%nat _) Hf) as (Hlen & Hsold & Hst & _).
  split; [exact Hlen|]. rewrite Hst, Hsold. split; reflexivity.
Defined.

(** The sixty checkouts of the demonstration: all of them begin and make their
    first statement, then each goes to its end. *)
Definition fresh_id (X : gset Z) : Z := fresh X.
Definition crowd_env (i : nat) : env := buy_env (Z.of_nat i).
Definition crowd : state CheckoutResult :=
  rounds 1 (seq 0 60 ++ seq 0 60 ++ (i ← seq 0 60; replicate 12 i)) 
    (start (race_attempts crowd_env (race_prepare fresh_id sale_db).1.1 (race_prepare fresh_id sale_db).1.2) (race_prepare fresh_id sale_db).2).

Lemma race_demo_passes_witness :
  race_main crowd (race_prepare fresh_id sale_db).1.1 = Some (RaceReport 10 0 0) ∧ oversell (RaceReport 10 0 0) = false.
Proof.
  apply (race_demo_passes fresh_id (λ X, is_fresh X) sale_db _ (race_prepare fresh_id sale_db).1.2 (race_prepare fresh_id sale_db).2 crowd_env).
  - exact sale_db_ok.
  - vm_compute. reflexivity.
  - vm_compute. reflexivity.
  - vm_compute. reflexivity.
  - intros i j Hij Heq. cbn in Heq. apply (inj pretty) in Heq. apply Hij. lia.
  - intros i. reflexivity.
  - apply (rounds_sound false 1).
  - intros i x Hx. apply (bool_decide_unpack (map_Forall (λ _ x, is_closed x = true) (sessions crowd))) with i; [|exact Hx].
    vm_compute. exact Logic.I.
Defined.
End sale_witnesses.
