(* ===== verification/RepeatableRead.v ===== *)
(** Transactions retried under REPEATABLE READ (src/concurrency/lib.ts with
    several callers at once).

    A caller of [withRetry] makes attempts.  An attempt takes its snapshot with
    its first statement and from then on sees that snapshot and what it wrote
    itself.  Updating a row takes its lock; if another open attempt holds the
    lock the statement waits.  If the row has been changed by a commit after the
    snapshot Postgres turns the attempt away with 40001, and a cycle of waiting
    attempts is broken with 40P01; then [withRetry] rolls back and, while it has
    attempts left, begins again on a new snapshot. *)
From S2P Require Import Prelude Schema Sql Isolation Retry.
#[local] Open Scope Z_scope.

(** ** Callers *)

Inductive caller (A : Type) :=
| Resting (failures : nat)
| Running (failures taken : nat) (L : gset row) (v : db) (q : script A)
| Returned (attempts : nat) (r : result A).
Arguments Resting {A} failures.
Arguments Running {A} failures taken L v q.
Arguments Returned {A} attempts r.

(** The committed rows, the number of commits so far and, for each row, the
    number of the commit that last wrote it. *)
Record rr_state (A : Type) := RR {
  rr_db : db; clock : nat; stamps : gmap row nat; callers : gmap nat (caller A) }.
Arguments RR {A} rr_db clock stamps callers.
Arguments rr_db {A} r.
Arguments clock {A} r.
Arguments stamps {A} r.
Arguments callers {A} r.

Definition stamp (m : gmap row nat) (r : row) : nat := default 0%nat (m !! r).
Definition written (c : nat) (L : gset row) (m : gmap row nat) : gmap row nat := gset_to_gmap c L ∪ m.

Definition keeps_rows {A} (x : caller A) : gset row := match x with Running _ _ L _ _ => L | _ => ∅ end.
Definition unlocked {A} (i : nat) (rows : gset row) (cs : gmap nat (caller A)) : Prop :=
  map_Forall (λ j x, j = i ∨ rows ## keeps_rows x) cs.
#[export] Instance unlocked_dec {A} i rows (cs : gmap nat (caller A)) : Decision (unlocked i rows cs).
Proof. unfold unlocked. apply map_Forall_dec. intros j x. apply _. Defined.

Definition is_returned {A} (x : caller A) : bool := match x with Returned _ _ => true | _ => false end.
Definition all_returned {A} (s : rr_state A) : Prop := map_Forall (λ _ x, is_returned x = true) (callers s).

Section step.
Context {A : Type} (fn : gmap nat (script A)) (maxAttempts : Z).

(** [catch]: attempt number [failures + 1] has failed with [e]. *)
Definition turned_away (failures : nat) (e : exn) : caller A :=
  if retryable e && (Z.of_nat (S failures) <? maxAttempts) then Resting (S failures) else Returned (S failures) (Err e).

(** The attempts that have failed before the one a caller is at. *)
Definition failures_of (x : caller A) : option nat :=
  match x with Resting k | Running k _ _ _ _ => Some k | Returned _ _ => None end.

(** The statement caller [i] is at, on its rows and the shared sequences. *)
Definition at_statement (s : rr_state A) (i k c : nat) L v q rows (x : result (script A)) d' : Prop :=
  callers s !! i = Some (Running k c L v q) ∧ exec q (rollback v (rr_db s)) = Some (rows, x, d').

(** [i] waits for a row [j] holds. *)
Definition waits (s : rr_state A) (i j : nat) : Prop :=
  i ≠ j ∧ ∃ k c L v q rows x d' y, at_statement s i k c L v q rows x d' ∧ callers s !! j = Some y ∧ ¬ rows ## keeps_rows y.

Definition set_caller (i : nat) (x : caller A) (D : db) (s : rr_state A) : rr_state A :=
  RR D (clock s) (stamps s) (<[i := x]> (callers s)).
Definition commit_rows (i : nat) (x : caller A) (L : gset row) (v : db) (s : rr_state A) : rr_state A :=
  RR (view L v (rr_db s)) (S (clock s)) (written (S (clock s)) L (stamps s)) (<[i := x]> (callers s)).

(** With [faults] the connection of an attempt may break, or Postgres refuse
    any of its statements, BEGIN and COMMIT included, with any error; [catch]
    sees them all.  Only [qr.connect()] stands before the [try]: what it throws
    goes to the caller.  The answer to a COMMIT that was carried out may be
    lost; Postgres reports 40001 and 40P01 only for transactions it has undone,
    and never to a connection that is being opened. *)
Inductive rr_step (faults : bool) (s : rr_state A) : rr_state A → Prop :=
| rr_snapshot i k q :
    callers s !! i = Some (Resting k) → fn !! i = Some q →
    rr_step faults s (set_caller i (Running k (clock s) ∅ (rr_db s) q) (rr_db s) s)
| rr_query i k c L v q rows q' d' :
    at_statement s i k c L v q rows (Ok q') d' → unlocked i rows (callers s) →
    (∀ r, r ∈ rows → (stamp (stamps s) r ≤ c)%nat) →
    rr_step faults s (set_caller i (Running k c (L ∪ rows) d' q') (rollback (rr_db s) d') s)
| rr_error i k c L v q rows e d' :
    at_statement s i k c L v q rows (Err e) d' → unlocked i rows (callers s) →
    (∀ r, r ∈ rows → (stamp (stamps s) r ≤ c)%nat) →
    rr_step faults s (set_caller i (turned_away k e) (rollback (rr_db s) d') s)
| rr_conflict i k c L v q rows x d' r :
    at_statement s i k c L v q rows x d' → unlocked i rows (callers s) →
    r ∈ rows → (c < stamp (stamps s) r)%nat →
    rr_step faults s (set_caller i (turned_away k (PgError "40001")) (rr_db s) s)
| rr_deadlock i k c L v q :
    callers s !! i = Some (Running k c L v q) → tc (waits s) i i →
    rr_step faults s (set_caller i (turned_away k (PgError "40P01")) (rr_db s) s)
| rr_throw i k c L v e :
    callers s !! i = Some (Running k c L v (Ret (Err e))) →
    rr_step faults s (set_caller i (turned_away k e) (rr_db s) s)
| rr_commit i k c L v a :
    callers s !! i = Some (Running k c L v (Ret (Ok (Commit a)))) →
    rr_step faults s (commit_rows i (Returned (S k) (Ok a)) L v s)
| rr_no_connection i k e :
    faults = true → callers s !! i = Some (Resting k) → retryable e = false →
    rr_step faults s (set_caller i (Returned (S k) (Err e)) (rr_db s) s)
| rr_broken i x k e :
    faults = true → callers s !! i = Some x → failures_of x = Some k →
    rr_step faults s (set_caller i (turned_away k e) (rr_db s) s)
| rr_commit_lost i k c L v a e :
    faults = true → callers s !! i = Some (Running k c L v (Ret (Ok (Commit a)))) → retryable e = false →
    rr_step faults s (commit_rows i (turned_away k e) L v s).

Definition rr_start (D : db) : rr_state A := RR D 0 ∅ ((λ _, Resting 0) <$> fn).

(** What [withRetry] promises of its attempts: it makes no more than
    [maxAttempts] (but always one), and what it throws is an error that is not
    worth another attempt, or the error of the last attempt. *)
Definition attempts_ok (x : caller A) : Prop :=
  match x with
  | Resting k | Running k _ _ _ _ => k = 0%nat ∨ Z.of_nat k < maxAttempts
  | Returned n r => (n = 1%nat ∨ (0 < n)%nat ∧ Z.of_nat n ≤ maxAttempts) ∧
      (∀ e, r = Err e → retryable e = true → maxAttempts ≤ Z.of_nat n)
  end.

Lemma turned_away_attempts k e : attempts_ok (Resting k) → attempts_ok (turned_away k e).
Proof.
  cbn. intros Hk. unfold turned_away. destruct (Z.ltb_spec (Z.of_nat (S k)) maxAttempts) as [Hlt|Hle], (retryable e) eqn:He; cbn.
  - right. lia.
  - split; [destruct Hk; [subst; by left|right; lia]|]. intros e' [= <-]. congruence.
  - split; [destruct Hk; [subst; by left|right; lia]|]. intros e' [= <-] _. lia.
  - split; [destruct Hk; [subst; by left|right; lia]|]. intros e' [= <-]. congruence.
Qed.
Lemma failures_attempts x k : failures_of x = Some k → attempts_ok x → attempts_ok (Resting k).
Proof. by destruct x; cbn; intros [= ->]. Qed.

Lemma attempts_step faults s s' : rr_step faults s s' → map_Forall (λ _, attempts_ok) (callers s) → map_Forall (λ _, attempts_ok) (callers s').
Proof.
  intros Hstep Hs. inversion Hstep as [i k q Hi|i k c L v q rows q' d' [Hi _]|i k c L v q rows e d' [Hi _]|i k c L v q rows x d' r [Hi _]
    |i k c L v q Hi|i k c L v e Hi|i k c L v a Hi|i k e _ Hi He|i x k e _ Hi Hk|i k c L v a e _ Hi]; subst; cbn [callers set_caller commit_rows];
    pose proof (Hs i _ Hi) as Hx; (apply map_Forall_insert_2; [|done]); try (by apply turned_away_attempts); try exact Hx.
  - cbn in *. split; [destruct Hx; [subst; by left|right; lia]|done].
  - cbn in *. split; [destruct Hx; [subst; by left|right; lia]|]. intros e' [= <-]. congruence.
  - apply turned_away_attempts. by eapply failures_attempts.
Qed.

Lemma attempts_reached faults D s : rtc (rr_step faults) (rr_start D) s → map_Forall (λ _, attempts_ok) (callers s).
Proof.
  revert s. apply rtc_ind_r; [|intros; by eapply attempts_step].
  intros i x. cbn. rewrite lookup_fmap. destruct (fn !! i); [|done]. intros [= <-]. by left.
Qed.

(** The same calls one after the other. *)
Inductive in_order (D0 : db) : list (nat * A) → db → Prop :=
| in_order_nil D : same_rows D0 D → in_order D0 [] D
| in_order_snoc l D i q a d t t' d' D' :
    in_order D0 l D → fn !! i = Some q → same_rows D d →
    transaction (body_of q) no_fault t d = (Ok a, t', d') → same_rows d' D' →
    in_order D0 (l ++ [(i, a)]) D'.
End step.

(** ** Work that depends only on the rows it writes *)

Definition agree (R : gset row) (d d' : db) : Prop := ∀ r, r ∈ R → cell_at d r = cell_at d' r.

(** Every statement reads rows of [R] only, and writes only the rows it locks,
    all of them in [R]. *)
Fixpoint confined {A} (R : gset row) (q : script A) : Prop :=
  match q with
  | Ret _ => True
  | Stmt st locks k =>
      (∀ d, locks d ⊆ R) ∧ (∀ d r, r ∉ locks d → cell_at (st d).2 r = cell_at d r) ∧
      (∀ d d', agree R d d' → (st d).1 = (st d').1 ∧ locks d = locks d' ∧ agree R (st d).2 (st d').2) ∧
      ∀ b, confined R (k b)
  end.

(** The statements so far, on a snapshot [S]. *)
Inductive ran {A} (S : db) (q0 : script A) : gset row → db → script A → Prop :=
| ran_start : ran S q0 ∅ S q0
| ran_step L v q d rows q' d' :
    ran S q0 L v q → same_rows v d → exec q d = Some (rows, Ok q', d') → ran S q0 (L ∪ rows) d' q'.

Lemma agree_trans R d1 d2 d3 : agree R d1 d2 → agree R d2 d3 → agree R d1 d3.
Proof. intros H1 H2 r Hr. by rewrite H1, H2. Qed.
Lemma agree_rows R d d' : same_rows d d' → agree R d d'.
Proof. intros Hs r _. by apply cell_same. Qed.

Lemma exec_confined {A} R (q q' : script A) d rows d' :
  confined R q → exec q d = Some (rows, Ok q', d') →
  rows ⊆ R ∧ confined R q' ∧ (∀ r, r ∉ rows → cell_at d' r = cell_at d r) ∧
  ∀ d2, agree R d d2 → ∃ d2', exec q d2 = Some (rows, Ok q', d2') ∧ agree R d' d2' ∧ ∀ r, r ∉ rows → cell_at d2' r = cell_at d2 r.
Proof.
  destruct q as [x|B st locks k]; [done|]. intros (Hl & Hf & Ha & Hk). cbn. destruct (st d) as [[b|e] d1] eqn:Hst; [|done].
  intros [= <- <- <-]. split; [done|]. split; [done|]. split.
  { intros r Hr. rewrite <-(Hf d r Hr). by rewrite Hst. }
  intros d2 Hd2. destruct (Ha d d2 Hd2) as (Hr & Hlk & Hag). pose proof (Hf d2) as Hf2. rewrite Hst in Hr, Hag.
  destruct (st d2) as [x d2'] eqn:Hst2. cbn in Hr, Hag, Hf2. subst x. exists d2'. rewrite <-Hlk in *. by split_and!.
Qed.

Section confined.
Context {A : Type} (R : gset row) (S : db) (q0 : script A) (Hq0 : confined R q0).

Lemma ran_facts L v q : ran S q0 L v q → confined R q ∧ L ⊆ R ∧ ∀ r, r ∉ L → cell_at v r = cell_at S r.
Proof.
  induction 1 as [|L v q d rows q' d' _ (Hq & HL & Hv) Hd He]; [done|].
  destruct (exec_confined _ _ _ _ _ _ Hq He) as (Hrows & Hq' & Hf & _). split; [done|]. split; [set_solver|].
  intros r Hr. rewrite Hf by set_solver. rewrite <-(cell_same _ _ Hd). apply Hv. set_solver.
Qed.

(** The same statements, run alone on rows that agree on [R], do the same. *)
Lemma ran_body L v q D d t :
  ran S q0 L v q → agree R S D → same_rows D d →
  ∃ t' d', body_of q0 no_fault t d = body_of q no_fault t' d' ∧ agree R v d' ∧ ∀ r, r ∉ L → cell_at d' r = cell_at D r.
Proof.
  intros Hran HS Hd. induction Hran as [|L v q d1 rows q' d2 Hran (t' & d' & Hb & Hag & Hf) Hd1 He].
  { exists t, d. split; [done|]. split; [|intros; symmetry; by apply cell_same].
    eapply agree_trans; [exact HS|by apply agree_rows]. }
  destruct (ran_facts _ _ _ Hran) as (Hq & _ & _).
  destruct (exec_confined _ _ _ _ _ _ Hq He) as (_ & _ & _ & Hsame).
  destruct (Hsame d') as (d2' & He' & Hag' & Hf').
  { intros r Hr. rewrite <-(cell_same _ _ Hd1). by apply Hag. }
  destruct q as [x|B st locks k]; [done|]. cbn in He'. destruct (st d') as [[b|e] d3] eqn:Hst; [|done]. injection He' as <- <- <-.
  eexists _, d3. split; [|split; [done|]].
  - rewrite Hb. cbn [body_of]. rewrite (bind_run _ _ _ _ _ b (Datatypes.S t') d3); [done|]. by apply query_run.
  - intros r Hr. rewrite Hf' by set_solver. apply Hf. set_solver.
Qed.

(** A commit on rows that have not changed since the snapshot is the
    transaction run at the moment of the commit. *)
Lemma ran_commit L v a D :
  ran S q0 L v (Ret (Ok (Commit a))) → agree R S D →
  ∃ t d', transaction (body_of q0) no_fault 0%nat D = (Ok a, t, d') ∧ same_rows d' (view L v D).
Proof.
  intros Hran HS. destruct (ran_body _ _ _ D D 1%nat Hran HS ltac:(reflexivity)) as (t' & d' & Hb & Hag & Hf).
  eexists _, d'. split; [by apply transaction_run|]. apply cell_ext. intros r. rewrite cell_view. case_decide as Hr; [|by apply Hf].
  symmetry. apply Hag. by apply ran_facts in Hran as (_ & HL & _); auto.
Qed.
End confined.

(** ** Every interleaving is a serial order *)

Section serial.
Context {A : Type} (fn : gmap nat (script A)) (maxAttempts : Z) (rows_of : nat → gset row) (faults : bool) (D0 : db).

(** A caller's work is confined to its rows and has locked all of them when it
    commits. *)
Record owns_rows : Prop := {
  ow_confined : ∀ i q, fn !! i = Some q → confined (rows_of i) q;
  ow_all : ∀ i q S L v a, fn !! i = Some q → ran S q L v (Ret (Ok (Commit a))) → rows_of i ⊆ L;
  ow_commit : ∀ i q S L v a, fn !! i = Some q → ¬ ran S q L v (Ret (Ok (Rollback a)));
}.
Context (Hown : owns_rows).

(** An attempt under way: on the snapshot of [taken] commits. *)
Record attempt_ok (D : db) (m : gmap row nat) (l : list (nat * A)) (i c : nat) (L : gset row) (v : db) (q : script A) : Prop := {
  at_ran : ∃ q0 S l0 l1, fn !! i = Some q0 ∧ ran S q0 L v q ∧ l = l0 ++ l1 ∧ length l0 = c ∧ in_order fn D0 l0 S ∧
    ∀ r, (stamp m r ≤ c)%nat → cell_at S r = cell_at D r;
  at_locked : ∀ r, r ∈ L → (stamp m r ≤ c)%nat;
}.

(** A call that was carried out has returned its result, or the answer to its
    COMMIT was lost. *)
Definition kept_or_lost (a : A) (r : result A) : Prop := r = Ok a ∨ faults = true ∧ ∃ e, r = Err e ∧ retryable e = false.

Record rr_inv (s : rr_state A) (l : list (nat * A)) : Prop := {
  ri_serial : in_order fn D0 l (rr_db s);
  ri_clock : clock s = length l;
  ri_stamps : ∀ r, (stamp (stamps s) r ≤ clock s)%nat;
  ri_once : NoDup l.*1;
  ri_callers : dom (callers s) = dom fn;
  ri_attempt : ∀ i k c L v q, callers s !! i = Some (Running k c L v q) → attempt_ok (rr_db s) (stamps s) l i c L v q;
  ri_apart : ∀ i j x y, i ≠ j → callers s !! i = Some x → callers s !! j = Some y → keeps_rows x ## keeps_rows y;
  ri_done : ∀ i n a, callers s !! i = Some (Returned n (Ok a)) → (i, a) ∈ l;
  ri_listed : ∀ i a, (i, a) ∈ l → ∃ n r, callers s !! i = Some (Returned n r) ∧ kept_or_lost a r;
}.

Lemma in_order_same l D D' : same_rows D D' → in_order fn D0 l D → in_order fn D0 l D'.
Proof. intros HD Hl. inversion Hl; subst; [constructor; by etrans|econstructor; eauto; by etrans]. Qed.

Lemma stamp_written c L m r : stamp (written c L m) r = if decide (r ∈ L) then c else stamp m r.
Proof.
  unfold stamp, written. rewrite lookup_union, lookup_gset_to_gmap. case_decide; [by rewrite option_guard_True; [destruct (m !! r)|]|].
  rewrite option_guard_False by done. by destruct (m !! r).
Qed.
Lemma attempt_same D D' m l i c L v q : same_rows D D' → attempt_ok D m l i c L v q → attempt_ok D' m l i c L v q.
Proof.
  intros HD [(q0 & S & l0 & l1 & Hq & Hran & Hl & Hc & Hs & Hrows) Hlk]. split; [|done].
  exists q0, S, l0, l1. split_and!; try done. intros r Hr. rewrite <-(cell_same _ _ HD). by apply Hrows.
Qed.

(** Any step of one caller that commits nothing. *)
Lemma ri_move s l i x x' D' :
  rr_inv s l → callers s !! i = Some x → is_returned x = false → same_rows (rr_db s) D' →
  match x' with
  | Resting _ => True
  | Running k c L v q => attempt_ok (rr_db s) (stamps s) l i c L v q ∧ unlocked i L (callers s)
  | Returned _ r => ∃ e, r = Err e
  end → rr_inv (set_caller i x' D' s) l.
Proof.
  intros [I1 I2 I3 I4 I5 I6 I7 I8 I9] Hi Hx HD Hx'.
  assert (Hother : ∀ j y, j ≠ i → callers s !! j = Some y → keeps_rows x' ## keeps_rows y).
  { intros j y Hj Hy. destruct x' as [k|k c L v q|n r]; [set_solver| |set_solver]. destruct Hx' as [_ Hu].
    destruct (Hu j y Hy) as [->|Hdisj]; [done|exact Hdisj]. }
  split; cbn [rr_db clock stamps callers set_caller]; try done.
  - by eapply in_order_same.
  - rewrite dom_insert_L. assert (i ∈ dom (callers s)) by (by apply elem_of_dom_2 in Hi). set_solver.
  - intros j k c L v q. rewrite lookup_insert. case_decide; [|intros Hj; eapply attempt_same; [done|by eapply I6]].
    intros [= ->]. subst j. eapply attempt_same; [done|]. apply Hx'.
  - intros j1 j2 y1 y2 Hne. rewrite !lookup_insert. repeat case_decide; intros; simplify_eq; try done.
    + by apply (Hother j2).
    + symmetry. by apply (Hother j1).
    + by apply (I7 j1 j2).
  - intros j n a. rewrite lookup_insert. case_decide; [|apply I8]. intros [= ->]. by destruct Hx' as [e [=]].
  - intros j a Hj. destruct (I9 j a Hj) as (n & r & Hr & Hcase). exists n, r. split; [|done].
    rewrite lookup_insert_ne; [done|]. intros <-. rewrite Hi in Hr. by injection Hr as ->.
Qed.

Lemma ri_commit s l i k c L v a n r :
  rr_inv s l → callers s !! i = Some (Running k c L v (Ret (Ok (Commit a)))) →
  kept_or_lost a r → rr_inv (commit_rows i (Returned n r) L v s) (l ++ [(i, a)]).
Proof.
  intros [I1 I2 I3 I4 I5 I6 I7 I8 I9] Hi Hr.
  assert (Hnew : i ∉ l.*1).
  { intros ([j b] & -> & Hin)%list_elem_of_fmap. destruct (I9 _ _ Hin) as (n' & r' & Hr' & _). cbn in Hi. congruence. }
  destruct (I6 _ _ _ _ _ _ Hi) as [(q0 & S & l0 & l1 & Hq & Hran & -> & Hc & Hs & Hrows) Hlk].
  destruct (ran_commit (rows_of i) S q0 (ow_confined Hown _ _ Hq) L v a (rr_db s) Hran) as (t & d' & Htx & Hd').
  { intros r' Hr'. apply Hrows, Hlk. by eapply (ow_all Hown). }
  split; cbn [rr_db clock stamps callers commit_rows]; try done.
  - by eapply (in_order_snoc _ _ _ (rr_db s)).
  - rewrite I2, !length_app. cbn. lia.
  - intros r'. rewrite stamp_written. case_decide; [lia|]. specialize (I3 r'). lia.
  - rewrite fmap_app. apply NoDup_app. split_and!; [done| |apply NoDup_singleton]. intros j Hj ->%list_elem_of_singleton. done.
  - rewrite dom_insert_L. assert (i ∈ dom (callers s)) by (by apply elem_of_dom_2 in Hi). set_solver.
  - intros j k' c' L' v' q'. rewrite lookup_insert. case_decide as Hj; [done|]. intros Hy.
    pose proof (I7 i j _ _ Hj Hi Hy) as Hdisj. cbn in Hdisj.
    destruct (I6 _ _ _ _ _ _ Hy) as [(q1 & S1 & m0 & m1 & Hq1 & Hran1 & Hm & Hc1 & Hs1 & Hrows1) Hlk1].
    assert (Hle : (c' ≤ clock s)%nat) by (rewrite I2, Hm, length_app; lia). split.
    + exists q1, S1, m0, (m1 ++ [(i, a)]). rewrite Hm, app_assoc. split_and!; try done. intros r'. rewrite stamp_written, cell_view.
      case_decide as Hr'; [lia|]. intros Hst. by apply Hrows1.
    + intros r' Hr'. rewrite stamp_written. rewrite decide_False by set_solver. by apply Hlk1.
  - intros j1 j2 y1 y2 Hne. rewrite !lookup_insert. repeat case_decide; intros; simplify_eq; try done; cbn; first [set_solver|by apply (I7 j1 j2)].
  - intros j n' b. rewrite lookup_insert. case_decide as Hj; [|intros Hb; apply elem_of_app; left; by eapply I8].
    intros [= -> ->]. subst j. destruct Hr as [[= ->]|(_ & e & [=] & _)]. set_solver.
  - intros j b [Hin|Hin]%elem_of_app.
    + destruct (I9 j b Hin) as (n' & r' & Hr' & Hcase). exists n', r'. split; [|done]. rewrite lookup_insert_ne; [done|]. intros <-.
      cbn in Hi. congruence.
    + apply list_elem_of_singleton in Hin as [= -> ->]. rewrite lookup_insert_eq. by exists n, r.
Qed.

Lemma ri_query s l i k c L v q rows q' d' :
  rr_inv s l → at_statement s i k c L v q rows (Ok q') d' → unlocked i rows (callers s) →
  (∀ r, r ∈ rows → (stamp (stamps s) r ≤ c)%nat) →
  rr_inv (set_caller i (Running k c (L ∪ rows) d' q') (rollback (rr_db s) d') s) l.
Proof.
  intros Hinv [Hi He] Hu Hst. eapply ri_move; [done|done|done|apply rollback_same|].
  destruct (ri_attempt _ _ Hinv _ _ _ _ _ _ Hi) as [(q0 & S & l0 & l1 & Hq & Hran & Hl & Hc & Hs & Hrows) Hlk]. split.
  - split; [|intros r [Hr|Hr]%elem_of_union; auto]. exists q0, S, l0, l1. split_and!; try done.
    eapply ran_step; [done| |done]. apply rollback_same.
  - intros j y Hy. destruct (decide (j = i)) as [->|Hj]; [by left|]. right. apply disjoint_union_l. split.
    + by apply (ri_apart _ _ Hinv i j _ _ (not_eq_sym Hj) Hi Hy).
    + by destruct (Hu j y Hy) as [->|?].
Qed.

Lemma turned_away_ok D m l i k e (cs : gmap nat (caller A)) : match turned_away (A := A) maxAttempts k e with
  | Resting _ => True
  | Running k c L v q => attempt_ok D m l i c L v q ∧ unlocked i L cs
  | Returned _ r => ∃ e, r = Err e
  end.
Proof. unfold turned_away. destruct (_ && _); eauto. Qed.
Lemma turned_away_fatal k e : retryable e = false → turned_away (A := A) maxAttempts k e = Returned (S k) (Err e).
Proof. intros He. unfold turned_away. by rewrite He. Qed.

Lemma rr_inv_step s s' l : rr_inv s l → rr_step fn maxAttempts faults s s' →
  rr_inv s' l ∨ ∃ i k c L v a r, rr_inv s' (l ++ [(i, a)]) ∧ callers s !! i = Some (Running k c L v (Ret (Ok (Commit a)))) ∧
    s' = commit_rows i (Returned (S k) r) L v s ∧ kept_or_lost a r.
Proof.
  intros Hinv Hstep. inversion Hstep as [i k q Hi Hq| | | | | |i k c L v a Hi|i k e Hf Hi He|i x k e Hf Hi Hk|i k c L v a e Hf Hi He]; subst.
  - left. eapply ri_move; [done|done|done|reflexivity|]. split; [|intros j y Hy; right; set_solver].
    split; [|set_solver]. exists q, (rr_db s), l, []. split_and!; try done; [by constructor|by rewrite app_nil_r|by rewrite (ri_clock _ _ Hinv)|apply Hinv].
  - left. by eapply ri_query.
  - left. destruct H as [Hi _]. eapply ri_move; [done|done|done|apply rollback_same|apply turned_away_ok].
  - left. destruct H as [Hi _]. eapply ri_move; [done|done|done|reflexivity|apply turned_away_ok].
  - left. eapply ri_move; [done|done|done|reflexivity|apply turned_away_ok].
  - left. eapply ri_move; [done|done|done|reflexivity|apply turned_away_ok].
  - right. exists i, k, c, L, v, a, (Ok a). split_and!; [|done|done|by left]. eapply ri_commit; [done|done|by left].
  - left. eapply ri_move; [done|done|done|reflexivity|]. eauto.
  - left. eapply ri_move; [done|done|by destruct x|reflexivity|apply turned_away_ok].
  - right. rewrite turned_away_fatal by done. exists i, k, c, L, v, a, (Err e).
    assert (kept_or_lost a (Err e)) by (right; eauto). split_and!; [|done..]. by eapply ri_commit.
Qed.

Lemma rr_inv_start : rr_inv (rr_start fn D0) [].
Proof.
  split; cbn [rr_db clock stamps callers rr_start]; try done.
  - by constructor.
  - constructor.
  - apply dom_fmap_L.
  - intros i k c L v q. rewrite lookup_fmap. by destruct (fn !! i).
  - intros i j x y _. rewrite !lookup_fmap. destruct (fn !! i), (fn !! j); intros; simplify_eq/=. set_solver.
  - intros i n a. rewrite lookup_fmap. by destruct (fn !! i).
  - intros i a Hin. by apply not_elem_of_nil in Hin.
Qed.

Lemma rr_inv_reached s : rtc (rr_step fn maxAttempts faults) (rr_start fn D0) s → ∃ l, rr_inv s l.
Proof.
  revert s. apply rtc_ind_r; [exists []; apply rr_inv_start|]. intros s s' _ Hstep [l IH].
  destruct (rr_inv_step _ _ _ IH Hstep) as [?|(i & ? & ? & ? & ? & a & ? & ? & _)]; eauto.
Qed.
End serial.
Arguments ri_serial {A fn faults D0 s l} _.
Arguments ri_clock {A fn faults D0 s l} _.
Arguments ri_stamps {A fn faults D0 s l} _.
Arguments ri_once {A fn faults D0 s l} _.
Arguments ri_callers {A fn faults D0 s l} _.
Arguments ri_attempt {A fn faults D0 s l} _.
Arguments ri_apart {A fn faults D0 s l} _.
Arguments ri_done {A fn faults D0 s l} _.
Arguments ri_listed {A fn faults D0 s l} _.
Arguments ow_confined {A fn rows_of} _.
Arguments ow_all {A fn rows_of} _.
Arguments ow_commit {A fn rows_of} _.

(** ** Nobody gives up *)

(** When no two rows are locked by one caller nobody waits for a waiting one,
    and every refused attempt is due to a commit made since its snapshot: with as
    many attempts as callers all of them succeed. *)
Section succeed.
Context {A : Type} (fn : gmap nat (script A)) (maxAttempts : Z) (rows_of : nat → gset row) (D0 : db) (most : nat).
Context (Hown : owns_rows fn rows_of).

(** [sound l D]: what is known of the rows after the calls of [l]. *)
Record can_succeed (sound : list (nat * A) → db → Prop) : Prop := {
  cs_one : ∀ i, (size (rows_of i) ≤ 1)%nat;
  cs_calls : Z.of_nat (size fn) ≤ maxAttempts;
  cs_length : ∀ i q, fn !! i = Some q → within most q;
  cs_start : ∀ D, same_rows D0 D → sound [] D;
  cs_next : ∀ l D i q a t t' D1 D', sound l D → fn !! i = Some q → i ∉ l.*1 →
    transaction (body_of q) no_fault t D = (Ok a, t', D1) → same_rows D1 D' → sound (l ++ [(i, a)]) D';
  cs_same : ∀ l D D', same_rows D D' → sound l D → sound l D';
  cs_no_throw : ∀ l S i q0 L v q, sound l S → i ∉ l.*1 → fn !! i = Some q0 → ran S q0 L v q →
    (∀ e, q ≠ Ret (Err e)) ∧ ∀ d rows e d', same_rows v d → exec q d ≠ Some (rows, Err e, d');
}.
Context (sound : list (nat * A) → db → Prop) (Hcs : can_succeed sound).
Notation inv := (rr_inv fn false D0).
Notation step := (rr_step fn maxAttempts false).

Lemma in_order_sound l D : in_order fn D0 l D → NoDup l.*1 → sound l D.
Proof.
  induction 1 as [D Hs|l D i q a d t t' d' D' _ IH Hi Hd Htx Hd']; intros Hnd; [by apply (cs_start _ Hcs)|].
  rewrite fmap_app in Hnd. apply NoDup_app in Hnd as (Hnd & Hni & _).
  apply (cs_next _ Hcs l d i q a t t' d' D'); try done; [by eapply (cs_same _ Hcs), IH|].
  intros Hin. by apply (Hni i Hin), list_elem_of_singleton.
Qed.

(** Refused attempts are counted by commits, and nobody has thrown. *)
Record rr_live (s : rr_state A) : Prop := {
  rl_running : ∀ i k c L v q, callers s !! i = Some (Running k c L v q) →
    (k ≤ c)%nat ∧ (c ≤ clock s)%nat;
  rl_resting : ∀ i k, callers s !! i = Some (Resting k) → (k ≤ clock s)%nat;
  rl_returned : ∀ i n e, callers s !! i ≠ Some (Returned n (Err e));
}.

Lemma unreturned s l i x : inv s l → callers s !! i = Some x → is_returned x = false → i ∉ l.*1.
Proof.
  intros Hinv Hi Hx ([j a] & -> & Hin)%list_elem_of_fmap. destruct (ri_listed Hinv _ _ Hin) as (n & r & Hr & _).
  cbn in Hi. rewrite Hi in Hr. by injection Hr as ->.
Qed.

(** A caller that has not returned leaves room for one commit more. *)
Lemma commits_bounded s l i x : inv s l → callers s !! i = Some x → is_returned x = false → (clock s < size fn)%nat.
Proof.
  intros Hinv Hi Hx. rewrite (ri_clock Hinv), <-(length_fmap fst l), <-(size_dom (D := gset nat) fn).
  rewrite <-(ri_callers Hinv). pose proof (unreturned _ _ _ _ Hinv Hi Hx) as Hnew.
  assert (Hnd : NoDup (i :: l.*1)) by (constructor; [done|apply Hinv]).
  change (length (i :: l.*1) ≤ length (elements (dom (callers s))))%nat.
  apply submseteq_length, NoDup_submseteq; [done|]. intros j Hj. apply elem_of_elements.
  apply elem_of_cons in Hj as [->|([j' a] & -> & Hin)%list_elem_of_fmap]; [by apply elem_of_dom_2 in Hi|].
  destruct (ri_listed Hinv _ _ Hin) as (n & r & Hr & _). by apply elem_of_dom_2 in Hr.
Qed.

Lemma running_rows s l i k c L v q : inv s l → callers s !! i = Some (Running k c L v q) → L ⊆ rows_of i.
Proof.
  intros Hinv Hi. destruct (ri_attempt Hinv _ _ _ _ _ _ Hi) as [(q0 & S & l0 & l1 & Hq & Hran & _) _].
  by apply (ran_facts (rows_of i) S q0 (ow_confined Hown _ _ Hq)) in Hran as (_ & ? & _).
Qed.

Lemma statement_rows s l i k c L v q rows x d' : inv s l → at_statement s i k c L v q rows x d' → rows ⊆ rows_of i.
Proof.
  intros Hinv [Hi He]. destruct (ri_attempt Hinv _ _ _ _ _ _ Hi) as [(q0 & S & l0 & l1 & Hq & Hran & _) _].
  apply (ran_facts (rows_of i) S q0 (ow_confined Hown _ _ Hq)) in Hran as (Hc & _).
  destruct q as [y|B st locks cont]; [done|]. rewrite (exec_rows _ _ _ _ _ _ _ He). by apply Hc.
Qed.

(** Who holds a row holds all of its rows. *)
Lemma holds_all s l j k c L v q r : inv s l → callers s !! j = Some (Running k c L v q) → r ∈ L → rows_of j ⊆ L.
Proof.
  intros Hinv Hj Hr r2 Hr2. pose proof (running_rows _ _ _ _ _ _ _ _ Hinv Hj r Hr) as Hr'. pose proof (cs_one _ Hcs j) as Hone.
  assert (r2 = r) as ->; [|done]. apply (size_singleton_inv (rows_of j)); [|done..].
  assert (size (rows_of j) ≠ 0%nat); [|lia]. intros H0%size_empty_inv. set_solver.
Qed.

(** So who holds a row others wait for does not wait. *)
Lemma holder_unlocked s l j k c L v q rows x d' r :
  inv s l → at_statement s j k c L v q rows x d' → r ∈ L → unlocked j rows (callers s).
Proof.
  intros Hinv Hat Hr m z Hz. pose proof (statement_rows _ _ _ _ _ _ _ _ _ _ _ Hinv Hat) as Hrows. destruct Hat as [Hj _].
  destruct (decide (m = j)) as [->|Hm]; [by left|right].
  pose proof (ri_apart Hinv j m _ _ (not_eq_sym Hm) Hj Hz) as Hap. cbn in Hap.
  pose proof (holds_all _ _ _ _ _ _ _ _ _ Hinv Hj Hr). set_solver.
Qed.

Lemma waits_once s l i j m : inv s l → waits s i j → ¬ waits s j m.
Proof.
  intros Hinv (Hij & k & c & L & v & q & rows & x & d' & y & Hat & Hy & Hnd)
    (Hjm & k2 & c2 & L2 & v2 & q2 & rows2 & x2 & d2 & z & Hat2 & Hz & Hnd2).
  pose proof Hat2 as [Hj He2]. rewrite Hj in Hy. injection Hy as <-. cbn in Hnd.
  destruct (set_choose_or_empty L2) as [[r Hr]|He]; [|set_solver].
  by destruct (holder_unlocked _ _ _ _ _ _ _ _ _ _ _ _ Hinv Hat2 Hr m z Hz) as [->|?].
Qed.

(** Steps caller [x] can still make, attempts that will be refused included. *)
Definition rr_budget (n : nat) (x : caller A) : Prop :=
  match x with
  | Resting k => ((size fn - k) * (most + 2) ≤ n)%nat
  | Running k _ _ _ q => ∃ m, within m q ∧ ((size fn - Datatypes.S k) * (most + 2) + m + 1 ≤ n)%nat
  | Returned _ _ => True
  end.
Definition rr_budgets (b : gmap nat nat) (s : rr_state A) : Prop :=
  map_Forall (λ i x, ∃ n, b !! i = Some n ∧ rr_budget n x) (callers s).

Lemma live_move s i x x' c' D' m' :
  rr_live s → callers s !! i = Some x → (clock s ≤ c')%nat →
  match x' with
  | Resting k => (k ≤ c')%nat
  | Running k c _ _ _ => (k ≤ c)%nat ∧ (c ≤ c')%nat
  | Returned _ r => ∀ e, r ≠ Err e
  end → rr_live (RR D' c' m' (<[i := x']> (callers s))).
Proof.
  intros [L1 L2 L3] Hi Hc Hx'. split; cbn.
  - intros j k c L v q. rewrite lookup_insert. case_decide; [by intros [= ->]|]. intros [? ?]%L1. lia.
  - intros j k. rewrite lookup_insert. case_decide; [by intros [= ->]|]. intros ?%L2. lia.
  - intros j n e. rewrite lookup_insert. case_decide; [|apply L3]. intros [= ->]. by apply (Hx' e).
Qed.

Lemma budget_move s i x x' b D' c' m' :
  rr_budgets b s → callers s !! i = Some x → (∀ n, rr_budget n x → ∃ m, n = Datatypes.S m ∧ rr_budget m x') →
  ∃ b', rr_budgets b' (RR D' c' m' (<[i := x']> (callers s))) ∧ total b = Datatypes.S (total b').
Proof.
  intros Hb Hi Hx. destruct (Hb i x Hi) as (n & Hn & Hbud). destruct (Hx n Hbud) as (m & -> & Hm).
  exists (<[i := m]> b). split; [|by apply total_insert]. intros j y. cbn [callers]. destruct (decide (i = j)) as [<-|Hij].
  - rewrite !lookup_insert_eq. intros [= <-]. eauto.
  - rewrite !lookup_insert_ne by done. apply (Hb j y).
Qed.

Lemma turned_away_conflict k code : code = "40001" ∨ code = "40P01" → (Datatypes.S k < size fn)%nat →
  turned_away (A := A) maxAttempts k (PgError code) = Resting (Datatypes.S k).
Proof.
  intros Hcode Hk. unfold turned_away. assert (Z.of_nat (Datatypes.S k) < maxAttempts) as Hlt by (pose proof (cs_calls _ Hcs); lia).
  rewrite (proj2 (Z.ltb_lt _ _) Hlt). by destruct Hcode as [-> | ->].
Qed.

Lemma live_step s s' l b : inv s l → rr_live s → rr_budgets b s → step s s' →
  rr_live s' ∧ ∃ b', rr_budgets b' s' ∧ total b = Datatypes.S (total b').
Proof.
  intros Hinv Hl Hb Hstep.
  assert (Hno : ∀ i k c L v q, callers s !! i = Some (Running k c L v q) →
    (∀ e, q ≠ Ret (Err e)) ∧ ∀ d rows e d', same_rows v d → exec q d ≠ Some (rows, Err e, d')).
  { intros i k c L v q Hi. pose proof (unreturned _ _ _ _ Hinv Hi eq_refl) as Hnew.
    destruct (ri_attempt Hinv _ _ _ _ _ _ Hi) as [(q0 & S & l0 & l1 & Hq & Hran & -> & Hc & Hs & Hrows) _].
    rewrite fmap_app, elem_of_app in Hnew. pose proof (ri_once Hinv) as Hnd. rewrite fmap_app in Hnd.
    apply NoDup_app in Hnd as (Hnd & _ & _). apply (cs_no_throw _ Hcs l0 S i q0 L v q); try done; [by apply in_order_sound|tauto]. }
  assert (Hrefused : ∀ i k c L v q code D', callers s !! i = Some (Running k c L v q) → code = "40001" → (c < clock s)%nat →
    rr_live (set_caller i (turned_away maxAttempts k (PgError code)) D' s) ∧
    ∃ b', rr_budgets b' (set_caller i (turned_away maxAttempts k (PgError code)) D' s) ∧ total b = Datatypes.S (total b')).
  { intros i k c L v q code D' Hi Hcode Hlt. destruct (rl_running _ Hl _ _ _ _ _ _ Hi) as [Hk Hc].
    pose proof (commits_bounded _ _ _ _ Hinv Hi eq_refl) as Hn. rewrite turned_away_conflict by (by left || lia). split.
    - eapply live_move; [done|done|done|]. lia.
    - eapply budget_move; [done|done|]. intros n (m & _ & Hm). exists (pred n). cbn [rr_budget]. split; nia. }
  inversion Hstep as [i k q Hi Hq|i k c L v q rows q' d' [Hi He] Hu Hst|i k c L v q rows e d' [Hi He]|i k c L v q rows x d' r [Hi He] Hu Hr Hlt
    |i k c L v q Hi Hw|i k c L v e Hi|i k c L v a Hi|i k e Hf|i x k e Hf|i k c L v a e Hf]; subst; try done.
  - pose proof (rl_resting _ Hl _ _ Hi) as Hk. pose proof (commits_bounded _ _ _ _ Hinv Hi eq_refl) as Hn. split.
    + eapply live_move; [done|done|done|]. lia.
    + eapply budget_move; [done|done|]. cbn [rr_budget]. intros n Hm. exists (pred n).
      replace (size fn - k)%nat with (Datatypes.S (size fn - Datatypes.S k)) in Hm by lia. split; [nia|].
      exists most. split; [by apply (cs_length _ Hcs i)|nia].
  - destruct (rl_running _ Hl _ _ _ _ _ _ Hi) as [Hk Hc]. split.
    + eapply live_move; [done|done|done|]. lia.
    + eapply budget_move; [done|done|]. intros n (m & Hm & Hle).
      destruct (within_exec m q q' (rollback v (rr_db s)) rows d' Hm He) as (m' & -> & Hm'). exists (pred n). split; [nia|].
      exists m'. split; [done|nia].
  - exfalso. destruct (Hno _ _ _ _ _ _ Hi) as [_ Hne]. by eapply Hne; [|exact He].
  - apply (Hrefused i k c L v q "40001"); [done|done|]. pose proof (ri_stamps Hinv r). lia.
  - exfalso. inversion Hw as [? ? H1|? j ? H1 H2]; subst; [by destruct H1|].
    inversion H2 as [? ? H3|? m ? H3 _]; subst; by eapply (waits_once s l i j).
  - exfalso. destruct (Hno _ _ _ _ _ _ Hi) as [Hne _]. by apply (Hne e).
  - split; [eapply live_move; [done|done|lia|done]|]. eapply budget_move; [done|done|]. intros n (m & _ & Hm).
    exists (pred n). split; [nia|done].
Qed.

(** *** Progress *)

Lemma running_moves s l j k c L v q : inv s l → callers s !! j = Some (Running k c L v q) →
  (∀ rows x d', exec q (rollback v (rr_db s)) = Some (rows, x, d') → unlocked j rows (callers s)) → ∃ s', step s s'.
Proof.
  intros Hinv Hj Hfree. destruct q as [[[a|a]|e]|B st locks cont].
  - eexists. by eapply rr_commit.
  - destruct (ri_attempt Hinv _ _ _ _ _ _ Hj) as [(q0 & S & l0 & l1 & Hq & Hran & _) _].
    by destruct (ow_commit Hown _ _ _ _ _ _ Hq Hran).
  - eexists. by eapply rr_throw.
  - destruct (exec (Stmt st locks cont) (rollback v (rr_db s))) as [[[rows x] d']|] eqn:He; [|cbn in He; by destruct (st _)].
    specialize (Hfree _ _ _ eq_refl). destruct (decide (set_Exists (λ r, (c < stamp (stamps s) r)%nat) rows)) as [(r & Hr & Hlt)|Hno].
    + eexists. by eapply rr_conflict.
    + assert (∀ r, r ∈ rows → (stamp (stamps s) r ≤ c)%nat) as Hst.
      { intros r Hr. apply Nat.nlt_ge. intros Hlt. apply Hno. by exists r. }
      destruct x as [q'|e]; eexists; [by eapply rr_query|by eapply rr_error].
Qed.

Lemma rr_progress s l : inv s l → all_returned s ∨ ∃ s', step s s'.
Proof.
  intros Hinv. destruct (decide (all_returned s)) as [|Hno]; [by left|right].
  apply map_not_Forall in Hno as (i & x & Hi & Hx); [|apply _]. destruct x as [k|k c L v q|n r]; [| |done].
  - assert (is_Some (fn !! i)) as [q Hq] by (apply elem_of_dom; rewrite <-(ri_callers Hinv); by apply elem_of_dom_2 in Hi).
    eexists. by eapply rr_snapshot.
  - destruct (exec q (rollback v (rr_db s))) as [[[rows x] d']|] eqn:He; [|eapply (running_moves s l i); [done|done|congruence]].
    destruct (decide (unlocked i rows (callers s))) as [Hu|Hu]; [apply (running_moves s l i k c L v q Hinv Hi); intros rows0 x0 d0 He0; rewrite He in He0; injection He0 as <- _ _; exact Hu|].
    apply map_not_Forall in Hu as (j & y & Hy & Hnd); [|apply _]. destruct y as [k'|k' c' L' v' q'|n r]; cbn in Hnd.
    1, 3: exfalso; apply Hnd; right; set_solver.
    destruct (set_choose_or_empty L') as [[r Hr]|Hem]; [|exfalso; apply Hnd; right; set_solver].
    eapply (running_moves s l j); [done|done|]. intros rows' x' d2 He'. by eapply holder_unlocked; [|split|].
Qed.

Lemma rr_live_start : rr_live (rr_start fn D0).
Proof.
  split; cbn.
  - intros i k c L v q. rewrite lookup_fmap. by destruct (fn !! i).
  - intros i k. rewrite lookup_fmap. destruct (fn !! i); [|done]. intros [= <-]. lia.
  - intros i n e. rewrite lookup_fmap. by destruct (fn !! i).
Qed.

Lemma total_const (m : gmap nat (script A)) w : total ((λ _, w) <$> m) = (size m * w)%nat.
Proof.
  unfold total. induction m as [|i q m Hi IH] using map_ind; [done|].
  rewrite fmap_insert, map_fold_insert_L, IH, map_size_insert_None; [lia|done|intros; lia|by rewrite lookup_fmap, Hi].
Qed.

Lemma rr_run n s : nsteps step n (rr_start fn D0) s → ∃ l, inv s l ∧ rr_live s ∧ (n ≤ size fn * (size fn * (most + 2)))%nat.
Proof.
  intros Hn. enough (∃ l b, inv s l ∧ rr_live s ∧ rr_budgets b s ∧ (n + total b = size fn * (size fn * (most + 2)))%nat) as (l & b & ? & ? & _ & ?)
    by (exists l; split_and!; [done|done|lia]).
  revert s Hn. induction n as [|n IH]; intros s Hn.
  - inversion Hn; subst. exists [], ((λ _, size fn * (most + 2))%nat <$> fn). split_and!; [by eapply rr_inv_start|apply rr_live_start| |by rewrite total_const].
    intros i x. cbn. rewrite !lookup_fmap. destruct (fn !! i) as [q|]; [|done]. intros [= <-]. cbn. eexists. split; [done|].
    cbn. rewrite Nat.sub_0_r. lia.
  - apply nsteps_inv_r in Hn as (s1 & Hn & Hstep). destruct (IH s1 Hn) as (l & b & Hinv & Hl & Hb & Ht).
    destruct (live_step _ _ _ _ Hinv Hl Hb Hstep) as (Hl' & b' & Hb' & Ht').
    destruct (rr_inv_step fn maxAttempts rows_of false D0 Hown s1 s l Hinv Hstep) as [Hinv'|(i & k & c & L & v & a & r & Hinv' & _)];
      [exists l, b'|eexists _, b']; (split_and!; [done..|lia]).
Qed.

(** Everybody has an answer in the end, and it is a success. *)
Lemma rr_all_succeed s l : inv s l → rr_live s → all_returned s →
  sound l (rr_db s) ∧ l.*1 ≡ₚ elements (dom fn) ∧ ∀ i, i ∈ dom fn → ∃ n a, (i, a) ∈ l ∧ callers s !! i = Some (Returned n (Ok a)).
Proof.
  intros Hinv Hl Hall. assert (Hok : ∀ i, i ∈ dom fn → ∃ n a, (i, a) ∈ l ∧ callers s !! i = Some (Returned n (Ok a))).
  { intros i. rewrite <-(ri_callers Hinv). intros [x Hx]%elem_of_dom. pose proof (Hall i x Hx) as Hr. destruct x as [|?|n [a|e]]; try done.
    - exists n, a. split; [by eapply (ri_done Hinv)|done].
    - by destruct (rl_returned _ Hl i n e). }
  split; [apply in_order_sound; apply Hinv|]. split; [|done]. apply NoDup_Permutation; [apply Hinv|apply NoDup_elements|].
  intros i. rewrite elem_of_elements. split.
  - intros ([j a] & -> & Hin)%list_elem_of_fmap. destruct (ri_listed Hinv _ _ Hin) as (n & r & Hr & _). rewrite <-(ri_callers Hinv).
    by apply elem_of_dom_2 in Hr.
  - intros Hi. destruct (Hok i Hi) as (n & a & Hin & _). apply list_elem_of_fmap. by exists (i, a).
Qed.
End succeed.

(** ** The steps, executable *)

Section run.
Context {A : Type} (fn : gmap nat (script A)) (maxAttempts : Z).

Definition rr_step_of (i : nat) (s : rr_state A) : option (rr_state A) :=
  match callers s !! i with
  | Some (Resting k) => q ← fn !! i; Some (set_caller i (Running k (clock s) ∅ (rr_db s) q) (rr_db s) s)
  | Some (Running k c L v q) =>
      match exec q (rollback v (rr_db s)), q with
      | Some (rows, x, d'), _ =>
          if decide (unlocked i rows (callers s)) then
            if decide (set_Exists (λ r, (c < stamp (stamps s) r)%nat) rows)
            then Some (set_caller i (turned_away maxAttempts k (PgError "40001")) (rr_db s) s)
            else Some (set_caller i (match x with Ok q' => Running k c (L ∪ rows) d' q' | Err e => turned_away maxAttempts k e end)
                         (rollback (rr_db s) d') s)
          else None
      | None, Ret (Err e) => Some (set_caller i (turned_away maxAttempts k e) (rr_db s) s)
      | None, Ret (Ok (Commit a)) => Some (commit_rows i (Returned (S k) (Ok a)) L v s)
      | None, _ => None
      end
  | _ => None
  end.

(** The callers of the list make a step each, in its order, if they can. *)
Definition rr_schedule (ids : list nat) (s : rr_state A) : rr_state A := foldl (λ s i, default s (rr_step_of i s)) s ids.

Lemma rr_step_of_sound faults i s s' : rr_step_of i s = Some s' → rr_step fn maxAttempts faults s s'.
Proof.
  unfold rr_step_of. destruct (callers s !! i) as [[k|k c L v q|n r]|] eqn:Hi; try done.
  - destruct (fn !! i) as [q|] eqn:Hq; [|done]. intros [= <-]. by apply rr_snapshot.
  - destruct (exec q _) as [[[rows x] d']|] eqn:He.
    + case_decide as Hu; [|done]. case_decide as Hex.
      * destruct Hex as (r & Hr & Hlt). intros [= <-]. by eapply rr_conflict.
      * assert (∀ r, r ∈ rows → (stamp (stamps s) r ≤ c)%nat) as Hst.
        { intros r Hr. apply Nat.nlt_ge. intros Hlt. apply Hex. by exists r. }
        destruct x as [q'|e]; intros [= <-]; [by eapply rr_query|by eapply rr_error].
    + destruct q as [[[a|a]|e]|]; intros [= <-]; [by eapply rr_commit|by eapply rr_throw].
Qed.

Lemma rr_schedule_sound faults ids s : rtc (rr_step fn maxAttempts faults) s (rr_schedule ids s).
Proof.
  unfold rr_schedule. revert s. induction ids as [|i ids IH]; intros s; cbn; [apply rtc_refl|].
  destruct (rr_step_of i s) as [s1|] eqn:Hs; cbn; [|apply IH]. eapply rtc_l; [by eapply rr_step_of_sound|apply IH].
Qed.
End run.

(** ** What a caller can rely on *)

(** C6: no update is lost, and the retries are bounded.  Any number of callers
    of [withRetry], each with work whose statements read only rows that it locks
    and writes before it commits ([owns_rows]: what REPEATABLE READ needs, since
    it admits write skew).  Whatever the interleaving, with conflicts, deadlocks,
    statements failing, connections breaking and answers to COMMIT lost:
    - the database is the result of running some of the calls one after the
      other, each of them once: all that returned, and of those that threw only
      the ones whose COMMIT was carried out and its answer lost;
    - nobody makes more than [maxAttempts] attempts, and who throws 40001 or
      40P01 has made all of them: those two are retried, and nothing else. *)
Theorem retries_serializable {A} (fn : gmap nat (script A)) maxAttempts rows_of faults D0 s :
  owns_rows fn rows_of → rtc (rr_step fn maxAttempts faults) (rr_start fn D0) s →
  (∃ l, in_order fn D0 l (rr_db s) ∧ NoDup l.*1 ∧
    (∀ i n a, callers s !! i = Some (Returned n (Ok a)) → (i, a) ∈ l) ∧
    (∀ i a, (i, a) ∈ l → ∃ n r, callers s !! i = Some (Returned n r) ∧
       (r = Ok a ∨ faults = true ∧ ∃ e, r = Err e ∧ retryable e = false))) ∧
  (∀ i x, callers s !! i = Some x → attempts_ok maxAttempts x).
Proof.
  intros Hown Hr. destruct (rr_inv_reached fn maxAttempts rows_of faults D0 Hown s Hr) as [l Hl].
  split; [|by eapply attempts_reached]. exists l. split_and!; [apply Hl|apply Hl|apply (ri_done Hl)|apply (ri_listed Hl)].
Qed.
