(* ===== verification/RetryDemo.v ===== *)
(** Two read-modify-write transactions that collide, and the retry that saves
    them (src/demo-retry.ts). *)
From stdpp Require Import pretty.
From Stdlib Require Import QArith Lqa.
From S2P Require Import Prelude JsNumber Schema Sql Fixtures Checkout Isolation Race Oversell Retry RepeatableRead.
#[local] Open Scope Z_scope.

(** ** [Number(balance) + delta] in hundredths *)

Lemma numQ_opp m e : (numQ (- m) e == - numQ m e)%Q.
Proof. unfold numQ, frac, frQ. destruct (0 <=? e); unfold Qeq, Qopp; cbn; lia. Qed.

Lemma numQ_int m e z : num_to_Z (Fin m e) = Some z → (numQ m e == inject_Z z)%Q.
Proof.
  intros Hz%num_to_Z_frac. unfold numQ. pose proof (frac_pos m e). destruct (frac m e) as [n d]. cbn in *.
  unfold frQ, Qeq. cbn. rewrite Z2Pos.id by lia. lia.
Qed.

Lemma num_of_Z_value z : Z.abs z < 2 ^ 53 → ∃ m e, num_of_Z z = Fin m e ∧ (numQ m e == inject_Z z)%Q.
Proof.
  intros Hz. destruct (Z.lt_trichotomy z 0) as [Hneg|[->|Hpos]].
  - destruct (num_of_Z_exact (- z)) as (m & e & Hr & _ & Hq); [lia|]. exists (- m), e. split.
    + unfold num_of_Z, rnd in *. destruct (Z.ltb_spec z 0); [|lia]. destruct (Z.ltb_spec (- z) 0); [lia|]. by rewrite Hr.
    + rewrite numQ_opp, Hq. unfold Qeq. cbn. lia.
  - exists 0, 0. by split.
  - destruct (num_of_Z_exact z) as (m & e & Hr & _ & Hq); [lia|]. eauto.
Qed.

Lemma num_of_cents_value c : 0 ≤ c < numeric_max →
  ∃ m e, num_of_cents c = Fin m e ∧ (frQ c 100 - frQ c 100 * ulpQ <= numQ m e <= frQ c 100 + frQ c 100 * ulpQ)%Q.
Proof.
  unfold numeric_max. intros Hc. destruct (decide (c = 0)) as [->|Hc0].
  { exists 0, 0. split; [done|]. split; vm_compute; discriminate. }
  destruct (rnd_Q c 100) as (m & e & Hr & _ & Hq); [lia|lia|rewrite !frQ_le_iff by lia; lia|]. eauto.
Qed.

(** The sum as a fraction, before it is rounded. *)
Lemma num_add_value m1 e1 m2 e2 : ∃ n d, 0 < d ∧ num_add (Fin m1 e1) (Fin m2 e2) = rnd n d ∧
  (frQ n d == numQ m1 e1 + numQ m2 e2)%Q.
Proof.
  cbn [num_add]. unfold numQ. pose proof (frac_pos m1 e1). pose proof (frac_pos m2 e2).
  destruct (frac m1 e1) as [n1 d1], (frac m2 e2) as [n2 d2]. cbn in *. exists (n1 * d2 + n2 * d1), (d1 * d2).
  split; [lia|]. split; [done|]. unfold frQ, Qeq, Qplus. cbn -[Z.mul Z.to_pos]. rewrite !Pos2Z.inj_mul, !Z2Pos.id by lia. lia.
Qed.

(** Adding whole units to an amount of a [numeric(12,2)] column is exact once
    the sum is stored in such a column. *)
Lemma sum_cents c delta : 0 ≤ c < numeric_max → 0 ≤ c + 100 * delta < numeric_max →
  ∃ x, num_text (num_add (num_of_cents c) (num_of_Z delta)) = Some x ∧ numeric_of x = Some (c + 100 * delta).
Proof.
  intros Hc Ht. pose proof Hc as Hc'. pose proof Ht as Ht'. unfold numeric_max in Hc', Ht'.
  destruct (num_of_Z_value delta) as (m2 & e2 & -> & Hd); [lia|].
  destruct (decide (c + 100 * delta = 0)) as [Hz|Hz].
  - pose proof (rnd_multiple_exact (- delta) 100 ltac:(lia) ltac:(lia)) as Hex. unfold num_of_cents.
    replace (- delta * 100) with c in Hex by lia. destruct (rnd c 100) as [m1 e1| | |]; try done.
    apply numQ_int in Hex. destruct (num_add_value m1 e1 m2 e2) as (n & d & Hd0 & -> & Hs).
    assert (n = 0) as ->.
    { rewrite Hex, Hd in Hs. unfold frQ, Qeq, Qplus in Hs. cbn in Hs. lia. }
    exists (Dec 0 0). rewrite Hz. unfold rnd, rnd_pos. cbn. by split.
  - destruct (num_of_cents_value c Hc) as (m1 & e1 & -> & Hv). destruct (num_add_value m1 e1 m2 e2) as (n & d & Hd0 & -> & Hs).
    set (T := frQ (c + 100 * delta) 100). assert (HT : (T == frQ c 100 + inject_Z delta)%Q).
    { unfold T, frQ, Qeq, Qplus. cbn -[Z.mul]. lia. }
    assert (HC : (0 <= frQ c 100 <= 10000000000 # 1)%Q) by (unfold frQ, Qle; simpl; lia).
    assert (HTb : (1 # 100 <= T <= 10000000000 # 1)%Q) by (unfold T, frQ, Qle; simpl; lia).
    assert (Hsum : (T - (1 # 500000) <= frQ n d <= T + (1 # 500000))%Q).
    { rewrite Hs, HT, Hd. unfold ulpQ in *. lra. }
    assert (Hn : 0 < n).
    { assert (0 < frQ n d)%Q as H0 by (unfold T in *; lra). unfold frQ, Qlt in H0. cbn in H0. lia. }
    destruct (rnd_Q n d Hn Hd0) as (m & e & Hr & Hm & Hq).
    { change (frQ 1 (10 ^ 40)) with (1 # Z.to_pos (10 ^ 40)).
      split; [eapply (Qle_trans _ (1 # 1000)); [vm_compute; discriminate|lra]
             |eapply (Qle_trans _ (inject_Z (10 ^ 20))); [|vm_compute; discriminate]].
      change (inject_Z (10 ^ 20)) with (100000000000000000000 # 1). lra. }
    rewrite Hr. destruct (num_text_close m e Hm) as (x & Hx & Hsc & HS).
    { change (inject_Z (10 ^ 20)) with (100000000000000000000 # 1). unfold ulpQ in *. lra. }
    exists x. split; [done|]. cbv zeta in HS.
    assert (Hfin : (T - (1 # 1000) <= frQ (dcoef x) (10 ^ dscale x) <= T + (1 # 1000))%Q) by (unfold ulpQ in *; lra).
    unfold T in *. clear -Hfin Hsc Ht Ht'. destruct Hfin as [Hlo Hhi].
    assert (Hsp : 0 < 10 ^ dscale x) by (by apply Z.pow_pos_nonneg).
    unfold frQ, Qle, Qplus, Qminus, Qopp in Hlo, Hhi. cbn -[Z.mul Z.pow Z.to_pos] in Hlo, Hhi.
    change (Z.to_pos 100) with 100%positive in Hlo, Hhi.
    rewrite ?Pos2Z.inj_mul, !Z2Pos.id in Hlo, Hhi by lia.
    unfold numeric_of. apply to_numeric_near; unfold numeric_max in *; lia.
Qed.

(** ** The work of one caller *)

Section demo.
Context `{PgText}.

(** SELECT balance FROM users WHERE id = $1 *)
Definition select_balance (buyerId : string) (d : db) : result (list Z) * db :=
  with_id buyerId (λ id, (Ok (match users d !! id with Some u => [u_balance u] | None => [] end), d)) d.

(** UPDATE users SET balance = $1 WHERE id = $2 *)
Definition update_balance (next : num) (buyerId : string) (d : db) : result unit * db :=
  match numeric_param next with
  | Err e => (Err e, d)
  | Ok x =>
      with_id buyerId (λ id,
        match users d !! id with
        | Some u =>
            match numeric_of x with
            | Some balance =>
                if balance <? 0 then (Err (PgError "23514"), d) else
                (Ok tt, set_users <[id := UserRow (u_email u) (u_full_name u) balance (u_password_hash u) (u_role u)]> d)
            | None => (Err (PgError "22003"), d)
            end
        | None => (Ok tt, d)
        end) d
  end.
Definition on_user (buyerId : string) (d : db) : gset row :=
  match bigint_in buyerId with
  | Some id => match users d !! id with Some _ => {[RUser id]} | None => ∅ end | None => ∅ end.

(** The function [adjust] hands to [withRetry]. *)
Definition adjust_work (buyerId : string) (delta : Z) : script unit :=
  Stmt (select_balance buyerId) (λ _, ∅) (λ rows,
    match rows with
    | [] => Ret (Err (JsError "TypeError"))
    | seen :: _ =>
        let next := num_add (num_of_cents seen) (num_of_Z delta) in
        Stmt (update_balance next buyerId) (on_user buyerId) (λ _, Ret (Ok (Commit tt)))
    end).

Context (buyerId : string) (id : Z) (Hid : bigint_in buyerId = Some id).

Lemma agree_user d d' : agree {[RUser id]} d d' → users d !! id = users d' !! id.
Proof. intros Ha. apply (fmap_eq_inj CUser). apply (Ha (RUser id)). by apply elem_of_singleton. Qed.

Lemma update_frame next d r : r ∉ on_user buyerId d → cell_at (update_balance next buyerId d).2 r = cell_at d r.
Proof.
  unfold on_user, update_balance, with_id. rewrite Hid. destruct (numeric_param next) as [x|e]; [|done].
  destruct (users d !! id) as [u|]; [|done]. rewrite elem_of_singleton. intros Hr.
  destruct (numeric_of x) as [b|]; [|done]. destruct (b <? 0); [done|]. cbn [snd].
  rewrite cell_set_users, decide_False by congruence. done.
Qed.

Lemma update_agree next d d' : agree {[RUser id]} d d' →
  (update_balance next buyerId d).1 = (update_balance next buyerId d').1 ∧
  agree {[RUser id]} (update_balance next buyerId d).2 (update_balance next buyerId d').2.
Proof.
  intros Ha. pose proof (agree_user _ _ Ha) as Hu. unfold update_balance, with_id. rewrite Hid, <-Hu.
  destruct (numeric_param next) as [x|e]; [|by split]. destruct (users d !! id) as [u|]; [|by split].
  destruct (numeric_of x) as [b|]; [|by split]. destruct (b <? 0); [by split|]. split; [done|].
  intros r Hr%elem_of_singleton. subst r. cbn. by rewrite !lookup_insert_eq.
Qed.

Lemma adjust_confined delta : confined {[RUser id]} (adjust_work buyerId delta).
Proof.
  cbn [confined adjust_work]. split; [set_solver|]. split; [intros d r _; unfold select_balance, with_id; by rewrite Hid|]. split.
  { intros d d' Ha. pose proof (agree_user _ _ Ha) as Hu. unfold select_balance, with_id. rewrite Hid, <-Hu. by split_and!. }
  intros [|seen rows]; [done|]. cbn [confined]. split; [|split; [|split]].
  - intros d. unfold on_user. rewrite Hid. destruct (users d !! id); set_solver.
  - intros d r. apply update_frame.
  - intros d d' Ha. destruct (update_agree (num_add (num_of_cents seen) (num_of_Z delta)) d d' Ha) as [H1 H2]. split_and!; [done| |done].
    unfold on_user. by rewrite Hid, (agree_user _ _ Ha).
  - done.
Qed.

(** Where the work can be, begun on the rows [S]. *)
Inductive adjusting (S : db) (delta : Z) : gset row → db → script unit → Prop :=
| adj_start : adjusting S delta ∅ S (adjust_work buyerId delta)
| adj_missing v : users S !! id = None → adjusting S delta ∅ v (Ret (Err (JsError "TypeError")))
| adj_seen v u : users S !! id = Some u → users v !! id = Some u →
    adjusting S delta ∅ v (Stmt (update_balance (num_add (num_of_cents (u_balance u)) (num_of_Z delta)) buyerId) (on_user buyerId)
      (λ _, Ret (Ok (Commit tt))))
| adj_done v u : users S !! id = Some u → adjusting S delta {[RUser id]} v (Ret (Ok (Commit tt))).

Lemma adjust_ran S delta L v q : ran S (adjust_work buyerId delta) L v q → adjusting S delta L v q.
Proof.
  induction 1 as [|L v q d rows q' d' _ IH Hd He]; [constructor|].
  destruct IH as [|v ?|v u Hu Hv|]; try done.
  - cbn in He. unfold select_balance, with_id in He. rewrite Hid in He.
    assert (users d !! id = users S !! id) as Hus by (by rewrite <-Hd). rewrite Hus in He.
    injection He as <- <- <-. rewrite union_empty_l_L. destruct (users S !! id) as [u|] eqn:Hu; [eapply adj_seen; eauto|by constructor].
  - assert (users d !! id = Some u) as Hus by (by rewrite <-Hd). pose proof (exec_rows _ _ _ _ _ _ _ He) as ->.
    cbn in He. destruct (update_balance _ buyerId d) as [[[]|e] d1]; [|done]. injection He as <- <-.
    replace (∅ ∪ on_user buyerId d) with ({[RUser id]} : gset row); [by eapply adj_done|].
    unfold on_user. rewrite Hid, Hus. set_solver.
Qed.

(** ** Any number of callers on one balance *)

Section callers.
Context (deltas : gmap nat Z) (maxAttempts : Z) (D0 : db) (u0 : user_row).
Definition adjusts : gmap nat (script unit) := adjust_work buyerId <$> deltas.

Definition owed (ids : list nat) : Z := sumZ (λ i, default 0 (deltas !! i)) ids.

(** No part of the changes takes the balance out of its column's range. *)
Record affordable_changes : Prop := {
  af_user : users D0 !! id = Some u0;
  af_range : ∀ ids, NoDup ids → (∀ i, i ∈ ids → i ∈ dom deltas) → 0 ≤ u_balance u0 + 100 * owed ids < numeric_max;
  af_calls : Z.of_nat (size deltas) ≤ maxAttempts;
}.
Context (Haf : affordable_changes).

Definition balanced (l : list (nat * unit)) (D : db) : Prop :=
  NoDup l.*1 ∧ (∀ i, i ∈ l.*1 → i ∈ dom deltas) ∧
  ∃ u, users D !! id = Some u ∧ u_balance u = u_balance u0 + 100 * owed l.*1.

Lemma adjusts_own : owns_rows adjusts (λ _, {[RUser id]}).
Proof.
  split.
  - intros i q. unfold adjusts. rewrite lookup_fmap. intros (delta & _ & ->)%fmap_Some. apply adjust_confined.
  - intros i q S L v a. unfold adjusts. rewrite lookup_fmap. intros (delta & _ & ->)%fmap_Some Hran%adjust_ran.
    by inversion Hran; subst.
  - intros i q S L v a. unfold adjusts. rewrite lookup_fmap. intros (delta & _ & ->)%fmap_Some Hran%adjust_ran.
    by inversion Hran.
Qed.

Lemma owed_snoc ids i : owed (ids ++ [i]) = owed ids + default 0 (deltas !! i).
Proof. unfold owed. rewrite sumZ_app. cbn. lia. Qed.

(** The next change is computed and stored exactly. *)
Lemma balanced_next l D i delta u : balanced l D → deltas !! i = Some delta → i ∉ l.*1 → users D !! id = Some u →
  update_balance (num_add (num_of_cents (u_balance u)) (num_of_Z delta)) buyerId D =
    (Ok tt, set_users <[id := UserRow (u_email u) (u_full_name u) (u_balance u + 100 * delta) (u_password_hash u) (u_role u)]> D) ∧
  u_balance u + 100 * delta = u_balance u0 + 100 * owed (l.*1 ++ [i]).
Proof.
  intros (Hnd & Hdom & u' & Hu' & Hb) Hi Hnew Hu. rewrite Hu in Hu'. injection Hu' as <-.
  pose proof (af_range Haf l.*1 Hnd Hdom) as Hr1. rewrite <-Hb in Hr1.
  assert (Hr2 : 0 ≤ u_balance u0 + 100 * owed (l.*1 ++ [i]) < numeric_max).
  { apply (af_range Haf).
    - apply NoDup_app. split_and!; [done| |apply NoDup_singleton]. intros j Hj ->%list_elem_of_singleton. done.
    - intros j [Hj|Hj%list_elem_of_singleton]%elem_of_app; [by apply Hdom|]. subst j. by apply elem_of_dom_2 in Hi. }
  rewrite owed_snoc, Hi in *. cbn [default] in *. unfold Datatypes.id in *.
  assert (Heq : u_balance u + 100 * delta = u_balance u0 + 100 * (owed l.*1 + delta)) by (rewrite Hb; ring). rewrite Heq.
  split; [|done]. rewrite <-Heq in *. destruct (sum_cents (u_balance u) delta Hr1 Hr2) as (x & Hx & Hn).
  unfold update_balance, numeric_param, with_id. rewrite Hx, Hid, Hu, Hn. by destruct (Z.ltb_spec (u_balance u + 100 * delta) 0); [lia|].
Qed.

Lemma adjusts_succeed : can_succeed adjusts maxAttempts (λ _, {[RUser id]}) D0 2 balanced.
Proof.
  split.
  - intros i. by rewrite size_singleton.
  - unfold adjusts. rewrite map_size_fmap. apply Haf.
  - intros i q. unfold adjusts. rewrite lookup_fmap. intros (delta & _ & ->)%fmap_Some. cbn. intros [|seen rows]; cbn; [done|]. by intros _.
  - intros D Hs. split; [constructor|]. split; [by intros i ?%not_elem_of_nil|]. exists u0. split; [by rewrite <-Hs; apply Haf|]. cbn. lia.
  - intros l D i q a t t' D1 D' Hbal. unfold adjusts. rewrite lookup_fmap. intros (delta & Hi & ->)%fmap_Some Hnew Htx Hs.
    pose proof Hbal as (Hnd & Hdom & u & Hu & Hb). destruct (balanced_next l D i delta u Hbal Hi Hnew Hu) as [Hup Heq].
    assert (Hrun : transaction (body_of (adjust_work buyerId delta)) no_fault t D = (Ok tt, S (S (S (S t))),
      set_users <[id := UserRow (u_email u) (u_full_name u) (u_balance u + 100 * delta) (u_password_hash u) (u_role u)]> D)).
    { apply transaction_run. cbn [body_of adjust_work].
      rewrite (bind_run _ _ _ _ _ [u_balance u] (S (S t)) D); [|apply query_run; unfold select_balance, with_id; by rewrite Hid, Hu].
      cbn [body_of]. rewrite (bind_run _ _ _ _ _ tt (S (S (S t))) _ (query_run _ _ _ _ _ Hup)). done. }
    rewrite Hrun in Htx. injection Htx as <- _ <-. unfold balanced. rewrite fmap_app. change ([(i, tt)].*1) with [i]. split; [|split].
    + apply NoDup_app. split_and!; [done| |apply NoDup_singleton]. intros j Hj ->%list_elem_of_singleton. done.
    + intros j [Hj|Hj%list_elem_of_singleton]%elem_of_app; [by apply Hdom|]. subst j. by apply elem_of_dom_2 in Hi.
    + eexists. rewrite <-Hs. cbn. rewrite lookup_insert_eq. split; [done|]. exact Heq.
  - intros l D D' Hs (Hnd & Hdom & u & Hu & Hb). split_and!; [done|done|]. exists u. split; [by rewrite <-Hs|done].
  - intros l S i q0 L v q Hbal Hnew. unfold adjusts. rewrite lookup_fmap. intros (delta & Hi & ->)%fmap_Some Hran%adjust_ran.
    pose proof Hbal as (Hnd & Hdom & u & Hu & Hb).
    destruct Hran as [|v Hno|v u' Hu' Hv|]; [split; [done|]|congruence|split; [done|]|done].
    + intros d rows e d' Hd. cbn. unfold select_balance, with_id. by rewrite Hid.
    + intros d rows e d' Hd. assert (Hdu : users d !! id = Some u') by (by rewrite <-Hd).
      rewrite Hu in Hu'. injection Hu' as <-.
      assert (Hbd : balanced l d) by (split_and!; [done|done|]; by exists u).
      destruct (balanced_next l d i delta u Hbd Hi Hnew Hdu) as [Hup _]. cbn [exec]. by rewrite Hup.
Qed.

Lemma adjusts_end s l : rr_inv adjusts false D0 s l → rr_live s → all_returned s →
  (∀ i, i ∈ dom deltas → ∃ k, callers s !! i = Some (Returned k (Ok tt))) ∧
  ∃ u, users (rr_db s) !! id = Some u ∧ u_balance u = u_balance u0 + 100 * owed (elements (dom deltas)).
Proof.
  intros Hinv Hl Hall. destruct (rr_all_succeed adjusts maxAttempts (λ _, {[RUser id]}) D0 2 balanced adjusts_succeed s l Hinv Hl Hall)
    as ((_ & _ & u & Hu & Hb) & Hperm & Hok).
  unfold adjusts in *. rewrite dom_fmap_L in *. split.
  - intros i Hi. destruct (Hok i Hi) as (k & [] & _ & Hr). by exists k.
  - exists u. split; [done|]. rewrite Hb. unfold owed. by rewrite (sumZ_Permutation _ _ _ Hperm).
Qed.

(** C7: concurrent changes of one balance add up.  [n] read-modify-write
    transactions under [withRetry] with at least [n] attempts: under every
    interleaving they end, within [4 n^2] steps of the database and without a
    deadlock, all of them successfully, and the balance is the sum of all
    changes: no update is lost and none is made twice. *)
Theorem adjusts_add_up n s :
  nsteps (rr_step adjusts maxAttempts false) n (rr_start adjusts D0) s →
  (n ≤ 4 * (size deltas * size deltas))%nat ∧
  ((∃ s', rr_step adjusts maxAttempts false s s') ∨
   (∀ i, i ∈ dom deltas → ∃ k, callers s !! i = Some (Returned k (Ok tt))) ∧
   u_balance <$> users (rr_db s) !! id = Some (u_balance u0 + 100 * owed (elements (dom deltas)))).
Proof.
  intros Hn. destruct (rr_run adjusts maxAttempts (λ _, {[RUser id]}) D0 2 adjusts_own balanced adjusts_succeed n s Hn) as (l & Hinv & Hl & Hle).
  split; [unfold adjusts in Hle; rewrite map_size_fmap in Hle; lia|].
  destruct (rr_progress adjusts maxAttempts (λ _, {[RUser id]}) D0 2 adjusts_own balanced adjusts_succeed s l Hinv) as [Hall|?]; [right|by left].
  destruct (adjusts_end s l Hinv Hl Hall) as (Hok & u & Hu & Hb). split; [done|]. rewrite Hu. cbn. by rewrite Hb.
Qed.
End callers.

(** ** src/demo-retry.ts *)

Definition START_BALANCE : Z := 100.
Definition upsert_retry_buyer (next : gset Z → Z) (d : db) : Z * db :=
  let '(id, m) := upsert_returning next u_email "retry-demo@example.com"
    (λ u, UserRow (u_email u) (u_full_name u) (100 * START_BALANCE) (u_password_hash u) (u_role u))
    (UserRow "retry-demo@example.com" "Покупець демо-retry" (100 * START_BALANCE) None customer) (users d) in
  (id, set_users (λ _, m) d).

(** [adjust('A', +50, ...)] and [adjust('B', -30, ...)] *)
Definition A_and_B : gmap nat Z := {[0%nat := 50; 1%nat := -30]}.
Definition expected : num := num_add (num_add (num_of_Z START_BALANCE) (num_of_Z 50)) (num_of_Z (-30)).

(** The exit code, once [Promise.all] has settled. *)
Definition retry_exit (s : rr_state unit) (buyer : Z) : option Z :=
  match callers s !! 0%nat, callers s !! 1%nat with
  | Some (Returned _ (Err _)), _ | _, Some (Returned _ (Err _)) => Some 1
  | Some (Returned _ (Ok _)), Some (Returned _ (Ok _)) =>
      match users (rr_db s) !! buyer with
      | Some u => if bool_decide (num_of_cents (u_balance u) = expected) then Some 0 else Some 1
      | None => Some 1
      end
  | _, _ => None
  end.
End demo.

Lemma A_and_B_part ids : NoDup ids → (∀ i, i ∈ ids → i ∈ dom A_and_B) → -30 ≤ owed A_and_B ids ≤ 50.
Proof.
  intros Hnd Hin. assert (Hsub : ids ⊆+ [0; 1]%nat).
  { apply NoDup_submseteq; [done|]. intros i Hi%Hin. revert Hi. unfold A_and_B. rewrite dom_insert_L, dom_singleton_L. set_solver. }
  assert (Hlen : (length ids ≤ 2)%nat) by (by apply submseteq_length in Hsub).
  assert (Hel : ∀ i, i ∈ ids → i = 0%nat ∨ i = 1%nat) by (intros i Hi; apply (elem_of_submseteq _ _ _ Hi) in Hsub; set_solver).
  destruct ids as [|i [|j [|]]]; cbn in Hlen; [vm_compute; intuition discriminate| | |lia].
  - destruct (Hel i ltac:(set_solver)) as [->| ->]; vm_compute; intuition discriminate.
  - apply NoDup_cons in Hnd as [Hij _]. destruct (Hel i ltac:(set_solver)) as [->| ->], (Hel j ltac:(set_solver)) as [->| ->];
      first [exfalso; set_solver|vm_compute; intuition discriminate].
Qed.

Lemma retry_exit_none s buyer : dom (callers s) = dom A_and_B → (∀ i k e, callers s !! i ≠ Some (Returned k (Err e))) →
  ¬ all_returned s → retry_exit s buyer = None.
Proof.
  intros Hd Hno Hall. unfold retry_exit.
  destruct (callers s !! 0%nat) as [[k|k c L v q|k [a|e]]|] eqn:Hc0, (callers s !! 1%nat) as [[k'|k' c' L' v' q'|k' [a'|e']]|] eqn:Hc1;
    try done; try (by destruct (Hno _ _ _ Hc0)); try (by destruct (Hno _ _ _ Hc1)).
  exfalso. apply Hall. intros i x Hi. assert (i ∈ dom A_and_B) as Hin by (rewrite <-Hd; by apply elem_of_dom_2 in Hi).
  unfold A_and_B in Hin. rewrite dom_insert_L, dom_singleton_L in Hin.
  assert (i = 0%nat ∨ i = 1%nat) as [->| ->] by set_solver; [rewrite Hc0 in Hi|rewrite Hc1 in Hi]; by injection Hi as <-.
Qed.

(** The retry demonstration never loses an update.  On any database, under
    every interleaving of A and B: within 16 steps the script ends, and it exits
    with 0, the balance being 120. *)
Theorem retry_demo_passes `{PgText, !PgTextLaws} (next : gset Z → Z) d buyer d' n s :
  (∀ X, next X ∉ X) → upsert_retry_buyer next d = (buyer, d') → int8 buyer = true →
  nsteps (rr_step (adjusts (pretty buyer) A_and_B) 8 false) n (rr_start (adjusts (pretty buyer) A_and_B) d') s →
  (n ≤ 16)%nat ∧
  (retry_exit s buyer = Some 0 ∨ (retry_exit s buyer = None ∧ ∃ s', rr_step (adjusts (pretty buyer) A_and_B) 8 false s s')).
Proof.
  intros Hfresh Hup Hb8 Hn. unfold upsert_retry_buyer in Hup. destruct (upsert_returning _ _ _ _ _ _) as [j m] eqn:Hu. injection Hup as <- <-.
  assert (∃ u, m !! j = Some u ∧ u_balance u = 10000) as (u & Hm & Hbal).
  { apply upsert_returning_cases in Hu as [(a & _ & _ & ->)|(_ & _ & ->)]; [..|exact Hfresh]; eexists; rewrite lookup_insert_eq; by split. }
  set (D0 := set_users (λ _, m) d) in *.
  assert (Haf : affordable_changes j A_and_B 8 D0 u).
  { split; [done| |vm_compute; discriminate]. intros ids Hnd Hin. pose proof (A_and_B_part ids Hnd Hin). rewrite Hbal.
    unfold numeric_max. lia. }
  pose proof (bigint_in_out j Hb8) as Hid.
  destruct (rr_run _ 8 _ D0 2 (adjusts_own _ _ Hid _) _ (adjusts_succeed _ _ Hid _ 8 _ _ Haf) n s Hn) as (l & Hinv & Hl & Hle).
  split; [unfold adjusts in Hle; rewrite map_size_fmap in Hle; exact Hle|].
  assert (Hex : all_returned s → retry_exit s j = Some 0).
  { intros Hall. destruct (adjusts_end _ _ Hid _ 8 _ _ Haf s l Hinv Hl Hall) as (Hok & u' & Hu' & Hb').
    destruct (Hok 0%nat) as [k0 Hk0]; [unfold A_and_B; set_solver|]. destruct (Hok 1%nat) as [k1 Hk1]; [unfold A_and_B; set_solver|].
    unfold retry_exit. rewrite Hk0, Hk1, Hu', Hb', Hbal. vm_compute. reflexivity. }
  destruct (decide (all_returned s)) as [Hall|Hno]; [left; by apply Hex|right].
  destruct (rr_progress _ 8 _ D0 2 (adjusts_own _ _ Hid _) _ (adjusts_succeed _ _ Hid _ 8 _ _ Haf) s l Hinv) as [Hall|Hs]; [done|].
  split; [|done]. apply retry_exit_none; [by rewrite (ri_callers Hinv); apply dom_fmap_L|apply Hl|done].
Qed.

(** ** Runs *)

Section retry_witnesses.
#[local] Existing Instance fix_text.
#[local] Existing Instance fix_text_laws.

(** A and B on the database of the fixtures: both read, A commits, B is turned
    away with 40001 and succeeds on its second attempt. *)
Definition demo_db : db := (upsert_retry_buyer fresh_id fix_db).2.
Definition demo_buyer : Z := (upsert_retry_buyer fresh_id fix_db).1.
Definition demo_calls : gmap nat (script unit) := adjusts (pretty demo_buyer) A_and_B.
Definition demo_half : rr_state unit := rr_schedule demo_calls 8 [0; 0; 1; 1; 0; 0; 1]%nat (rr_start demo_calls demo_db).
Definition demo_end : rr_state unit := rr_schedule demo_calls 8 [1; 1; 1; 1]%nat demo_half.

(** B has been refused once. *)
Definition refusals (i : nat) (s : rr_state unit) : option nat :=
  match callers s !! i with Some (Resting k) | Some (Running k _ _ _ _) => Some k | _ => None end.
Example B_is_refused : (refusals 0 demo_half, refusals 1 demo_half) = (None, Some 1%nat).
Proof. vm_compute. reflexivity. Qed.

Lemma demo_buyer_id : bigint_in (pretty demo_buyer) = Some demo_buyer.
Proof. vm_compute. reflexivity. Qed.

(** B has made two of its eight attempts. *)
Lemma retries_serializable_witness : ∃ l, in_order demo_calls demo_db l (rr_db demo_end) ∧ NoDup l.*1 ∧ (1%nat, tt) ∈ l.
Proof.
  destruct (retries_serializable demo_calls 8 (λ _, {[RUser demo_buyer]}) false demo_db demo_end) as ((l & Hl & Hnd & Hret & _) & _).
  - apply (adjusts_own _ _ demo_buyer_id).
  - unfold demo_end, demo_half. etransitivity; apply rr_schedule_sound.
  - exists l. split; [exact Hl|]. split; [exact Hnd|]. apply (Hret 1%nat 2%nat).
    assert ((match callers demo_end !! 1%nat with Some (Returned 2 (Ok tt)) => true | _ => false end) = true) as Hok by (vm_compute; reflexivity).
    destruct (callers demo_end !! 1%nat) as [[k|k c L v q|[|[|[|k]]] [[]|e]]|]; first [reflexivity|discriminate Hok].
Defined.

Lemma demo_affordable u : users demo_db !! demo_buyer = Some u → u_balance u = 10000 →
  affordable_changes demo_buyer A_and_B 8 demo_db u.
Proof.
  intros Hu Hb. split; [exact Hu| |vm_compute; discriminate]. intros ids Hnd Hin. pose proof (A_and_B_part ids Hnd Hin).
  rewrite Hb. unfold numeric_max. lia.
Qed.

Lemma adjusts_add_up_witness : u_balance <$> users (rr_db demo_end) !! demo_buyer = Some 12000 ∧
  ∃ n, (n ≤ 16)%nat ∧ nsteps (rr_step demo_calls 8 false) n (rr_start demo_calls demo_db) demo_half.
Proof.
  split; [vm_compute; reflexivity|].
  destruct (rtc_nsteps_1 _ _ (rr_schedule_sound demo_calls 8 false [0; 0; 1; 1; 0; 0; 1]%nat (rr_start demo_calls demo_db))) as [n Hn].
  exists n. split; [|exact Hn].
  destruct (users demo_db !! demo_buyer) as [u|] eqn:Hu; [|vm_compute in Hu; discriminate Hu].
  assert (Hb : u_balance u = 10000) by (vm_compute in Hu; injection Hu as <-; reflexivity).
  apply (proj1 (adjusts_add_up _ _ demo_buyer_id A_and_B 8 demo_db u (demo_affordable u Hu Hb) n demo_half Hn)).
Defined.

Lemma retry_demo_passes_witness : retry_exit demo_end demo_buyer = Some 0 ∧ ∃ n, (n ≤ 16)%nat ∧
  nsteps (rr_step demo_calls 8 false) n (rr_start demo_calls demo_db) demo_half.
Proof.
  split; [vm_compute; reflexivity|].
  destruct (rtc_nsteps_1 _ _ (rr_schedule_sound demo_calls 8 false [0; 0; 1; 1; 0; 0; 1]%nat (rr_start demo_calls demo_db))) as [n Hn].
  exists n. split; [|exact Hn].
  apply (proj1 (retry_demo_passes fresh_id fix_db demo_buyer demo_db n demo_half (λ X, is_fresh X) eq_refl eq_refl Hn)).
Defined.
End retry_witnesses.
