(* ===== verification/AuthApi.v ===== *)
(** The session API over HTTP: src/auth/auth.controller.ts behind the two guards
    src/auth/auth.module.ts installs, next to the shop's own routes, and the
    acceptance scripts that walk through it (src/auth/demo-lib.ts,
    src/demo-auth.ts, src/demo-reuse.ts, src/demo-rbac.ts). *)
From Stdlib Require Import Ascii.
From stdpp Require Import pretty.
From S2P Require Import Prelude JsNumber JsText Events Schema Sql Fixtures Token Auth Http Cursor Orders Isolation Race Oversell Retry Session.
#[local] Open Scope Z_scope.

(** ** Requests and answers *)

(** The requests the OpenAPI validator lets through. *)
Inductive api_call :=
| Login (email password : string)
| Refresh (refresh_token : string)
| Logout
| Shop_call (r : request).

Inductive api_answer :=
| Tokens (p : TokenPair)
| NoContent
| Shop_answer (b : answer_body).

(** [@Public()] of the handlers; none of AuthController has [@Roles()]. *)
Definition call_public (c : api_call) : bool :=
  match c with Login _ _ | Refresh _ => true | Logout => false | Shop_call r => is_public r end.

Section api.
Context `{PgText, JwtLib, CryptoLib, Hmac} (auth : AuthService).

(** AuthController.login, refresh, logout *)
Definition post_login (e : auth_env) (family email password : string) : sql api_answer :=
  p ← login auth e family email password; mret (Tokens p).
Definition post_refresh (e : auth_env) (refresh_token : string) : sql api_answer :=
  p ← refresh auth e refresh_token; mret (Tokens p).
Definition post_logout (e : auth_env) (user : AuthUser) : sql api_answer :=
  _ ← logout e user; mret NoContent.

(** [try { m }]: what is thrown reaches the exception filter. *)
Definition caught {A} (st : shop) (m : sql A) : sql (result A * shop) := λ φ t d,
  let '(r, t', d') := m φ t d in (Ok (r, st), t', d').

(** Both APP_GUARDs in their order, then the handler ([route] has the roles of
    its own routes checked first). *)
Definition api (e : auth_env) (family : string) (authorization : option string) (c : api_call) (st : shop) :
    sql (result api_answer * shop) :=
  u ← sql_try (AuthGuard auth (ae_date e) (call_public c) authorization);
  match u, c with
  | Err err, _ => mret (Err err, st)
  | Ok user, Shop_call r => let '(x, st') := route (ae_date e) user r st in mret (rmap Shop_answer x, st')
  | Ok user, _ =>
      match RolesGuard None user, c, user with
      | Err err, _, _ => mret (Err err, st)
      | _, Login email password, _ => caught st (post_login e family email password)
      | _, Refresh token, _ => caught st (post_refresh e token)
      | _, Logout, Some user => caught st (post_logout e user)
      | _, _, _ => mret (Err MISSING_TOKEN, st)
      end
  end.

(** [@HttpCode] of a handler that returns, the filter's status otherwise. *)
Definition success_status (c : api_call) : Z :=
  match c with
  | Login _ _ | Refresh _ => 200
  | Logout => 204
  | Shop_call (PostOrder _ | PostProduct _ _) => 201
  | Shop_call _ => 200
  end.
Definition error_status (e : exn) : Z := match e with HttpError status _ _ => status | _ => 500 end.
Definition status_of (c : api_call) (x : result api_answer) : Z :=
  match x with Ok _ => success_status c | Err e => error_status e end.
End api.

(** The status the exception filter writes. *)
Lemma error_status_filter num_string url e :
  rs_status (ProblemJsonFilter num_string url (thrown_of e)) = error_status e.
Proof. unfold ProblemJsonFilter. destruct e; reflexivity. Qed.

(** ** The acceptance scripts *)

(** What the application process draws for the [n]-th request. *)
Record demo_env := DemoEnv { de_auth : nat → auth_env; de_family : nat → string }.

(** The database, the shop of the application, the requests made, [failed]. *)
Record demo_state := Demo { dm_db : db; dm_shop : shop; dm_calls : nat; dm_failed : bool }.

Definition script_of (A : Type) : Type := demo_state → result A * demo_state.
#[export] Instance script_ret : MRet script_of := λ A a s, (Ok a, s).
#[export] Instance script_bind : MBind script_of := λ A B f m s,
  match m s with (Ok a, s') => f a s' | (Err e, s') => (Err e, s') end.

Section demo_lib.
Context `{PgText, JwtLib, CryptoLib, Hmac} (auth : AuthService) (env : demo_env) (next : gset Z → Z) (salt : list Z).

Definition PASSWORD : string := "demo-password-1".

Record Res := ResOf { res_status : Z; res_answer : result api_answer }.

(** [call(method, path, { token, body })] *)
Definition call (c : api_call) (token : option string) : script_of Res := λ s,
  let n := dm_calls s in
  let authorization := tk ← token; Some ("Bearer " +:+ tk) in
  match api auth (de_auth env n) (de_family env n) authorization c (dm_shop s) no_fault 0%nat (dm_db s) with
  | (Ok (x, st'), _, d') => (Ok (ResOf (status_of c x) x), Demo d' st' (S n) (dm_failed s))
  | (Err e, _, d') => (Err e, Demo d' (dm_shop s) (S n) (dm_failed s))
  end.

(** INSERT INTO users (email, full_name, password_hash, role) ... ON CONFLICT (email) DO UPDATE ... RETURNING id::text *)
Definition demo_user (email : string) (r : role) : script_of string := λ s,
  let passwordHash := hashPassword salt PASSWORD in
  let '(id, m) := upsert_returning next u_email email
    (λ u, UserRow (u_email u) (u_full_name u) (u_balance u) (Some passwordHash) r)
    (UserRow email email 100000000 (Some passwordHash) r) (users (dm_db s)) in
  (Ok (pretty id), Demo (set_users (λ _, m) (dm_db s)) (dm_shop s) (dm_calls s) (dm_failed s)).

Definition script_throw {A} (e : exn) : script_of A := λ s, (Err e, s).

Definition demo_login (email : string) : script_of TokenPair :=
  r ← call (Login email PASSWORD) None;
  match res_answer r with
  | Ok (Tokens p) => if res_status r =? 200 then mret p else script_throw (JsError "login")
  | _ => script_throw (JsError "login")
  end.

Definition fail_if (b : bool) : script_of unit := λ s,
  (Ok tt, Demo (dm_db s) (dm_shop s) (dm_calls s) (dm_failed s || b)).
Definition expect (key : string) (actual : Z) (allowed : list Z) : script_of unit :=
  fail_if (negb (bool_decide (actual ∈ allowed))).
Definition invariant (name : string) (ok : bool) : script_of unit := fail_if (negb ok).
Definition demo_query {A} (f : db → A) : script_of A := λ s, (Ok (f (dm_db s)), s).

(** TRUNCATE refresh_tokens, access_denylist *)
Definition truncate_sessions (d : db) : db := set_denylist (λ _, ∅) (set_tokens (λ _, ∅) (seq_tokens d) d).

(** The exit code of [runDemo]: a fresh application on the cleaned database. *)
Definition runDemo (body : script_of unit) (d : db) : Z :=
  match body (Demo (truncate_sessions d) shop0 0 false) with
  | (Ok _, s) => if dm_failed s then 1 else 0
  | (Err _, _) => 1
  end.

(** SELECT count( * ) FROM refresh_tokens r JOIN users u ON u.id = r.user_id WHERE u.email = $1 AND r.revoked_at IS NULL *)
Definition count_alive (email : string) (d : db) : nat :=
  size (filter (λ x : Z * refresh_row, rt_revoked_at x.2 = None ∧ u_email <$> users d !! rt_user_id x.2 = Some email) (refresh_tokens d)).
Definition count_denied (d : db) : nat := size (access_denylist d).

(** A property of the body of a successful login or refresh. *)
Definition pair_of (r : Res) : TokenPair := match res_answer r with Ok (Tokens p) => p | _ => Pair "" "" "" 0 end.

(** *** src/demo-auth.ts *)

Definition list_orders : api_call := Shop_call (GetOrders 20 None).

Definition demo_auth : script_of unit :=
  let EMAIL := "demo-auth@auth.test" in
  _ ← demo_user EMAIL customer;
  login ← call (Login EMAIL "demo-password-1") None;
  _ ← expect "login" (res_status login) [200];
  let first := pair_of login in
  r ← call list_orders None;
  _ ← expect "no-token" (res_status r) [401];
  r ← call list_orders (Some (access_token first));
  _ ← expect "with-token" (res_status r) [200];
  refreshed ← call (Refresh (refresh_token first)) None;
  _ ← expect "refresh" (res_status refreshed) [200];
  let second := pair_of refreshed in
  r ← call Logout (Some (access_token second));
  _ ← expect "logout" (res_status r) [200; 204];
  r ← call list_orders (Some (access_token second));
  _ ← expect "after-logout" (res_status r) [401];
  r ← call (Refresh (refresh_token second)) None;
  _ ← expect "refresh-after-logout" (res_status r) [401];
  alive ← demo_query (count_alive EMAIL);
  _ ← invariant "no-live-tokens" (bool_decide (alive = 0%nat));
  denied ← demo_query count_denied;
  invariant "jti-denied" (bool_decide (denied = 1%nat)).

(** *** src/demo-reuse.ts *)

Definition demo_reuse : script_of unit :=
  let EMAIL := "demo-reuse@auth.test" in
  _ ← demo_user EMAIL customer;
  login ← call (Login EMAIL "demo-password-1") None;
  _ ← expect "login" (res_status login) [200];
  let r1 := refresh_token (pair_of login) in
  rotated ← call (Refresh r1) None;
  _ ← expect "r1-refresh" (res_status rotated) [200];
  let r2 := refresh_token (pair_of rotated) in
  r ← call (Refresh r1) None;
  _ ← expect "r1-reuse" (res_status r) [401];
  r ← call (Refresh r2) None;
  _ ← expect "r2-after-reuse" (res_status r) [401];
  alive ← demo_query (count_alive EMAIL);
  invariant "no-live-tokens" (bool_decide (alive = 0%nat)).

(** *** src/demo-rbac.ts

    [tamper]: the payload with the role of an administrator under the old
    signature. *)
Definition demo_rbac (tamper : string → string) : script_of unit :=
  _ ← demo_user "demo-owner@auth.test" customer;
  _ ← demo_user "demo-stranger@auth.test" customer;
  _ ← demo_user "demo-seller@auth.test" seller;
  owner ← demo_login "demo-owner@auth.test";
  stranger ← demo_login "demo-stranger@auth.test";
  seller ← demo_login "demo-seller@auth.test";
  created ← call (Shop_call (PostOrder [OrderItemOf "p1" (num_of_Z 1)])) (Some (access_token owner));
  _ ← invariant "created" (bool_decide (res_status created = 201));
  let id := match res_answer created with Ok (Shop_answer (Created o _)) => or_id o | _ => "undefined" end in
  r ← call (Shop_call (GetOrder id)) None;
  _ ← expect "anon" (res_status r) [401];
  r ← call (Shop_call (GetOrder id)) (Some (access_token owner));
  _ ← expect "own" (res_status r) [200];
  r ← call (Shop_call (GetOrder id)) (Some (access_token stranger));
  _ ← expect "foreign" (res_status r) [403];
  let product := Shop_call (PostProduct "Веб-камера" (num_of_Z 99900)) in
  r ← call product (Some (access_token owner));
  _ ← expect "role-denied" (res_status r) [403];
  r ← call product (Some (access_token seller));
  _ ← expect "role-allowed" (res_status r) [200; 201];
  r ← call product (Some (tamper (access_token owner)));
  expect "tampered" (res_status r) [401].
End demo_lib.

(** ** Runs without failures *)

(** A token is base64url and dots. *)
Class JwtText `{JwtLib} := jwt_visible : ∀ sk o now, jwt_sign sk o now ≠ "" ∧ Forall visible (bytes_of (jwt_sign sk o now)).

Lemma visible_no_white l : Forall visible l → has_white l = false.
Proof.
  induction 1 as [|c l Hc Hl IH]; [done|]. cbn [has_white]. rewrite IH, orb_false_r. apply not_true_is_false. intros Hex.
  apply existsb_exists in Hex as (p & Hin & Hs). apply bool_decide_eq_true in Hs. unfold strip_prefix in Hs.
  assert (Hw : forallb no_visible_start white_space = true) by (vm_compute; reflexivity).
  rewrite forallb_forall in Hw. specialize (Hw p Hin). case_bool_decide as Ht; [|by destruct Hs].
  destruct p as [|x p]; [done|]. cbn in Ht, Hw. injection Ht as -> _. unfold visible in Hc.
  apply orb_true_iff in Hw as [?%Z.ltb_lt|?%Z.leb_le]; lia.
Qed.

Lemma bearer_visible token : token ≠ "" → Forall visible (bytes_of token) → bearer_token ("Bearer " +:+ token) = Some token.
Proof.
  intros Hne Hv. unfold bearer_token. rewrite bytes_of_app.
  change (drop 7 (bytes_of "Bearer " ++ bytes_of token)) with (bytes_of token).
  change (take 7 (bytes_of "Bearer " ++ bytes_of token)) with (bytes_of "Bearer ").
  rewrite (visible_no_white _ Hv), text_bytes. rewrite bool_decide_eq_true_2 by (vm_compute; reflexivity).
  rewrite bool_decide_eq_true_2; [done|]. intros Hl. apply Hne. destruct token; [done|discriminate Hl].
Qed.

Section runs.
Context `{PgTextLaws, JwtLaws, !JwtText, CryptoLaws, Hmac} (auth : AuthService) (env : demo_env).

(** A process whose key signs and verifies, and the requests of one run: within
    the life of a token, every random value new, and one after the other, so that
    no exchange of a session commits while it is being revoked (its tokens are
    known to the script only). *)
Record sane_run : Prop := {
  sr_key : ∃ pk, key_pair (privateKey (tokens auth)) pk ∧ verifyKeys (tokens auth) !! kid (tokens auth) = Some pk;
  sr_kid : kid (tokens auth) ≠ "";
  sr_live : ∀ i j, ae_date (de_auth env j) / 1000 < ae_date (de_auth env i) / 1000 + accessTtlSec (tokens auth);
  sr_exp : ∀ i, 0 ≤ ae_date (de_auth env i) / 1000 + accessTtlSec (tokens auth) < 2 ^ 40;
  sr_refresh : ∀ i j, ae_date (de_auth env j) < ae_now (de_auth env i) + 1000 * refreshTtlSec auth;
  sr_jti : ∀ i, uuid_shape (ae_jti (de_auth env i)) = true;
  sr_family : ∀ i, uuid_shape (de_family env i) = true;
  sr_raw : ∀ i j, hash auth (ae_raw (de_auth env i)) = hash auth (ae_raw (de_auth env j)) → i = j;
  sr_alone : ∀ i, ae_missed (de_auth env i) = ∅;
}.
Context (Hsane : sane_run).

(** The access token request [n] hands out, and the user it stands for. *)
Definition issued (n : nat) (uid : Z) (r : role) (fid : string) : string :=
  (sign (tokens auth) (ae_date (de_auth env n)) (ae_jti (de_auth env n)) (pretty uid) r fid).1.1.
Definition issued_user (n : nat) (uid : Z) (r : role) (fid : string) : AuthUser :=
  AuthUserOf (pretty uid) r (ae_jti (de_auth env n)) (num_of_Z (ae_date (de_auth env n) / 1000 + accessTtlSec (tokens auth))) fid.
Definition session_row (n : nat) (uid : Z) (fid : string) : refresh_row :=
  RefreshRow (hash auth (ae_raw (de_auth env n))) fid uid None None (ae_now (de_auth env n) + 1000 * refreshTtlSec auth).
Definition pair_issued (n : nat) (uid : Z) (r : role) (fid : string) : TokenPair :=
  Pair (issued n uid r fid) (ae_raw (de_auth env n)) "Bearer" (accessTtlSec (tokens auth)).

Lemma authenticate_issued n m uid r fid t d :
  authenticate auth (ae_date (de_auth env m)) (issued n uid r fid) no_fault t d =
    (match access_denylist d !! ae_jti (de_auth env n) with
     | None => Ok (issued_user n uid r fid)
     | Some _ => Err (unauthorized "token-revoked" "токен відкликано (логаут)")
     end, S t, d).
Proof.
  destruct (sr_key Hsane) as (pk & Hpair & Hkey). unfold authenticate, issued.
  assert (Httl : sane_ttl (tokens auth) (ae_date (de_auth env n))).
  { pose proof (sr_exp Hsane n) as He. unfold sane_ttl. change (2 ^ 53) with (2 ^ 40 * 2 ^ 13). lia. }
  rewrite (verify_sign _ _ pk) by (try done; apply Hsane). rewrite (proj2 (Z.ltb_lt _ _)) by apply (sr_live Hsane n m).
  cbn [c_jti c_sub c_role c_exp c_fid].
  assert (Hq : select_denied (ae_jti (de_auth env n)) d =
    (Ok (match access_denylist d !! ae_jti (de_auth env n) with Some _ => 1%nat | None => 0%nat end), d)).
  { unfold select_denied. by rewrite uuid_in_canonical by apply (sr_jti Hsane). }
  rewrite (bind_run _ _ _ _ _ _ _ _ (query_run _ t _ _ _ Hq)). by destruct (access_denylist d !! _).
Qed.

Lemma guard_issued n m uid r fid t d :
  AuthGuard auth (ae_date (de_auth env m)) false (Some ("Bearer " +:+ issued n uid r fid)) no_fault t d =
    (match access_denylist d !! ae_jti (de_auth env n) with
     | None => Ok (Some (issued_user n uid r fid))
     | Some _ => Err (unauthorized "token-revoked" "токен відкликано (логаут)")
     end, S t, d).
Proof.
  unfold AuthGuard. cbn [default from_option id]. destruct (jwt_visible (privateKey (tokens auth))
    (SignOptions (role_text r) fid "ES256" (kid (tokens auth)) (pretty uid) ISSUER AUDIENCE (accessTtlSec (tokens auth))
      (ae_jti (de_auth env n))) (ae_date (de_auth env n))) as [Hne Hv].
  rewrite bearer_visible by done. unfold mbind, sql_bind. rewrite authenticate_issued.
  by destruct (access_denylist d !! _).
Qed.

(** What the requests of the scripts answer and do. *)
Definition after (d : db) (s : demo_state) : demo_state := Demo d (dm_shop s) (S (dm_calls s)) (dm_failed s).

Definition hash_free (n : nat) (d : db) : Prop :=
  ∀ j x, refresh_tokens d !! j = Some x → rt_token_hash x ≠ hash auth (ae_raw (de_auth env n)).

Lemma insert_issued n uid fid d : hash_free n d → uuid_in fid = Some fid → is_Some (users d !! uid) →
  insert_token (hash auth (ae_raw (de_auth env n))) fid uid (refreshTtlSec auth) (ae_now (de_auth env n)) d =
    (Ok tt, set_tokens <[seq_tokens d + 1 := session_row n uid fid]> (seq_tokens d + 1) d).
Proof.
  intros Hh Hf [u Hu]. unfold insert_token. rewrite Hf, Hu. rewrite bool_decide_eq_false_2; [done|].
  intros (j & x & Hj & Hx). by apply (Hh j x).
Qed.

Lemma call_login email uid u s :
  text_in email = Some email → users (dm_db s) !! uid = Some u → u_email u = email →
  (∀ i u', users (dm_db s) !! i = Some u' → u_email u' = email → i = uid) →
  verifyPassword (dummy auth) PASSWORD (u_password_hash u) = true → hash_free (dm_calls s) (dm_db s) →
  let n := dm_calls s in let d := dm_db s in
  call auth env (Login email PASSWORD) None s =
    (Ok (ResOf 200 (Ok (Tokens (pair_issued n uid (u_role u) (de_family env n))))),
     after (set_tokens <[seq_tokens d + 1 := session_row n uid (de_family env n)]> (seq_tokens d + 1) d) s).
Proof.
  destruct s as [d st n failed]. cbn [dm_db dm_calls dm_shop dm_failed]. intros Htext Hu He Hone Hpw Hh. unfold call. cbn [dm_db dm_calls dm_shop dm_failed].
  assert (Hsel : select_login email d = (Ok [(uid, u)], d)).
  { unfold select_login. rewrite Htext. do 2 f_equal. apply Permutation_singleton_r.
    rewrite <-(map_to_list_delete _ uid u Hu). rewrite filter_cons_True by done. f_equiv. apply Permutation_nil_r, elem_of_nil_inv.
    intros [j y] [Hy Hin%elem_of_map_to_list]%list_elem_of_filter. apply lookup_delete_Some in Hin as [Hne Hj].
    apply Hne. symmetry. by apply (Hone j y). }
  assert (Hrun : ∀ t, ∃ t', login auth (de_auth env n) (de_family env n) email PASSWORD no_fault t d =
    (Ok (pair_issued n uid (u_role u) (de_family env n)), t',
     set_tokens <[seq_tokens d + 1 := session_row n uid (de_family env n)]> (seq_tokens d + 1) d)).
  { intros t. unfold login. rewrite (bind_run _ _ _ _ _ _ _ _ (query_run _ t _ _ _ Hsel)). cbn [head mbind option_bind snd].
    match goal with |- context [if ?b then _ else _] => replace b with true by (symmetry; exact Hpw) end. unfold issue. eexists.
    rewrite (bind_run _ _ _ _ _ _ _ _ (query_run _ _ _ _ _ (insert_issued n uid (de_family env n) d Hh
      (uuid_in_canonical _ (sr_family Hsane n)) ltac:(eauto)))). reflexivity. }
  unfold api, AuthGuard. cbn [call_public]. unfold mbind at 1, sql_bind at 1, sql_try. cbn [mret sql_ret].
  unfold caught, post_login. destruct (Hrun 0%nat) as [t' Hr]. cbn [RolesGuard]. rewrite (bind_run _ _ _ _ _ _ _ _ Hr). reflexivity.
Qed.

(** Every token in the table was handed out by a request of this run. *)
Definition only_issued (s : demo_state) : Prop := ∀ j x, refresh_tokens (dm_db s) !! j = Some x →
  ∃ i, (i < dm_calls s)%nat ∧ rt_token_hash x = hash auth (ae_raw (de_auth env i)).

Record run_ok (s : demo_state) : Prop := { ro_inv : auth_inv (dm_db s); ro_hash : only_issued s }.

Lemma issued_free s : only_issued s → hash_free (dm_calls s) (dm_db s).
Proof.
  intros Hh j x Hj Heq. destruct (Hh j x Hj) as (i & Hi & Hx). rewrite Hx in Heq. apply (sr_raw Hsane) in Heq. lia.
Qed.

Lemma run_ok_step s now d' : run_ok s → auth_change now (dm_db s) d' →
  (∀ j x, refresh_tokens d' !! j = Some x → refresh_tokens (dm_db s) !! j = None →
     rt_token_hash x = hash auth (ae_raw (de_auth env (dm_calls s)))) →
  run_ok (after d' s).
Proof.
  intros [Hi Hh] Hc Hnew. split; cbn; [by eapply change_inv|]. intros j x Hj. cbn in Hj |- *.
  destruct (change_row _ _ _ _ _ Hc Hj) as [(x0 & Hx0 & <- & _)|Hn].
  - destruct (Hh _ _ Hx0) as (i & ? & ?). exists i. split; [lia|done].
  - exists (dm_calls s). split; [lia|]. by apply (Hnew j).
Qed.

(** A handler that ran, behind a guard that let the request pass. *)
Lemma call_refresh_run s raw r d' :
  (∀ t, ∃ t', refresh auth (de_auth env (dm_calls s)) raw no_fault t (dm_db s) = (r, t', d')) →
  call auth env (Refresh raw) None s =
    (Ok (ResOf (status_of (Refresh raw) (rmap Tokens r)) (rmap Tokens r)), after d' s).
Proof.
  intros Hrun. destruct s as [d st n failed]. cbn [dm_db dm_calls] in Hrun. unfold call, api, AuthGuard. cbn [dm_db dm_calls dm_shop dm_failed call_public].
  unfold mbind at 1, sql_bind at 1, sql_try. cbn [mret sql_ret RolesGuard]. unfold caught, post_refresh.
  destruct (Hrun 0%nat) as [t' Hr]. unfold mbind at 1, sql_bind at 1. rewrite Hr. by destruct r.
Qed.

Lemma call_refresh id row u s raw :
  run_ok s → refresh_tokens (dm_db s) !! id = Some row → rt_token_hash row = hash auth raw → live row →
  ae_date (de_auth env (dm_calls s)) < rt_expires_at row → users (dm_db s) !! rt_user_id row = Some u →
  let n := dm_calls s in let d := dm_db s in
  let d' := set_tokens <[seq_tokens d + 1 := session_row n (rt_user_id row) (rt_family_id row)]> (seq_tokens d + 1)
              (mark_used id (ae_now (de_auth env n)) d).2 in
  call auth env (Refresh raw) None s =
    (Ok (ResOf 200 (Ok (Tokens (pair_issued n (rt_user_id row) (u_role u) (rt_family_id row))))), after d' s) ∧
  run_ok (after d' s).
Proof.
  intros Hok Hrow Hh Hl Hexp Hu n d d'.
  pose proof (λ t, refresh_run auth (de_auth env n) raw t d id row u (ro_inv _ Hok) Hrow Hh Hl Hexp Hu (issued_free _ (ro_hash _ Hok))) as Hrun.
  split; [exact (call_refresh_run s raw _ d' Hrun)|]. destruct (Hrun 0%nat) as [t' Hr].
  apply (run_ok_step s 0 d' Hok (refresh_change auth 0 _ _ _ _ _ _ _ _ (ro_inv _ Hok) Hr)).
  intros j x Hj Hnone. change (refresh_tokens d') with (<[seq_tokens d + 1 := session_row n (rt_user_id row) (rt_family_id row)]>
    (alter (used (ae_now (de_auth env n))) id (refresh_tokens d))) in Hj.
  apply lookup_insert_Some in Hj as [[_ <-]|[_ Hj]]; [done|].
  apply lookup_alter_Some in Hj as [(-> & ? & Hj & _)|[_ Hj]]; change (refresh_tokens d) with (refresh_tokens (dm_db s)) in Hj; rewrite Hnone in Hj; discriminate Hj.
Qed.

(** A token of a revoked session. *)
Lemma call_refresh_revoked id row s raw :
  auth_inv (dm_db s) → refresh_tokens (dm_db s) !! id = Some row → rt_token_hash row = hash auth raw → rt_revoked_at row ≠ None →
  call auth env (Refresh raw) None s = (Ok (ResOf 401 (Err BAD_REFRESH)), after (dm_db s) s).
Proof.
  intros Hi Hrow Hh Hr. apply (call_refresh_run s raw (Err BAD_REFRESH)). intros t. eexists. apply refresh_run_err. unfold refresh_body.
  erewrite bind_run; [|apply query_run; apply (select_token_single _ _ _ _ Hrow Hh), Hi]. cbv beta iota.
  destruct (rt_revoked_at row); [reflexivity|done].
Qed.

(** An exchanged token comes again. *)
Lemma call_refresh_reused id row s raw :
  run_ok s → refresh_tokens (dm_db s) !! id = Some row → rt_token_hash row = hash auth raw → rt_used_at row ≠ None →
  rt_revoked_at row = None →
  let d' := (revoke_family ∅ (rt_family_id row) (ae_now (de_auth env (dm_calls s))) (dm_db s)).2 in
  call auth env (Refresh raw) None s = (Ok (ResOf 401 (Err BAD_REFRESH)), after d' s) ∧ run_ok (after d' s).
Proof.
  intros Hok Hrow Hh Hu Hr d'. split.
  - apply (call_refresh_run s raw (Err BAD_REFRESH)). intros t. eexists. apply refresh_run_err. unfold refresh_body.
    erewrite bind_run; [|apply query_run; apply (select_token_single _ _ _ _ Hrow Hh), Hok]. cbv beta iota.
    rewrite Hr. destruct (rt_used_at row); [|done]. rewrite (sr_alone Hsane), (subseteq_empty_difference_L ∅ {[id]}) by apply empty_subseteq.
    erewrite bind_run; [|apply query_run; unfold revoke_family; reflexivity]. reflexivity.
  - apply (run_ok_step s 0 d' Hok (change_revoke _ _ _ _ _)). intros j x Hj Hnone. unfold d' in Hj.
    rewrite revoke_lookup, Hnone in Hj. discriminate Hj.
Qed.

Definition denied (n : nat) : db → db :=
  set_denylist <[ae_jti (de_auth env n) := 1000 * (ae_date (de_auth env n) / 1000 + accessTtlSec (tokens auth))]>.

Lemma call_logout n uid r fid s :
  access_denylist (dm_db s) !! ae_jti (de_auth env n) = None → uuid_in fid = Some fid →
  let d' := denied n (revoke_family ∅ fid (ae_now (de_auth env (dm_calls s))) (dm_db s)).2 in
  run_ok s → call auth env Logout (Some (issued n uid r fid)) s = (Ok (ResOf 204 (Ok NoContent)), after d' s) ∧ run_ok (after d' s).
Proof.
  intros Hden Hfid d' Hok. assert (Hrun : ∀ t, ∃ t', logout (de_auth env (dm_calls s)) (issued_user n uid r fid) no_fault t (dm_db s) = (Ok tt, t', d')).
  { intros t. eexists. unfold logout. apply transaction_run. cbn [issued_user au_fid au_jti au_exp]. rewrite Hfid, (sr_alone Hsane).
    erewrite bind_run; [|apply query_run; unfold revoke_family; reflexivity].
    erewrite bind_run; [reflexivity|]. apply query_run. unfold insert_denied. rewrite uuid_in_canonical by apply (sr_jti Hsane).
    rewrite (to_timestamp_int _ (ae_date (de_auth env n) / 1000 + accessTtlSec (tokens auth)));
      [|apply rnd_int_exact; pose proof (sr_exp Hsane n); change (2 ^ 53) with (2 ^ 40 * 2 ^ 13); lia|apply (sr_exp Hsane n)].
    cbn [access_denylist set_tokens]. by rewrite Hden. }
  destruct (Hrun 1%nat) as [t' Hr]. split.
  - destruct s as [d st m failed]. unfold call. cbn [dm_db dm_calls dm_shop dm_failed mbind option_bind] in *. unfold api.
    unfold mbind at 1, sql_bind at 1, sql_try. cbn [call_public]. rewrite guard_issued. cbn [dm_db] in Hden. rewrite Hden.
    cbn [RolesGuard]. unfold caught, post_logout. rewrite (bind_run _ _ _ _ _ _ _ _ Hr). reflexivity.
  - apply (run_ok_step s 0 d' Hok (logout_change 0 _ _ _ _ _ _ _ _ Hr)). intros j x Hj Hnone.
    change (refresh_tokens d') with (refresh_tokens (revoke_family ∅ fid (ae_now (de_auth env (dm_calls s))) (dm_db s)).2) in Hj.
    rewrite revoke_lookup, Hnone in Hj. discriminate Hj.
Qed.

(** The shop's routes: nobody, somebody, somebody logged out. *)
Lemma call_anonymous r s : is_public r = false →
  call auth env (Shop_call r) None s = (Ok (ResOf 401 (Err MISSING_TOKEN)), after (dm_db s) s).
Proof.
  intros Hp. destruct s as [d st n failed]. unfold call, api. cbn [dm_db dm_calls dm_shop dm_failed mbind option_bind call_public].
  rewrite Hp. reflexivity.
Qed.

Lemma call_shop n uid role fid r s : is_public r = false →
  access_denylist (dm_db s) !! ae_jti (de_auth env n) = None →
  let x := route (ae_date (de_auth env (dm_calls s))) (Some (issued_user n uid role fid)) r (dm_shop s) in
  call auth env (Shop_call r) (Some (issued n uid role fid)) s =
    (Ok (ResOf (status_of (Shop_call r) (rmap Shop_answer x.1)) (rmap Shop_answer x.1)),
     Demo (dm_db s) x.2 (S (dm_calls s)) (dm_failed s)).
Proof.
  intros Hp Hden x. destruct s as [d st m failed]. unfold call. cbn [dm_db dm_calls dm_shop dm_failed mbind option_bind] in *. unfold api.
  unfold mbind at 1, sql_bind at 1, sql_try. cbn [call_public]. rewrite Hp, guard_issued, Hden. subst x. by destruct (route _ _ r st).
Qed.

Lemma call_denied n uid role fid r s x : is_public r = false →
  access_denylist (dm_db s) !! ae_jti (de_auth env n) = Some x →
  call auth env (Shop_call r) (Some (issued n uid role fid)) s =
    (Ok (ResOf 401 (Err (unauthorized "token-revoked" "токен відкликано (логаут)"))), after (dm_db s) s).
Proof.
  intros Hp Hden. destruct s as [d st m failed]. unfold call. cbn [dm_db dm_calls dm_shop dm_failed mbind option_bind] in *. unfold api.
  unfold mbind at 1, sql_bind at 1, sql_try. cbn [call_public]. rewrite Hp, guard_issued, Hden. reflexivity.
Qed.

(** *** The scripts, step by step *)

Lemma script_bind_run {A B} (m : script_of A) (f : A → script_of B) s a s' : m s = (Ok a, s') → (m ≫= f) s = f a s'.
Proof. unfold mbind, script_bind. by intros ->. Qed.

Lemma fail_if_not b s : b = false → fail_if b s = (Ok tt, s).
Proof. intros ->. unfold fail_if. rewrite orb_false_r. by destruct s. Qed.
Lemma expect_ok key actual allowed s : bool_decide (actual ∈ allowed) = true → expect key actual allowed s = (Ok tt, s).
Proof. intros Ha. apply fail_if_not. by rewrite Ha. Qed.
Lemma invariant_ok name ok s : ok = true → invariant name ok s = (Ok tt, s).
Proof. intros Ha. apply fail_if_not. by rewrite Ha. Qed.

Context (next : gset Z → Z) (next_fresh : ∀ X, next X ∉ X) (salt : list Z) (Hsalt : salt ≠ []) (Hbytes : Forall is_byte salt).

Definition emails_unique (d : db) : Prop := unique (λ u, Some (u_email u)) (users d).

(** A user of the scripts: known password, asked role. *)
Definition account (email : string) (r : role) (uid : Z) (m : gmap Z user_row) : Prop := ∃ u,
  m !! uid = Some u ∧ u_email u = email ∧ u_password_hash u = Some (hashPassword salt PASSWORD) ∧ u_role u = r.

(** What [demo_user] leaves: the user, nobody else touched. *)
Record demo_account (email : string) (r : role) (uid : Z) (m m' : gmap Z user_row) : Prop := {
  da_user : account email r uid m';
  da_other : ∀ j u, u_email u ≠ email → m !! j = Some u → m' !! j = Some u;
  da_unique : unique (λ u, Some (u_email u)) m';
}.

Lemma demo_user_run email r s : emails_unique (dm_db s) → ∃ uid m,
  demo_user next salt email r s = (Ok (pretty uid), Demo (set_users (λ _, m) (dm_db s)) (dm_shop s) (dm_calls s) (dm_failed s)) ∧
  demo_account email r uid (users (dm_db s)) m.
Proof.
  intros Hu. unfold demo_user. destruct (upsert_returning _ _ _ _ _ _) as [uid m] eqn:Hup. exists uid, m. split; [done|].
  assert (Hone : ∀ u, m = <[uid := u]> (users (dm_db s)) → u_email u = email →
    (∀ j a, users (dm_db s) !! j = Some a → u_email a = email → j = uid) → unique (λ u, Some (u_email u)) m).
  { intros u -> He Hj i j a b k. intros [[<- <-]|[Hi Ha]]%lookup_insert_Some [[<- <-]|[Hi' Hb]]%lookup_insert_Some [= Ea] [= Eb]; [done|..].
    - symmetry. apply (Hj j b Hb). congruence.
    - apply (Hj i a Ha). congruence.
    - by apply (Hu i j a b k Ha Hb); cbn; congruence. }
  apply (upsert_returning_cases next next_fresh) in Hup as [(a & Ha & He & ->)|(Hnone & Hno & ->)]; split.
  - eexists. rewrite lookup_insert_eq. split_and!; try reflexivity. done.
  - intros j u Hne Hj. rewrite lookup_insert_ne; [done|]. intros ->. simplify_eq.
  - eapply Hone; [done|done|]. intros j b Hb Hbe. by apply (Hu j uid b a email Hb Ha); cbn; congruence.
  - eexists. rewrite lookup_insert_eq. split_and!; reflexivity.
  - intros j u Hne Hj. rewrite lookup_insert_ne; [done|]. intros ->. simplify_eq.
  - eapply Hone; [done|done|]. intros j b Hb Hbe. by destruct (Hno _ _ Hb).
Qed.

Lemma login_known email r uid s :
  text_in email = Some email → account email r uid (users (dm_db s)) → emails_unique (dm_db s) → hash_free (dm_calls s) (dm_db s) →
  let n := dm_calls s in let d := dm_db s in
  call auth env (Login email PASSWORD) None s =
    (Ok (ResOf 200 (Ok (Tokens (pair_issued n uid r (de_family env n))))),
     after (set_tokens <[seq_tokens d + 1 := session_row n uid (de_family env n)]> (seq_tokens d + 1) d) s).
Proof.
  intros Ht (u & Hu & He & Hpw & <-) Hone Hfree. apply call_login; [done..| | |done].
  - intros i u' Hi He'. by apply (Hone i uid u' u email); cbn; congruence.
  - rewrite Hpw, verify_hashed by done. by apply bool_decide_eq_true_2.
Qed.

(** A session opened on the cleaned database. *)
Record opened (uid : Z) (r : role) (s : demo_state) : Prop := {
  op_ok : run_ok s;
  op_calls : (0 < dm_calls s)%nat;
  op_shop : dm_shop s = shop0;
  op_failed : dm_failed s = false;
  op_tokens : refresh_tokens (dm_db s) = {[seq_tokens (dm_db s) := session_row 0 uid (de_family env 0)]};
  op_denied : access_denylist (dm_db s) = ∅;
  op_user : ∃ u, users (dm_db s) !! uid = Some u ∧ u_role u = r;
}.

Lemma demo_opens email r d : text_in email = Some email → emails_unique d → ∃ uid s1 s2,
  demo_user next salt email r (Demo (truncate_sessions d) shop0 0 false) = (Ok (pretty uid), s1) ∧
  call auth env (Login email PASSWORD) None s1 = (Ok (ResOf 200 (Ok (Tokens (pair_issued 0 uid r (de_family env 0))))), s2) ∧
  opened uid r s2.
Proof.
  intros Ht Hu. destruct (demo_user_run email r (Demo (truncate_sessions d) shop0 0 false) Hu) as (uid & m & Hrun & Hacc).
  pose (s1 := Demo (set_users (λ _, m) (truncate_sessions d)) shop0 0 false). exists uid, s1. eexists. split; [exact Hrun|].
  assert (Hno : ∀ j x, refresh_tokens (dm_db s1) !! j = Some x → False) by (intros j x Hj; cbn in Hj; by rewrite lookup_empty in Hj).
  split; [apply (login_known email r uid s1 Ht (da_user _ _ _ _ _ Hacc) (da_unique _ _ _ _ _ Hacc)); intros j x Hj; by destruct (Hno j x)|].
  assert (Hrow : ∀ j x, <[seq_tokens d + 1 := session_row 0 uid (de_family env 0)]> (∅ : gmap Z refresh_row) !! j = Some x →
    j = seq_tokens d + 1 ∧ x = session_row 0 uid (de_family env 0)).
  { intros j x [[<- <-]|[_ Hj]]%lookup_insert_Some; [done|]. by rewrite lookup_empty in Hj. }
  split; try reflexivity.
  - split; cbn.
    + split; cbn.
      * by intros i j a b k [-> ->]%Hrow [-> ->]%Hrow.
      * by intros i j a b [-> ->]%Hrow [-> ->]%Hrow.
      * intros i [x [-> _]%Hrow]. lia.
      * intros i x [_ ->]%Hrow. cbn. by apply uuid_in_canonical, (sr_family Hsane).
    + intros j x [_ ->]%Hrow. exists 0%nat. split; [cbn; lia|done].
  - cbn. lia.
  - destruct Hacc as [(u & Hu1 & _ & _ & Hr) _ _]. eauto.
Qed.

(** The same session, some requests later. *)
Lemma opened_later uid r s st n : opened uid r s → (dm_calls s ≤ n)%nat → st = shop0 → opened uid r (Demo (dm_db s) st n (dm_failed s)).
Proof.
  intros [[Hi Hh] Hc Hs Hf Ht Hd Hu] Hn ->. split; try done; cbn; [|lia]. split; [done|]. cbn. intros j x Hj.
  destruct (Hh j x Hj) as (i & Hlt & Hx). exists i. split; [cbn; lia|done].
Qed.

(** The first token was exchanged by request [n]. *)
Record exchanged (n : nat) (s : demo_state) : Prop := {
  ex_ok : run_ok s;
  ex_shop : dm_shop s = shop0;
  ex_failed : dm_failed s = false;
  ex_first : ∃ i x, refresh_tokens (dm_db s) !! i = Some x ∧ rt_token_hash x = hash auth (ae_raw (de_auth env 0)) ∧
    rt_used_at x ≠ None ∧ rt_revoked_at x = None;
  ex_second : ∃ i x, refresh_tokens (dm_db s) !! i = Some x ∧ rt_token_hash x = hash auth (ae_raw (de_auth env n));
  ex_family : ∀ i x, refresh_tokens (dm_db s) !! i = Some x → rt_family_id x = de_family env 0;
  ex_denied : access_denylist (dm_db s) = ∅;
}.

Lemma opened_refresh uid r s : opened uid r s → ∃ s',
  call auth env (Refresh (ae_raw (de_auth env 0))) None s =
    (Ok (ResOf 200 (Ok (Tokens (pair_issued (dm_calls s) uid r (de_family env 0))))), s') ∧ exchanged (dm_calls s) s'.
Proof.
  intros [Hok Hc Hs Hf Ht Hd (u & Hu & Hr)]. set (row := session_row 0 uid (de_family env 0)).
  assert (Hrow : refresh_tokens (dm_db s) !! seq_tokens (dm_db s) = Some row) by (rewrite Ht; apply lookup_singleton_eq).
  destruct (call_refresh _ row u s (ae_raw (de_auth env 0)) Hok Hrow) as [Hcall Hok']; [done|done|apply (sr_refresh Hsane)|done|].
  rewrite Hr in Hcall. eexists. split; [exact Hcall|].
  assert (Hm : refresh_tokens (mark_used (seq_tokens (dm_db s)) (ae_now (de_auth env (dm_calls s))) (dm_db s)).2 =
    {[seq_tokens (dm_db s) := used (ae_now (de_auth env (dm_calls s))) row]}).
  { cbn. rewrite Ht. apply alter_singleton_eq. }
  split; [exact Hok'|done|done|..|done]; cbn -[mark_used]; rewrite Hm.
  - exists (seq_tokens (dm_db s)). eexists. rewrite lookup_insert_ne by lia. rewrite lookup_singleton_eq. split_and!; done.
  - exists (seq_tokens (dm_db s) + 1). eexists. rewrite lookup_insert_eq. done.
  - intros i x [[_ <-]|[_ [_ <-]%lookup_singleton_Some]]%lookup_insert_Some; done.
Qed.

(** Every token of a database is revoked. *)
Definition all_revoked (d : db) : Prop := ∀ i x, refresh_tokens d !! i = Some x → rt_revoked_at x ≠ None.

Lemma revoked_all family now d : (∀ i x, refresh_tokens d !! i = Some x → rt_family_id x = family) →
  all_revoked (revoke_family ∅ family now d).2.
Proof.
  intros Hall i x Hi. rewrite revoke_lookup in Hi. apply fmap_Some in Hi as (x0 & Hx0 & ->).
  case_decide as Hd; [done|]. intros Hr. apply Hd. split; [apply not_elem_of_empty|]. apply bool_decide_eq_true_2. eauto.
Qed.

Lemma count_alive_none email d : all_revoked d → count_alive email d = 0%nat.
Proof. intros Hall. apply map_size_empty_iff, map_empty_filter_2. intros i x Hi [Hr _]. by apply (Hall i x). Qed.

Lemma list_orders_ok n uid fid date : ∃ x,
  route date (Some (issued_user n uid customer fid)) (GetOrders 20 None) shop0 = (Ok x, shop0).
Proof.
  unfold route. cbn [RolesGuard roles_of]. unfold get_orders, listFor. rewrite bool_decide_eq_false_2 by done.
  cbn [ORDERS shop0 au_id issued_user]. generalize (pretty uid). intros buyer. unfold seed_orders. rewrite !filter_cons, filter_nil.
  cbn [or_buyer_id]. repeat case_decide; eexists; reflexivity.
Qed.

#[local] Ltac script H := rewrite (script_bind_run _ _ _ _ _ H); cbn [res_status pair_of res_answer access_token refresh_token pair_issued].
#[local] Ltac expected := erewrite script_bind_run; [|apply expect_ok; reflexivity]; cbn [res_status pair_of res_answer].

(** The end of a session: logout, then both tokens are refused, and what the
    database holds. *)
Lemma session_ends n uid s : exchanged n s →
  let fid := de_family env 0 in let token := issued n uid customer fid in
  ∃ s1 s2 s3, call auth env Logout (Some token) s = (Ok (ResOf 204 (Ok NoContent)), s1) ∧
    call auth env list_orders (Some token) s1 = (Ok (ResOf 401 (Err (unauthorized "token-revoked" "токен відкликано (логаут)"))), s2) ∧
    call auth env (Refresh (ae_raw (de_auth env n))) None s2 = (Ok (ResOf 401 (Err BAD_REFRESH)), s3) ∧
    dm_failed s3 = false ∧ all_revoked (dm_db s3) ∧ count_denied (dm_db s3) = 1%nat.
Proof.
  intros Hex fid token. set (exp := 1000 * (ae_date (de_auth env n) / 1000 + accessTtlSec (tokens auth))).
  assert (Hden : access_denylist (dm_db s) !! ae_jti (de_auth env n) = None) by (rewrite (ex_denied _ _ Hex); apply lookup_empty).
  destruct (call_logout n uid customer fid s Hden (uuid_in_canonical _ (sr_family Hsane 0)) (ex_ok _ _ Hex)) as [Hlogout Hok].
  set (d := denied _ _) in *. assert (Hall : all_revoked d) by (apply revoked_all, Hex).
  assert (Hd : access_denylist d = {[ae_jti (de_auth env n) := exp]}) by (unfold d, denied; cbn; by rewrite (ex_denied _ _ Hex)).
  assert (Hj : access_denylist (dm_db (after d s)) !! ae_jti (de_auth env n) = Some exp) by (cbn [dm_db after]; rewrite Hd; apply lookup_singleton_eq).
  destruct (ex_second _ _ Hex) as (i & x & Hi & Hh).
  assert (∃ x', refresh_tokens d !! i = Some x' ∧ rt_token_hash x' = rt_token_hash x) as (x' & Hx' & Hhx').
  { unfold d, denied. cbn [refresh_tokens set_denylist]. rewrite revoke_lookup, Hi. eexists. split; [reflexivity|]. by case_decide. }
  do 3 eexists. split; [exact Hlogout|].
  split; [exact (call_denied n uid customer fid (GetOrders 20 None) (after d s) exp eq_refl Hj)|].
  split; [apply (call_refresh_revoked i x'); [apply Hok|exact Hx'|congruence|by eapply Hall]|].
  split; [apply Hex|]. split; [done|]. unfold count_denied. cbn [dm_db after]. rewrite Hd. apply map_size_singleton.
Qed.

(** C15: The walk through a session (npm run demo:auth): login, an order list
    without and with the access token, refresh, logout, and both tokens refused
    afterwards, with no live refresh token and exactly one denylist entry left
    in the database.  From any database with unique e-mails the demonstration
    finds every answer as expected and exits with 0. *)
Theorem demo_auth_passes d : emails_unique d → runDemo (demo_auth auth env next salt) d = 0.
Proof.
  intros Hu. unfold runDemo, demo_auth. change "demo-password-1" with PASSWORD.
  destruct (demo_opens "demo-auth@auth.test" customer d eq_refl Hu) as (uid & s1 & s2 & Hrun & Hlogin & Hop).
  script Hrun. script Hlogin. expected.
  script (call_anonymous (GetOrders 20 None) s2 eq_refl). expected.
  assert (Hop3 : opened uid customer (after (dm_db s2) s2)) by (apply opened_later; [done|lia|apply Hop]).
  set (s3 := after (dm_db s2) s2) in *. clearbody s3. destruct (list_orders_ok 0 uid (de_family env 0) (ae_date (de_auth env (dm_calls s3)))) as [x Hx].
  assert (Hden3 : ∀ j, access_denylist (dm_db s3) !! j = None) by (intros j; rewrite (op_denied _ _ _ Hop3); apply lookup_empty).
  pose proof (call_shop 0 uid customer (de_family env 0) (GetOrders 20 None) s3 eq_refl (Hden3 _)) as Hlist. cbv zeta in Hlist.
  rewrite (op_shop _ _ _ Hop3), Hx in Hlist. cbn [fst snd rmap status_of success_status] in Hlist. script Hlist. expected.
  pose proof (opened_later uid customer s3 shop0 (S (dm_calls s3)) Hop3 ltac:(lia) eq_refl) as Hop4.
  set (s4 := Demo (dm_db s3) _ _ _) in *. clearbody s4. destruct (opened_refresh uid customer s4 Hop4) as (s5 & Hrefresh & Hex).
  script Hrefresh. expected.
  destruct (session_ends _ uid s5 Hex) as (s6 & s7 & s8 & Hlogout & Hdenied & Hdead & Hfailed & Hall & Hone).
  script Hlogout. expected. script Hdenied. expected. script Hdead. expected.
  erewrite script_bind_run; [|reflexivity]. rewrite (count_alive_none _ _ Hall).
  erewrite script_bind_run; [|apply invariant_ok; reflexivity]. erewrite script_bind_run; [|reflexivity].
  rewrite Hone. rewrite invariant_ok by reflexivity. by rewrite Hfailed.
Qed.

(** Reuse detection (npm run demo:reuse): the second show of an exchanged
    refresh token is refused, and so is the token it was exchanged for; no live
    token of the session is left in the database.  The demonstration exits with 0. *)
Theorem demo_reuse_passes d : emails_unique d → runDemo (demo_reuse auth env next salt) d = 0.
Proof.
  intros Hu. unfold runDemo, demo_reuse. change "demo-password-1" with PASSWORD.
  destruct (demo_opens "demo-reuse@auth.test" customer d eq_refl Hu) as (uid & s1 & s2 & Hrun & Hlogin & Hop).
  script Hrun. script Hlogin. expected. destruct (opened_refresh uid customer s2 Hop) as (s3 & Hrefresh & Hex).
  script Hrefresh. expected. destruct (ex_first _ _ Hex) as (i & x & Hi & Hh & Hused & Hrev).
  destruct (call_refresh_reused i x s3 (ae_raw (de_auth env 0)) (ex_ok _ _ Hex) Hi Hh Hused Hrev) as [Hreuse Hok4].
  script Hreuse. expected. rewrite (ex_family _ _ Hex _ _ Hi) in *.
  set (d4 := (revoke_family ∅ _ _ _).2) in *. assert (Hall : all_revoked d4) by (apply revoked_all, Hex).
  destruct (ex_second _ _ Hex) as (i2 & x2 & Hi2 & Hh2).
  assert (∃ x', refresh_tokens d4 !! i2 = Some x' ∧ rt_token_hash x' = rt_token_hash x2) as (x' & Hx' & Hhx').
  { unfold d4. rewrite revoke_lookup, Hi2. eexists. split; [reflexivity|]. by case_decide. }
  assert (Hdead : call auth env (Refresh (ae_raw (de_auth env (dm_calls s2)))) None (after d4 s3) =
    (Ok (ResOf 401 (Err BAD_REFRESH)), after d4 (after d4 s3))).
  { apply (call_refresh_revoked i2 x'); [apply Hok4|exact Hx'|congruence|by eapply Hall]. }
  script Hdead. expected. erewrite script_bind_run; [|reflexivity]. cbn [dm_db after]. rewrite (count_alive_none _ _ Hall).
  rewrite invariant_ok by reflexivity. cbn [dm_failed after]. by rewrite (ex_failed _ _ Hex).
Qed.


(** *** Three users *)

Lemma account_keeps e1 r1 u1 e2 r2 u2 m m' : e1 ≠ e2 → account e1 r1 u1 m → demo_account e2 r2 u2 m m' → account e1 r1 u1 m' ∧ u1 ≠ u2.
Proof.
  intros Hne (u & Hu & He & Hr) [(v & Hv & Hev & _) Hother _]. assert (m' !! u1 = Some u) as Hu' by (apply Hother; [congruence|done]).
  split; [by exists u|]. intros ->. simplify_eq.
Qed.

(** A login of [demo_rbac]: the pair, and what it leaves alone. *)
Lemma demo_login_run email r uid s :
  text_in email = Some email → account email r uid (users (dm_db s)) → emails_unique (dm_db s) → only_issued s →
  ∃ d, demo_login auth env email s = (Ok (pair_issued (dm_calls s) uid r (de_family env (dm_calls s))), after d s) ∧
    only_issued (after d s) ∧ users d = users (dm_db s) ∧ access_denylist d = access_denylist (dm_db s).
Proof.
  intros Ht Hacc Hu Hiss.
  exists (set_tokens <[seq_tokens (dm_db s) + 1 := session_row (dm_calls s) uid (de_family env (dm_calls s))]> (seq_tokens (dm_db s) + 1) (dm_db s)).
  split; [|split; [|split; reflexivity]].
  - unfold demo_login. erewrite script_bind_run; [|apply (login_known email r uid s Ht Hacc Hu (issued_free _ Hiss))]. reflexivity.
  - intros j x. cbn. intros [[_ <-]|[_ Hj]]%lookup_insert_Some.
    + exists (dm_calls s). split; [cbn; lia|done].
    + destruct (Hiss j x Hj) as (i & Hi & Hx). exists i. split; [cbn; lia|done].
Qed.

(** The order of the scripts, in the shop of a fresh application. *)
Definition rbac_items : list OrderItem := [OrderItemOf "p1" (num_of_Z 1)].
Definition rbac_shop (date : Z) (buyer : string) : shop := (order_create date shop0 rbac_items buyer).2.

Lemma post_order_runs date user : au_role user = customer → ∃ o,
  route date (Some user) (PostOrder rbac_items) shop0 = (Ok (Created o "/orders/o3"), rbac_shop date (au_id user)) ∧ or_id o = "o3".
Proof. intros Hr. eexists. split; reflexivity. Qed.

Lemma get_order_runs date buyer now user : au_role user = customer →
  route now (Some user) (GetOrder "o3") (rbac_shop date buyer) =
    (if String.eqb buyer (au_id user) then Ok (OneOrder (order_create date shop0 rbac_items buyer).1) else Err not_owner, rbac_shop date buyer).
Proof.
  intros Hr. unfold route. cbn [RolesGuard roles_of]. unfold get_order, getOwned.
  assert (Hget : order_getById (rbac_shop date buyer) "o3" = Ok (order_create date shop0 rbac_items buyer).1) by reflexivity.
  rewrite Hget. cbn [rbind]. rewrite Hr, bool_decide_eq_false_2 by done. cbn [negb]. rewrite andb_true_r.
  change (or_buyer_id (order_create date shop0 rbac_items buyer).1) with buyer. by destruct (String.eqb buyer (au_id user)).
Qed.

Lemma post_product_runs now user name price st :
  route now (Some user) (PostProduct name price) st =
    if bool_decide (au_role user ∈ [seller; admin])
    then (Ok (OneProduct (product_create st name price).1), (product_create st name price).2)
    else (Err (INSUFFICIENT_ROLE [seller; admin] "seller | admin"), st).
Proof.
  unfold route. cbn [RolesGuard roles_of]. destruct (bool_decide _); [|reflexivity]. unfold post_product. by destruct (product_create _ _ _).
Qed.

(** A token whose payload was changed and whose signature was not: the header
    reads as before, the library rejects the signature. *)
Record forged (tamper : string → string) : Prop := {
  fg_text : ∀ sk o now, tamper (jwt_sign sk o now) ≠ "" ∧ Forall visible (bytes_of (tamper (jwt_sign sk o now)));
  fg_kid : ∀ sk o now, jwt_decode_kid (tamper (jwt_sign sk o now)) = jwt_decode_kid (jwt_sign sk o now);
  fg_signature : ∀ sk pk o now vo now', key_pair sk pk → so_role o ≠ "admin" →
    jwt_verify pk vo now' (tamper (jwt_sign sk o now)) = JwtInvalid;
}.

Lemma call_forged tamper n uid r fid c s : forged tamper → r ≠ admin → is_public c = false → ∃ e,
  call auth env (Shop_call c) (Some (tamper (issued n uid r fid))) s = (Ok (ResOf 401 (Err e)), after (dm_db s) s).
Proof.
  intros [Htext Hkid Hsig] Hr Hp. destruct s as [d st m failed]. exists (unauthorized "invalid-token" "підпис або клейми не пройшли перевірку").
  unfold call. cbn [dm_db dm_calls dm_shop dm_failed mbind option_bind]. unfold api, mbind at 1, sql_bind at 1, sql_try. cbn [call_public]. rewrite Hp.
  unfold AuthGuard. cbn [default from_option id]. unfold issued, sign. cbn [fst].
  match goal with |- context [tamper (jwt_sign ?sk ?o ?t)] => pose proof (Htext sk o t) as [Hne Hv]; pose proof (Hkid sk o t) as Hk;
    pose proof (λ pk now', Hsig sk pk o t (VerifyOptions ALLOWED_ALGORITHMS ISSUER AUDIENCE) now') as Hs end.
  rewrite bearer_visible by done. unfold mbind at 1, sql_bind at 1, authenticate, verify. rewrite Hk, decode_kid_signed.
  destruct (sr_key Hsane) as (pk & Hpair & Hkey). cbn [so_keyid mbind option_bind].
  destruct (String.eqb_spec (kid (tokens auth)) "") as [Hempty|_]; [by destruct (sr_kid Hsane)|]. rewrite Hkey, Hs; [reflexivity|done|by destruct r].
Qed.

(** The cast of [demo_rbac], logged in. *)
Record cast (o st se : Z) (s : demo_state) : Prop := {
  ca_strangers : o ≠ st;
  ca_shop : dm_shop s = shop0;
  ca_failed : dm_failed s = false;
  ca_denied : access_denylist (dm_db s) = ∅;
}.

Lemma rbac_users d : emails_unique d → ∃ o st se s1 s2 s3,
  demo_user next salt "demo-owner@auth.test" customer (Demo (truncate_sessions d) shop0 0 false) = (Ok (pretty o), s1) ∧
  demo_user next salt "demo-stranger@auth.test" customer s1 = (Ok (pretty st), s2) ∧
  demo_user next salt "demo-seller@auth.test" seller s2 = (Ok (pretty se), s3) ∧
  let m := users (dm_db s3) in
  account "demo-owner@auth.test" customer o m ∧ account "demo-stranger@auth.test" customer st m ∧
  account "demo-seller@auth.test" seller se m ∧ emails_unique (dm_db s3) ∧ only_issued s3 ∧ dm_calls s3 = 0%nat ∧ cast o st se s3.
Proof.
  intros Hu. destruct (demo_user_run "demo-owner@auth.test" customer (Demo (truncate_sessions d) shop0 0 false) Hu) as (o & m1 & E1 & Ha1).
  set (s1 := Demo (set_users _ _) _ _ _) in E1.
  destruct (demo_user_run "demo-stranger@auth.test" customer s1 (da_unique _ _ _ _ _ Ha1)) as (st & m2 & E2 & Ha2).
  set (s2 := Demo (set_users _ _) _ _ _) in E2.
  destruct (demo_user_run "demo-seller@auth.test" seller s2 (da_unique _ _ _ _ _ Ha2)) as (se & m3 & E3 & Ha3).
  destruct (account_keeps "demo-owner@auth.test" _ _ "demo-stranger@auth.test" _ _ _ _ ltac:(discriminate) (da_user _ _ _ _ _ Ha1) Ha2) as [Ho1 Hne].
  destruct (account_keeps "demo-owner@auth.test" _ _ "demo-seller@auth.test" _ _ _ _ ltac:(discriminate) Ho1 Ha3) as [Ho _].
  destruct (account_keeps "demo-stranger@auth.test" _ _ "demo-seller@auth.test" _ _ _ _ ltac:(discriminate) (da_user _ _ _ _ _ Ha2) Ha3) as [Hst _].
  exists o, st, se, s1, s2. eexists. split; [exact E1|]. split; [exact E2|]. split; [exact E3|]. cbv zeta.
  split; [exact Ho|]. split; [exact Hst|]. split; [apply Ha3|]. split; [apply Ha3|]. split; [|done].
  intros j x Hj. cbn in Hj. by rewrite lookup_empty in Hj.
Qed.

Lemma rbac_cast d : emails_unique d → ∃ o st se s1 s2 s3 s4 s5 s6,
  demo_user next salt "demo-owner@auth.test" customer (Demo (truncate_sessions d) shop0 0 false) = (Ok (pretty o), s1) ∧
  demo_user next salt "demo-stranger@auth.test" customer s1 = (Ok (pretty st), s2) ∧
  demo_user next salt "demo-seller@auth.test" seller s2 = (Ok (pretty se), s3) ∧
  demo_login auth env "demo-owner@auth.test" s3 = (Ok (pair_issued 0 o customer (de_family env 0)), s4) ∧
  demo_login auth env "demo-stranger@auth.test" s4 = (Ok (pair_issued 1 st customer (de_family env 1)), s5) ∧
  demo_login auth env "demo-seller@auth.test" s5 = (Ok (pair_issued 2 se seller (de_family env 2)), s6) ∧ cast o st se s6.
Proof.
  intros Hu. destruct (rbac_users d Hu) as (o & st & se & s1 & s2 & s3 & E1 & E2 & E3 & Ho & Hst & Hse & Hu3 & Hi3 & Hc3 & [Hne Hshop Hfail Hden]).
  destruct (demo_login_run "demo-owner@auth.test" _ _ s3 eq_refl Ho Hu3 Hi3) as (d4 & E4 & Hi4 & Hu4 & Hd4). rewrite Hc3 in E4.
  rewrite <-Hu4 in Hst, Hse. assert (emails_unique d4) as Hu4' by (unfold emails_unique; by rewrite Hu4).
  destruct (demo_login_run "demo-stranger@auth.test" _ _ (after d4 s3) eq_refl Hst Hu4' Hi4) as (d5 & E5 & Hi5 & Hu5 & Hd5). cbn [dm_calls after] in E5. rewrite Hc3 in E5.
  cbn [dm_db after] in Hu5, Hd5. rewrite <-Hu5 in Hse. assert (emails_unique d5) as Hu5' by (unfold emails_unique; by rewrite Hu5).
  destruct (demo_login_run "demo-seller@auth.test" _ _ (after d5 (after d4 s3)) eq_refl Hse Hu5' Hi5) as (d6 & E6 & _ & _ & Hd6). cbn [dm_calls after] in E6. rewrite Hc3 in E6.
  exists o, st, se, s1, s2, s3. do 3 eexists. split_and!; [exact E1|exact E2|exact E3|exact E4|exact E5|exact E6|].
  split; try done. cbn [dm_db after] in *. by rewrite Hd6, Hd5, Hd4.
Qed.

Lemma shop_answers n uid role fid r db sh k b x sh' : is_public r = false → access_denylist db !! ae_jti (de_auth env n) = None →
  route (ae_date (de_auth env k)) (Some (issued_user n uid role fid)) r sh = (x, sh') →
  call auth env (Shop_call r) (Some (issued n uid role fid)) (Demo db sh k b) =
    (Ok (ResOf (status_of (Shop_call r) (rmap Shop_answer x)) (rmap Shop_answer x)), Demo db sh' (S k) b).
Proof. intros Hp Hd Hr. pose proof (call_shop n uid role fid r (Demo db sh k b) Hp Hd) as Hc. cbn [dm_calls dm_shop] in Hc. by rewrite Hr in Hc. Qed.

(** C16: Who may do what (npm run demo:rbac): nobody gets 401, the owner reads his
    order, a stranger gets 403, a customer may not add a product, a seller may,
    and a payload changed to [admin] under the old signature is refused.  From any
    database with unique e-mails the demonstration exits with 0. *)
Theorem demo_rbac_passes d tamper : emails_unique d → forged tamper → runDemo (demo_rbac auth env next salt tamper) d = 0.
Proof.
  intros Hu Hforged. unfold runDemo, demo_rbac. change [OrderItemOf "p1" (num_of_Z 1)] with rbac_items.
  destruct (rbac_cast d Hu) as (o & st & se & s1 & s2 & s3 & s4 & s5 & s6 & E1 & E2 & E3 & E4 & E5 & E6 & [Hne Hshop Hfail Hden]).
  script E1. script E2. script E3. script E4. script E5. script E6. destruct s6 as [db6 sh n failed]. cbn in Hshop, Hfail, Hden. subst sh failed.
  assert (Hok : ∀ j, access_denylist db6 !! ae_jti (de_auth env j) = None) by (intros j; rewrite Hden; apply lookup_empty).
  destruct (post_order_runs (ae_date (de_auth env n)) (issued_user 0 o customer (de_family env 0)) eq_refl) as (order & Hr & Hid).
  script (shop_answers 0 o customer (de_family env 0) (PostOrder rbac_items) db6 shop0 n false _ _ eq_refl (Hok _) Hr).
  erewrite script_bind_run; [|apply invariant_ok; reflexivity]. change (rmap Shop_answer (Ok (Created order "/orders/o3"))) with (Ok (Shop_answer (Created order "/orders/o3"))); cbv iota. rewrite Hid. set (sh := rbac_shop _ _) in *.
  script (call_anonymous (GetOrder "o3") (Demo db6 sh (S n) false) eq_refl). expected. unfold after. cbn [dm_calls dm_shop dm_db dm_failed].
  pose proof (λ k, get_order_runs (ae_date (de_auth env n)) (pretty o) (ae_date (de_auth env k)) (issued_user 0 o customer (de_family env 0)) eq_refl) as Hown.
  cbn [au_id issued_user] in Hown. rewrite String.eqb_refl in Hown. cbv iota in Hown.
  script (shop_answers 0 o customer (de_family env 0) (GetOrder "o3") db6 sh (S (S n)) false _ _ eq_refl (Hok _) (Hown _)). expected.
  pose proof (λ k, get_order_runs (ae_date (de_auth env n)) (pretty o) (ae_date (de_auth env k)) (issued_user 1 st customer (de_family env 1)) eq_refl) as Hforeign.
  cbn [au_id issued_user] in Hforeign. assert (Hneq : String.eqb (pretty o) (pretty st) = false) by (apply String.eqb_neq; intros Heq; exact (Hne (pretty_Z_inj _ _ Heq))).
  rewrite Hneq in Hforeign. cbv iota in Hforeign.
  script (shop_answers 1 st customer (de_family env 1) (GetOrder "o3") db6 sh (S (S (S n))) false _ _ eq_refl (Hok _) (Hforeign _)). expected.
  script (shop_answers 0 o customer (de_family env 0) (PostProduct "Веб-камера" (num_of_Z 99900)) db6 sh (S (S (S (S n)))) false _ _ eq_refl (Hok _) (post_product_runs _ _ _ _ _)).
  expected.
  pose proof (λ k, post_product_runs (ae_date (de_auth env k)) (issued_user 2 se seller (de_family env 2)) "Веб-камера" (num_of_Z 99900) sh) as Hseller.
  rewrite bool_decide_eq_true_2 in Hseller by (cbn [au_role issued_user]; left).
  script (shop_answers 2 se seller (de_family env 2) (PostProduct "Веб-камера" (num_of_Z 99900)) db6 sh (S (S (S (S (S n))))) false _ _ eq_refl (Hok _) (Hseller _)). expected.
  destruct (call_forged tamper 0 o customer (de_family env 0) (PostProduct "Веб-камера" (num_of_Z 99900))
    (Demo db6 (product_create sh "Веб-камера" (num_of_Z 99900)).2 (S (S (S (S (S (S n)))))) false) Hforged ltac:(done) eq_refl) as [e He].
  script He. rewrite expect_ok by reflexivity. done.
Qed.
End runs.

(** ** Witnesses *)

Section auth_api_witnesses.
#[local] Existing Instance fix_text.
#[local] Existing Instance fix_text_laws.
#[local] Existing Instance fix_jwt.
#[local] Existing Instance fix_jwt_laws.
#[local] Existing Instance fix_crypto.
#[local] Existing Instance fix_crypto_laws.
#[local] Instance plain_hmac : Hmac := {| hmac p x := p +:+ x |}.

Lemma field_visible s : Forall visible (bytes_of (field s)).
Proof.
  unfold field, bytes_of. rewrite String.list_ascii_of_string_of_list_ascii. pose proof (hex_all _ (bytes_ok s)) as [Hh _].
  apply Forall_fmap, List.Forall_forall. intros c Hc. rewrite forallb_forall in Hh. specialize (Hh c Hc).
  unfold is_hex in Hh. change (visible (Z.of_N (Ascii.N_of_ascii c))). unfold visible.
  repeat (apply orb_true_iff in Hh as [Hh|Hh]; [|]); apply andb_true_iff in Hh as [?%N.leb_le ?%N.leb_le]; lia.
Qed.

Lemma join_visible l : Forall visible (bytes_of (join_dollar l)).
Proof.
  induction l as [|x [|y l] IH]; [constructor|apply field_visible|].
  change (join_dollar (x :: y :: l)) with (field x +:+ String "$" (join_dollar (y :: l))). rewrite bytes_of_app.
  apply Forall_app. split; [apply field_visible|]. constructor; [by split|exact IH].
Qed.

Lemma token_visible sk o now : token_text sk o now ≠ "" ∧ Forall visible (bytes_of (token_text sk o now)).
Proof.
  split; [|apply join_visible]. intros He. pose proof (token_read_text sk o now) as Hr. rewrite He in Hr. discriminate Hr.
Qed.
#[local] Instance fix_jwt_text : JwtText := token_visible.

(** The token with the role of an administrator, under a signature of no key. *)
Definition fix_tamper (t : string) : string :=
  match token_read t with
  | Some (sk, o, iat) => token_text ("not " +:+ sk) (SignOptions "admin" (so_fid o) (so_algorithm o) (so_keyid o) (so_subject o)
      (so_issuer o) (so_audience o) (so_expiresIn o) (so_jwtid o)) iat
  | None => t
  end.

Lemma fix_forged : forged fix_tamper.
Proof.
  split; cbn -[token_text token_read]; intros; unfold fix_tamper; rewrite token_read_text.
  - apply token_visible.
  - by rewrite !token_read_text.
  - rewrite token_read_text. rewrite bool_decide_eq_false_2; [done|]. intros (Hk & _). subst.
    assert (String.length ("not " +:+ pk) = (4 + String.length pk)%nat) as Hl by done. rewrite Hk in Hl. lia.
Qed.

Definition walk_env : demo_env := DemoEnv (λ n, AuthEnv 5000 5000 ("r" +:+ pretty n) jti1 ∅) (λ _, fam).

Lemma walk_sane : sane_run fix_auth walk_env.
Proof.
  refine {| sr_key := _; sr_kid := _; sr_live := _; sr_exp := _; sr_refresh := _; sr_jti := _; sr_family := _; sr_raw := _; sr_alone := _ |}.
  - exists "key-1". split; [reflexivity|]. vm_compute. reflexivity.
  - discriminate.
  - intros i j. vm_compute. reflexivity.
  - intros i. vm_compute. split; [discriminate|reflexivity].
  - intros i j. vm_compute. reflexivity.
  - intros i. vm_compute. reflexivity.
  - intros i. vm_compute. reflexivity.
  - intros i j Hij. change ("pepper:" +:+ "r" +:+ pretty i = "pepper:" +:+ "r" +:+ pretty j) in Hij.
    apply (inj (String.append "pepper:")) in Hij. apply (inj (String.append "r")) in Hij. exact (pretty_nat_inj _ _ Hij).
  - reflexivity.
Qed.

Lemma walk_emails : emails_unique fix_db.
Proof. apply fix_db_ok. Qed.

Lemma demo_auth_passes_witness : runDemo (demo_auth fix_auth walk_env fresh_id [1]) fix_db = 0.
Proof.
  apply (demo_auth_passes fix_auth walk_env walk_sane fresh_id (λ X, is_fresh X) [1]); [discriminate| |exact walk_emails].
  repeat constructor; done.
Defined.

Lemma demo_reuse_passes_witness : runDemo (demo_reuse fix_auth walk_env fresh_id [1]) fix_db = 0.
Proof.
  apply (demo_reuse_passes fix_auth walk_env walk_sane fresh_id (λ X, is_fresh X) [1]); [discriminate| |exact walk_emails].
  repeat constructor; done.
Defined.

Lemma demo_rbac_passes_witness : runDemo (demo_rbac fix_auth walk_env fresh_id [1] fix_tamper) fix_db = 0.
Proof.
  apply (demo_rbac_passes fix_auth walk_env walk_sane fresh_id (λ X, is_fresh X) [1]); [discriminate| |exact walk_emails|exact fix_forged].
  repeat constructor; done.
Defined.
End auth_api_witnesses.
