(* ===== verification/Recovery.v ===== *)
(** Recovery of the order pipeline: once the faults stop, relay passes
    (src/outbox/relay.ts) and deliveries (src/messaging/consumer.ts) bring every
    order that has not been dead-lettered its receipt, in any order and in a
    bounded number of steps.  The repository has no consumer of the dead-letter
    queue: what is there stays there. *)
From S2P Require Import Prelude JsNumber Events Schema Sql Fixtures Checkout Publisher Relay Consumer Pipeline.
From stdpp Require Import pretty relations.
#[local] Open Scope Z_scope.

(** The number of messages in the work queue, ready or handed out, and what the
    broker documents about it and about dead-lettering. *)
Class BrokerDepth `{Broker} := depth : bstate → nat.
Class BrokerDepthLaws `{BrokerDepth} := {
  depth_some : ∀ b, depth b ≠ 0%nat → ∃ m, holds b WORK_QUEUE m;
  depth_accept : ∀ b m, (depth (accept m b) ≤ S (depth b))%nat;
  depth_ack : ∀ b m, holds b WORK_QUEUE m → (depth (settle Ack m b) < depth b)%nat;
  (** the exchange does not route to the dead-letter queue, an ack does not fill it *)
  accept_dlq : ∀ b m m', m_key m = ROUTING_KEY_ORDER_PLACED → holds (accept m b) DLQ m' → holds b DLQ m';
  ack_dlq : ∀ b m m', holds (settle Ack m b) DLQ m' → holds b DLQ m';
}.

Section recovery.
Context `{PgText, EventLib, Broker, !BrokerDepth}.

(** A pass of the relay that finds something, and a delivery; nothing fails.
    The batch size, the clock and the order of the deliveries are arbitrary. *)
Inductive clean_step : system → system → Prop :=
| clean_relay pub now n ret t r t' d d' b :
    (∀ i, ∃ k, pub i = Confirmed k ∧ k ≤ 0) →
    relayOnce pub (λ _, None) now n ∅ ret no_fault t d = (Ok r, t', d') → claimed r ≠ 0%nat →
    clean_step (System d b) (System d' (broker_takes (relay_sent pub (λ _, None) n ∅ ret no_fault t d) b))
| clean_deliver msg red s t h t' d d' b :
    holds b WORK_QUEUE msg → handle true msg red s no_fault t d = (h, t', d') →
    clean_step (System d b) (System d' (broker_settles (h_settled h) msg b)).

Lemma clean_is_step s s' : clean_step s s' → step s s'.
Proof. intros [pub now n ret t r t' d d' b _ Hrun _|msg red st t h t' d d' b Hh Hrun]; [by eapply step_relay|by eapply step_deliver]. Qed.

(** Every row not yet published costs a publication and a delivery. *)
Definition work_left (s : system) : nat := (2 * size (backlog (sdb s)) + depth (sbroker s))%nat.

(** No row was tried two thousand million times. *)
Definition attempts_room (d : db) : Prop := ∀ id row,
  outbox d !! id = Some row → ob_published_at row = None → 0 ≤ ob_attempts row < 2147483647.

Context `{!PgTextLaws, !EventLibLaws, !BrokerLaws, !BrokerDepthLaws}.

Lemma room_relayable s : invariant s → attempts_room (sdb s) → relayable (sdb s).
Proof.
  intros Hinv Hroom id row Hrow Hpub. split; [|by eapply Hroom].
  destruct (inv_rows _ Hinv _ _ Hrow) as (ev & oid & o & _ & _ & _ & Hp). rewrite Hp. done.
Qed.

Lemma depth_takes sent b : (depth (broker_takes sent b) ≤ depth b + length sent)%nat.
Proof.
  revert b. induction sent as [|[[i m] x] sent IH]; intros b; [cbn; lia|].
  change (broker_takes ((i, m, x) :: sent) b) with (broker_takes sent (if taken x then accept m b else b)).
  specialize (IH (if taken x then accept m b else b)). cbn [length]. destruct (taken x); [|lia]. pose proof (depth_accept b m). lia.
Qed.

Lemma sent_length pub hook rows n ret : (length (l_sent (publish_rows pub hook n ret rows)) ≤ length rows)%nat.
Proof.
  revert n ret. induction rows as [|[i r] rows IH]; intros n ret; cbn; [lia|]. destruct (row_message r); cbn; [|lia].
  destruct (publishRaw _ _ _ _) as [[[]|e] ret']; cbn; [|lia]. destruct (hook i); cbn; [lia|]. specialize (IH (S n) ret'). lia.
Qed.

Lemma takes_dlq sent b m : (∀ id m' x, (id, m', x) ∈ sent → m_key m' = ROUTING_KEY_ORDER_PLACED) →
  holds (broker_takes sent b) DLQ m → holds b DLQ m.
Proof.
  revert b. induction sent as [|[[i m'] x] sent IH]; intros b Hkey Hh; [done|]. cbn in Hh.
  apply IH in Hh; [|intros id m2 y Hin; apply (Hkey id m2 y); by right].
  destruct (taken x); [|done]. eapply accept_dlq; [|exact Hh]. apply (Hkey i m' x). left.
Qed.

(** What a clean step keeps and costs. *)
Record progress (s s' : system) : Prop := {
  pr_inv : invariant s';
  pr_room : attempts_room (sdb s');
  pr_orders : orders (sdb s') = orders (sdb s);
  pr_work : (work_left s' < work_left s)%nat;
  pr_dlq : ∀ m, holds (sbroker s') DLQ m ↔ holds (sbroker s) DLQ m;
}.

(** A delivery with nothing failing: the effect, then the ack. *)
Lemma clean_handle ev oid o red s t d : announces ev oid o → ∃ h t',
  handle true (order_placed_message ev) red s no_fault t d = (h, t', (apply_spec ev (event_id oid) (o_total_amount o) d).2) ∧
  h_settled h = Some Ack.
Proof.
  intros Ha. destruct (apply_body_run ev (event_id oid) (o_total_amount o) (S t) d (an_storable _ _ _ Ha)) as [t' Hrun].
  apply transaction_run in Hrun. unfold handle. rewrite (announced_parse _ _ _ Ha).
  change (transaction (apply_body ev)) with (applyOrderPlaced ev) in Hrun. rewrite Hrun. do 2 eexists. split; reflexivity.
Qed.

Lemma clean_progress s s' : invariant s → attempts_room (sdb s) → collision_free (sdb s) → clean_step s s' → progress s s'.
Proof.
  intros Hinv Hroom Hcf Hstep. pose proof (step_invariant _ _ (clean_is_step _ _ Hstep) Hcf Hinv) as Hinv'.
  pose proof (room_relayable _ Hinv Hroom) as Hrel.
  destruct Hstep as [pub now n ret t r t' d d' b Hpub Hrun Hne|msg red st t h t' d d' b Hh Hrun].
  - destruct (relay_pass_healthy pub (λ _, None) now n ret t d Hrel Hpub (λ _, eq_refl)) as [t2 Hrun2].
    rewrite Hrun in Hrun2. injection Hrun2 as -> _ ->. cbn [claimed] in Hne. split; [exact Hinv'| |done|..].
    + intros id row Hrow Hp. by apply (relayable_marked now (batch n ∅ d).*1 d Hrel id row).
    + unfold work_left. cbn [sdb sbroker]. rewrite backlog_pass.
      pose proof (depth_takes (relay_sent pub (λ _, None) n ∅ ret no_fault t d) b) as Hd.
      rewrite relay_sent_pass in Hd by done. rewrite relay_sent_pass by done.
      pose proof (sent_length pub (λ _, None) (batch n ∅ d) 0 ret). pose proof (batch_length n ∅ d). pose proof (backlog_size d). lia.
    + intros m. split; [|apply takes_keeps]. intros Hm. apply takes_dlq in Hm; [done|]. intros id m' x Hin.
      destruct (sent_announced _ _ _ _ _ _ _ _ _ _ _ Hin (inv_rows _ Hinv)) as (ev & oid & o & _ & _ & ->). done.
  - destruct (inv_queue _ Hinv _ Hh) as (ev & oid & o & Hoid & Ha & ->).
    destruct (clean_handle ev oid o red st t d Ha) as (h2 & t2 & Hrun2 & Hs). rewrite Hrun in Hrun2. injection Hrun2 as <- _ ->.
    destruct (apply_spec_frame ev (event_id oid) (o_total_amount o) d) as (_ & Eo & Eb & _).
    split; [exact Hinv'| |exact Eo|..]; cbn [sdb sbroker] in *.
    + unfold attempts_room. by rewrite Eb.
    + unfold work_left. cbn [sdb sbroker]. assert (backlog (apply_spec ev (event_id oid) (o_total_amount o) d).2 = backlog d) as ->.
      { unfold backlog, candidates. by rewrite Eb. }
      rewrite Hs. cbn [broker_settles]. pose proof (depth_ack b _ Hh). lia.
    + intros m. rewrite Hs. split; [apply ack_dlq|apply settle_dlq].
Qed.

Lemma clean_run n s s' : invariant s → attempts_room (sdb s) → collision_free (sdb s) → nsteps clean_step n s s' →
  (n + work_left s' ≤ work_left s)%nat ∧ invariant s' ∧ attempts_room (sdb s') ∧ orders (sdb s') = orders (sdb s) ∧
  (∀ m, holds (sbroker s') DLQ m ↔ holds (sbroker s) DLQ m).
Proof.
  intros Hinv Hroom Hcf Hn. induction Hn as [s|n s s1 s2 Hstep Hn IH]; [split_and!; auto with lia|].
  destruct (clean_progress _ _ Hinv Hroom Hcf Hstep) as [Hi Hr Ho Hw Hd].
  destruct IH as (Hle & Hi2 & Hr2 & Ho2 & Hd2); [done|done|by unfold collision_free; rewrite Ho|].
  split_and!; [lia|done|done|congruence|intros m; by rewrite Hd2, Hd].
Qed.

(** As long as there is work, something can be done. *)
Lemma clean_enabled s : invariant s → attempts_room (sdb s) →
  (∃ s', clean_step s s') ∨
  (∀ id row, outbox (sdb s) !! id = Some row → ob_published_at row ≠ None) ∧ (∀ m, ¬ holds (sbroker s) WORK_QUEUE m).
Proof.
  intros Hinv Hroom. destruct s as [d b]. pose proof (room_relayable _ Hinv Hroom) as Hrel. cbn [sdb sbroker] in *.
  destruct (set_choose_or_empty (backlog d)) as [[id Hid]|Hnone].
  - left. destruct (relay_pass_healthy (λ _, Confirmed 0) (λ _, None) 0 1 0 0%nat d Hrel) as [t' Hrun]; [by exists 0|done|].
    eexists. eapply clean_relay; [by exists 0|exact Hrun|]. cbn [claimed]. rewrite batch_length.
    pose proof (backlog_size d). assert (size (backlog d) ≠ 0%nat) by (intros Hz%size_empty_inv; set_solver). lia.
  - assert (Hpub : ∀ id row, outbox d !! id = Some row → ob_published_at row ≠ None).
    { intros id row Hrow Hp. assert (id ∈ backlog d) by (apply backlog_elem; eauto). set_solver. }
    destruct (decide (depth b = 0%nat)) as [Hz|[m Hm]%depth_some].
    { right. split; [done|]. intros m Hm%depth_ack. lia. }
    left. destruct (handle true m false no_stats no_fault 0%nat d) as [[h t'] d'] eqn:Hrun. eexists. by eapply clean_deliver.
Qed.
End recovery.

(** ** Everything arrives *)

Section properties.
Context `{PgTextLaws, EventLibLaws, BrokerLaws, !BrokerDepth, !BrokerDepthLaws}.

(** C10: the pipeline recovers, as far as the dead-letter queue allows.  After
    any history of checkouts, relay passes and deliveries with any faults, after
    which no unpublished row's [attempts] counter is at the end of its int4
    range, let nothing fail any more: relay passes that find a row and
    deliveries, in whatever order, with whatever batch sizes, are at most two per
    unpublished row and one per queued message, and no order is lost or added by
    them.  When none is left to do, an order without its receipt (with its buyer
    and exact total) is one whose announcement the faults had put into the
    dead-letter queue before the recovery began, where it still is; so if that
    queue was empty every order has its receipt. *)
Theorem pipeline_recovers s0 s n s' :
  start s0 → rtc step s0 s → collision_free (sdb s) → attempts_room (sdb s) → nsteps clean_step n s s' →
  (n ≤ 2 * size (backlog (sdb s)) + depth (sbroker s))%nat ∧ orders (sdb s') = orders (sdb s) ∧
  ((∃ s'', clean_step s' s'') ∨
   (∀ oid o, orders (sdb s) !! oid = Some o → receipted oid o (sdb s') ∨
      ∃ ev, announces ev oid o ∧ holds (sbroker s) DLQ (order_placed_message ev) ∧ holds (sbroker s') DLQ (order_placed_message ev)) ∧
   ((∀ m, ¬ holds (sbroker s) DLQ m) → ∀ oid o, orders (sdb s) !! oid = Some o → receipted oid o (sdb s'))).
Proof.
  intros Hstart Hsteps Hcf Hroom Hn. pose proof (steps_invariant _ _ Hsteps Hcf (start_invariant _ Hstart)) as Hinv.
  destruct (clean_run n s s' Hinv Hroom Hcf Hn) as (Hle & Hinv' & Hroom' & Ho & Hd). unfold work_left in Hle. split; [lia|]. split; [done|].
  destruct (clean_enabled s' Hinv' Hroom') as [Hmore|[Hpub Hq]]; [by left|right].
  assert (Hall : ∀ oid o, orders (sdb s) !! oid = Some o → receipted oid o (sdb s') ∨
    ∃ ev, announces ev oid o ∧ holds (sbroker s) DLQ (order_placed_message ev) ∧ holds (sbroker s') DLQ (order_placed_message ev)).
  { intros oid o Hoid. rewrite <-Ho in Hoid.
    destruct (inv_orders _ Hinv' _ _ Hoid) as (id & row & ev & Hrow & [Ha _] & [Hp|[Hw|[Hdlq|Hr]]]); [|..|by left].
    - by destruct (Hpub _ _ Hrow).
    - by destruct (Hq _ Hw).
    - right. exists ev. split; [done|]. by rewrite <-Hd. }
  split; [done|]. intros Hnone oid o Hoid. destruct (Hall oid o Hoid) as [?|(ev & _ & Hdlq & _)]; [done|by destruct (Hnone _ Hdlq)].
Qed.
End properties.

(** ** A recovery *)

Section recovery_witnesses.
#[local] Existing Instance fix_text.
#[local] Existing Instance fix_events.
#[local] Existing Instance fix_text_laws.
#[local] Existing Instance fix_events_laws.
#[local] Existing Instance fix_broker.
#[local] Existing Instance fix_broker_laws.

Lemma json_eqb_refl : ∀ x, json_eqb x x = true.
Proof.
  fix IH 1. intros [|a|a|a|l|l]; cbn; [done|apply Bool.eqb_reflx|by apply bool_decide_eq_true|apply String.eqb_refl|..].
  - induction l as [|a l IHl]; [done|]. by rewrite IH, IHl.
  - induction l as [|[i a] l IHl]; [done|]. by rewrite String.eqb_refl, IH, IHl.
Qed.

Lemma message_eqb_refl m : message_eqb m m = true.
Proof.
  unfold message_eqb. rewrite String.eqb_refl, !bool_decide_eq_true_2 by done. destruct (m_content m); [apply json_eqb_refl|done].
Qed.

Definition work_count (b : list (string * message)) : nat := length (filter (λ x, x.1 = WORK_QUEUE) b).

Lemma drop_first_count m l : (WORK_QUEUE, m) ∈ l → S (work_count (drop_first m l)) = work_count l.
Proof.
  unfold work_count. induction l as [|[q m'] l IH]; [by intros ?%not_elem_of_nil|]. intros Hin. cbn [drop_first].
  destruct (String.eqb q WORK_QUEUE && message_eqb m' m) eqn:He.
  - apply andb_true_iff in He as [->%String.eqb_eq _]. by rewrite filter_cons_True.
  - assert ((WORK_QUEUE, m) ∈ l) as Hl.
    { apply elem_of_cons in Hin as [[= <- <-]|]; [|done]. by rewrite String.eqb_refl, message_eqb_refl in He. }
    specialize (IH Hl). rewrite !filter_cons. destruct (decide _); cbn [length]; lia.
Qed.

#[local] Instance fix_depth : BrokerDepth := work_count.
Lemma fix_depth_laws : BrokerDepthLaws.
Proof.
  split; cbn [depth fix_depth fix_broker holds accept settle bstate].
  - intros b Hb. unfold depth, fix_depth, work_count in Hb. destruct (filter _ b) as [|[q m] l] eqn:Hf; [done|]. exists m.
    assert ((q, m) ∈ filter (λ x : string * message, x.1 = WORK_QUEUE) b) as Hin by (rewrite Hf; left).
    apply list_elem_of_filter in Hin as [Hq ?]. cbn in Hq. by subst q.
  - intros b m. unfold depth, fix_depth, work_count. rewrite filter_cons. destruct (decide _); cbn [length]; lia.
  - intros b m Hm. unfold depth, fix_depth. rewrite <-(drop_first_count m b Hm). lia.
  - intros b m m' -> [[=]|Hin]%elem_of_cons; done.
  - intros b m m' Hin. by eapply drop_first_only.
Qed.
#[local] Existing Instance fix_depth_laws.

(** The buyer never got the answer of his checkout; the relay has not run. *)
Lemma s1_reached : rtc step s0 s1.
Proof.
  apply rtc_once. destruct lost_commit_run as [t Hrun].
  apply (step_checkout (buy_env 0) no_hook buy 7 1 lost_commit 0%nat lost_error t fix_db after_lost no_messages);
    [exact buy_ok|reflexivity|reflexivity|vm_compute; split; congruence|exact Hrun].
Qed.

Lemma s1_recovers : nsteps clean_step 2 s1 s3.
Proof.
  eapply nsteps_l; [|eapply nsteps_l; [|apply nsteps_O]].
  - apply (clean_relay (λ _, Confirmed 0) 77 50 0 0%nat (Pass 1 1 None) (relayed after_lost).1.2 after_lost (relayed after_lost).2 no_messages).
    + intros _. by exists 0.
    + vm_compute. reflexivity.
    + done.
  - apply (clean_deliver bought false no_stats 0%nat delivery.1.1 delivery.1.2).
    + vm_compute. left.
    + vm_compute. reflexivity.
Qed.

Lemma s1_orders : orders (sdb s1) = {[ 1 := OrderRow 1 "ada@example.com" paid 2598 1000 ]}.
Proof. vm_compute. reflexivity. Qed.

Lemma pipeline_recovers_witness : (2 ≤ 2 * size (backlog (sdb s1)) + depth (sbroker s1))%nat ∧
  ((∃ s'', clean_step s3 s'') ∨ receipted 1 (OrderRow 1 "ada@example.com" paid 2598 1000) (sdb s3)).
Proof.
  destruct (pipeline_recovers s0 s1 2 s3 s0_start s1_reached) as (Hle & _ & Hend).
  - intros i j [? Hi] [? Hj] _. rewrite s1_orders in Hi, Hj. apply lookup_singleton_Some in Hi as [<- _], Hj as [<- _]. reflexivity.
  - intros id row Hrow Hp. assert (Hall : map_Forall (λ _ r, 0 ≤ ob_attempts r < 2147483647) (outbox (sdb s1))).
    { apply (bool_decide_eq_true_1 _). vm_compute. reflexivity. }
    exact (Hall id row Hrow).
  - exact s1_recovers.
  - split; [exact Hle|]. destruct Hend as [Hmore|[_ Hall]]; [left; exact Hmore|right].
    apply Hall; [|rewrite s1_orders; apply lookup_singleton_eq]. intros m Hd. vm_compute in Hd. inversion Hd.
Defined.
End recovery_witnesses.
