(* ===== verification/FilesApi.v ===== *)
(** The upload API over HTTP (src/files/files.controller.ts), the client that
    uploads a large file in parts and is killed on the way
    (src/files/client-mpu.ts), and the demonstration that kills and resumes it
    (src/demo-multipart.ts). *)
From stdpp Require Import pretty.
From Stdlib Require Import Ascii.
From S2P Require Import Prelude JsNumber JsText Events Schema Sql Async Fixtures Token Auth Http Limits Storage StorageSim Orders Files.
#[local] Open Scope Z_scope.

(** ** The controller *)

Inductive files_call :=
| UploadsIntent (body : json) (idempotency_key : option string)
| UploadsParts (id : string)
| UploadsCommit (body : option json)
| FilesDownload (id : string).

Inductive files_answer :=
| Descriptor (d : UploadDescriptor)
| PartsAnswer (v : PartsView)
| FileAnswer (v : FileView)
| Redirect (url : string).

(** [@Roles('customer', 'seller', 'admin')] of the class *)
Definition FILES_ROLES : list role := [customer; seller; admin].

(** [body?.id ?? '']: [null] and [undefined] are the empty text. *)
Definition body_id (body : option json) : json :=
  match body ≫= (λ b, jget b "id") with None | Some JNull => JStr "" | Some x => x end.

(** [String(x)] of a value read from JSON; [num_string] is [String] of a number. *)
Fixpoint String_json (num_string : num → string) (x : json) : string :=
  match x with
  | JNull => "null"
  | JBool b => if b then "true" else "false"
  | JNum x => num_string x
  | JStr s => s
  | JArr l =>
      (fix go (l : list json) : string :=
         let element x := match x with JNull => "" | _ => String_json num_string x end in
         match l with [] => "" | [x] => element x | x :: l => element x +:+ "," +:+ go l end) l
  | JObj _ => "[object Object]"
  end.

Section controller.
Context `{PgText, S3} (intent_issues : json → string) (num_string : num → string) (storage : StorageService).

(** A request whose sender the authentication guard left in [user]. *)
Definition files_route (user : AuthUser) (c : files_call) : io files_answer :=
  match RolesGuard (Some FILES_ROLES) (Some user) with
  | Err e => io_throw e
  | Ok _ =>
      match c with
      | UploadsIntent body idempotencyKey => d ← intent intent_issues storage user body idempotencyKey; mret (Descriptor d)
      | UploadsParts id => v ← parts storage user id; mret (PartsAnswer v)
      | UploadsCommit body => v ← commit storage user (String_json num_string (body_id body)); mret (FileAnswer v)
      | FilesDownload id => url ← downloadUrl storage user id; mret (Redirect url)
      end
  end.

(** ** The client

    A presigned URL is all it has: [put_url url length date] is the PUT of that
    many bytes at that time, with the status of the answer. *)
Class S3Put := put_url : string → Z → Z → s3 → Z * s3.
Context `{S3Put}.

Inductive mpu_line := ID (id : string) | PART (n : Z) | DIE | HAVE (have : list Z) | REUPLOAD (n : Z).
(** How the process ends: by itself, by SIGKILL, by [process.exit(1)]. *)
Inductive mpu_end := Finished | Killed | Failed.

(** [res.ok] or an error *)
Definition client_api (user : AuthUser) (c : files_call) : io (option files_answer) :=
  r ← io_try (files_route user c); mret (match r with Ok a => Some a | Err _ => None end).

(** [putPart]: is the status 200? *)
Definition putPart (p : PartInfo) : io bool :=
  date ← io_date;
  r ← io_try (s3_send (λ s, let '(status, s) := put_url (pi_url p) (pi_length p) date s in (Ok status, s)));
  mret (match r with Ok status => status =? 200 | Err _ => false end).

Fixpoint start_parts (dieAfter : Z) (l : list PartInfo) : io (list mpu_line * mpu_end) :=
  match l with
  | [] => mret ([], Finished)
  | p :: l =>
      ok ← putPart p;
      if negb ok then mret ([], Failed)
      else if dieAfter <=? part_number p then mret ([PART (part_number p); DIE], Killed)
      else r ← start_parts dieAfter l; mret (PART (part_number p) :: r.1, r.2)
  end.

Definition intent_body (size : Z) : json :=
  JObj [("filename", JStr "big.bin"); ("contentType", JStr "application/octet-stream"); ("size", JNum (num_of_Z size))].

(** [client-mpu.js start] *)
Definition client_start (user : AuthUser) (size dieAfter : Z) : io (list mpu_line * mpu_end) :=
  d ← client_api user (UploadsIntent (intent_body size) None);
  match d with
  | Some (Descriptor d) =>
      match ud_method d with
      | Multipart _ _ _ parts => r ← start_parts dieAfter parts; mret (ID (ud_id d) :: r.1, r.2)
      | SinglePut _ _ => mret ([ID (ud_id d)], Failed)
      end
  | _ => mret ([], Failed)
  end.

Fixpoint resume_parts (l : list PartInfo) : io (list mpu_line * mpu_end) :=
  match l with
  | [] => mret ([], Finished)
  | p :: l =>
      ok ← putPart p;
      if negb ok then mret ([], Failed) else
      r ← resume_parts l; mret (REUPLOAD (part_number p) :: r.1, r.2)
  end.

(** [client-mpu.js resume] *)
Definition client_resume (user : AuthUser) (id : string) : io (list mpu_line * mpu_end) :=
  v ← client_api user (UploadsParts id);
  match v with
  | Some (PartsAnswer v) => r ← resume_parts (pv_missing v); mret (HAVE (pv_uploaded v).*1 :: r.1, r.2)
  | _ => mret ([], Failed)
  end.

(** ** src/demo-multipart.ts *)

Definition TOTAL : Z := 11 * MIB.

Definition headStatus (key : string) : io Z :=
  r ← io_try (s3_read (headObject (bucket storage) key)); mret (match r with Ok _ => 200 | Err e => errStatus e end).

(** [SELECT key FROM files WHERE id = $1], [rows[0]?.key ?? ''] *)
Definition select_file_key (id : string) (d : db) : result string :=
  match select_file id d with Ok (Some row) => Ok (f_key row) | Ok None => Ok "" | Err e => Err e end.

Definition first_id (lines : list mpu_line) : string :=
  default "" (head (omap (λ l, match l with ID id => Some id | _ => None end) lines)).
Definition part_lines (lines : list mpu_line) : nat := length (omap (λ l, match l with PART n => Some n | _ => None end) lines).
Definition reupload_lines (lines : list mpu_line) : nat := length (omap (λ l, match l with REUPLOAD n => Some n | _ => None end) lines).
Definition died (lines : list mpu_line) : bool := existsb (λ l, match l with DIE => true | _ => false end) lines.
Definition has_line (have : list Z) (lines : list mpu_line) : bool :=
  existsb (λ l, match l with HAVE x => bool_decide (x = have) | _ => false end) lines.

(** The ETag without its quotes; [/-3$/.test(etag)]. *)
Definition strip_quotes (s : string) : string :=
  String.string_of_list_ascii (filter (λ c, N_of_ascii c ≠ 34%N) (String.list_ascii_of_string s)).
Definition ends_with (suffix s : string) : bool :=
  bool_decide (suffix = String.substring (String.length s - String.length suffix) (String.length suffix) s).
Definition etag_multipart (md5 : string) (head_ETag : option string) : bool :=
  let etag := strip_quotes (default "" head_ETag) in ends_with "-3" etag && negb (String.eqb etag md5).

(** The body of the demonstration after the clean-up and the login: the checks
    that failed, or an exception.  [md5]: of the whole file. *)
Definition demo_multipart (user : AuthUser) (md5 : string) : io (list string) :=
  let check name (ok : bool) : list string := if ok then [] else [name] in
  partSize ← io_lift (computePartSize TOTAL);
  let c1 := check "plan" ((partSize =? 5 * MIB) && (partCount TOTAL partSize =? 3)) in
  started ← client_start user TOTAL 2;
  let out := started.1 in
  let id := first_id out in
  let c2 := check "two parts, then dead" (died out && (part_lines out =? 2)%nat) in
  key ← pg (λ d, (select_file_key id d, d));
  h ← headStatus key;
  let c3 := check "head-before-complete" (h =? 404) in
  resumed ← client_resume user id;
  match resumed.2 with
  | Finished =>
      let c4 := check "resumed-parts" (reupload_lines resumed.1 =? 1)%nat in
      let c5 := check "HAVE 1,2" (has_line [1; 2] resumed.1) in
      committed ← io_try (files_route user (UploadsCommit (Some (JObj [("id", JStr id)]))));
      let c6 := check "complete" (match committed with Ok _ => true | Err _ => false end) in
      head ← s3_read (headObject (bucket storage) key);
      let c7 := check "size-match" (ContentLength head =? TOTAL) in
      let c8 := check "etag-multipart" (etag_multipart md5 (head_ETag head)) in
      mret (c1 ++ c2 ++ c3 ++ c4 ++ c5 ++ c6 ++ c7 ++ c8)
  | _ => io_throw (JsError "Command failed")
  end.

(** The exit code of [run]. *)
Definition demo_multipart_exit (r : result (list string)) : Z := match r with Ok [] => 0 | _ => 1 end.
End controller.

(** [<md5 of the parts' md5s>-<number of parts>], quoted. *)
Definition multipart_etag (x : string) (n : Z) : string := dquote +:+ x +:+ "-" +:+ pretty n +:+ dquote.

(** What S3 documents of a new multipart upload, of a PUT to a presigned part
    URL before it expires, and of the ETag of an assembled object. *)
Class S3PutLaws `{S3Laws, !S3Put} := {
  create_ok : ∀ b k ct s, ∃ u s', createMultipartUpload b k ct s = (Ok u, s') ∧ u ≠ "" ∧ text_in u = Some u ∧
    upload_parts s' b k u = Some [] ∧ ∀ k', headObject b k' s' = headObject b k' s;
  put_part_ok : ∀ s b k u ps n len ttl date date', upload_parts s b k u = Some ps → 1 ≤ n ≤ MAX_PARTS → 0 ≤ len →
    date' < date + 1000 * ttl → ∃ s' etag,
    put_url (getSignedUrl (UploadPart b k u n) ttl date) len date' s = (200, s') ∧
    upload_parts s' b k u = Some (filter (λ q, PartNumber q < n) ps ++ Part n len etag :: filter (λ q, n < PartNumber q) ps) ∧
    ∀ k', headObject b k' s' = headObject b k' s;
  complete_etag : ∀ s b k u l s' h, completeMultipartUpload b k u l s = (Ok tt, s') → headObject b k s' = Ok h →
    ∃ x, head_ETag h = Some (multipart_etag x (Z.of_nat (length l)));
}.

Lemma list_ascii_app a b :
  String.list_ascii_of_string (a +:+ b) = String.list_ascii_of_string a ++ String.list_ascii_of_string b.
Proof. induction a as [|c a IH]; [done|]. change (String c a +:+ b) with (String c (a +:+ b)). cbn. by rewrite IH. Qed.

Lemma text_in_app a b : text_in a = Some a → text_in b = Some b → text_in (a +:+ b) = Some (a +:+ b).
Proof.
  unfold text_in. intros Ha Hb. rewrite list_ascii_app, existsb_app. destruct (existsb _ (String.list_ascii_of_string a)); [done|].
  by destruct (existsb _ (String.list_ascii_of_string b)).
Qed.

Lemma uuid_text s : uuid_shape s = true → text_in s = Some s.
Proof.
  unfold uuid_shape, text_in. intros [Hl Hall]%andb_true_iff. apply Nat.eqb_eq in Hl. set (l := String.list_ascii_of_string s) in *.
  replace (existsb _ l) with false; [done|]. symmetry. apply not_true_is_false. intros (c & Hin & Hc)%existsb_exists.
  apply list_elem_of_In, list_elem_of_lookup in Hin as [i Hi]. rewrite forallb_forall in Hall.
  assert (i < 36)%nat by (rewrite <-Hl; by eapply lookup_lt_Some).
  specialize (Hall (i, c)). cbn in Hall. apply N.eqb_eq in Hc.
  assert (In (i, c) (zip (seq 0 36) l)) as Hz.
  { apply list_elem_of_In, list_elem_of_lookup. exists i. rewrite lookup_zip_with, lookup_seq_lt by done. cbn. by rewrite Hi. }
  specialize (Hall Hz). destruct (bool_decide _).
  - apply Ascii.eqb_eq in Hall. by subst c.
  - unfold is_hex in Hall. rewrite Hc in Hall. done.
Qed.

Section runs.
Context `{PgText, !PgTextLaws, S3, !S3Laws, !S3Put, !S3PutLaws} (intent_issues : json → string) (num_string : num → string) (storage : StorageService).

(** The parts [1 .. k] of a file of [size] bytes, each of its length. *)
Definition first_parts (size p k : Z) (ps : list part) : Prop :=
  PartNumber <$> ps = seqZ 1 k ∧ Forall (λ q, right_length size p q = true) ps.

Lemma first_parts_all size p k ps : first_parts size p k ps → right_parts size p ps = ps.
Proof. intros [_ Hr]. apply filter_all. by apply Forall_forall. Qed.

Lemma first_parts_lacking size p k ps : 0 ≤ k ≤ partCount size p → first_parts size p k ps →
  lacking size p ps = seqZ (k + 1) (partCount size p - k).
Proof.
  intros Hk Hf. unfold lacking. rewrite (first_parts_all _ _ _ _ Hf). destruct Hf as [-> _]. unfold part_numbers.
  replace (partCount size p) with (k + (partCount size p - k)) at 1 by lia. rewrite seqZ_app by lia. rewrite filter_app.
  rewrite filter_none by (intros n Hn Hno; by apply Hno). rewrite filter_all; [by rewrite (Z.add_comm 1 k)|].
  intros n Hn. rewrite !elem_of_seqZ in *. lia.
Qed.

Context (σ : asched world) (Hquiet : quiet σ).
Context (Hclock : ∀ i j, s_clock σ j < s_clock σ i + 1000 * partExpires storage).

(** A world with the first [k] parts of the upload, and everything else as in [w0]. *)
Record uploading (key u : string) (size p k : Z) (w0 w : world) (ps : list part) : Prop := {
  up_parts : upload_parts (w_s3 w) (bucket storage) key u = Some ps;
  up_first : first_parts size p k ps;
  up_db : w_db w = w_db w0;
  up_heads : ∀ k', headObject (bucket storage) k' (w_s3 w) = headObject (bucket storage) k' (w_s3 w0);
}.

Context (key u : string) (size p : Z) (Hsize : 1 ≤ size ≤ MAX_OBJECT) (Hp : computePartSize size = Ok p).

Lemma plan_bounds : 1 ≤ partCount size p ≤ MAX_PARTS ∧ ∀ n, 1 ≤ n ≤ partCount size p → 0 ≤ partLength size p n.
Proof.
  assert (Hs : 1 ≤ size < 2 ^ 53) by (unfold MAX_OBJECT, GIB, MIB in *; lia).
  destruct (part_size_ok size p Hs Hp) as (Hb & _ & Ht & Hc & _). split; [done|]. intros n Hn. unfold partLength.
  assert (0 < p) by (unfold MIN_PART, MIB in *; lia). nia.
Qed.

Lemma seqZ_next k j : 0 < j → seqZ k j = k :: seqZ (k + 1) (j - 1).
Proof. intros Hj. replace j with (1 + (j - 1)) at 1 by lia. rewrite seqZ_app by lia. done. Qed.

Lemma putPart_run n w0 w ps t i : uploading key u size p (n - 1) w0 w ps → 1 ≤ n ≤ partCount size p → ∃ w' ps',
  putPart (part_info storage key u (s_clock σ i) size p n) σ t w = (Ok true, S t, w') ∧ uploading key u size p n w0 w' ps'.
Proof.
  intros [Hps [Hnum Hlen] Hdb Hh] Hn. destruct plan_bounds as [Ht Hl].
  destruct (put_part_ok (w_s3 w) (bucket storage) key u ps n (partLength size p n) (partExpires storage) (s_clock σ i) (s_clock σ t))
    as (s' & etag & Hput & Hps' & Hh'); [done|lia|by apply Hl|apply Hclock|].
  assert (Hin : ∀ q, q ∈ ps → 1 ≤ PartNumber q < n).
  { intros q Hq. assert (PartNumber q ∈ seqZ 1 (n - 1)) as Hs by (rewrite <-Hnum; by apply list_elem_of_fmap_2). apply elem_of_seqZ in Hs. lia. }
  rewrite filter_all in Hps' by (intros q Hq; apply Hin, Hq). rewrite filter_none in Hps' by (intros q Hq; specialize (Hin q Hq); lia).
  exists (World s' (w_db w)), (ps ++ [Part n (partLength size p n) etag]). split.
  - unfold putPart, mbind, io_bind, io_date, io_try. cbn [pi_url pi_length part_info].
    erewrite s3_send_quiet; [|done|]. 2:{ unfold presignPart. rewrite Hput. reflexivity. } reflexivity.
  - split; cbn [w_s3 w_db]; [done| |done|intros k'; by rewrite Hh'].
    split.
    + rewrite fmap_app, Hnum. trans (seqZ 1 (n - 1 + 1)); [rewrite seqZ_app by lia|f_equal; lia]. f_equal. change (PartNumber <$> _) with [n]. rewrite (seqZ_next (1 + (n - 1)) 1) by lia. cbn. f_equal. lia.
    + apply Forall_app. split; [done|]. repeat constructor. apply Z.eqb_refl.
Qed.

(** [start] from part [k + 1] on. *)
Lemma start_parts_run (j : nat) k stop w0 w ps t i : uploading key u size p k w0 w ps → 0 ≤ k < stop →
  k + Z.of_nat j ≤ partCount size p →
  let m := Z.min (k + Z.of_nat j) stop in
  ∃ t' w' ps', start_parts stop (part_info storage key u (s_clock σ i) size p <$> seqZ (k + 1) (Z.of_nat j)) σ t w =
    (Ok ((PART <$> seqZ (k + 1) (m - k)) ++ (if stop <=? k + Z.of_nat j then [DIE] else []),
         if stop <=? k + Z.of_nat j then Killed else Finished), t', w') ∧ uploading key u size p m w0 w' ps'.
Proof.
  revert k w ps t. induction j as [|j IH]; intros k w ps t Hup Hk Hj m.
  - exists t, w, ps. subst m. rewrite Z.min_l, (proj2 (Z.leb_gt _ _)) by lia. rewrite Z.add_0_r, Z.sub_diag. by split.
  - rewrite (seqZ_next (k + 1)) by lia. rewrite fmap_cons. cbn [start_parts].
    destruct (putPart_run (k + 1) w0 w ps t i) as (w1 & ps1 & Hput & Hup1); [by replace (k + 1 - 1) with k by lia|lia|].
    rewrite (io_bind_run _ _ _ _ _ _ _ _ Hput). cbn [negb part_number part_info].
    destruct (Z.leb_spec stop (k + 1)) as [Hstop|Hstop].
    + exists (S t), w1, ps1. subst m. rewrite Z.min_r by lia. replace stop with (k + 1) by lia.
      rewrite (proj2 (Z.leb_le _ _)) by lia. replace (k + 1 - k) with 1 by lia. by split.
    + destruct (IH (k + 1) w1 ps1 (S t) Hup1) as (t' & w' & ps' & Hrun & Hup'); [lia|lia|].
      replace (k + 1 + Z.of_nat j) with (k + Z.of_nat (S j)) in * by lia. fold m in Hrun, Hup'.
      replace (Z.of_nat (S j) - 1) with (Z.of_nat j) by lia.
      exists t', w', ps'. rewrite (io_bind_run _ _ _ _ _ _ _ _ Hrun). split; [|done].
      rewrite (seqZ_next (k + 1)) by (subst m; lia). replace (m - k - 1) with (m - (k + 1)) by lia. reflexivity.
Qed.

(** [resume] from part [k + 1] on. *)
Lemma resume_parts_run (j : nat) k w0 w ps t i : uploading key u size p k w0 w ps → 0 ≤ k →
  k + Z.of_nat j ≤ partCount size p →
  ∃ t' w' ps', resume_parts (part_info storage key u (s_clock σ i) size p <$> seqZ (k + 1) (Z.of_nat j)) σ t w =
    (Ok (REUPLOAD <$> seqZ (k + 1) (Z.of_nat j), Finished), t', w') ∧ uploading key u size p (k + Z.of_nat j) w0 w' ps'.
Proof.
  revert k w ps t. induction j as [|j IH]; intros k w ps t Hup Hk Hj.
  - exists t, w, ps. rewrite Z.add_0_r. by split.
  - rewrite (seqZ_next (k + 1)) by lia. rewrite !fmap_cons. cbn [resume_parts].
    destruct (putPart_run (k + 1) w0 w ps t i) as (w1 & ps1 & Hput & Hup1); [by replace (k + 1 - 1) with k by lia|lia|].
    rewrite (io_bind_run _ _ _ _ _ _ _ _ Hput). cbn [negb part_number part_info].
    destruct (IH (k + 1) w1 ps1 (S t) Hup1) as (t' & w' & ps' & Hrun & Hup'); [lia|lia|].
    replace (Z.of_nat (S j) - 1) with (Z.of_nat j) by lia. replace (k + Z.of_nat (S j)) with (k + 1 + Z.of_nat j) by lia.
    exists t', w', ps'. rewrite (io_bind_run _ _ _ _ _ _ _ _ Hrun). by split.
Qed.
End runs.

(** Every role may use the file routes. *)
Lemma files_roles_open user : RolesGuard (Some FILES_ROLES) (Some user) = Ok tt.
Proof. unfold RolesGuard. rewrite bool_decide_eq_true_2; [done|]. unfold FILES_ROLES. destruct (au_role user); set_solver. Qed.

Section interrupted.
Context `{PgText, !PgTextLaws, S3, !S3Laws, !S3Put, !S3PutLaws} (intent_issues : json → string) (num_string : num → string) (storage : StorageService).
Context (σ : asched world) (Hquiet : quiet σ).
Context (Hclock : ∀ i j, s_clock σ j < s_clock σ i + 1000 * partExpires storage).

Definition pending_row (id key : string) (o size : Z) (u : string) : file_row :=
  FileRow id key o PENDING "application/octet-stream" size (Some u) None None.

Lemma intent_body_parse size : 1 ≤ size ≤ MAX_OBJECT → intentSchema_parse (intent_body size) = Some ("application/octet-stream", size).
Proof.
  intros Hs. unfold intentSchema_parse, intent_body. cbn -[num_to_Z num_of_Z MAX_OBJECT js_length extension_of].
  rewrite option_guard_True by (vm_compute; split; discriminate). cbn -[num_to_Z num_of_Z MAX_OBJECT extension_of].
  rewrite option_guard_True by (vm_compute; by eexists). cbn -[num_to_Z num_of_Z MAX_OBJECT].
  unfold num_of_Z. rewrite rnd_int_exact by (unfold MAX_OBJECT, GIB, MIB in *; lia). cbn -[MAX_OBJECT].
  by rewrite option_guard_True by done.
Qed.

Lemma intent_multipart_run t w (o : Z) user size :
  au_id user = pretty o → int8 o = true → is_Some (users (w_db w) !! o) →
  multipartThreshold storage < size → 1 ≤ size ≤ MAX_OBJECT →
  uuid_shape (s_uuid σ t) = true → files (w_db w) !! s_uuid σ t = None →
  let id := s_uuid σ t in let key := file_key (pretty o) id "bin" in
  (∀ i r, files (w_db w) !! i = Some r → f_key r ≠ key) →
  ∃ p u s' t' j, computePartSize size = Ok p ∧ u ≠ "" ∧ upload_parts s' (bucket storage) key u = Some [] ∧
    (∀ k', headObject (bucket storage) k' s' = headObject (bucket storage) k' (w_s3 w)) ∧
    intent intent_issues storage user (intent_body size) None σ t w =
      (Ok (UploadDescriptorOf id key PENDING (partExpires storage)
         (Multipart u p (partCount size p) (part_info storage key u (s_clock σ j) size p <$> part_numbers (partCount size p)))), t',
       World s' (set_files <[id := pending_row id key o size u]> (w_db w))).
Proof.
  intros Hau Ho Huser Hth Hs Hid Hfree id key Hkey. destruct (part_plan_exists size Hs) as [p Hp].
  destruct (create_ok (bucket storage) key "application/octet-stream" (w_s3 w)) as (u & s' & Hcreate & Hne & Htu & Hparts & Hheads).
  exists p, u, s'. unfold intent. rewrite intent_body_parse by done. cbn [truthy].
  rewrite (io_bind_run (mret None) _ σ t w None t w) by done.
  rewrite (io_bind_run randomUUID _ σ t w id t w) by done. cbv zeta. rewrite Hau. change (default "" (extension_of "application/octet-stream")) with "bin".
  fold key. rewrite (proj2 (Z.ltb_lt _ _)) by done.
  erewrite io_bind_run; [|erewrite io_bind_run; [|apply (s3_send_quiet _ σ t w _ _ Hquiet Hcreate)]; reflexivity].
  assert (Htext : bigint_in (pretty o) = Some o) by (by apply bigint_in_out).
  assert (Hkt : text_in key = Some key).
  { unfold key, file_key. apply text_in_app; [done|]. apply text_in_app; [by apply (bigint_in_text _ _ Htext)|].
    apply text_in_app; [done|]. apply text_in_app; [by apply uuid_text|done]. }
  assert (Hins : insert_file id key (pretty o) "application/octet-stream" size (Some u) None (w_db w) =
    (Ok (pending_row id key o size u), set_files <[id := pending_row id key o size u]> (w_db w))).
  { unfold insert_file. rewrite (uuid_in_canonical _ Hid), Hkt, Htext. cbn [opt_text_in fmap option_fmap option_map]. rewrite Htu. cbn [fmap option_fmap option_map].
    change (text_in "application/octet-stream") with (Some "application/octet-stream"). cbv iota.
    assert (int8 size = true) as -> by (unfold int8, MAX_OBJECT, GIB, MIB in *; lia). rewrite (proj2 (Z.ltb_lt _ _)) by lia. cbn [negb].
    rewrite bool_decide_eq_false_2; [by destruct Huser as [? ->]|].
    intros [[r Hr]|[(i & r & Hr & Hrk)|[[? [=]] _]]]; [by rewrite Hfree in Hr|by apply (Hkey i r)]. }
  erewrite io_bind_run.
  2:{ unfold io_try. erewrite pg_quiet; [reflexivity|done|exact Hins]. }
  unfold describe. cbn [pending_row f_size f_upload_id f_id f_key f_status]. rewrite Number_bigint_exact by (unfold MAX_OBJECT, GIB, MIB in *; lia).
  erewrite io_bind_run; [|reflexivity]. destruct u as [|c u]; [done|]. cbn [truthy].
  erewrite io_bind_run; [|unfold io_lift; rewrite Hp; reflexivity]. do 2 eexists. split_and!; try done.
Qed.

Lemma client_api_run user c t w a t' w' : files_route intent_issues num_string storage user c σ t w = (Ok a, t', w') →
  client_api intent_issues num_string storage user c σ t w = (Ok (Some a), t', w').
Proof. intros Hr. unfold client_api, mbind, io_bind, io_try. by rewrite Hr. Qed.

(** The stages of an upload that was started, seen from the row. *)
Lemma uploading_pending id key u size p k o user w0 w ps : au_id user = pretty o → uuid_shape id = true → 1 ≤ size ≤ MAX_OBJECT →
  files (w_db w0) !! id = Some (pending_row id key o size u) → uploading storage key u size p k w0 w ps →
  pending_file user id σ w (pending_row id key o size u).
Proof. intros Hau Hid Hs Hrow Hup. split; try done; [by rewrite (up_db _ _ _ _ _ _ _ _ _ Hup)|by left]. Qed.

Lemma client_resume_run id key u size p m o user w0 w ps t :
  au_id user = pretty o → uuid_shape id = true → 1 ≤ size ≤ MAX_OBJECT → computePartSize size = Ok p → u ≠ "" →
  files (w_db w0) !! id = Some (pending_row id key o size u) → uploading storage key u size p m w0 w ps →
  0 ≤ m ≤ partCount size p → ∃ t' w' ps',
  client_resume intent_issues num_string storage user id σ t w =
    (Ok (HAVE (seqZ 1 m) :: (REUPLOAD <$> seqZ (m + 1) (partCount size p - m)), Finished), t', w') ∧
  uploading storage key u size p (partCount size p) w0 w' ps'.
Proof.
  intros Hau Hid Hs Hp Hne Hrow Hup Hm. pose proof (uploading_pending _ _ _ _ _ _ _ user _ _ _ Hau Hid Hs Hrow Hup) as Hpf.
  destruct (parts_run storage user id σ t w (pending_row id key o size u) u ps Hpf eq_refl Hne (up_parts _ _ _ _ _ _ _ _ _ Hup)) as (p' & t1 & Hp' & Hparts).
  cbn [pending_row f_size f_key] in Hp', Hparts. assert (p' = p) as -> by congruence.
  pose proof (up_first _ _ _ _ _ _ _ _ _ Hup) as Hfirst.
  rewrite (first_parts_all _ _ _ _ Hfirst), (first_parts_lacking _ _ _ _ Hm Hfirst) in Hparts.
  destruct (resume_parts_run storage σ Hquiet Hclock key u size p Hs Hp (Z.to_nat (partCount size p - m)) m w0 w ps t1 t1 Hup) as (t2 & w2 & ps2 & Hres & Hup2); [lia|lia|].
  rewrite Z2Nat.id in Hres, Hup2 by lia. replace (m + (partCount size p - m)) with (partCount size p) in Hup2 by lia.
  exists t2, w2, ps2. split; [|done]. unfold client_resume.
  erewrite io_bind_run.
  2:{ apply client_api_run. unfold files_route. rewrite (files_roles_open user). erewrite io_bind_run; [reflexivity|exact Hparts]. }
  cbn [pv_missing pv_uploaded]. erewrite io_bind_run; [|exact Hres]. cbn [fst snd]. rewrite <- list_fmap_compose.
  change (fst ∘ λ q, (PartNumber q, Size q)) with PartNumber. by rewrite (proj1 Hfirst).
Qed.
End interrupted.

(** ** An upload interrupted anywhere *)

Section properties.
Context `{PgText, !PgTextLaws, S3, !S3Laws, !S3Put, !S3PutLaws} (intent_issues : json → string) (num_string : num → string) (storage : StorageService).

(** An owner who is a user of the database, a size that calls for a multipart
    upload, a new id, and presigned URLs that outlive the run. *)
Record upload_ready (σ : asched world) (t : nat) (w : world) (o : Z) (user : AuthUser) (size : Z) : Prop := {
  ur_quiet : quiet σ;
  ur_clock : ∀ i j, s_clock σ j < s_clock σ i + 1000 * partExpires storage;
  ur_owner : au_id user = pretty o ∧ int8 o = true ∧ is_Some (users (w_db w) !! o);
  ur_size : multipartThreshold storage < size ∧ 1 ≤ size ≤ MAX_OBJECT;
  ur_id : uuid_shape (s_uuid σ t) = true ∧ files (w_db w) !! s_uuid σ t = None;
  ur_key : ∀ i r, files (w_db w) !! i = Some r → f_key r ≠ file_key (pretty o) (s_uuid σ t) "bin";
}.

Lemma commit_after_upload σ id key u size p o user w0 w ps t :
  quiet σ → au_id user = pretty o → uuid_shape id = true → 1 ≤ size ≤ MAX_OBJECT → computePartSize size = Ok p → u ≠ "" →
  files (w_db w0) !! id = Some (pending_row id key o size u) →
  uploading storage key u size p (partCount size p) w0 w ps → ∃ t' w' x,
  files_route intent_issues num_string storage user (UploadsCommit (Some (JObj [("id", JStr id)]))) σ t w =
    (Ok (FileAnswer (FileViewOf id key COMPLETED size (Some (multipart_etag x (partCount size p))))), t', w') ∧
  headObject (bucket storage) key (w_s3 w') = Ok (HeadAnswer size (Some (multipart_etag x (partCount size p)))).
Proof.
  intros Hq Hau Hid Hs Hp Hne Hrow Hup. destruct (plan_bounds size p Hs Hp) as [Htotal _].
  pose proof (uploading_pending storage σ Hq id key u size p _ o user w0 w ps Hau Hid Hs Hrow Hup) as Hpf.
  pose proof (up_first _ _ _ _ _ _ _ _ _ Hup) as Hfirst.
  destruct (multipart_commits storage user id σ t w _ u ps p Hpf eq_refl Hne (up_parts _ _ _ _ _ _ _ _ _ Hup) Hp)
    as (t3 & s3' & etag & Hhead & Hcommit & Hcomplete).
  { rewrite (first_parts_lacking size p (partCount size p)); [by rewrite Z.sub_diag|lia|done]. }
  destruct (complete_etag _ _ _ _ _ _ _ Hcomplete Hhead) as [x Hx]. cbn [head_ETag pending_row f_size f_key] in Hx, Hhead, Hcommit.
  rewrite length_fmap, (first_parts_all _ _ _ _ Hfirst) in Hx.
  pose proof (f_equal length (proj1 Hfirst)) as Hl. rewrite length_fmap, length_seqZ in Hl.
  replace (Z.of_nat (length ps)) with (partCount size p) in Hx by lia. subst etag.
  exists t3, (World s3' (complete_row id (Some (multipart_etag x (partCount size p))) (w_db w))), x. split; [|exact Hhead].
  unfold files_route. rewrite (files_roles_open user). erewrite io_bind_run; [reflexivity|exact Hcommit].
Qed.

Lemma crash_resume σ t w o user size dieAfter : upload_ready σ t w o user size → 0 < dieAfter →
  let id := s_uuid σ t in let key := file_key (pretty o) id "bin" in
  let stored w := headObject (bucket storage) key (w_s3 w) in
  ∃ p t1 w1, computePartSize size = Ok p ∧
    let total := partCount size p in let m := Z.min total dieAfter in
    client_start intent_issues num_string storage user size dieAfter σ t w =
      (Ok (ID id :: (PART <$> seqZ 1 m) ++ (if dieAfter <=? total then [DIE] else []),
           if dieAfter <=? total then Killed else Finished), t1, w1) ∧
    stored w1 = stored w ∧ select_file_key id (w_db w1) = Ok key ∧
    ∀ t2, ∃ t3 w3,
      client_resume intent_issues num_string storage user id σ t2 w1 =
        (Ok (HAVE (seqZ 1 m) :: (REUPLOAD <$> seqZ (m + 1) (total - m)), Finished), t3, w3) ∧
      stored w3 = stored w ∧
      ∀ t4, ∃ t5 w5 x,
        files_route intent_issues num_string storage user (UploadsCommit (Some (JObj [("id", JStr id)]))) σ t4 w3 =
          (Ok (FileAnswer (FileViewOf id key COMPLETED size (Some (multipart_etag x total)))), t5, w5) ∧
        stored w5 = Ok (HeadAnswer size (Some (multipart_etag x total))).
Proof.
  intros [Hq Hclock (Hau & Ho & Huser) [Hth Hs] [Hid Hfree] Hkey] Hdie id key stored.
  destruct (intent_multipart_run intent_issues storage σ Hq t w o user size Hau Ho Huser Hth Hs Hid Hfree Hkey)
    as (p & u & s' & t0 & j & Hp & Hne & Hparts & Hheads & Hint). fold id key in Hparts, Hheads, Hint.
  set (w0 := World s' _) in Hint. destruct (plan_bounds size p Hs Hp) as [Htotal _].
  assert (Hup0 : uploading storage key u size p 0 w0 w0 []) by done.
  assert (Hrow : files (w_db w0) !! id = Some (pending_row id key o size u)) by (cbn; apply lookup_insert_eq).
  destruct (start_parts_run storage σ Hq Hclock key u size p Hs Hp (Z.to_nat (partCount size p)) 0 dieAfter w0 w0 [] t0 j Hup0)
    as (t1 & w1 & ps1 & Hstart & Hup1); [lia|lia|]. rewrite !Z2Nat.id, !Z.add_0_l, Z.sub_0_r in * by lia.
  set (m := Z.min (partCount size p) dieAfter) in *. exists p, t1, w1. split; [done|]. cbv zeta. fold m. split_and!.
  - unfold client_start. erewrite io_bind_run.
    2:{ apply client_api_run. unfold files_route. rewrite (files_roles_open user). erewrite io_bind_run; [reflexivity|exact Hint]. }
    cbn [ud_method ud_id]. erewrite io_bind_run; [|exact Hstart]. reflexivity.
  - unfold stored. rewrite (up_heads _ _ _ _ _ _ _ _ _ Hup1). apply Hheads.
  - unfold select_file_key, select_file. rewrite (uuid_in_canonical _ Hid), (up_db _ _ _ _ _ _ _ _ _ Hup1). cbv iota.
    change (s_uuid σ t) with id. by rewrite Hrow.
  - intros t2. destruct (client_resume_run intent_issues num_string storage σ Hq Hclock id key u size p m o user w0 w1 ps1 t2 Hau Hid Hs Hp Hne Hrow Hup1)
      as (t3 & w3 & ps3 & Hresume & Hup3); [lia|]. exists t3, w3. split; [exact Hresume|].
    split; [unfold stored; rewrite (up_heads _ _ _ _ _ _ _ _ _ Hup3); apply Hheads|]. intros t4.
    by apply (commit_after_upload σ id key u size p o user w0 w3 ps3 t4).
Qed.

(** C30: an upload killed anywhere is resumed, not repeated.  Nobody else writes
    and nothing fails meanwhile, and no signed URL expires between its issue and
    its use ([upload_ready]).  The client that is killed after its [dieAfter]-th
    part leaves no object behind; a second process that knows only the id finds
    exactly the parts [1 .. m] that had arrived and uploads exactly the others,
    and the commit then answers COMPLETED with one object of exactly the
    declared size: for every size above the multipart threshold and every point
    of death, the last part included. *)
Theorem crash_resume_completes σ t w o user size dieAfter : upload_ready σ t w o user size → 0 < dieAfter →
  let id := s_uuid σ t in let key := file_key (pretty o) id "bin" in
  let stored w := headObject (bucket storage) key (w_s3 w) in
  ∃ p t1 w1, computePartSize size = Ok p ∧
    let total := partCount size p in let m := Z.min total dieAfter in
    client_start intent_issues num_string storage user size dieAfter σ t w =
      (Ok (ID id :: (PART <$> seqZ 1 m) ++ (if dieAfter <=? total then [DIE] else []),
           if dieAfter <=? total then Killed else Finished), t1, w1) ∧
    stored w1 = stored w ∧
    ∀ t2, ∃ t3 w3,
      client_resume intent_issues num_string storage user id σ t2 w1 =
        (Ok (HAVE (seqZ 1 m) :: (REUPLOAD <$> seqZ (m + 1) (total - m)), Finished), t3, w3) ∧
      stored w3 = stored w ∧
      ∀ t4, ∃ t5 w5 x,
        files_route intent_issues num_string storage user (UploadsCommit (Some (JObj [("id", JStr id)]))) σ t4 w3 =
          (Ok (FileAnswer (FileViewOf id key COMPLETED size (Some (multipart_etag x total)))), t5, w5) ∧
        stored w5 = Ok (HeadAnswer size (Some (multipart_etag x total))).
Proof.
  intros Hready Hdie id key stored.
  destruct (crash_resume σ t w o user size dieAfter Hready Hdie) as (p & t1 & w1 & Hp & Hstart & Hhead & _ & Hresume).
  exists p, t1, w1. split; [exact Hp|]. split; [exact Hstart|]. split; [exact Hhead|exact Hresume].
Qed.

(** An ETag of three parts is told from the MD5 of the file. *)
Lemma strip_quotes_app a b : strip_quotes (a +:+ b) = strip_quotes a +:+ strip_quotes b.
Proof.
  unfold strip_quotes. rewrite list_ascii_app, filter_app. generalize (filter (λ c, N_of_ascii c ≠ 34%N) (String.list_ascii_of_string a)).
  generalize (filter (λ c, N_of_ascii c ≠ 34%N) (String.list_ascii_of_string b)). clear. intros l k. induction k as [|c k IH]; [done|].
  cbn. by rewrite IH.
Qed.

Lemma ends_with_app y z : ends_with z (y +:+ z) = true.
Proof.
  apply bool_decide_eq_true_2. assert (Hl : String.length (y +:+ z) = (String.length y + String.length z)%nat).
  { induction y as [|c y IH]; [done|]. change (String c y +:+ z) with (String c (y +:+ z)). cbn. by rewrite IH. }
  rewrite Hl, Nat.add_sub. clear Hl. induction y as [|c y IH].
  - change ("" +:+ z) with z. cbn [String.length]. induction z as [|c z IHz]; [done|]. cbn. by rewrite <-IHz.
  - change (String c y +:+ z) with (String c (y +:+ z)). exact IH.
Qed.

Lemma etag_checked x md5 : existsb (Ascii.eqb "-") (String.list_ascii_of_string md5) = false →
  etag_multipart md5 (Some (multipart_etag x 3)) = true.
Proof.
  intros Hmd5. unfold etag_multipart, multipart_etag. cbn [default from_option id]. rewrite !strip_quotes_app.
  change (strip_quotes dquote) with "". change (pretty 3) with "3". change (strip_quotes "-" +:+ strip_quotes "3" +:+ "") with "-3".
  change ("" +:+ strip_quotes x +:+ "-3") with (strip_quotes x +:+ "-3"). rewrite ends_with_app. cbn [andb]. apply negb_true_iff, String.eqb_neq.
  intros <-. revert Hmd5. generalize (strip_quotes x). intros y. induction y as [|c y IH]; [done|].
  change (String c y +:+ "-3") with (String c (y +:+ "-3")). cbn [String.list_ascii_of_string existsb]. by intros [_ ?]%orb_false_iff.
Qed.

(** The demonstration (npm run demo:multipart) exits with 0 on a store without
    the object. *)
Theorem demo_multipart_passes σ t w o user md5 e : upload_ready σ t w o user TOTAL →
  headObject (bucket storage) (file_key (pretty o) (s_uuid σ t) "bin") (w_s3 w) = Err e → errStatus e = 404 →
  existsb (Ascii.eqb "-") (String.list_ascii_of_string md5) = false →
  demo_multipart_exit (demo_multipart intent_issues num_string storage user md5 σ t w).1.1 = 0.
Proof.
  intros Hready Hnone He Hmd5. pose proof (ur_quiet _ _ _ _ _ _ Hready) as Hq.
  destruct (crash_resume σ t w o user TOTAL 2 Hready eq_refl) as (p & t1 & w1 & Hp & Hstart & Hhead & Hkey & Hresume).
  assert (p = 5 * MIB) as -> by (vm_compute in Hp; by injection Hp as <-).
  assert (Htotal : partCount TOTAL (5 * MIB) = 3) by (vm_compute; reflexivity). rewrite Htotal in *.
  unfold demo_multipart. erewrite io_bind_run; [|unfold io_lift; rewrite Hp; reflexivity]. rewrite Htotal.
  erewrite io_bind_run; [|exact Hstart]. cbv zeta. set (id := s_uuid σ t) in *. set (key := file_key (pretty o) id "bin") in *.
  change (seqZ 1 (Z.min 3 2)) with [1; 2] in *. cbn [fst snd].
  change (first_id _) with id. erewrite io_bind_run; [|apply (pg_quiet _ σ t1 w1 (Ok key) (w_db w1) Hq); by rewrite Hkey].
  rewrite world_eta. erewrite io_bind_run.
  2:{ unfold headStatus, mbind, io_bind, io_try. rewrite s3_read_quiet by done. rewrite Hhead, Hnone. cbn. by rewrite He. }
  destruct (Hresume (S (S t1))) as (t3 & w3 & Hres & Hhead3 & Hcommit). change (seqZ (Z.min 3 2 + 1) (3 - Z.min 3 2)) with [3] in Hres.
  erewrite io_bind_run; [|exact Hres]. cbn [fst snd]. destruct (Hcommit t3) as (t5 & w5 & x & Hc & Hh).
  erewrite io_bind_run; [|unfold io_try; rewrite Hc; reflexivity].
  erewrite io_bind_run; [|rewrite s3_read_quiet by done; rewrite Hh; reflexivity]. cbn [ContentLength head_ETag].
  rewrite (etag_checked x md5 Hmd5). reflexivity.
Qed.
End properties.

(** ** A store that takes the PUTs *)

Section files_api_witnesses.
#[local] Existing Instance fix_text.
#[local] Existing Instance fix_text_laws.

(** A presigned URL of a part as the list of what it names. *)
Definition url_fields (c : presigned) (ttl date : Z) : list string :=
  match c with
  | UploadPart b k u n => ["part"; b; k; u; int_text n; int_text ttl; int_text date]
  | PutObject b k ct => ["put"; b; k; ct; int_text ttl; int_text date]
  | GetObject b k => ["get"; b; k; int_text ttl; int_text date]
  end.
Definition put_sign (c : presigned) (ttl date : Z) : string := join_dollar (url_fields c ttl date).

Definition upload_name (n : N) : string := String.string_of_list_ascii (replicate (S (N.to_nat n)) (ascii_of_N 117)).

(** The store of StorageSim.v, with the number of parts of every object. *)
Record put_store := PutStore { ps_sim : sim; ps_count : gmap (string * string) nat }.

Definition put_create (b k : string) (_ : string) (s : put_store) : result string * put_store :=
  let u := upload_name (sim_next (ps_sim s)) in
  (Ok u, PutStore (Sim (<[(b, k, u) := []]> (sim_uploads (ps_sim s))) (sim_objects (ps_sim s)) (N.succ (sim_next (ps_sim s)))) (ps_count s)).

Definition put_head (b k : string) (s : put_store) : result head_answer :=
  match sim_objects (ps_sim s) !! (b, k) with
  | Some len => Ok (HeadAnswer len (Some (multipart_etag "0cc175b9" (Z.of_nat (default 0%nat (ps_count s !! (b, k)))))))
  | None => Err not_found
  end.

Definition put_complete (b k u : string) (req : list (Z * string)) (s : put_store) : result unit * put_store :=
  let '(r, sim) := sim_complete b k u req (ps_sim s) in
  (r, PutStore sim (match r with Ok _ => <[(b, k) := length req]> (ps_count s) | Err _ => ps_count s end)).

Definition put_s3 : S3 := {|
  s3 := put_store;
  createMultipartUpload := put_create;
  abortMultipartUpload := λ b k u s,
    (Ok tt, PutStore (Sim (delete (b, k, u) (sim_uploads (ps_sim s))) (sim_objects (ps_sim s)) (sim_next (ps_sim s))) (ps_count s));
  completeMultipartUpload := put_complete;
  listParts := λ b k u m s, sim_list b k u m (ps_sim s);
  headObject := put_head;
  getSignedUrl := put_sign;
|}.

Lemma name_text n : text_in (upload_name n) = Some (upload_name n).
Proof. unfold upload_name. induction (S (N.to_nat n)) as [|k IH]; [done|]. by apply (text_in_app "u"). Qed.

Lemma pretty_go_text x s : text_in s = Some s → text_in (pretty_N_go x s) = Some (pretty_N_go x s).
Proof.
  revert s. induction (N.lt_wf_0 x) as [x _ IH]; intros s Hs. destruct (decide (x = 0)%N) as [->|Hx]; [by rewrite pretty_N_go_0|].
  rewrite pretty_N_go_step by lia. apply IH; [apply N.div_lt; lia|]. apply (text_in_app (String (pretty_N_char (x mod 10)) "")); [|done].
  unfold pretty_N_char. by repeat case_match.
Qed.

Lemma count_text (n : nat) : text_in (pretty (Z.of_nat n)) = Some (pretty (Z.of_nat n)).
Proof. destruct n as [|n]; [done|]. change (pretty (Z.of_nat (S n))) with (pretty_N_go (N.pos (Pos.of_succ_nat n)) ""). by apply pretty_go_text. Qed.

Lemma put_laws : @S3Laws put_s3.
Proof.
  unshelve econstructor.
  - exact (λ s, sim_parts (ps_sim s)).
  - exact sim_marker.
  - done.
  - intros s. apply sim_parts_ok.
  - intros s. apply sim_list_page.
  - intros s b k u m ps Hps. cbn in *. unfold sim_list. rewrite Hps. eauto.
  - intros s b k u ps sel Hps Hsel _ _. destruct (sim_complete_ok _ _ _ _ _ _ Hps Hsel) as (s' & etag0 & Hc & Hh). cbn. unfold put_complete.
    rewrite Hc. eexists _, (Some (multipart_etag _ _)). split; [done|]. unfold put_head. cbn [ps_sim ps_count]. rewrite lookup_insert_eq. unfold sim_head in Hh.
    destruct (sim_objects s' !! (b, k)) as [len|]; [|done]. assert (len = sumZ Size sel) as -> by congruence. reflexivity.
  - intros s b k h etag Hh. cbn in Hh. unfold put_head in Hh. destruct (sim_objects _ !! _); [|done]. injection Hh as <-. cbn. intros [= <-].
    unfold multipart_etag. apply text_in_app; [done|]. apply text_in_app; [done|]. apply text_in_app; [done|].
    apply text_in_app; [apply count_text|done].
Defined.

Definition put_on_part (s : put_store) (b k u : string) (n len : Z) : Z * put_store :=
  match sim_parts (ps_sim s) b k u with
  | None => (404, s)
  | Some ps =>
      (200, PutStore (Sim (<[(b, k, u) := filter (λ q, PartNumber q < n) ps ++ Part n len "e" :: filter (λ q, n < PartNumber q) ps]>
         (sim_uploads (ps_sim s))) (sim_objects (ps_sim s)) (sim_next (ps_sim s))) (ps_count s))
  end.

#[local] Instance put_put : @S3Put put_s3 := λ url len date s,
  match unfield <$> split_dollar url with
  | ["part"; b; k; u; n; ttl; from] =>
      match int_read n, int_read ttl, int_read from with
      | Some n, Some ttl, Some from => if date <? from + 1000 * ttl then put_on_part s b k u n len else (403, s)
      | _, _, _ => (403, s)
      end
  | _ => (403, s)
  end.

Lemma put_url_part b k u n ttl from len date s : date < from + 1000 * ttl →
  @put_url put_s3 put_put (put_sign (UploadPart b k u n) ttl from) len date s = put_on_part s b k u n len.
Proof.
  intros Hd. unfold put_url, put_put, put_sign, url_fields. rewrite split_join, <-list_fmap_compose.
  rewrite (list_fmap_ext _ id) by (intros i x _; apply unfield_field). rewrite list_fmap_id. rewrite !int_read_text.
  by rewrite (proj2 (Z.ltb_lt _ _)) by done.
Qed.

(** A part in its place among the others. *)
Lemma parts_ok_put after ps n len etag : parts_ok after ps = true → after < n ≤ MAX_PARTS → 0 ≤ len →
  parts_ok after (filter (λ q, PartNumber q < n) ps ++ Part n len etag :: filter (λ q, n < PartNumber q) ps) = true.
Proof.
  revert after. induction ps as [|q ps IH]; intros after; [cbn; intros; lia|]. cbn [parts_ok].
  intros [[[Ha Hb]%andb_true_iff Hc]%andb_true_iff Hd]%andb_true_iff Hn Hlen. zify_bools.
  destruct (parts_ok_sorted _ _ Hd) as [_ Hf]. rewrite Forall_forall in Hf.
  rewrite !filter_cons. destruct (decide (PartNumber q < n)) as [Hlt|Hge].
  - rewrite (decide_False (P := n < PartNumber q)) by lia. cbn [app parts_ok]. rewrite IH by (done || lia). lia.
  - rewrite filter_none by (intros x Hx; specialize (Hf x Hx); lia). cbn [app parts_ok PartNumber Size].
    destruct (decide (n < PartNumber q)) as [Hgt|Heq].
    + cbn [parts_ok]. rewrite filter_all by (intros x Hx; specialize (Hf x Hx); lia). rewrite Hd. lia.
    + assert (n = PartNumber q) by lia. rewrite filter_all by (intros x Hx; specialize (Hf x Hx); lia).
      replace n with (PartNumber q) by lia. rewrite Hd. lia.
Qed.
#[local] Existing Instance put_laws.

Lemma put_put_laws : @S3PutLaws put_s3 put_laws put_put.
Proof.
  split.
  - intros b k ct s. eexists _, _. split; [reflexivity|]. split; [done|]. split; [apply name_text|]. split; [|done].
    cbn. unfold sim_parts. cbn. rewrite lookup_insert_eq. reflexivity.
  - intros s b k u ps n len ttl date date' Hps Hn Hlen Hd. change (upload_parts s b k u) with (sim_parts (ps_sim s) b k u) in Hps.
    exists (put_on_part s b k u n len).2, "e". split; [etransitivity; [exact (put_url_part b k u n ttl date len date' s Hd)|]|]; unfold put_on_part; rewrite Hps; [done|]. split; [|done]. cbn. unfold sim_parts in *. cbn. rewrite lookup_insert_eq. cbn.
    destruct (sim_uploads (ps_sim s) !! (b, k, u)) as [l|]; [|done]. cbn in Hps. destruct (parts_ok 0 l) eqn:Hok; [|done]. injection Hps as ->.
    by rewrite parts_ok_put by (done || lia).
  - intros s b k u l s' h. cbn. unfold put_complete, put_head. destruct (sim_complete b k u l (ps_sim s)) as [r s1] eqn:Hc.
    intros [= -> <-]. cbn. destruct (sim_objects s1 !! (b, k)); [|done]. intros [= <-]. rewrite lookup_insert_eq. by exists "0cc175b9".
Qed.
#[local] Existing Instance put_put_laws.

Definition put_schedule : asched (@world put_s3) := Schedule no_fault (λ _ w, w) (λ _, 5) (λ _, id_a).
Definition put_empty : @s3 put_s3 := PutStore (Sim ∅ ∅ 0) ∅.
Definition put_world : @world put_s3 := World put_empty fix_db.
Definition put_storage : StorageService := StorageServiceOf "files" 300 900 60 (8 * MIB).
Definition who_1 : AuthUser := AuthUserOf "1" customer "jti" (num_of_Z 905) "fid".
Definition plain_num : num → string := λ _, "n".

Lemma put_ready size : 8 * MIB < size ≤ MAX_OBJECT → upload_ready put_storage put_schedule 0 put_world 1 who_1 size.
Proof.
  intros Hs. split.
  - split; [done|]. intros t w. reflexivity.
  - intros i j. cbn. lia.
  - split; [reflexivity|]. split; [reflexivity|]. by eexists.
  - split; [exact (proj1 Hs)|]. unfold MIB in Hs. lia.
  - split; [vm_compute; reflexivity|reflexivity].
  - intros i r Hr. change (files (w_db put_world)) with (∅ : gmap string file_row) in Hr. by rewrite lookup_empty in Hr.
Qed.

(** 12 MiB, killed after the second of its three parts *)
Lemma crash_resume_completes_witness : ∃ t1 w1 t3 w3 t5 w5 v,
  client_start no_issues plain_num put_storage who_1 (12 * MIB) 2 put_schedule 0%nat put_world =
    (Ok ([ID id_a; PART 1; PART 2; DIE], Killed), t1, w1) ∧
  client_resume no_issues plain_num put_storage who_1 id_a put_schedule t1 w1 = (Ok ([HAVE [1; 2]; REUPLOAD 3], Finished), t3, w3) ∧
  files_route no_issues plain_num put_storage who_1 (UploadsCommit (Some (JObj [("id", JStr id_a)]))) put_schedule t3 w3 =
    (Ok (FileAnswer v), t5, w5) ∧ fv_status v = COMPLETED.
Proof.
  destruct (crash_resume_completes no_issues plain_num put_storage put_schedule 0%nat put_world 1 who_1 (12 * MIB) 2)
    as (p & t1 & w1 & Hp & Hstart & _ & Hresume); [apply put_ready; vm_compute; split; congruence|reflexivity|].
  assert (p = 5 * MIB) as -> by (vm_compute in Hp; by injection Hp as <-).
  assert (Htotal : partCount (12 * MIB) (5 * MIB) = 3) by (vm_compute; reflexivity). rewrite Htotal in *.
  destruct (Hresume t1) as (t3 & w3 & Hres & _ & Hcommit). destruct (Hcommit t3) as (t5 & w5 & x & Hc & _).
  exists t1, w1, t3, w3, t5, w5. eexists. split; [exact Hstart|]. split; [exact Hres|]. split; [exact Hc|reflexivity].
Defined.

Lemma demo_multipart_passes_witness : demo_multipart_exit
  (demo_multipart no_issues plain_num put_storage who_1 "900150983cd24fb0d6963f7d28e17f72" put_schedule 0%nat put_world).1.1 = 0.
Proof.
  apply (demo_multipart_passes no_issues plain_num put_storage put_schedule 0%nat put_world 1 who_1 _ not_found);
    [apply put_ready; vm_compute; split; congruence|reflexivity|reflexivity|reflexivity].
Defined.
End files_api_witnesses.
