(* ===== verification/Mq.v ===== *)
(** The shop with its message broker as the messaging scripts see it: one
    database, the queues of src/messaging/topology.ts, a consumer
    (src/messaging/consumer.ts) and a background relay (src/outbox/relay.ts)
    that work while the script awaits; and the waiting of
    src/messaging/demo-lib.ts. *)
From S2P Require Import Prelude JsNumber Events Schema Sql Fixtures Checkout Publisher Relay Consumer Async.
From stdpp Require Import pretty sorting.
#[local] Open Scope Z_scope.

(** ** The broker

    RabbitMQ with the topology of [assertTopology] declared.  [ready b q]: the
    messages of a queue waiting for delivery, oldest first, each with its
    [redelivered] flag.  [mq_consume s b]: the oldest message of the work queue
    is handed out and settled by [s]; [None]: the connection of the consumer is
    lost before it settles.  [first_death_reason]: the header
    [x-first-death-reason] of the oldest dead-lettered message. *)
Class Amqp := {
  mq : Type;
  ready : mq → string → list (message * bool);
  mq_publish : message → mq → mq;
  mq_purge : string → mq → mq;
  mq_consume : option settlement → mq → mq;
  first_death_reason : mq → option string;
}.

(** The queues a message of exchange [e] reaches: those bound, else those of the
    alternate exchange. *)
Definition routed (e key q : string) : bool := bool_decide (q ∈ fix_route assertTopology e key).
Definition arrives (e key q : string) (m : message) : list (message * bool) := if routed e key q then [(m, false)] else [].

(** Documented behaviour: a publication goes to the end of every queue it is
    routed to; an ack removes the message, a reject without requeue dead-letters
    it with the reason [rejected]; a first delivery that is requeued, or whose
    connection is lost, is back in the queue, marked. *)
Class AmqpLaws `{Amqp} := {
  mq_published : ∀ m b q, ready (mq_publish m b) q = ready b q ++ arrives EXCHANGE (m_key m) q m;
  mq_purged : ∀ p b q, ready (mq_purge p b) q = if decide (q = p) then [] else ready b q;
  mq_acked : ∀ b m red rest q, ready b WORK_QUEUE = (m, red) :: rest →
    ready (mq_consume (Some Ack) b) q = if decide (q = WORK_QUEUE) then rest else ready b q;
  mq_rejected : ∀ b m red rest q, ready b WORK_QUEUE = (m, red) :: rest →
    ready (mq_consume (Some (Reject false)) b) q =
      if decide (q = WORK_QUEUE) then rest else ready b q ++ arrives DLX ROUTING_KEY_ORDER_PLACED q m;
  mq_returned : ∀ b s m rest, s = None ∨ s = Some (Reject true) → ready b WORK_QUEUE = (m, false) :: rest →
    ready (mq_consume s b) WORK_QUEUE ≡ₚ (m, true) :: rest ∧ ∀ q, q ≠ WORK_QUEUE → ready (mq_consume s b) q = ready b q;
  mq_reason : ∀ b, ready b WORK_QUEUE ≠ [] → ready b DLQ = [] →
    first_death_reason (mq_consume (Some (Reject false)) b) = Some "rejected";
}.

(** ** Everyone else *)

Definition no_statistics : ConsumerStats := Stats 0 0 0 0 0.

Section shop.
Context `{PgText, EventLib, Amqp}.

(** [w_consumer]: the statistics of the running consumer; [w_relaying]: a
    background relay runs; [w_locked]: outbox rows still locked by a dead
    session. *)
Record mq_world := MqWorld {
  w_db : db;
  w_mq : mq;
  w_consumer : option ConsumerStats;
  w_relaying : bool;
  w_locked : gset string;
}.

Definition set_db (d : db) (w : mq_world) : mq_world := MqWorld d (w_mq w) (w_consumer w) (w_relaying w) (w_locked w).
Definition set_mq (b : mq) (w : mq_world) : mq_world := MqWorld (w_db w) b (w_consumer w) (w_relaying w) (w_locked w).
Definition set_consumer (c : option ConsumerStats) (w : mq_world) : mq_world := MqWorld (w_db w) (w_mq w) c (w_relaying w) (w_locked w).
Definition set_relaying (r : bool) (w : mq_world) : mq_world := MqWorld (w_db w) (w_mq w) (w_consumer w) r (w_locked w).
Definition set_locked (l : gset string) (w : mq_world) : mq_world := MqWorld (w_db w) (w_mq w) (w_consumer w) (w_relaying w) l.

(** [batchSize = 50] *)
Definition BATCH : nat := 50.

(** The broker confirms every publication: none is returned, the topology has an
    alternate exchange. *)
Definition confirmed (n : nat) : pub_fate := Confirmed 0.

Definition mq_takes (sent : list (string * message * pub_fate)) (b : mq) : mq :=
  foldl (λ b x, if taken x.2 then mq_publish x.1.2 b else b) b sent.

(** One pass of a relay connected to this broker. *)
Definition relay_pass_in (hook : string → option exn) (now : Z) (φ : oracle) (t : nat) (w : mq_world) :
    result RelayPass * nat * mq_world :=
  let '(r, t', d) := relayOnce confirmed hook now BATCH (w_locked w) 0 φ t (w_db w) in
  (r, t', set_mq (mq_takes (relay_sent confirmed hook BATCH (w_locked w) 0 φ t (w_db w)) (w_mq w)) (set_db d w)).

(** What goes on beside the script: a delivery to the consumer, a pass of the
    background relay, Postgres noticing that a session is gone. *)
Inductive worker := Consuming | Relaying | Releasing.
(** Who acts, and the database's clock then. *)
Definition agent : Type := worker * Z.

Definition turn (a : agent) (w : mq_world) : mq_world :=
  match a.1 with
  | Consuming =>
      match w_consumer w, ready (w_mq w) WORK_QUEUE with
      | Some s, (msg, redelivered) :: _ =>
          let '(h, _, d) := handle true msg redelivered s no_fault 0%nat (w_db w) in
          set_mq (mq_consume (h_settled h) (w_mq w)) (set_consumer (Some (h_stats h)) (set_db d w))
      | _, _ => w
      end
  | Relaying => if w_relaying w then (relay_pass_in (λ _, None) a.2 no_fault 0%nat w).2 else w
  | Releasing => set_locked ∅ w
  end.
Definition turns (l : list agent) (w : mq_world) : mq_world := foldl (λ w a, turn a w) w l.

(** ** The script

    [acts t]: what the others do before the [t]-th awaited operation; [naps t]:
    what they do in each [sleep(50)] of a wait begun there, until it times out;
    [pauses t]: in a longer sleep. *)
Context (acts pauses : nat → list agent) (naps : nat → list (list agent)) (clock : nat → Z) (uuid : nat → string).
Definition others : asched mq_world := Schedule no_fault (λ t, turns (acts t)) clock uuid.
Notation io := (async mq_world).

(** A transaction on the shared database. *)
Definition with_db {A} (m : sql A) : io A := λ σ t w,
  let w := s_others σ t w in
  let '(r, t', d) := m (s_fault σ) t (w_db w) in (r, t', set_db d w).
Definition act (f : mq_world → mq_world) : io unit := roundtrip (λ w, (Ok tt, f w)).
Definition look {A} (f : mq_world → A) : io A := λ σ t w, (Ok (f w), t, w).
(** An awaited read of the broker or of the database. *)
Definition ask {A} (f : mq_world → A) : io A := roundtrip (λ w, (Ok (f w), w)).

(** One statement. *)
Definition stmt {A} (f : db → A * db) : io A := roundtrip (λ w, let '(a, d) := f (w_db w) in (Ok a, set_db d w)).
Definition relay_once (hook : string → option exn) : io RelayPass := λ σ t w,
  relay_pass_in hook (s_clock σ t) (s_fault σ) t (s_others σ t w).

Definition sleep : io unit := λ σ t w, (Ok tt, S t, turns (pauses t) w).
Definition nap (l : list agent) : io unit := λ σ t w, (Ok tt, t, turns l w).

Definition timed_out : exn := JsError "timeout".
Fixpoint wait_through (l : list (list agent)) (cond : io bool) : io unit :=
  c ← cond;
  if (c : bool) then mret tt else
  match l with
  | [] => io_throw timed_out
  | a :: l => _ ← nap a; wait_through l cond
  end.
Definition waitFor (cond : io bool) : io unit := λ σ t w, wait_through (naps t) cond σ t w.

(** ** src/messaging/demo-lib.ts *)

(** TRUNCATE outbox, processed_messages, idempotency_keys; DELETE FROM order_receipts *)
Definition truncate_messaging (d : db) : db :=
  set_receipts (λ _, ∅) (set_processed (λ _, ∅) (set_outbox (λ _, ∅) (set_keys (λ _, ∅) d))).
Definition purgeAll (b : mq) : mq := foldl (λ b q, mq_purge q b) b [WORK_QUEUE; DLQ; UNROUTABLE_QUEUE].
Definition resetState : io unit :=
  _ ← act (λ w, set_db (truncate_messaging (w_db w)) w);
  act (λ w, set_mq (purgeAll (w_mq w)) w).

Definition queueDepth (q : string) : io Z := ask (λ w, Z.of_nat (length (ready (w_mq w) q))).
Definition countEffects : io Z := ask (λ w, Z.of_nat (size (order_receipts (w_db w)))).

(** [assertInvariant]: the exit code of a script that ends with these
    violations or with an exception. *)
Definition assertInvariant (r : result (list string)) : Z := match r with Ok [] => 0 | _ => 1 end.
Definition violated (name : string) (ok : bool) : list string := if ok then [] else [name].

(** ** Starting and stopping *)

Definition startConsumer : io unit := act (set_consumer (Some no_statistics)).
Definition close : io unit := act (λ w, set_relaying false (set_consumer None w)).
Definition stats : io ConsumerStats := look (λ w, default no_statistics (w_consumer w)).
Definition start_relaying : io unit := λ σ t w, (Ok tt, t, set_relaying true w).
Definition stop_relaying : io unit := act (set_relaying false).

(** ** Total correctness

    [m] started in a world of [P] returns a value, in a world of [Q]. *)
Definition gives {A} (P : mq_world → Prop) (m : io A) (Q : A → mq_world → Prop) : Prop :=
  ∀ t w, P w → ∃ a t' w', m others t w = (Ok a, t', w') ∧ Q a w'.

(** Nobody else leaves [P]. *)
Definition stable (P : mq_world → Prop) : Prop := ∀ a w, P w → P (turn a w).

Lemma turns_stable P l w : stable P → P w → P (turns l w).
Proof. intros HP. unfold turns. revert w. induction l as [|a l IH]; intros w Hw; [done|]. by apply IH, HP. Qed.

Lemma gives_ret {A} P (a : A) (Q : A → mq_world → Prop) : (∀ w, P w → Q a w) → gives P (mret a) Q.
Proof. intros HQ t w Hw. exists a, t, w. eauto. Qed.
Lemma gives_bind {A B} P (m : io A) R (f : A → io B) Q : gives P m R → (∀ a, gives (R a) (f a) Q) → gives P (m ≫= f) Q.
Proof.
  intros Hm Hf t w Hw. destruct (Hm t w Hw) as (a & t1 & w1 & Hr & Ha). destruct (Hf a t1 w1 Ha) as (b & t2 & w2 & Hr2 & Hb).
  exists b, t2, w2. rewrite (io_bind_run _ _ _ _ _ _ _ _ Hr). by split.
Qed.
Lemma gives_weaken {A} (P P' : mq_world → Prop) (m : io A) (Q Q' : A → mq_world → Prop) :
  gives P' m Q' → (∀ w, P w → P' w) → (∀ a w, Q' a w → Q a w) → gives P m Q.
Proof. intros Hm HP HQ t w Hw. destruct (Hm t w (HP w Hw)) as (a & t' & w' & Hr & Ha). exists a, t', w'. eauto. Qed.
Lemma gives_exists {A X} (P : X → mq_world → Prop) (m : io A) Q : (∀ x, gives (P x) m Q) → gives (λ w, ∃ x, P x w) m Q.
Proof. intros Hm t w [x Hw]. exact (Hm x t w Hw). Qed.
Lemma gives_pure {A} (φ : Prop) P (m : io A) Q : (φ → gives P m Q) → gives (λ w, φ ∧ P w) m Q.
Proof. intros Hm t w [Hφ Hw]. exact (Hm Hφ t w Hw). Qed.

Lemma gives_with_db {A} P (m : sql A) (Q : A → mq_world → Prop) : stable P →
  (∀ t w, P w → ∃ a t' d, m no_fault t (w_db w) = (Ok a, t', d) ∧ Q a (set_db d w)) → gives P (with_db m) Q.
Proof.
  intros HP Hm t w Hw. destruct (Hm t (turns (acts t) w)) as (a & t' & d & Hr & Ha); [by apply turns_stable|].
  exists a, t', (set_db d (turns (acts t) w)). split; [|done]. unfold with_db. cbn. by rewrite Hr.
Qed.
Lemma gives_roundtrip {A} P (op : mq_world → result A * mq_world) (Q : A → mq_world → Prop) : stable P →
  (∀ w, P w → ∃ a w', op w = (Ok a, w') ∧ Q a w') → gives P (roundtrip op) Q.
Proof.
  intros HP Hop t w Hw. destruct (Hop (turns (acts t) w)) as (a & w' & Hr & Ha); [by apply turns_stable|].
  exists a, (S t), w'. split; [|done]. unfold roundtrip. cbn. by rewrite Hr.
Qed.
Lemma gives_act P f (Q : unit → mq_world → Prop) : stable P → (∀ w, P w → Q tt (f w)) → gives P (act f) Q.
Proof. intros HP Hf. apply gives_roundtrip; [done|]. intros w Hw. eauto. Qed.
Lemma gives_ask {A} P (f : mq_world → A) (Q : A → mq_world → Prop) : stable P → (∀ w, P w → Q (f w) w) → gives P (ask f) Q.
Proof. intros HP Hf. apply gives_roundtrip; [done|]. intros w Hw. eauto. Qed.
Lemma gives_stmt {A} P (f : db → A * db) (Q : A → mq_world → Prop) : stable P →
  (∀ w, P w → Q (f (w_db w)).1 (set_db (f (w_db w)).2 w)) → gives P (stmt f) Q.
Proof. intros HP Hf. apply gives_roundtrip; [done|]. intros w Hw. specialize (Hf w Hw). destruct (f (w_db w)). eauto. Qed.
Lemma gives_relay P (Q : RelayPass → mq_world → Prop) : stable P →
  (∀ now t w, P w → ∃ a t' w', relay_pass_in (λ _, None) now no_fault t w = (Ok a, t', w') ∧ Q a w') → gives P (relay_once (λ _, None)) Q.
Proof.
  intros HP Hm t w Hw. destruct (Hm (clock t) t (turns (acts t) w)) as (a & t' & w' & Hr & Ha); [by apply turns_stable|].
  exists a, t', w'. split; [exact Hr|done].
Qed.
Lemma gives_look {A} P (f : mq_world → A) (Q : A → mq_world → Prop) : (∀ w, P w → Q (f w) w) → gives P (look f) Q.
Proof. intros Hf t w Hw. exists (f w), t, w. eauto. Qed.
Lemma gives_sleep P : stable P → gives P sleep (λ _, P).
Proof. intros HP t w Hw. do 3 eexists. split; [done|]. by apply turns_stable. Qed.

(** ** Waiting

    A wait is long enough for [n] rounds, in each of which everybody acts. *)
Inductive rounds : nat → list (list agent) → Prop :=
| rounds_O l : rounds 0 l
| rounds_S n l1 l2 : (∀ k : worker, k ∈ (concat l1).*1) → rounds n l2 → rounds (S n) (l1 ++ l2).

(** What a wait needs: nobody loses ground, one worker gains it, and the
    condition, which the others may interrupt, holds once there is none left. *)
Record awaited (P : mq_world → Prop) (μ : mq_world → nat) (who : nat → worker) (cond : io bool) (Q : mq_world → Prop) : Prop := {
  aw_stable : stable P;
  aw_keeps : ∀ a w, P w → (μ (turn a w) ≤ μ w)%nat;
  aw_gains : ∀ a w, P w → μ w ≠ 0%nat → a.1 = who (μ w) → (μ (turn a w) < μ w)%nat;
  aw_cond : ∀ t w, P w → ∃ b t' w', cond others t w = (Ok b, t', w') ∧ P w' ∧ (μ w' ≤ μ w)%nat ∧
    (μ w = 0%nat → b = true) ∧ (b = true → Q w');
}.

Section wait.
Variables (P : mq_world → Prop) (μ : mq_world → nat) (who : nat → worker) (cond : io bool) (Q : mq_world → Prop).
Hypothesis Haw : awaited P μ who cond Q.

Lemma turns_measure l w : P w → (μ (turns l w) ≤ μ w)%nat ∧ (μ w ≠ 0%nat → who (μ w) ∈ l.*1 → (μ (turns l w) < μ w)%nat).
Proof.
  unfold turns. revert w. induction l as [|a l IH]; intros w Hw; cbn; [split; [done|]; by intros _ ?%not_elem_of_nil|].
  destruct (IH (turn a w)) as [Hle Hlt]; [by apply (aw_stable _ _ _ _ _ Haw)|]. pose proof (aw_keeps _ _ _ _ _ Haw a w Hw) as Hk.
  split; [lia|]. intros Hμ [He|Hin]%elem_of_cons; [pose proof (aw_gains _ _ _ _ _ Haw a w Hw Hμ (eq_sym He)); lia|].
  destruct (decide (μ (turn a w) = μ w)) as [He|Hne]; [rewrite He in *; auto with lia|lia].
Qed.

Lemma wait_rounds n l : rounds n l → ∀ t w, P w → (μ w ≤ n)%nat →
  ∃ t' w', wait_through l cond others t w = (Ok tt, t', w') ∧ Q w'.
Proof.
  assert (Hstep : ∀ l t w b t1 w1, cond others t w = (Ok b, t1, w1) → b = true →
    wait_through l cond others t w = (Ok tt, t1, w1)).
  { intros l0 t w b t1 w1 Hc ->. destruct l0; cbn [wait_through]; by rewrite (io_bind_run _ _ _ _ _ _ _ _ Hc). }
  induction 1 as [l|n l1 l2 Hall Hl2 IH]; intros t w Hw Hμ.
  - destruct (aw_cond _ _ _ _ _ Haw t w Hw) as (b & t1 & w1 & Hc & _ & _ & Hz & HQ). rewrite Hz in * by lia.
    exists t1, w1. split; [by eapply Hstep|auto].
  - assert (Hin : (μ w ≤ n)%nat ∨ who (S n) ∈ (concat l1).*1) by (right; apply Hall). clear Hall.
    revert t w Hw Hμ Hin. induction l1 as [|a l1 IHl]; intros t w Hw Hμ Hin.
    { apply IH; [done|]. destruct Hin as [|?%not_elem_of_nil]; done. }
    destruct (aw_cond _ _ _ _ _ Haw t w Hw) as (b & t1 & w1 & Hc & Hw1 & Hμ1 & _ & HQ).
    destruct b eqn:Hb; [exists t1, w1; split; [by eapply Hstep|auto]|]. change ((a :: l1) ++ l2) with (a :: (l1 ++ l2)).
    cbn [wait_through]. rewrite (io_bind_run _ _ _ _ _ _ _ _ Hc). cbv iota. erewrite io_bind_run by reflexivity.
    destruct (turns_measure a w1 Hw1) as [Hle Hlt]. apply IHl; [by apply turns_stable, Hw1; apply (aw_stable _ _ _ _ _ Haw)|lia|].
    destruct Hin as [Hn|Hin]; [left; lia|]. cbn [concat] in Hin. rewrite fmap_app, elem_of_app in Hin.
    destruct (decide (μ w1 = S n)) as [He|Hne]; [rewrite He in *|left; lia].
    destruct Hin as [Ha|Ha]; [left; assert (μ (turns a w1) < S n)%nat by auto; lia|by right].
Qed.

Lemma gives_wait n (R : unit → mq_world → Prop) : (∀ t, rounds n (naps t)) → (∀ w, P w → (μ w ≤ n)%nat) → (∀ w, Q w → R tt w) →
  gives P (waitFor cond) R.
Proof.
  intros Hn Hμ HR t w Hw. destruct (wait_rounds n (naps t) (Hn t) t w Hw (Hμ w Hw)) as (t' & w' & Hr & HQ).
  exists tt, t', w'. split; [exact Hr|auto].
Qed.
End wait.

(** ** Events on their way to the consumer *)

(** An event, the stored form of its id, the stored amount. *)
Definition announced : Type := order_placed_event * string * Z.
Definition good (x : announced) : Prop := event_valid x.1.1 ∧ storable x.1.1 x.1.2 x.2.
Definition body (x : announced) : message := order_placed_message x.1.1.

(** The database and the statistics after one more delivery. *)
Definition digest (ds : db * ConsumerStats) (x : announced) : db * ConsumerStats :=
  let '(applied', d) := apply_spec x.1.1 x.1.2 x.2 ds.1 in
  (d, if applied' then Stats (delivered ds.2 + 1) (applied ds.2 + 1) (skipped ds.2) (acked ds.2 + 1) (rejected ds.2)
      else Stats (delivered ds.2 + 1) (applied ds.2) (skipped ds.2 + 1) (acked ds.2 + 1) (rejected ds.2)).
Definition digested (l : list announced) (d : db) : db * ConsumerStats := foldl digest (d, no_statistics) l.

Context `{!PgTextLaws, !EventLibLaws, !AmqpLaws}.

Lemma handle_good x red s d : good x → ∃ tr t,
  handle true (order_placed_message x.1.1) red s no_fault 0%nat d =
    (Handled (digest (d, s) x).2 tr (Some Ack) false, t, (digest (d, s) x).1).
Proof.
  intros [Hv Hs]. destruct (apply_body_run x.1.1 x.1.2 x.2 1%nat d Hs) as [t Hrun]. apply transaction_run in Hrun.
  unfold handle. change (m_content (order_placed_message x.1.1)) with (Some (event_json x.1.1)). cbn [mbind option_bind].
  rewrite (parse_event_json _ Hv). change (transaction (apply_body x.1.1)) with (applyOrderPlaced x.1.1) in Hrun. rewrite Hrun.
  unfold digest. cbn [fst snd]. destruct (apply_spec x.1.1 x.1.2 x.2 d) as [[] d']; do 2 eexists; reflexivity.
Qed.

(** An update that neither reads nor writes what deliveries write. *)
Record beside (F : db → db) : Prop := {
  bs_processed : ∀ d, processed_messages (F d) = processed_messages d;
  bs_receipts : ∀ d, order_receipts (F d) = order_receipts d;
  bs_set_processed : ∀ f d, F (set_processed f d) = set_processed f (F d);
  bs_set_receipts : ∀ f d, F (set_receipts f d) = set_receipts f (F d);
}.

Lemma apply_beside F ev id total d : beside F →
  apply_spec ev id total (F d) = ((apply_spec ev id total d).1, F (apply_spec ev id total d).2).
Proof.
  intros [Hp Hr Hsp Hsr]. unfold apply_spec. rewrite Hp. case_decide; [done|]. cbv zeta. rewrite <-Hsp.
  assert (Hc : ∀ id o d, receipt_conflict id o (F d) = receipt_conflict id o d) by (intros i o d0; unfold receipt_conflict; by rewrite Hr).
  rewrite Hc. destruct (receipt_conflict _ _ _); [done|]. cbn [fst snd]. by rewrite Hsr.
Qed.

Lemma digest_beside F l d s : beside F →
  foldl digest (F d, s) l = (F (foldl digest (d, s) l).1, (foldl digest (d, s) l).2).
Proof.
  intros HF. revert d s. induction l as [|x l IH]; intros d s; [done|]. cbn [foldl].
  assert (digest (F d, s) x = (F (digest (d, s) x).1, (digest (d, s) x).2)) as ->.
  { unfold digest. cbn [fst snd]. rewrite (apply_beside F) by done. by destruct (apply_spec _ _ _ d). }
  rewrite IH. by destruct (digest (d, s) x).
Qed.

Lemma digested_beside F l d : beside F → digested l (F d) = (F (digested l d).1, (digested l d).2).
Proof. apply digest_beside. Qed.

Lemma digest_frame l d s : ∃ X Y, (foldl digest (d, s) l).1 = set_receipts (λ _, Y) (set_processed (λ _, X) d).
Proof.
  revert d s. induction l as [|x l IH]; intros d s; [exists (processed_messages d), (order_receipts d); by destruct d|].
  cbn [foldl]. destruct (digest (d, s) x) as [d1 s1] eqn:Hd. destruct (IH d1 s1) as (X & Y & ->). exists X, Y.
  assert (∃ X1 Y1, d1 = set_receipts (λ _, Y1) (set_processed (λ _, X1) d)) as (X1 & Y1 & ->); [|by destruct d].
  unfold digest, apply_spec in Hd. cbn [fst snd] in Hd. case_decide; [|destruct (receipt_conflict _ _ _)]; simplify_eq/=.
  - exists (processed_messages d1), (order_receipts d1). by destruct d1.
  - exists ({[(x.1.2, CONSUMER_NAME)]} ∪ processed_messages d), (order_receipts d). by destruct d.
  - eexists _, _. reflexivity.
Qed.

(** [j] of the published events are digested, the rest wait in the queue. *)
Record flowing (S : db) (E : list announced) (U : nat) (r : bool) (L : gset string) (j : nat) (w : mq_world) : Prop := {
  fl_le : (j ≤ length E)%nat;
  fl_good : Forall good E;
  fl_db : w_db w = (digested (take j E) S).1;
  fl_stats : w_consumer w = Some (digested (take j E) S).2;
  fl_work : (ready (w_mq w) WORK_QUEUE).*1 = body <$> drop j E;
  fl_dlq : ready (w_mq w) DLQ = [];
  fl_unroutable : length (ready (w_mq w) UNROUTABLE_QUEUE) = U;
  fl_relaying : w_relaying w = r;
  fl_locked : w_locked w ⊆ L;
}.
Definition flow (S : db) (E : list announced) (U : nat) (r : bool) (L : gset string) (w : mq_world) : Prop :=
  ∃ j, flowing S E U r L j w.
(** What the consumer has still to do. *)
Definition waiting (w : mq_world) : nat := length (ready (w_mq w) WORK_QUEUE).

Lemma flowing_waiting S E U r L j w : flowing S E U r L j w → waiting w = (length E - j)%nat.
Proof. intros Hf. unfold waiting. by rewrite <-(length_fmap fst), (fl_work _ _ _ _ _ _ _ Hf), length_fmap, length_drop. Qed.

Lemma flow_consume S E U r L j w n : flowing S E U r L j w →
  ∃ j', flowing S E U r L j' (turn (Consuming, n) w) ∧ (j ≤ j')%nat ∧ ((j < length E)%nat → j' = Datatypes.S j).
Proof.
  intros [Hle Hg Hdb Hst Hw Hd Hu Hr Hl]. unfold turn. cbn [fst snd]. rewrite Hst.
  destruct (ready (w_mq w) WORK_QUEUE) as [|[m red] rest] eqn:Hq.
  { exists j. split; [split; try done; by rewrite Hq|]. split; [done|]. intros Hlt.
    apply (f_equal length) in Hw. rewrite !length_fmap, length_drop in Hw. cbn in Hw. lia. }
  destruct (drop j E) as [|x es] eqn:Hdrop; [done|]. cbn in Hw. injection Hw as -> Hrest.
  assert (Hx : E !! j = Some x) by (by rewrite <-(Nat.add_0_r j), <-lookup_drop, Hdrop).
  assert (Hgx : good x) by (by eapply Forall_lookup_1).
  rewrite (drop_S E x j Hx) in Hdrop. injection Hdrop as <-.
  unfold body at 1. destruct (handle_good x red (digested (take j E) S).2 (w_db w) Hgx) as (tr & t & ->).
  exists (Datatypes.S j). split; [|split; [lia|done]]. cbn [h_settled h_stats].
  assert (Hdig : digest (w_db w, (digested (take j E) S).2) x = digested (take (Datatypes.S j) E) S).
  { rewrite (take_S_r _ _ x) by done. rewrite Hdb. unfold digested. rewrite foldl_app. cbn [foldl].
    by destruct (foldl digest (S, no_statistics) (take j E)). }
  rewrite Hdig. pose proof (λ q, mq_acked (w_mq w) _ red rest q Hq) as Hack.
  split; cbn [w_db w_mq w_consumer w_relaying w_locked set_db set_mq set_consumer]; try done.
  - by eapply lookup_lt_Some.
  - rewrite Hack. by rewrite decide_True.
  - rewrite Hack. by rewrite decide_False.
  - rewrite Hack. by rewrite decide_False.
Qed.

(** Without a background relay, only the consumer moves, and only forwards. *)
Lemma flow_turn S E U L j w a : flowing S E U false L j w →
  ∃ j', flowing S E U false L j' (turn a w) ∧ (j ≤ j')%nat ∧ (a.1 = Consuming → (j < length E)%nat → j' = Datatypes.S j).
Proof.
  intros Hf. destruct a as [[] n].
  - destruct (flow_consume S E U false L j w n Hf) as (j' & ? & ? & ?). exists j'. auto.
  - exists j. unfold turn. cbn [fst snd]. rewrite (fl_relaying _ _ _ _ _ _ _ Hf). done.
  - exists j. destruct Hf. split; [|done]. split; done || apply empty_subseteq.
Qed.

Lemma flow_stable S E U L : stable (flow S E U false L).
Proof. intros a w [j Hf]. destruct (flow_turn _ _ _ _ _ _ a Hf) as (j' & ? & _). by exists j'. Qed.

Lemma drained_stable S E U L : stable (flowing S E U false L (length E)).
Proof.
  intros a w Hf. destruct (flow_turn _ _ _ _ _ _ a Hf) as (j' & Hf' & Hj & _).
  pose proof (fl_le _ _ _ _ _ _ _ Hf'). by replace (length E) with j' by lia.
Qed.

(** Nothing left to do for the consumer. *)
Lemma flow_drained S E U r L w : flow S E U r L w → waiting w = 0%nat → flowing S E U r L (length E) w.
Proof.
  intros [j Hf] Hw. pose proof (flowing_waiting _ _ _ _ _ _ _ Hf). pose proof (fl_le _ _ _ _ _ _ _ Hf).
  by replace (length E) with j by lia.
Qed.

(** A condition that reads, after whatever the others do before. *)
Definition observes (cond : io bool) (f : mq_world → bool) : Prop := ∀ t w, ∃ t' l, cond others t w = (Ok (f (turns l w)), t', turns l w).

Lemma observes_look (g : mq_world → bool) : observes (look g) g.
Proof. intros t w. exists t, []. done. Qed.
Lemma observes_ask {A} (g : mq_world → A) (h : A → bool) : observes (x ← ask g; mret (h x)) (λ w, h (g w)).
Proof. intros t w. exists (S t), (acts t). done. Qed.
Lemma observes_bool (g : mq_world → bool) : observes (ask g) g.
Proof. intros t w. exists (S t), (acts t). done. Qed.

Lemma flow_turns_waiting S E U L l w : flow S E U false L w → (waiting (turns l w) ≤ waiting w)%nat.
Proof.
  intros Hf. unfold turns. revert w Hf. induction l as [|a l IH]; intros w Hf; [done|]. cbn [foldl].
  transitivity (waiting (turn a w)); [by apply IH, flow_stable|]. destruct Hf as [j Hf].
  destruct (flow_turn _ _ _ _ _ _ a Hf) as (j' & Hf' & Hj & _). rewrite (flowing_waiting _ _ _ _ _ _ _ Hf), (flowing_waiting _ _ _ _ _ _ _ Hf'). lia.
Qed.

Lemma flow_awaited S E U L cond f : observes cond f → (∀ w, flowing S E U false L (length E) w → f w = true) →
  awaited (flow S E U false L) waiting (λ _, Consuming) cond (λ w, flow S E U false L w ∧ f w = true).
Proof.
  intros Hobs Hf. split.
  - apply flow_stable.
  - intros a w Hw. exact (flow_turns_waiting S E U L [a] w Hw).
  - intros a w [j Hw] Hne Ha. destruct (flow_turn _ _ _ _ _ _ a Hw) as (j' & Hw' & _ & Hj).
    rewrite (flowing_waiting _ _ _ _ _ _ _ Hw) in *. rewrite (flowing_waiting _ _ _ _ _ _ _ Hw'). rewrite Hj by (done || lia). lia.
  - intros t w Hw. destruct (Hobs t w) as (t' & l & Hc). exists (f (turns l w)), t', (turns l w). split; [done|].
    assert (flow S E U false L (turns l w)) as Hw' by (by apply turns_stable; [apply flow_stable|]).
    pose proof (flow_turns_waiting S E U L l w Hw). split; [done|]. split; [done|]. split; [|done].
    intros Hz. apply Hf, flow_drained; [done|lia].
Qed.

(** A wait for something that is true once the queue is worked off. *)
Lemma gives_flow S E U L cond f n (R : unit → mq_world → Prop) : (∀ t, rounds n (naps t)) → (length E ≤ n)%nat →
  observes cond f → (∀ w, flowing S E U false L (length E) w → f w = true) →
  (∀ w, flow S E U false L w → f w = true → R tt w) → gives (flow S E U false L) (waitFor cond) R.
Proof.
  intros Hn Hle Hobs Hf HR. eapply gives_wait with (n := n); [by apply flow_awaited|done| |].
  - intros w [j Hw]. rewrite (flowing_waiting _ _ _ _ _ _ _ Hw). lia.
  - intros w [Hw Hfw]. auto.
Qed.

(** ** The relay and the queue *)

Lemma takes_ready {A} (f : A → string) (xs : list announced) rows b q : length rows = length xs →
  ready (mq_takes (zip_with (λ (r : A) (x : announced), (f r, order_placed_message x.1.1, Confirmed 0)) rows xs) b) q =
    ready b q ++ (if routed EXCHANGE ROUTING_KEY_ORDER_PLACED q then (λ x, (body x, false)) <$> xs else []).
Proof.
  revert b xs. induction rows as [|r rows IH]; intros b [|x xs] Hl; try done; cbn [zip_with mq_takes foldl].
  - destruct (routed _ _ _); by rewrite app_nil_r.
  - change (foldl _ _ _) with (mq_takes (zip_with (λ (r : A) (x : announced), (f r, order_placed_message x.1.1, Confirmed 0)) rows xs)
      (mq_publish (order_placed_message x.1.1) b)).
    rewrite IH by (by injection Hl). rewrite mq_published, <-app_assoc. unfold arrives.
    change (m_key (order_placed_message x.1.1)) with ROUTING_KEY_ORDER_PLACED. by destruct (routed _ _ _).
Qed.

(** The rows of the next batch and the events they announce. *)
Definition batch_announces (S : db) (xs : list announced) : Prop :=
  relayable S ∧ Forall good xs ∧
  Forall2 (λ (r : string * outbox_row) x, row_message r.2 = Ok (order_placed_message x.1.1)) (batch BATCH ∅ S) xs.

Lemma publish_sent_all hook n rows xs : (∀ id, hook id = None) →
  Forall2 (λ (r : string * outbox_row) x, row_message r.2 = Ok (order_placed_message x.1.1)) rows xs →
  l_sent (publish_rows confirmed hook n 0 rows) = zip_with (λ (r : string * outbox_row) (x : announced), (r.1, order_placed_message x.1.1, Confirmed 0)) rows xs.
Proof.
  intros Hh Hall. revert n. induction Hall as [|[id r] x rows xs Hm Hall IH]; intros n; [done|]. cbn [publish_rows zip_with].
  cbn [snd] in Hm. rewrite Hm. change (publishRaw _ _ _ _) with (@Ok unit tt, 0). cbv iota beta. rewrite Hh. cbn [l_sent fst]. by rewrite IH.
Qed.

Lemma batch_outbox n L d d' : outbox d = outbox d' → batch n L d = batch n L d'.
Proof. unfold batch, candidates. by intros ->. Qed.

Lemma beside_outbox f : beside (set_outbox f).
Proof. by split. Qed.

Lemma digested_outbox l d : outbox (digested l d).1 = outbox d.
Proof. destruct (digest_frame l d no_statistics) as (X & Y & HE). unfold digested. by rewrite HE. Qed.

(** A pass of a relay on a flowing world. *)
Lemma relay_flowing S E U r j w xs now t : flowing S E U r ∅ j w → batch_announces S xs → ∃ t' w',
  relay_pass_in (λ _, None) now no_fault t w = (Ok (Pass (length xs) (length xs) None), t', w') ∧
  flowing (set_outbox (mark_all now (batch BATCH ∅ S).*1) S) (E ++ xs) U r ∅ j w'.
Proof.
  intros [Hle Hg Hdb Hst Hw Hd Hu Hr Hl] (Hrel & Hgx & Hall).
  assert (Hloc : w_locked w = ∅) by (apply (anti_symm (⊆)); [done|apply empty_subseteq]).
  assert (Hout : outbox (w_db w) = outbox S) by (rewrite Hdb; apply digested_outbox).
  pose proof (batch_outbox BATCH ∅ _ _ Hout) as Hb.
  destruct (relay_pass_healthy confirmed (λ _, None) now BATCH 0 t (w_db w)) as [t' Hrun]; [by unfold relayable; rewrite Hout|by exists 0|done|].
  unfold relay_pass_in. rewrite Hloc, Hrun, relay_sent_pass, Hb by done. rewrite (publish_sent_all _ _ _ xs) by done.
  pose proof (Forall2_length _ _ _ Hall) as Hlen. rewrite Hlen.
  do 2 eexists. split; [reflexivity|]. split; cbn [w_db w_mq w_consumer w_relaying w_locked set_db set_mq]; try done.
  - rewrite length_app. lia.
  - by apply Forall_app.
  - rewrite take_app_le by done. rewrite digested_beside by apply beside_outbox. cbn [fst]. by rewrite <-Hdb.
  - rewrite take_app_le by done. rewrite digested_beside by apply beside_outbox. done.
  - rewrite takes_ready by done. rewrite fmap_app, Hw, drop_app_le, fmap_app by done. f_equal. change (routed EXCHANGE ROUTING_KEY_ORDER_PLACED WORK_QUEUE) with true. cbv iota. clear. induction xs as [|x xs IH]; [done|]. cbn. f_equal. exact IH.
  - rewrite takes_ready by done. by rewrite Hd.
  - rewrite takes_ready by done. by rewrite app_nil_r.
Qed.
End shop.

(** ** A broker *)

Section fix_amqp.
Record fix_queues := Queues { fq_ready : string → list (message * bool); fq_reason : option string }.

(** The oldest message of the work queue, settled. *)
Definition fix_consume (s : option settlement) (b : fix_queues) : fix_queues :=
  match fq_ready b WORK_QUEUE with
  | [] => b
  | (m, _) :: rest =>
      match s with
      | Some Ack => Queues (λ q, if decide (q = WORK_QUEUE) then rest else fq_ready b q) (fq_reason b)
      | Some (Reject false) =>
          Queues (λ q, if decide (q = WORK_QUEUE) then rest else fq_ready b q ++ arrives DLX ROUTING_KEY_ORDER_PLACED q m)
            (match fq_ready b DLQ with [] => Some "rejected" | _ => fq_reason b end)
      | _ => Queues (λ q, if decide (q = WORK_QUEUE) then (m, true) :: rest else fq_ready b q) (fq_reason b)
      end
  end.

Definition fix_amqp : Amqp := {|
  mq := fix_queues;
  ready := fq_ready;
  mq_publish := λ m b, Queues (λ q, fq_ready b q ++ arrives EXCHANGE (m_key m) q m) (fq_reason b);
  mq_purge := λ p b, Queues (λ q, if decide (q = p) then [] else fq_ready b q) (fq_reason b);
  mq_consume := fix_consume;
  first_death_reason := fq_reason;
|}.

Lemma fix_amqp_laws : @AmqpLaws fix_amqp.
Proof.
  split; cbn.
  - done.
  - done.
  - intros b m red rest q Hq. unfold fix_consume. by rewrite Hq.
  - intros b m red rest q Hq. unfold fix_consume. by rewrite Hq.
  - intros b s m rest [->| ->] Hq; unfold fix_consume; rewrite Hq; cbn; by (split; [done|intros q Hne; by rewrite decide_False]).
  - intros b Hw Hd. unfold fix_consume. destruct (fq_ready b WORK_QUEUE) as [|[m red] rest]; [done|]. cbn. by rewrite Hd.
Qed.

(** Everybody acts in each of the sleeps; nobody else between them. *)
Definition busy : list agent := [(Consuming, 0); (Relaying, 0); (Releasing, 0)].
Lemma busy_rounds n l : rounds n (replicate n busy ++ l).
Proof.
  induction n as [|n IH]; [constructor|]. apply (rounds_S n [busy]); [|done]. intros []; unfold busy; cbn; list_elem.
Qed.
Definition fix_world (d : db) : @mq_world fix_amqp := @MqWorld fix_amqp d (Queues (λ _, []) None) None false ∅.
End fix_amqp.
