(* ===== verification/OutboxDemos.v ===== *)
(** The demonstrations of the transactional outbox and of the queue, run
    against the modelled checkout, relay, broker and consumer, with a consumer
    working beside the script
    (src/outbox/demo-lib.ts, src/demo-crash-write.ts, src/demo-crash-relay.ts,
    src/outbox/relay-process.ts). *)
From stdpp Require Import pretty sorting.
From S2P Require Import Prelude JsNumber JsText Events Schema Sql Fixtures Checkout Publisher Relay Consumer Pipeline Async Http OrdersApi Oversell Mq.
#[local] Open Scope Z_scope.

(** ** src/outbox/demo-lib.ts *)

Section demos.
Context `{PgText, EventLib, Amqp} (next : gset Z → Z).
Context (acts pauses : nat → list agent) (naps : nat → list (list agent)) (clock : nat → Z) (uuid : nat → string).
Notation io := (async mq_world).
#[local] Notation waitFor := (waitFor naps).
#[local] Notation sleep := (sleep pauses).

Definition DEMO_STOCK : Z := 100.
(** 100, in cents *)
Definition DEMO_PRICE : Z := 10000.

(** INSERT INTO products ... ON CONFLICT (sku) DO UPDATE SET stock, price RETURNING id *)
Definition upsert_product (sku name : string) (stock : Z) (d : db) : Z * db :=
  let '(id, m) := upsert_returning next p_sku sku
    (λ p, ProductRow (p_sku p) (p_name p) DEMO_PRICE (p_is_active p) stock)
    (ProductRow sku name DEMO_PRICE true stock) (products d) in
  (id, set_products (λ _, m) d).
(** INSERT INTO users (email, full_name) ... ON CONFLICT (email) DO UPDATE SET
    balance = 1000000 RETURNING id; 1000000 is the default of the column, too. *)
Definition upsert_buyer (email name : string) (d : db) : Z * db :=
  let '(id, m) := upsert_returning next u_email email
    (λ u, UserRow (u_email u) (u_full_name u) 100000000 (u_password_hash u) (u_role u))
    (UserRow email name 100000000 None customer) (users d) in
  (id, set_users (λ _, m) d).

(** DELETE FROM orders WHERE buyer_id = $1; order_items, job_queue and
    idempotency_keys follow by ON DELETE CASCADE. *)
Definition delete_orders (buyer : Z) (d : db) : db :=
  let kept := filter (λ x : Z * order_row, o_buyer_id x.2 ≠ buyer) (orders d) in
  Db (users d) (products d) kept
    (filter (λ x : Z * order_item_row, is_Some (kept !! oi_order_id x.2)) (order_items d))
    (filter (λ x : Z * job_row, is_Some (kept !! j_order_id x.2)) (job_queue d))
    (filter (λ x : string * option Z, from_option (λ oid, bool_decide (is_Some (kept !! oid))) true x.2 = true) (idempotency_keys d))
    (outbox d) (processed_messages d) (order_receipts d) (refresh_tokens d) (access_denylist d) (files d)
    (seq_orders d) (seq_items d) (seq_jobs d) (seq_tokens d).

Definition product_of (tag : string) : db → Z * db := upsert_product ("OUTBOX-" +:+ tag) ("Товар демо " +:+ tag) DEMO_STOCK.
Definition buyer_of (tag : string) : db → Z * db := upsert_buyer ("outbox-" +:+ tag +:+ "@example.com") ("Покупець демо " +:+ tag).

(** The product and the buyer of the demonstration. *)
Definition prepareWorld (tag : string) : io (Z * Z) :=
  _ ← resetState;
  product ← stmt (product_of tag);
  buyer ← stmt (buyer_of tag);
  _ ← stmt (λ d, (tt, delete_orders buyer d));
  mret (product, buyer).

Definition countOrders (buyer : Z) : io Z :=
  ask (λ w, Z.of_nat (size (filter (λ x : Z * order_row, o_buyer_id x.2 = buyer) (orders (w_db w))))).
Definition countOutbox : io Z := ask (λ w, Z.of_nat (size (outbox (w_db w)))).
Definition published_rows (d : db) : Z :=
  Z.of_nat (size (filter (λ x : string * outbox_row, ob_published_at x.2 ≠ None) (outbox d))).
Definition countPublished : io Z := ask (λ w, published_rows (w_db w)).
Definition countProcessed : io Z := ask (λ w, Z.of_nat (size (processed_messages (w_db w)))).
Definition stockOf (product : Z) : io Z := ask (λ w, stock_of product (w_db w)).

(** ** relayUntilEmpty on this world *)

Definition not_drained : exn := JsError "relayUntilEmpty".
Fixpoint drain_from (fuel total : nat) : io nat :=
  match fuel with
  | O => io_throw not_drained
  | S fuel =>
      pass ← relay_once (λ _, None);
      match error pass with
      | Some e => io_throw e
      | None =>
          let total := (total + published pass)%nat in
          if (claimed pass =? 0)%nat then mret total else drain_from fuel total
      end
  end.
(** One pass more than there are rows. *)
Definition drain : io nat := λ σ t w, drain_from (S (size (outbox (w_db w)))) 0 σ t w.

(** ** src/demo-crash-write.ts *)

Definition write_failure : exn := JsError "збій бізнес-запису після INSERT в outbox".
(** Whether the failure is the one provoked; any other is thrown on. *)
Definition provoked {A} (r : result A) : io bool :=
  match r with
  | Ok _ => mret false
  | Err e => if decide (e = write_failure) then mret true else io_throw e
  end.

(** [outboxInserted] is set by the hook right before it throws, so it tells what
    [failed] tells: the exception of the hook came out. *)
Definition demo_crash_write (e : env) : io (list string) :=
  ids ← prepareWorld "crash-write"; let '(product, buyer) := ids in
  _ ← startConsumer;
  r ← io_try (with_db (checkout e (Err write_failure) (Params (pretty buyer) (pretty product) 1 (Some "crash-write-1"))));
  failed ← provoked r;
  _ ← drain;
  _ ← sleep;
  orders ← countOrders buyer;
  rows ← countOutbox;
  published ← countPublished;
  s ← stats;
  effect ← countEffects;
  queued ← queueDepth WORK_QUEUE;
  stock ← stockOf product;
  keys ← ask (λ w, Z.of_nat (size (idempotency_keys (w_db w))));
  _ ← close;
  mret (violated "outbox_insert_reached" failed ++ violated "write-failed" failed ++ violated "orders" (orders =? 0) ++ violated "outbox" (rows =? 0) ++
        violated "published" (published =? 0) ++ violated "deliveries" ((delivered s =? 0) && (queued =? 0)) ++
        violated "effect" (effect =? 0) ++ violated "stock" (stock =? DEMO_STOCK) ++ violated "keys" (keys =? 0)).

(** ** src/demo-crash-relay.ts and src/outbox/relay-process.ts *)

Definition SIGKILL : exn := JsError "SIGKILL".
(** The relay process up to its end: killed in [afterPublish] of the first row
    it published ([true]), its locks still held, or done without publishing. *)
Definition relay_process : io bool := λ σ t w,
  let w := s_others σ t w in
  match relay_pass_in (λ _, Some SIGKILL) (s_clock σ t) (s_fault σ) t w with
  | (Ok _, t', w') => (Ok false, t', w')
  | (Err e, t', w') =>
      if decide (e = SIGKILL) then (Ok true, t', set_locked (list_to_set (batch BATCH (w_locked w) (w_db w)).*1 ∪ w_locked w) w')
      else (Err timed_out, t', w')
  end.
(** SELECT attempts FROM outbox *)
Definition first_attempts : io Z := ask (λ w, match map_to_list (outbox (w_db w)) with x :: _ => ob_attempts x.2 | [] => 0 end).

Definition demo_crash_relay (e : env) : io (list string) :=
  ids ← prepareWorld "crash-relay"; let '(product, buyer) := ids in
  _ ← startConsumer;
  r ← with_db (checkout e no_hook (Params (pretty buyer) (pretty product) 1 (Some "crash-relay-1")));
  match r with
  | CheckoutFailure _ => io_throw (JsError "checkout")
  | CheckoutSuccess _ _ _ =>
      killed ← relay_process;
      afterKill ← countPublished;
      _ ← first_attempts;
      _ ← waitFor (_ ← relay_once (λ _, None); n ← countPublished; mret (n =? 1));
      _ ← waitFor (look (λ w, 2 <=? delivered (default no_statistics (w_consumer w))));
      _ ← waitFor (look (λ w, 2 <=? acked (default no_statistics (w_consumer w))));
      _ ← sleep;
      published ← countPublished;
      s ← stats;
      effect ← countEffects;
      processed ← countProcessed;
      _ ← close;
      mret (violated "killed" killed ++ violated "published_after_kill" (afterKill =? 0) ++ violated "published" (published =? 1) ++
            violated "deliveries" (2 <=? delivered s) ++ violated "applied" (applied s =? 1) ++
            violated "effect" (effect =? 1) ++ violated "processed" (processed =? 1))
  end.
End demos.

(** ** The prepared shop *)

Section prepared.
Context `{PgText, EventLib, Amqp} (next : gset Z → Z) (next_fresh : ∀ X, next X ∉ X).

Lemma truncate_ok d : db_ok d → db_ok (truncate_messaging d).
Proof.
  intros []. by split.
Qed.

Lemma upsert_product_ok sku name stock d i d' : db_ok d → 0 ≤ stock → int4 stock = true →
  upsert_product next sku name stock d = (i, d') → ∃ pr,
  db_ok d' ∧ d' = set_products <[i := pr]> d ∧ p_price pr = DEMO_PRICE ∧ p_stock pr = stock.
Proof.
  intros Hok Hs Hi. unfold upsert_product. destruct (upsert_returning _ _ _ _ _ (products d)) as [k m] eqn:Hu. intros [= <- <-].
  apply upsert_returning_cases in Hu; [|done].
  assert (Hm : ∃ pr, m = <[k := pr]> (products d) ∧ p_price pr = DEMO_PRICE ∧ p_stock pr = stock).
  { destruct Hu as [(a & _ & _ & ->)|(_ & _ & ->)]; eexists; split_and!; reflexivity. }
  destruct Hm as (pr & -> & Hp & Hst). exists pr. split; [|done]. apply db_ok_products; [done| |intros; by apply is_Some_insert].
  apply map_Forall_insert_2; [|apply Hok]. split; [by rewrite Hp|]. by rewrite Hst.
Qed.

Lemma upsert_buyer_ok email name d i d' : db_ok d → upsert_buyer next email name d = (i, d') → ∃ u,
  db_ok d' ∧ d' = set_users <[i := u]> d ∧ u_balance u = 100000000.
Proof.
  intros Hok. unfold upsert_buyer. destruct (upsert_returning _ _ _ _ _ (users d)) as [k m] eqn:Hu. intros [= <- <-].
  apply upsert_returning_cases in Hu; [|done].
  assert (Hm : ∃ u, m = <[k := u]> (users d) ∧ u_balance u = 100000000 ∧
    ∀ j u', j ≠ k → users d !! j = Some u' → u_email u' ≠ u_email u).
  { destruct Hu as [(a & Ha & Ek & ->)|(_ & Hno & ->)]; eexists; (split; [reflexivity|]; split; [reflexivity|]).
    - intros j u' Hj Hu' Heq. apply Hj. eapply (ok_email _ Hok j k); eauto. cbn in *. congruence.
    - intros j u' _ Hu' Heq. by apply (Hno j u'). }
  destruct Hm as (u & -> & Hb & He). exists u. split; [|done]. apply db_ok_users; [done| |intros; by apply is_Some_insert|].
  - apply map_Forall_insert_2; [unfold user_ok; rewrite Hb; by vm_compute|apply Hok].
  - intros x y a b e. rewrite !lookup_insert. repeat case_decide; intros; simplify_eq; try done.
    + exfalso. apply (He y b); congruence.
    + exfalso. apply (He x a); congruence.
    + eapply (ok_email _ Hok x y a b); [done|done|reflexivity|congruence].
Qed.

Lemma delete_orders_ok buyer d : db_ok d → db_ok (delete_orders buyer d).
Proof.
  intros [Hu Hp Ho Hi Hj Hk]. split; try done; cbn.
  - intros i o [Hio _]%map_lookup_filter_Some. by apply (Ho i o).
  - intros i x [Hix Hs]%map_lookup_filter_Some. destruct (Hi i x Hix) as (Ha & Hb & Hc & _ & Hd).
    exact (conj Ha (conj Hb (conj Hc (conj Hs Hd)))).
  - intros i x [Hix Hs]%map_lookup_filter_Some. destruct (Hj i x Hix) as (_ & Ha). exact (conj Hs Ha).
  - intros i x [Hix Hs]%map_lookup_filter_Some. destruct (Hk i x Hix) as (oid & -> & _). exists oid. split; [done|].
    cbn in Hs. by apply bool_decide_eq_true in Hs.
  - intros i [o [Hio _]%map_lookup_filter_Some]. eauto.
  - intros i [o [Hio _]%map_lookup_filter_Some]. eauto.
  - intros i [o [Hio _]%map_lookup_filter_Some]. eauto.
Qed.

(** A shop with nothing announced, a product and a buyer who can pay. *)
Record fresh_shop (product buyer stock : Z) (d : db) : Prop := {
  fs_ok : db_ok d;
  fs_outbox : outbox d = ∅;
  fs_processed : processed_messages d = ∅;
  fs_receipts : order_receipts d = ∅;
  fs_keys : idempotency_keys d = ∅;
  fs_product : ∃ pr, products d !! product = Some pr ∧ p_price pr = DEMO_PRICE ∧ p_stock pr = stock;
  fs_buyer : ∃ u, users d !! buyer = Some u ∧ u_balance u = 100000000;
}.

(** What the statements of the preparation make of a database. *)
Definition prepared (tag : string) (d : db) : Z * Z * db :=
  let '(product, d) := product_of next tag (truncate_messaging d) in
  let '(buyer, d) := buyer_of next tag d in
  (product, buyer, delete_orders buyer d).

Lemma prepared_fresh tag d product buyer d' : db_ok d → prepared tag d = (product, buyer, d') →
  fresh_shop product buyer DEMO_STOCK d' ∧ ∀ i o, orders d' !! i = Some o → o_buyer_id o ≠ buyer.
Proof.
  intros Hok. unfold prepared, product_of, buyer_of.
  destruct (upsert_product _ _ _ _ (truncate_messaging d)) as [i d1] eqn:Hp.
  destruct (upsert_buyer _ _ _ d1) as [j d2] eqn:Hb. intros [= <- <- <-].
  apply upsert_product_ok in Hp as (pr & Hok1 & -> & ? & ?); [|by apply truncate_ok|done|done].
  apply upsert_buyer_ok in Hb as (u & Hok2 & -> & ?); [|done]. split.
  - split; cbn; try done; [by apply delete_orders_ok|exists pr|exists u]; by rewrite lookup_insert_eq.
  - intros k o [_ Hne]%map_lookup_filter_Some. exact Hne.
Qed.
End prepared.

(** ** Steps of a demonstration *)

Section steps.
Context `{PgText, EventLib, Amqp, !PgTextLaws, !EventLibLaws, !AmqpLaws} (next : gset Z → Z) (next_fresh : ∀ X, next X ∉ X).
Context (acts pauses : nat → list agent) (naps : nat → list (list agent)) (clock : nat → Z) (uuid : nat → string).
#[local] Notation gives := (gives acts clock uuid).

Lemma gives_value {A} P (f : mq_world → A) (v : A) : stable P → (∀ w, P w → f w = v) → gives P (ask f) (λ a w, a = v ∧ P w).
Proof. intros HP Hv. apply gives_ask; [done|]. auto. Qed.
Lemma gives_looked {A} P (f : mq_world → A) (v : A) : (∀ w, P w → f w = v) → gives P (look f) (λ a w, a = v ∧ P w).
Proof. intros Hv. apply gives_look. auto. Qed.

(** Nobody works beside the script. *)
Record still (d : db) (w : mq_world) : Prop := {
  st_db : w_db w = d;
  st_consumer : w_consumer w = None;
  st_relaying : w_relaying w = false;
  st_locked : w_locked w = ∅;
}.
Definition empty_queues (w : mq_world) : Prop :=
  ready (w_mq w) WORK_QUEUE = [] ∧ ready (w_mq w) DLQ = [] ∧ ready (w_mq w) UNROUTABLE_QUEUE = [].

Lemma still_turn d a w : still d w → turn a w = w.
Proof.
  intros [Hdb Hc Hr Hl]. unfold turn. destruct a as [[] n]; cbn [fst snd]; [by rewrite Hc|by rewrite Hr|].
  unfold set_locked. rewrite <-Hl. by destruct w.
Qed.
Lemma still_stable d : stable (still d).
Proof. intros a w Hw. by rewrite (still_turn d). Qed.
Lemma cleared_stable d : stable (λ w, still d w ∧ empty_queues w).
Proof. intros a w [Hw He]. by rewrite (still_turn d). Qed.

Lemma gives_reset d : gives (still d) resetState (λ _ w, still (truncate_messaging d) w ∧ empty_queues w).
Proof.
  unfold resetState. eapply gives_bind.
  - apply (gives_act _ _ _ _ _ (λ _, still (truncate_messaging d))); [apply still_stable|]. intros w [Hdb Hc Hr Hl]. split; try done. cbn. by rewrite Hdb.
  - intros []. apply gives_act; [apply still_stable|]. intros w [Hdb Hc Hr Hl]. split; [by split|].
    unfold empty_queues, purgeAll. cbn. rewrite !mq_purged. done.
Qed.

Lemma gives_cleared {A} d (f : db → A * db) :
  gives (λ w, still d w ∧ empty_queues w) (stmt f) (λ a w, a = (f d).1 ∧ still (f d).2 w ∧ empty_queues w).
Proof.
  apply gives_stmt; [apply cleared_stable|]. intros w [[Hdb Hc Hr Hl] He]. rewrite Hdb. split; [done|]. split; [by split|done].
Qed.

Lemma gives_prepare tag d : gives (still d) (prepareWorld next tag)
  (λ r w, r = (prepared next tag d).1 ∧ still (prepared next tag d).2 w ∧ empty_queues w).
Proof.
  unfold prepareWorld, prepared. eapply gives_bind; [apply gives_reset|intros []].
  eapply gives_bind; [apply gives_cleared|intros product]. apply gives_pure. intros ->.
  destruct (product_of next tag (truncate_messaging d)) as [product d1]. cbn [fst snd].
  eapply gives_bind; [apply gives_cleared|intros buyer]. apply gives_pure. intros ->.
  destruct (buyer_of next tag d1) as [buyer d2]. cbn [fst snd].
  eapply gives_bind; [apply gives_cleared|intros []]. apply gives_pure. intros _. cbn [fst snd].
  apply gives_ret. done.
Qed.

(** The consumer starts on an empty queue. *)
Lemma gives_startConsumer d : gives (λ w, still d w ∧ empty_queues w) startConsumer (λ _, flow d [] 0 false ∅).
Proof.
  apply gives_act; [apply cleared_stable|]. intros w [[Hdb Hc Hr Hl] (Hw & Hd & Hu)]. exists 0%nat.
  split; cbn; try done; [by rewrite Hw|by rewrite Hu|by rewrite Hl].
Qed.

(** Before anything is published the database is the shop's. *)
Lemma flow_unpublished S U r L w : flow S [] U r L w → w_db w = S.
Proof. intros [j Hf]. by rewrite (fl_db _ _ _ _ _ _ _ Hf), take_nil. Qed.
Lemma flow_set_db S S' U r L w : flow S [] U r L w → flow S' [] U r L (set_db S' w).
Proof. intros [j [Hle Hg Hdb Hst Hw Hd Hu Hr Hl]]. exists j. split; try done; by rewrite take_nil in *. Qed.

(** A statement or transaction of the script before anything is published. *)
Lemma gives_unpublished {A} S S' U L (m : sql A) (a : A) : (∀ t, ∃ t', m no_fault t S = (Ok a, t', S')) →
  gives (flow S [] U false L) (with_db m) (λ r w, r = a ∧ flow S' [] U false L w).
Proof.
  intros Hm. apply gives_with_db; [apply flow_stable|]. intros t w Hw. rewrite (flow_unpublished _ _ _ _ _ Hw).
  destruct (Hm t) as [t' Hrun]. exists a, t', S'. split; [done|]. split; [done|by eapply flow_set_db].
Qed.
Lemma gives_unpublished_err {A} S S' U L (m : sql A) e : (∀ t, ∃ t', m no_fault t S = (Err e, t', S')) →
  gives (flow S [] U false L) (io_try (with_db m)) (λ r w, r = Err e ∧ flow S' [] U false L w).
Proof.
  intros Hm t w Hw. assert (flow S [] U false L (turns (acts t) w)) as Hw' by (by apply turns_stable; [apply flow_stable|]).
  destruct (Hm t) as [t' Hrun]. exists (Err e), t', (set_db S' (turns (acts t) w)).
  unfold io_try, with_db. cbn. rewrite (flow_unpublished _ _ _ _ _ Hw'), Hrun. split; [done|]. split; [done|by eapply flow_set_db].
Qed.

(** ** The purchase of a demonstration *)

(** The event of the purchase, as it will be stored. *)
Definition sale (e : env) (p : CheckoutParams) (S : db) : announced :=
  (spec_event e p (seq_orders S + 1) DEMO_PRICE, event_id (seq_orders S + 1), DEMO_PRICE).

Record can_buy (e : env) (p : CheckoutParams) (product buyer : Z) (S : db) (pr : product_row) (u : user_row) : Prop := {
  cb_ok : db_ok S;
  cb_outbox : outbox S !! outbox_id e = None;
  cb_quantity : quantity p = 1;
  cb_ids : bigint_in (productId p) = Some product ∧ bigint_in (buyerId p) = Some buyer;
  cb_product : products S !! product = Some pr ∧ p_price pr = DEMO_PRICE ∧ 1 ≤ p_stock pr;
  cb_buyer : users S !! buyer = Some u ∧ DEMO_PRICE < u_balance u;
  cb_new : replay_of p S = None;
  cb_seq : int8 (seq_orders S + 1) = true;
  cb_date : 0 ≤ date e < 253402300800000;
}.

Lemma place_throws e p φ t d x t' d' err : place e no_hook p φ t d = (Ok (Commit x), t', d') → place e (Err err) p φ t d = (Err err, t', d').
Proof.
  unfold place. intros Hrun. apply bind_ok_inv in Hrun as (a & t1 & d1 & H1' & Hrun).
  rewrite (bind_run _ _ _ _ _ _ _ _ H1'). destruct (unwrapReturning a); [by apply ret_ok_inv in Hrun as [[=] _]|].
  apply bind_ok_inv in Hrun as (b & t2 & d2 & H2' & Hrun).
  rewrite (bind_run _ _ _ _ _ _ _ _ H2'). destruct (unwrapReturning b); [by apply ret_ok_inv in Hrun as [[=] _]|].
  do 7 (apply bind_ok_inv in Hrun as (? & ? & ? & Hi & Hrun);
        rewrite (bind_run _ _ _ _ _ _ _ _ Hi); clear Hi).
  apply ret_ok_inv in Hrun as (_ & -> & ->). reflexivity.
Qed.

Lemma body_throws e p φ t d x t' d' err :
  checkout_body e no_hook p φ t d = (Ok (Commit x), t', d') → checkout_body e (Err err) p φ t d = (Err err, t', d').
Proof.
  unfold checkout_body. destruct (idempotencyKey p); [|apply place_throws]. intros Hrun.
  apply bind_ok_inv in Hrun as (a & t1 & d1 & Hq & Hrun). rewrite (bind_run _ _ _ _ _ _ _ _ Hq).
  destruct a; [|by eapply place_throws]. do 2 (apply bind_ok_inv in Hrun as (? & ? & ? & _ & Hrun)).
  by apply ret_ok_inv in Hrun as [[=] _].
Qed.

(** One unit is bought: what the checkout answers and commits, what a hook that
    throws leaves, and the announcement. *)
Lemma checkout_sale e p product buyer S pr u : can_buy e p product buyer S pr u →
  good (sale e p S) ∧
  (∀ t, ∃ t', checkout e no_hook p no_fault t S =
    (Ok (CheckoutSuccess (pretty (seq_orders S + 1)) (num_mul (num_of_cents DEMO_PRICE) (num_of_Z 1)) false), t',
     purchase e p product buyer pr u S)) ∧
  (∀ err t, ∃ t', checkout e (Err err) p no_fault t S = (Err err, t', rollback S (purchase e p product buyer pr u S))).
Proof.
  intros [Hok Hob Hq [Hpid Hbid] (Hp & Hprice & Hst) [Hu Hbal] Hnew Hseq Hdate].
  assert (Hreq : request_ok p product buyer) by (split; try done; rewrite Hq; done).
  destruct (affordable_amount (u_balance u) (p_price pr) (quantity p)) as (x & _ & Ha & _ & Hge);
    [apply (ok_products _ Hok _ _ Hp)|rewrite Hq; lia|apply (ok_users _ Hok _ _ Hu)|].
  assert (Haff : affordable (u_balance u) (p_price pr) (quantity p) = true) by (rewrite Ha; apply Hge; rewrite Hprice, Hq; lia).
  pose proof (purchase_announces e p product buyer pr u S Hok Hreq Hp Hu Haff Hseq Hdate) as Hann. cbv zeta in Hann. split.
  { unfold sale, good. cbn [fst snd]. rewrite Hprice in Hann. split; [apply Hann|]. pose proof (an_storable _ _ _ Hann) as Hs.
    cbn [o_total_amount] in Hs. by rewrite Hq, Z.mul_1_r in Hs. }
  assert (Hspec : checkout_spec e p product buyer S =
    (CheckoutSuccess (pretty (seq_orders S + 1)) (num_mul (num_of_cents DEMO_PRICE) (num_of_Z 1)) false, purchase e p product buyer pr u S)).
  { unfold checkout_spec. rewrite Hnew, Hp, Hu, Haff, Hprice, Hq. by rewrite (proj2 (Z.ltb_ge _ _)) by lia. }
  assert (Hbody : ∀ t, ∃ t', checkout_body e no_hook p no_fault t S =
    (Ok (Commit (checkout_spec e p product buyer S).1), t', (checkout_spec e p product buyer S).2)).
  { intros t. destruct (body_spec e p product buyer S t Hok Hreq Hob) as (y & t' & d1 & Hb & Hy). exists t'. rewrite Hb.
    destruct y as [r|r]; [by destruct Hy as (<- & _)|]. destruct Hy as [Hr Hno]. rewrite Hspec in Hr. injection Hr as Hr _. by destruct (Hno _ _ Hr). }
  rewrite Hspec in Hbody. cbn [fst snd] in Hbody. split.
  - intros t. destruct (Hbody (Datatypes.S t)) as [t' Hb]. eexists. by apply transaction_run.
  - intros err t. destruct (Hbody (Datatypes.S t)) as [t' Hb]. apply (body_throws _ _ _ _ _ _ _ _ err) in Hb.
    unfold checkout, transaction. cbn. rewrite Hb. eexists. reflexivity.
Qed.

Lemma fresh_can_buy e key product buyer stock S : fresh_shop product buyer stock S → 1 ≤ stock → int8 product = true → int8 buyer = true →
  int8 (seq_orders S + 1) = true → 0 ≤ date e < 253402300800000 →
  ∃ pr u, p_stock pr = stock ∧ can_buy e (Params (pretty buyer) (pretty product) 1 key) product buyer S pr u.
Proof.
  intros [Hok Ho Hm Hr Hk (pr & Hp & Hprice & Hst) (u & Hu & Hb)] Hs Hp8 Hb8 Hseq Hdate. exists pr, u. split; [done|].
  split; cbn; try done.
  - by rewrite Ho.
  - by split; apply bigint_in_out.
  - split; [done|]. split; [done|lia].
  - split; [done|]. rewrite Hb. by vm_compute.
  - unfold replay_of. cbn. destruct key; [cbn; by rewrite Hk|done].
Qed.

(** ** A relay with nothing to do *)

Lemma relay_idle hook now L t d : batch BATCH L d = [] → ∃ t',
  relayOnce confirmed hook now BATCH L 0 no_fault t d = (Ok (Pass 0 0 None), t', d).
Proof.
  intros Hb. unfold relayOnce, transaction, relay_body. cbn -[BATCH].
  erewrite bind_run; [|by apply query_run]. fold (batch BATCH L d). rewrite Hb. eexists. reflexivity.
Qed.

Lemma relay_pass_idle hook now t w : batch BATCH (w_locked w) (w_db w) = [] → ∃ t',
  relay_pass_in hook now no_fault t w = (Ok (Pass 0 0 None), t', w).
Proof.
  intros Hb. destruct (relay_idle hook now (w_locked w) t (w_db w) Hb) as [t' Hrun]. exists t'. unfold relay_pass_in.
  rewrite Hrun, relay_sent_pass, Hb by done. by destruct w.
Qed.

Lemma batch_nothing L S : outbox S = ∅ → batch BATCH L S = [].
Proof. intros Ho. unfold batch, candidates. rewrite Ho, map_to_list_empty. reflexivity. Qed.

Lemma batch_single S L id row : outbox S = {[id := row]} → ob_published_at row = None → id ∉ L → batch BATCH L S = [(id, row)].
Proof.
  intros Ho Hp Hl. unfold batch, candidates. rewrite Ho, map_to_list_singleton.
  rewrite filter_cons_True, filter_nil by (unfold unpublished; cbn; by rewrite Hp). reflexivity.
Qed.

Lemma batch_done S L id row : outbox S = {[id := row]} → (ob_published_at row ≠ None ∨ id ∈ L) → batch BATCH L S = [].
Proof.
  intros Ho Hp. unfold batch, candidates. rewrite Ho, map_to_list_singleton.
  rewrite filter_cons_False; [reflexivity|]. unfold unpublished. cbn. intros [? ?]. destruct Hp as [Hp|Hp]; [|done].
  by destruct (ob_published_at row).
Qed.

Lemma gives_drain_idle S U : (outbox S = ∅) → gives (flow S [] U false ∅) drain (λ _, flow S [] U false ∅).
Proof.
  intros Ho t w Hw. unfold drain. cbn [drain_from].
  assert (flow S [] U false ∅ (turns (acts t) w)) as Hw' by (by apply turns_stable; [apply flow_stable|]).
  destruct (relay_pass_idle (λ _, None) (clock t) t (turns (acts t) w)) as [t' Hrun].
  { rewrite (flow_unpublished _ _ _ _ _ Hw'). by apply batch_nothing. }
  exists 0%nat, t', (turns (acts t) w). split; [|done]. erewrite io_bind_run; [|exact Hrun]. reflexivity.
Qed.

(** What a script reads after an event-free run. *)
Lemma unpublished_reads S U w : flow S [] U false ∅ w →
  w_db w = S ∧ w_consumer w = Some no_statistics ∧ ready (w_mq w) WORK_QUEUE = [] ∧ ready (w_mq w) DLQ = [].
Proof.
  intros [j Hf]. split; [by eapply flow_unpublished; exists j|]. rewrite (fl_stats _ _ _ _ _ _ _ Hf), take_nil. split; [done|].
  pose proof (fl_work _ _ _ _ _ _ _ Hf) as Hw. rewrite drop_nil in Hw. apply fmap_nil_inv in Hw. split; [done|apply Hf].
Qed.

(** ** One event, delivered once or twice *)

Lemma digested_counts l d s : delivered (foldl digest (d, s) l).2 = delivered s + Z.of_nat (length l) ∧
  acked (foldl digest (d, s) l).2 = acked s + Z.of_nat (length l).
Proof.
  revert d s. induction l as [|x l IH]; intros d s; cbn [foldl length]; [cbn; lia|].
  destruct (digest (d, s) x) as [d1 s1] eqn:Hd. destruct (IH d1 s1) as [-> ->].
  unfold digest in Hd. cbn [fst snd] in Hd. destruct (apply_spec _ _ _ d) as [[] d2]; injection Hd as <- <-; cbn; lia.
Qed.

Lemma flowing_counts D E U r L j w : flowing D E U r L j w → ∃ s, w_consumer w = Some s ∧ delivered s = Z.of_nat j ∧ acked s = Z.of_nat j.
Proof.
  intros Hf. exists (digested (take j E) D).2. split; [apply Hf|]. pose proof (fl_le _ _ _ _ _ _ _ Hf).
  destruct (digested_counts (take j E) D no_statistics) as [Hd Ha]. unfold digested. rewrite Hd, Ha, length_take_le by done. cbn. lia.
Qed.

Record effect_once (x : announced) (D D' : db) (s s' : ConsumerStats) : Prop := {
  eo_marks : processed_messages D' = {[(x.1.2, CONSUMER_NAME)]};
  eo_receipts : order_receipts D' = {[x.1.2 := receipt_of x.1.1 x.2]};
  eo_applied : applied s' = applied s + 1 ∧ skipped s' = skipped s;
}.

Lemma digest_first x D s : processed_messages D = ∅ → order_receipts D = ∅ →
  effect_once x D (digest (D, s) x).1 s (digest (D, s) x).2.
Proof.
  intros Hm Hr. unfold digest, apply_spec. cbn [fst snd]. rewrite Hm, decide_False by apply not_elem_of_empty.
  assert (receipt_conflict x.1.2 (od_orderId (ev_data x.1.1)) (set_processed (λ s0, {[(x.1.2, CONSUMER_NAME)]} ∪ s0) D) = false) as ->.
  { apply bool_decide_eq_false_2. cbn. rewrite Hr. intros [[? Hl]|(? & ? & Hl & _)]; by rewrite lookup_empty in Hl. }
  split; cbn; [by rewrite Hm, union_empty_r_L|by rewrite Hr|done].
Qed.

Lemma digest_again x D s : (x.1.2, CONSUMER_NAME) ∈ processed_messages D →
  digest (D, s) x = (D, Stats (delivered s + 1) (applied s) (skipped s + 1) (acked s + 1) (rejected s)).
Proof. intros Hin. unfold digest, apply_spec. cbn [fst snd]. by rewrite decide_True. Qed.

(** The same event twice: one mark, one receipt, applied once. *)
Lemma digest_twice x D : processed_messages D = ∅ → order_receipts D = ∅ →
  size (order_receipts (digested [x; x] D).1) = 1%nat ∧ size (processed_messages (digested [x; x] D).1) = 1%nat ∧
  applied (digested [x; x] D).2 = 1.
Proof.
  intros Hm Hr. unfold digested. cbn [foldl]. pose proof (digest_first x D no_statistics Hm Hr) as [Hm1 Hr1 [Ha _]].
  destruct (digest (D, no_statistics) x) as [D1 s1]. cbn [fst snd] in *. rewrite digest_again by (rewrite Hm1; by apply elem_of_singleton).
  cbn [fst snd]. rewrite Hm1, Hr1, map_size_singleton, size_singleton. split_and!; [done|done|]. cbn. by rewrite Ha.
Qed.

(** ** The announcement of a purchase, and a relay that dies after it *)

Definition sale_row (e : env) (p : CheckoutParams) (D : db) : outbox_row :=
  OutboxRow "Order" (pretty (seq_orders D + 1)) "order.placed" (event_json (sale e p D).1.1) (now e) None 0.

Lemma sale_row_message e p D : row_message (sale_row e p D) = Ok (body (sale e p D)).
Proof. reflexivity. Qed.

Lemma sale_outbox e p product buyer D pr u : can_buy e p product buyer D pr u →
  outbox (purchase e p product buyer pr u D) = <[outbox_id e := sale_row e p D]> (outbox D).
Proof. intros Hb. unfold purchase. cbn [outbox]. by rewrite (proj1 (proj2 (cb_product _ _ _ _ _ _ _ Hb))). Qed.

Lemma rollback_self d : rollback d d = d.
Proof. by destruct d. Qed.

Lemma relay_crash hook now L t d id r msg rest err : batch BATCH L d = (id, r) :: rest → row_message r = Ok msg → hook id = Some err →
  ∃ t', relayOnce confirmed hook now BATCH L 0 no_fault t d = (Err err, t', d) ∧
    relay_sent confirmed hook BATCH L 0 no_fault t d = [(id, msg, Confirmed 0)].
Proof.
  intros Hb Hm Hh. rewrite relay_sent_pass, Hb by done. cbn [publish_rows]. rewrite Hm.
  change (publishRaw _ _ _ _) with (@Ok unit tt, 0). cbv iota beta. rewrite Hh. unfold relayOnce, transaction, relay_body.
  erewrite bind_run; [|by apply query_run]. fold (batch BATCH L d). rewrite Hb. cbn [publish_rows]. rewrite Hm.
  change (publishRaw _ _ _ _) with (@Ok unit tt, 0). cbv iota beta. rewrite Hh. cbn [l_thrown throw].
  eexists. split; [|reflexivity]. unfold throw. cbv iota beta. by rewrite rollback_self.
Qed.

(** The killed relay: the message is out, the row is not marked and still locked. *)
Lemma gives_relay_process D U id r x : outbox D = {[id := r]} → ob_published_at r = None → row_message r = Ok (body x) → good x →
  gives (flow D [] U false ∅) relay_process (λ killed w, killed = true ∧ flow D [x] U false {[id]} w).
Proof.
  intros Ho Hp Hm Hg t w Hw. assert (flow D [] U false ∅ (turns (acts t) w)) as [j Hf] by (by apply turns_stable; [apply flow_stable|]).
  set (w1 := turns (acts t) w) in *. assert (Hdb : w_db w1 = D) by (by rewrite (fl_db _ _ _ _ _ _ _ Hf), take_nil).
  assert (Hl : w_locked w1 = ∅) by (apply (anti_symm (⊆)); [apply Hf|apply empty_subseteq]).
  assert (Hb : batch BATCH ∅ D = [(id, r)]) by (apply batch_single; [done..|apply not_elem_of_empty]).
  destruct (relay_crash (λ _, Some SIGKILL) (clock t) ∅ t D id r _ [] SIGKILL Hb Hm eq_refl) as (t' & Hrun & Hsent).
  unfold relay_process. cbn [s_others others s_clock s_fault]. fold w1. unfold relay_pass_in. rewrite Hl, Hdb, Hrun, Hsent, Hb.
  rewrite decide_True by done. do 3 eexists. split; [reflexivity|]. split; [done|]. exists 0%nat.
  pose proof (takes_ready (λ _ : unit, id) [x] [tt] (w_mq w1)) as Hready. cbn [zip_with] in Hready.
  split; cbn [w_db w_mq w_consumer w_relaying w_locked set_db set_mq set_locked]; try done.
  - cbn. lia.
  - by constructor.
  - rewrite (fl_stats _ _ _ _ _ _ _ Hf), take_nil. done.
  - change (body x) with (order_placed_message x.1.1). rewrite (Hready WORK_QUEUE eq_refl), fmap_app, (fl_work _ _ _ _ _ _ _ Hf), drop_nil. done.
  - change (body x) with (order_placed_message x.1.1). rewrite (Hready DLQ eq_refl), (fl_dlq _ _ _ _ _ _ _ Hf). done.
  - change (body x) with (order_placed_message x.1.1). rewrite (Hready UNROUTABLE_QUEUE eq_refl), length_app, (fl_unroutable _ _ _ _ _ _ _ Hf).
    change (routed EXCHANGE ROUTING_KEY_ORDER_PLACED UNROUTABLE_QUEUE) with false. cbn. lia.
  - apply Hf.
  - cbn. by rewrite !(right_id_L ∅ (∪)).
Qed.

(** ** The restarted relay *)

Lemma turn_locked a w : w_locked (turn a w) ⊆ w_locked w.
Proof.
  destruct a as [[] n]; unfold turn; cbn [fst snd]; [| |apply empty_subseteq].
  - destruct (w_consumer w); [|done]. destruct (ready _ _) as [|[m r] l]; [done|]. by destruct (Consumer.handle _ _ _ _ _ _ _) as [[h t'] d'].
  - destruct (w_relaying w); [|done]. unfold relay_pass_in. by destruct (relayOnce _ _ _ _ _ _ _ _ _) as [[r t'] d'].
Qed.

Lemma gives_or {A} P1 P2 (m : async mq_world A) Q : gives P1 m Q → gives P2 m Q → gives (λ w, P1 w ∨ P2 w) m Q.
Proof. intros H1' H2' t w [Hw|Hw]; [exact (H1' t w Hw)|exact (H2' t w Hw)]. Qed.

(** A wait until the consumer has counted every event. *)
Lemma gives_counted D E U n (count : ConsumerStats → Z) : (count = delivered ∨ count = acked) → (∀ t, rounds n (naps t)) → (length E ≤ n)%nat →
  gives (flow D E U false ∅) (waitFor naps (look (λ w, Z.of_nat (length E) <=? count (default no_statistics (w_consumer w)))))
    (λ _, flowing D E U false ∅ (length E)).
Proof.
  intros Hc Hn Hle.
  assert (Hcount : ∀ j w, flowing D E U false ∅ j w → count (default no_statistics (w_consumer w)) = Z.of_nat j).
  { intros j w Hf. destruct (flowing_counts _ _ _ _ _ _ _ Hf) as (s & -> & Hd & Ha). by destruct Hc as [->| ->]. }
  apply (gives_flow acts naps clock uuid D E U ∅ _ (λ w, Z.of_nat (length E) <=? count (default no_statistics (w_consumer w))) n);
    [done|done|apply observes_look|..].
  - intros w Hf. cbn. rewrite (Hcount _ _ Hf). lia.
  - cbn. intros w [j Hf] Hj. rewrite (Hcount _ _ Hf) in Hj. pose proof (fl_le _ _ _ _ _ _ _ Hf). by replace (length E) with j by lia.
Qed.

Definition relayed_at (now : Z) (id : string) (D : db) : db := set_outbox (mark_all now [id]) D.

Lemma published_single D id r : outbox D = {[id := r]} →
  published_rows D = match ob_published_at r with None => 0 | Some _ => 1 end.
Proof.
  intros Ho. unfold published_rows. rewrite Ho. destruct (ob_published_at r) eqn:Hp.
  - rewrite map_filter_singleton_True by (cbn; by rewrite Hp). by rewrite map_size_singleton.
  - rewrite map_filter_singleton_False; [done|]. cbn. rewrite Hp. by intros Hn.
Qed.

Lemma relayed_outbox now id r D : outbox D = {[id := r]} → outbox (relayed_at now id D) = {[id := attempted r (Some now)]}.
Proof.
  intros Ho. unfold relayed_at. cbn. rewrite Ho. apply map_eq. intros i. rewrite mark_all_lookup.
  destruct (decide (id = i)) as [<-|Hne].
  - rewrite !lookup_singleton_eq. cbn. by rewrite decide_True by left.
  - by rewrite !lookup_singleton_ne.
Qed.

Section restart.
Context (D : db) (U : nat) (id : string) (r : outbox_row) (x : announced).
Context (Hout : outbox D = {[id := r]}) (Hnew : ob_published_at r = None) (Hroom : 0 ≤ ob_attempts r < 2147483647)
  (Hmsg : row_message r = Ok (body x)) (Hgood : good x).

Definition again (w : mq_world) : Prop := ∃ now, flow (relayed_at now id D) [x; x] U false ∅ w.
Definition held (L : gset string) (w : mq_world) : Prop := flow D [x] U false {[id]} w ∧ w_locked w ⊆ L.

Lemma again_stable : stable again.
Proof. intros a w [now Hw]. exists now. by apply flow_stable. Qed.
Lemma held_stable L : stable (held L).
Proof. intros a w [Hw Hl]. split; [by apply flow_stable|]. etrans; [apply turn_locked|done]. Qed.

Lemma flow_held w : flow D [x] U false {[id]} w → held {[id]} w.
Proof. intros Hw. split; [exact Hw|]. destruct Hw as [j Hf]. apply Hf. Qed.

Lemma flow_outbox D' E L w : flow D' E U false L w → outbox (w_db w) = outbox D'.
Proof. intros [j Hf]. rewrite (fl_db _ _ _ _ _ _ _ Hf). apply digested_outbox. Qed.

Lemma batch_ready xs : xs = [x] → batch_announces D xs.
Proof.
  intros ->. assert (Hb : batch BATCH ∅ D = [(id, r)]) by (apply batch_single; [done..|apply not_elem_of_empty]). split; [|split].
  - intros i y Hi _. rewrite Hout in Hi. apply lookup_singleton_Some in Hi as [_ <-]. split; [|done].
    intros Hn. unfold row_message in Hmsg. by rewrite Hn in Hmsg.
  - by constructor.
  - rewrite Hb. by constructor.
Qed.

(** A pass publishes the row a second time, unless it is still locked. *)
Lemma relay_held L : gives (held L) (relay_once (λ _, None)) (λ _ w, again w ∨ (held L w ∧ L ≠ ∅)).
Proof.
  apply gives_relay; [apply held_stable|]. intros now t w [[j Hf] Hl]. destruct (decide (w_locked w = ∅)) as [He|Hne].
  - assert (Hf' : flowing D [x] U false ∅ j w) by (destruct Hf; split; try done; by rewrite He).
    destruct (relay_flowing D [x] U false j w [x] now t Hf' (batch_ready _ eq_refl)) as (t' & w' & Hrun & Hfl).
    do 3 eexists. split; [exact Hrun|]. left. exists now, j. rewrite (batch_single D ∅ id r) in Hfl by (done || apply not_elem_of_empty). exact Hfl.
  - destruct (relay_pass_idle (λ _, None) now t w) as [t' Hrun].
    { apply (batch_done _ _ id r); [by rewrite (fl_db _ _ _ _ _ _ _ Hf), digested_outbox|]. right. pose proof (fl_locked _ _ _ _ _ _ _ Hf) as Hs.
      destruct (set_choose_L _ Hne) as [i Hi]. pose proof (Hs i Hi) as ->%elem_of_singleton. done. }
    do 3 eexists. split; [exact Hrun|]. right. split; [split; [by exists j|done]|]. intros ->.
    apply Hne. apply (anti_symm (⊆)); [done|apply empty_subseteq].
Qed.

Lemma relay_again : gives again (relay_once (λ _, None)) (λ _, again).
Proof.
  apply gives_relay; [apply again_stable|]. intros now t w [now' Hw]. destruct (relay_pass_idle (λ _, None) now t w) as [t' Hrun].
  { apply (batch_done _ _ id (attempted r (Some now'))); [|by left]. rewrite (flow_outbox _ _ _ _ Hw). by apply relayed_outbox. }
  do 3 eexists. split; [exact Hrun|]. by exists now'.
Qed.

Lemma again_published w : again w → published_rows (w_db w) = 1.
Proof. intros [now Hw]. by rewrite (published_single _ id (attempted r (Some now))) by (by rewrite (flow_outbox _ _ _ _ Hw); apply relayed_outbox). Qed.
Lemma held_published L w : held L w → published_rows (w_db w) = 0.
Proof. intros [Hw _]. rewrite (published_single _ id r) by (by rewrite (flow_outbox _ _ _ _ Hw)). by rewrite Hnew. Qed.

Lemma restart_cond L : gives (λ w, held L w ∨ again w) (_ ← relay_once (λ _, None); n ← countPublished; mret (n =? 1))
  (λ b w, (b = true ∧ again w) ∨ (b = false ∧ held L w ∧ L ≠ ∅)).
Proof.
  eapply (gives_bind _ _ _ _ _ (λ _ w, again w ∨ (held L w ∧ L ≠ ∅))).
  - apply gives_or; [apply relay_held|]. eapply gives_weaken; [apply relay_again|done|]. by left.
  - intros ?. apply gives_or.
    + eapply gives_bind; [apply (gives_value _ _ 1); [apply again_stable|apply again_published]|]. intros n. apply gives_pure. intros ->.
      apply gives_ret. by left.
    + eapply gives_bind; [apply (gives_value _ _ 0)|].
      * intros a0 w [Hw ?]. split; [by apply held_stable|done].
      * intros w [Hw _]. by apply (held_published L).
      * intros n. apply gives_pure. intros ->. apply gives_ret. by right.
Qed.
Definition locks_left (w : mq_world) : nat := if decide (w_locked w = ∅) then 0 else 1.

Lemma locks_mono w w' : w_locked w' ⊆ w_locked w → (locks_left w' ≤ locks_left w)%nat.
Proof.
  unfold locks_left. intros Hl. destruct (decide (w_locked w = ∅)) as [He|]; [|case_decide; lia].
  rewrite decide_True; [done|]. apply (anti_symm (⊆)); [by rewrite <-He|apply empty_subseteq].
Qed.

Lemma again_unlocked w : again w → w_locked w = ∅.
Proof. intros [now [j Hf]]. apply (anti_symm (⊆)); [apply Hf|apply empty_subseteq]. Qed.

Lemma restart_awaited : awaited acts clock uuid (λ w, held {[id]} w ∨ again w) locks_left (λ _, Releasing)
  (_ ← relay_once (λ _, None); n ← countPublished; mret (n =? 1)) again.
Proof.
  split.
  - intros a w [Hw|Hw]; [left; by apply held_stable|right; by apply again_stable].
  - intros a w _. apply locks_mono, turn_locked.
  - intros [k n] w _ Hne Ha. cbn in Ha. subst k. change (turn (Releasing, n) w) with (set_locked ∅ w).
    unfold locks_left in *. cbn [w_locked set_locked]. rewrite (decide_True (P := ∅ = ∅)) by done.
    destruct (decide (w_locked w = ∅)); [done|lia].
  - intros t w Hw. destruct (restart_cond (w_locked w) t w) as (b & t' & w' & Hrun & Hb).
    { destruct Hw as [[Hw _]|Hw]; [left; by split|by right]. }
    exists b, t', w'. split; [exact Hrun|]. destruct Hb as [[-> Hb]|(-> & [Hb Hl] & Hne)].
    + split; [by right|]. split; [|done]. apply locks_mono. rewrite (again_unlocked _ Hb). apply empty_subseteq.
    + split; [left; split; [done|]; destruct Hb as [j Hf]; apply Hf|]. split; [by apply locks_mono|]. split; [|done].
      unfold locks_left. case_decide; [done|lia].
Qed.

(** The rest of the demonstration: both deliveries, one effect. *)
Lemma again_reads now w : processed_messages D = ∅ → order_receipts D = ∅ →
  flowing (relayed_at now id D) [x; x] U false ∅ 2 w → ∃ s, w_consumer w = Some s ∧ delivered s = 2 ∧ acked s = 2 ∧ applied s = 1 ∧
  size (order_receipts (w_db w)) = 1%nat ∧ size (processed_messages (w_db w)) = 1%nat.
Proof.
  intros Hm Hr Hf. destruct (flowing_counts _ _ _ _ _ _ _ Hf) as (s & Hs & Hd & Ha). exists s. split; [done|]. split; [done|]. split; [done|].
  destruct (digest_twice x (relayed_at now id D) Hm Hr) as (H1' & H2' & H3').
  pose proof (fl_stats _ _ _ _ _ _ _ Hf) as Hst. rewrite Hs in Hst. injection Hst as ->.
  rewrite (fl_db _ _ _ _ _ _ _ Hf). by split_and!.
Qed.
End restart.
End steps.

(** Read a value of a world all of whose worlds agree on it. *)
Ltac read_step v :=
  eapply gives_bind; [apply (gives_value _ _ _ _ _ v)|intros ?; apply gives_pure; intros ->].

(** ** A failing write *)

Section crash_write.
Context `{PgText, EventLib, Amqp, !PgTextLaws, !EventLibLaws, !AmqpLaws} (next : gset Z → Z) (next_fresh : ∀ X, next X ∉ X).
Context (acts pauses : nat → list agent) (naps : nat → list (list agent)) (clock : nat → Z) (uuid : nat → string).
#[local] Notation gives := (gives acts clock uuid).

(** demo:crash-write exits with 0.  Whatever the consumer and the sessions of
    the server do meanwhile, a checkout that fails after the INSERT into outbox
    leaves no order, no event, no delivery, the whole stock and no key. *)
Theorem crash_write_passes e d w t product buyer D : db_ok d → still d w →
  prepared next "crash-write" d = (product, buyer, D) → int8 product = true → int8 buyer = true → int8 (seq_orders D + 1) = true → 0 ≤ date e < 253402300800000 →
  assertInvariant (demo_crash_write next pauses e (others acts clock uuid) t w).1.1 = 0.
Proof.
  intros Hok Hw Hprep Hp8 Hb8 Hs8 Hdate.
  destruct (prepared_fresh next next_fresh _ _ _ _ _ Hok Hprep) as [Hfresh Hnone].
  destruct (fresh_can_buy e (Some "crash-write-1") product buyer DEMO_STOCK D Hfresh) as (pr & u & Hst & Hbuy); [done..|].
  destruct (checkout_sale e _ product buyer D pr u Hbuy) as (_ & _ & Hthrow). specialize (Hthrow write_failure).
  set (D' := rollback D _) in Hthrow.
  assert (Hreads : ∀ w, flow D' [] 0 false ∅ w → w_db w = D' ∧ w_consumer w = Some no_statistics ∧ ready (w_mq w) WORK_QUEUE = [])
    by (intros w1 Hw1; by destruct (unpublished_reads _ _ _ Hw1) as (? & ? & ? & _)).
  assert (Hgives : gives (still d) (demo_crash_write next pauses e) (λ bad _, bad = [])).
  { unfold demo_crash_write. eapply gives_bind; [apply gives_prepare|intros ids]. rewrite Hprep. apply gives_pure. intros ->. cbn [fst snd].
    eapply gives_bind; [apply gives_startConsumer|intros []].
    eapply gives_bind; [by apply (gives_unpublished_err _ _ _ D D')|intros r]. apply gives_pure. intros ->.
    unfold provoked. rewrite decide_True by done. eapply gives_bind; [by apply (gives_ret _ _ _ _ true (λ b w, b = true ∧ flow D' [] 0 false ∅ w))|intros b].
    apply gives_pure. intros ->. eapply gives_bind; [by apply gives_drain_idle, Hfresh|intros n].
    eapply gives_bind; [apply gives_sleep, flow_stable|intros []].
    read_step 0; [apply flow_stable|..].
    { intros w1 Hw1. destruct (Hreads _ Hw1) as (-> & _). replace (filter _ _) with (∅ : gmap Z order_row); [done|]. symmetry.
      apply map_empty. intros i. apply map_lookup_filter_None. right. intros o Ho Heq. exact (Hnone i o Ho Heq). }
    read_step 0; [apply flow_stable|intros w1 Hw1; destruct (Hreads _ Hw1) as (-> & _); cbn; by rewrite (fs_outbox _ _ _ _ Hfresh)|].
    read_step 0; [apply flow_stable|intros w1 Hw1; destruct (Hreads _ Hw1) as (-> & _); unfold published_rows; cbn; by rewrite (fs_outbox _ _ _ _ Hfresh)|].
    eapply gives_bind; [apply (gives_looked _ _ _ _ _ no_statistics); intros w1 Hw1; by destruct (Hreads _ Hw1) as (_ & -> & _)|intros s].
    apply gives_pure. intros ->.
    read_step 0; [apply flow_stable|intros w1 Hw1; destruct (Hreads _ Hw1) as (-> & _); cbn; by rewrite (fs_receipts _ _ _ _ Hfresh)|].
    read_step 0; [apply flow_stable|intros w1 Hw1; by destruct (Hreads _ Hw1) as (_ & _ & ->)|].
    read_step DEMO_STOCK; [apply flow_stable|intros w1 Hw1; destruct (Hreads _ Hw1) as (-> & _)|].
    { unfold stock_of. change (products D') with (products D). by rewrite (proj1 (cb_product _ _ _ _ _ _ _ Hbuy)). }
    read_step 0; [apply flow_stable|intros w1 Hw1; destruct (Hreads _ Hw1) as (-> & _); cbn; by rewrite (fs_keys _ _ _ _ Hfresh)|].
    eapply gives_bind; [apply (gives_act _ _ _ _ _ (λ _ _, True)); [apply flow_stable|done]|intros []]. by apply gives_ret. }
  destruct (Hgives t w Hw) as (bad & t' & w' & Hrun & ->). by rewrite Hrun.
Qed.
End crash_write.

(** ** A relay killed between the publication and the mark *)

Section crash_relay.
Context `{PgText, EventLib, Amqp, !PgTextLaws, !EventLibLaws, !AmqpLaws} (next : gset Z → Z) (next_fresh : ∀ X, next X ∉ X).
Context (acts pauses : nat → list agent) (naps : nat → list (list agent)) (clock : nat → Z) (uuid : nat → string).
#[local] Notation gives := (gives acts clock uuid).

(** C11: demo:crash-relay exits with 0.  The relay is killed after the broker took the
    message and before the row is marked; whenever the server notices and lets the
    lock go, whatever the consumer does meanwhile: the restarted relay publishes
    the event again, both copies are delivered and acknowledged, and there is
    one effect. *)
Theorem crash_relay_passes e d w t product buyer D : db_ok d → still d w → (∀ t, rounds 2 (naps t)) →
  prepared next "crash-relay" d = (product, buyer, D) → int8 product = true → int8 buyer = true → int8 (seq_orders D + 1) = true → 0 ≤ date e < 253402300800000 →
  assertInvariant (demo_crash_relay next pauses naps e (others acts clock uuid) t w).1.1 = 0.
Proof.
  intros Hok Hw Hrounds Hprep Hp8 Hb8 Hs8 Hdate.
  destruct (prepared_fresh next next_fresh _ _ _ _ _ Hok Hprep) as [Hfresh _].
  destruct (fresh_can_buy e (Some "crash-relay-1") product buyer DEMO_STOCK D Hfresh) as (pr & u & _ & Hbuy); [done..|].
  set (p := Params _ _ _ _) in *. destruct (checkout_sale e p product buyer D pr u Hbuy) as (Hgood & Hrun & _).
  pose proof (sale_outbox e p product buyer D pr u Hbuy) as Hout. rewrite (fs_outbox _ _ _ _ Hfresh), insert_empty in Hout.
  set (D1 := purchase e p product buyer pr u D) in *. set (x := sale e p D) in *. set (r := sale_row e p D) in *.
  assert (Hm1 : processed_messages D1 = ∅) by apply Hfresh. assert (Hr1 : order_receipts D1 = ∅) by apply Hfresh.
  assert (Hgives : gives (still d) (demo_crash_relay next pauses naps e) (λ bad _, bad = [])).
  { unfold demo_crash_relay. eapply gives_bind; [apply gives_prepare|intros ids]. rewrite Hprep. apply gives_pure. intros ->. cbn [fst snd].
    eapply gives_bind; [apply gives_startConsumer|intros []].
    eapply gives_bind; [by apply (gives_unpublished _ _ _ D D1)|intros res]. apply gives_pure. intros ->.
    eapply gives_bind; [by apply (gives_relay_process _ _ _ D1 0 (outbox_id e) r x)|intros killed]. apply gives_pure. intros ->.
    read_step 0; [apply flow_stable|intros w1 Hw1; by apply (held_published D1 0 (outbox_id e) r x Hout eq_refl {[outbox_id e]}), flow_held|].
    eapply gives_bind; [apply (gives_ask _ _ _ _ _ (λ _, flow D1 [x] 0 false {[outbox_id e]})); [apply flow_stable|done]|intros attempts].
    eapply (gives_bind _ _ _ _ _ (λ _ w1, ∃ now, flow (relayed_at now (outbox_id e) D1) [x; x] 0 false ∅ w1)).
    { apply (gives_weaken _ _ _ _ (λ w1, held D1 0 (outbox_id e) x {[outbox_id e]} w1 ∨ again D1 0 (outbox_id e) x w1) _ _ (λ _, again D1 0 (outbox_id e) x)); [|intros w1 Hw1; left; by apply flow_held|done].
      eapply gives_wait; [by apply (restart_awaited acts clock uuid D1 0 (outbox_id e) r x)|apply Hrounds| |done].
      intros w1 _. unfold locks_left. case_decide; lia. }
    intros []. apply gives_exists. intros now. set (D2 := relayed_at now (outbox_id e) D1).
    pose proof (λ w1 Hf, again_reads D1 0 (outbox_id e) x now w1 Hm1 Hr1 Hf) as Hreads.
    assert (Hst : stable (flowing D2 [x; x] 0 false ∅ 2)) by apply (drained_stable D2 [x; x]).
    eapply gives_bind; [apply (gives_counted acts naps clock uuid D2 [x; x] 0 2 delivered); [by left|done|done]|intros []].
    eapply gives_bind; [eapply gives_weaken; [apply (gives_counted acts naps clock uuid D2 [x; x] 0 2 acked); [by right|done|done]|by exists 2%nat|done]|intros []].
    eapply gives_bind; [apply gives_sleep, Hst|intros []].
    read_step 1; [apply Hst|intros w1 Hw1; apply (again_published D1 0 (outbox_id e) r x Hout); exists now; by exists 2%nat|].
    eapply gives_bind; [apply (gives_look _ _ _ _ _ (λ s w1, applied s = 1 ∧ delivered s = 2 ∧ flowing D2 [x; x] 0 false ∅ 2 w1))|intros s].
    { intros w1 Hw1. destruct (Hreads w1 Hw1) as (s & Hs & ? & _ & ? & _). rewrite Hs. done. }
    apply gives_pure. intros Happ. apply gives_pure. intros Hdel.
    read_step 1; [apply Hst|intros w1 Hw1; destruct (Hreads w1 Hw1) as (_ & _ & _ & _ & _ & -> & _); done|].
    read_step 1; [apply Hst|intros w1 Hw1; destruct (Hreads w1 Hw1) as (_ & _ & _ & _ & _ & _ & ->); done|].
    eapply gives_bind; [apply (gives_act _ _ _ _ _ (λ _ _, True)); [apply Hst|done]|intros []].
    apply gives_ret. intros _ _. by rewrite Happ, Hdel. }
  destruct (Hgives t w Hw) as (bad & t' & w' & Hrunw & ->). by rewrite Hrunw.
Qed.
End crash_relay.

(** ** Runs *)

Section outbox_witnesses.
#[local] Existing Instance fix_text.
#[local] Existing Instance fix_text_laws.
#[local] Existing Instance fix_events.
#[local] Existing Instance fix_events_laws.
#[local] Existing Instance fix_amqp.
#[local] Existing Instance fix_amqp_laws.

Definition busy_acts (t : nat) : list agent := busy.
Definition busy_naps (t : nat) : list (list agent) := replicate 5 busy.
Definition tick (t : nat) : Z := Z.of_nat t.
Definition ids (t : nat) : string := "".

Lemma fresh_id_ok X : fresh_id X ∉ X.
Proof. apply is_fresh. Qed.
Lemma fix_still : still fix_db (fix_world fix_db).
Proof. by split. Qed.
Lemma busy_naps_rounds n : (n ≤ 5)%nat → ∀ t, rounds n (busy_naps t).
Proof.
  intros Hn t. unfold busy_naps. replace 5%nat with (n + (5 - n))%nat by lia. rewrite replicate_add. apply busy_rounds.
Qed.

Lemma crash_write_passes_witness :
  assertInvariant (demo_crash_write fresh_id busy_acts (buy_env 0) (others busy_acts tick ids) 0%nat (fix_world fix_db)).1.1 = 0.
Proof.
  eapply (crash_write_passes fresh_id fresh_id_ok busy_acts busy_acts tick ids (buy_env 0) fix_db (fix_world fix_db) 0%nat);
    [exact fix_db_ok|exact fix_still|vm_compute; reflexivity|reflexivity|reflexivity|reflexivity|vm_compute; split; congruence].
Defined.

Lemma crash_relay_passes_witness :
  assertInvariant (demo_crash_relay fresh_id busy_acts busy_naps (buy_env 0) (others busy_acts tick ids) 0%nat (fix_world fix_db)).1.1 = 0.
Proof.
  eapply (crash_relay_passes fresh_id fresh_id_ok busy_acts busy_acts busy_naps tick ids (buy_env 0) fix_db (fix_world fix_db) 0%nat);
    [exact fix_db_ok|exact fix_still|apply busy_naps_rounds; lia|vm_compute; reflexivity|reflexivity|reflexivity|reflexivity|vm_compute; split; congruence].
Defined.
End outbox_witnesses.
