(* ===== verification/WorkersDemo.v ===== *)
(** Twenty checkouts and the four workers that empty their jobs
    (src/demo-workers.ts). *)
From stdpp Require Import pretty.
From S2P Require Import Prelude JsNumber Events Schema Sql Fixtures Checkout Oversell Worker OutboxDemos.
#[local] Open Scope Z_scope.

Section demo.
Context `{PgText, EventLib} (next : gset Z → Z).

Definition JOBS : nat := 20.
Definition WORKERS : nat := 4.
Definition WORK_MS : Z := 100.

(** INSERT INTO products ... VALUES ('WORKERS-DEMO', ..., 10, 1000000)
    ON CONFLICT (sku) DO UPDATE SET stock = 1000000 RETURNING id: an existing
    product keeps its price. *)
Definition upsert_workers_product (d : db) : Z * db :=
  let '(id, m) := upsert_returning next p_sku "WORKERS-DEMO"
    (λ p, ProductRow (p_sku p) (p_name p) (p_price p) (p_is_active p) 1000000)
    (ProductRow "WORKERS-DEMO" "Товар демо-воркерів" 1000 true 1000000) (products d) in
  (id, set_products (λ _, m) d).

(** The two INSERTs. *)
Definition workers_prepare (d : db) : Z * Z * db :=
  let '(product, d1) := upsert_workers_product d in
  let '(buyer, d2) := upsert_buyer next "workers-demo@example.com" "Покупець демо-воркерів" d1 in
  (product, buyer, d2).

(** The loop of checkouts: the ids of the orders. *)
Fixpoint enqueue (envs : nat → env) (buyer product : Z) (n i : nat) : sql (list string) :=
  match n with
  | O => mret []
  | S n =>
      r ← checkout (envs i) no_hook (Params (pretty buyer) (pretty product) 1 None);
      match r with
      | CheckoutFailure _ => throw (JsError "неочікуваний провал checkout() при підготовці задач")
      | CheckoutSuccess orderId _ _ => ids ← enqueue envs buyer product n (S i); mret (orderId :: ids)
      end
  end.

(** [Array.from({ length: WORKERS }, (_, i) => `w${i + 1}`)] *)
Definition worker_names : list string := (λ i, "w" +:+ pretty (Z.of_nat i + 1)) <$> seq 0 WORKERS.
Definition workers : gmap string worker_state := list_to_map ((λ w, (w, Idle)) <$> worker_names).
(** [await Promise.all(...)] *)
Definition all_returned (s : pool) : Prop := ∀ w, w ∈ worker_names → pl_workers s !! w = Some Stopped.

(** SELECT count( * ) AS n FROM job_queue WHERE processed > 1 *)
Definition processed_twice (d : db) : Z := Z.of_nat (size (filter (λ x : Z * job_row, 1 < j_processed x.2) (job_queue d))).
(** The exit code. *)
Definition workers_exit (elapsed : Z) (d : db) : Z :=
  let sequential := Z.of_nat JOBS * WORK_MS in
  if (0 <? processed_twice d) || (sequential <=? elapsed) then 1 else 0.
End demo.

(** ** The jobs of a run *)

Section pool.
Context `{PgText}.

Definition same_job (j j' : job_row) : Prop := j_order_id j' = j_order_id j.

Lemma step_keeps_job s s' id j : pool_step s s' → pool_inv s → job_queue (pl_db s) !! id = Some j →
  ∃ j', job_queue (pl_db s') !! id = Some j' ∧ same_job j j'.
Proof.
  intros Hs [_ H2 _ H4] Hj. unfold same_job.
  destruct Hs as [d ws w id' rest Hw Hsel|d ws w Hw Hsel Hc|d ws w Hw Hsel Hc|d ws w id' d' Hw Hf
    |d ws w st Hw _|d ws w Hw|d ws oid d' ->]; cbn in *; eauto.
  - apply finish_job_ok in Hf. destruct (H2 w id' Hw) as (j' & Hj' & _). rewrite Hj' in Hf. subst d'. cbn.
    destruct (decide (id = id')) as [->|Hne]; [|rewrite lookup_insert_ne by done; eauto].
    rewrite Hj in Hj'. injection Hj' as <-. rewrite lookup_insert_eq. eauto.
  - rewrite lookup_insert_ne; [eauto|]. intros <-. specialize (H4 (seq_jobs d + 1) ltac:(eauto)). lia.
Qed.

(** When a worker has returned, every job it found at its start is done. *)
Lemma returned_done s s' w id j : rtc pool_step s s' → pool_inv s → pl_workers s !! w ≠ Some Stopped → pl_workers s' !! w = Some Stopped →
  job_queue (pl_db s) !! id = Some j → ∃ j', job_queue (pl_db s') !! id = Some j' ∧ same_job j j' ∧ j_status j' = job_done.
Proof.
  intros Hr. revert j. induction Hr as [|s1 s2 s3 Hs Hr IH]; intros j Hinv Hno Hst Hj; [done|].
  destruct (step_keeps_job _ _ _ _ Hs Hinv Hj) as (j2 & Hj2 & Hsame). pose proof (pool_step_inv _ _ Hs Hinv) as Hinv2.
  destruct (decide (pl_workers s2 !! w = Some Stopped)) as [Hst2|Hno2].
  - pose proof (stop_needs_done _ _ _ Hs Hno Hst2 _ _ Hj2) as Hd. exists j2. split; [|done]. by eapply done_stays.
  - destruct (IH j2 Hinv2 Hno2 Hst Hj2) as (j3 & Hj3 & Hsame3 & Hd). exists j3. split; [done|]. split; [|done].
    unfold same_job in *. congruence.
Qed.

Lemma idle_inv d ws : db_ok d → map_Forall (λ _, job_sound) (job_queue d) → (∀ w st, ws !! w = Some st → st = Idle) →
  pool_inv (Pool d ws).
Proof.
  intros Hok Hj Hidle. split; cbn; [done| | |by apply ok_seq_jobs].
  - intros w id Hw. by apply Hidle in Hw.
  - intros w1 w2 id Hw. by apply Hidle in Hw.
Qed.

Lemma sound_once d : map_Forall (λ _, job_sound) (job_queue d) → processed_twice d = 0.
Proof.
  intros Hj. unfold processed_twice. replace (filter _ _) with (∅ : gmap Z job_row); [done|]. symmetry.
  apply map_empty. intros i. apply map_lookup_filter_None. right. intros j Hi Hlt. specialize (Hj i j Hi).
  unfold job_sound in Hj. cbn in Hlt. destruct (j_status j); lia.
Qed.
End pool.

(** ** The checkouts *)

Section sales.
Context `{PgText, !PgTextLaws, EventLib} (next : gset Z → Z) (next_fresh : ∀ X, next X ∉ X).
Context (envs : nat → env) (product buyer price : Z).
Context (Hdist : ∀ i j, i ≠ j → outbox_id (envs i) ≠ outbox_id (envs j)).
Context (Hp8 : int8 product = true) (Hb8 : int8 buyer = true) (Hprice : 20 * price < 100000000).

(** The shop after [i] purchases. *)
Record stocked (i : nat) (d : db) : Prop := {
  sk_ok : db_ok d;
  sk_jobs : map_Forall (λ _, job_sound) (job_queue d);
  sk_product : ∃ pr, products d !! product = Some pr ∧ p_price pr = price ∧ p_stock pr = 1000000 - Z.of_nat i;
  sk_buyer : ∃ u, users d !! buyer = Some u ∧ u_balance u = 100000000 - price * Z.of_nat i;
  sk_outbox : ∀ k, (i ≤ k)%nat → outbox d !! outbox_id (envs k) = None;
}.

Definition new_job (d : db) (id : string) : Prop := ∃ k j, job_queue d !! k = Some j ∧ pretty (j_order_id j) = id.
Definition jobs_kept (d d' : db) : Prop := ∀ k j, job_queue d !! k = Some j → job_queue d' !! k = Some j.

Lemma stocked_step i d t : (i < JOBS)%nat → stocked i d → ∃ id total t' d',
  checkout (envs i) no_hook (Params (pretty buyer) (pretty product) 1 None) no_fault t d = (Ok (CheckoutSuccess id total false), t', d') ∧
  stocked (S i) d' ∧ jobs_kept d d' ∧ new_job d' id.
Proof.
  intros Hi [Hok Hj (pr & Hp & Epr & Est) (u & Hu & Eb) Ho]. unfold JOBS in Hi.
  set (p := Params (pretty buyer) (pretty product) 1 None).
  assert (Hreq : request_ok p product buyer) by (split; cbn; [lia|done|by apply bigint_in_out..]).
  pose proof (ok_products _ Hok _ _ Hp) as Hpo. pose proof (proj1 Hpo) as Hpr. rewrite Epr in Hpr.
  destruct (affordable_amount (u_balance u) (p_price pr) 1) as (x & _ & Ha & _ & Hge);
    [apply Hpo|lia|apply (ok_users _ Hok _ _ Hu)|].
  assert (Haff : affordable (u_balance u) (p_price pr) (quantity p) = true).
  { cbn [quantity p]. rewrite Ha. apply Hge. rewrite Epr, Eb. nia. }
  destruct (checkout_runs (envs i) p product buyer d t Hok Hreq (Ho i ltac:(lia))) as [t' Hrun].
  assert (Hspec : checkout_spec (envs i) p product buyer d =
    (CheckoutSuccess (pretty (seq_orders d + 1)) (num_mul (num_of_cents (p_price pr)) (num_of_Z 1)) false, purchase (envs i) p product buyer pr u d)).
  { unfold checkout_spec. cbn [replay_of idempotencyKey p mbind option_bind]. rewrite Hp, Hu, Haff, Est. cbn [quantity p].
    by rewrite (proj2 (Z.ltb_ge _ _)) by lia. }
  rewrite Hspec in Hrun. do 4 eexists. split; [exact Hrun|].
  assert (Hfree : job_queue d !! (seq_jobs d + 1) = None) by (apply fresh_seq, Hok). split; [split|split].
  - apply purchase_ok; try done; cbn; lia.
  - cbn. by apply map_Forall_insert_2.
  - cbn. rewrite lookup_insert_eq. eexists. split; [done|]. cbn. split; [done|lia].
  - cbn. rewrite lookup_insert_eq. eexists. split; [done|]. cbn. lia.
  - intros k Hk. cbn. rewrite lookup_insert_ne by (apply Hdist; lia). apply Ho. lia.
  - intros k j Hk. cbn. rewrite lookup_insert_ne; [done|]. congruence.
  - exists (seq_jobs d + 1). cbn. rewrite lookup_insert_eq. eexists. split; [done|]. done.
Qed.

Lemma new_job_kept d d' id : jobs_kept d d' → new_job d id → new_job d' id.
Proof. intros Hk (k & j & Hj & Hid). exists k, j. split; [by apply Hk|done]. Qed.

Lemma enqueue_run n i d t : (i + n ≤ JOBS)%nat → stocked i d → ∃ ids t' d',
  enqueue envs buyer product n i no_fault t d = (Ok ids, t', d') ∧ stocked (i + n) d' ∧ jobs_kept d d' ∧
  length ids = n ∧ ∀ id, id ∈ ids → new_job d' id.
Proof.
  revert i d t. induction n as [|n IH]; intros i d t Hle Hs.
  - exists [], t, d. rewrite Nat.add_0_r. split_and!; [done|done|by intros k j|done|]. intros id []%elem_of_nil.
  - destruct (stocked_step i d t ltac:(lia) Hs) as (id & total & t1 & d1 & Hrun & Hs1 & Hk1 & Hn1).
    destruct (IH (S i) d1 t1 ltac:(lia) Hs1) as (ids & t2 & d2 & Hrest & Hs2 & Hk2 & Hlen & Hn2).
    exists (id :: ids), t2, d2. split; [|split_and!].
    + cbn [enqueue]. rewrite (bind_run _ _ _ _ _ _ _ _ Hrun). cbv beta iota. by rewrite (bind_run _ _ _ _ _ _ _ _ Hrest).
    + by rewrite <-Nat.add_succ_comm.
    + intros k j Hk. by apply Hk2, Hk1.
    + cbn. by rewrite Hlen.
    + intros x [->|Hx]%elem_of_cons; [by eapply new_job_kept|by apply Hn2].
Qed.

Lemma prepare_stocked d d' : db_ok d → map_Forall (λ _, job_sound) (job_queue d) →
  (∀ i, outbox d !! outbox_id (envs i) = None) → workers_prepare next d = (product, buyer, d') →
  (∃ pr, products d' !! product = Some pr ∧ p_price pr = price) → stocked 0 d'.
Proof.
  intros Hok Hj Ho. unfold workers_prepare, upsert_workers_product.
  destruct (upsert_returning _ _ _ _ _ (products d)) as [i m] eqn:Hu.
  destruct (upsert_buyer next _ _ _) as [b d2] eqn:Hb. intros [= -> -> ->] Hpr.
  apply upsert_returning_cases in Hu; [|done].
  assert (Hm : ∃ pr, m = <[product := pr]> (products d) ∧ p_stock pr = 1000000 ∧ product_ok pr).
  { destruct Hu as [(a & Ha & _ & ->)|(_ & _ & ->)]; eexists; split_and!; try reflexivity; [|done].
    split; [|done]. apply (ok_products _ Hok _ _ Ha). }
  destruct Hm as (pr & -> & Est & Hpo).
  apply (upsert_buyer_ok next next_fresh) in Hb as (u & Hok' & -> & Hbal);
    [|apply db_ok_products; [done|apply map_Forall_insert_2; [done|apply Hok]|intros; by apply is_Some_insert]].
  destruct Hpr as (pr' & Hp' & Epr). cbn in Hp'. rewrite lookup_insert_eq in Hp'. injection Hp' as <-. split; cbn; [done|done| | |].
  - exists pr. rewrite lookup_insert_eq. split_and!; [done|done|lia].
  - exists u. rewrite lookup_insert_eq. split; [done|lia].
  - intros k _. apply Ho.
Qed.
End sales.

Section passes.
Context `{PgText, !PgTextLaws, EventLib} (next : gset Z → Z) (next_fresh : ∀ X, next X ∉ X).

Lemma workers_idle w st : workers !! w = Some st → st = Idle.
Proof. intros Hw. apply elem_of_list_to_map_2, list_elem_of_fmap in Hw as (x & [= _ ->] & _). done. Qed.

(** The worker demonstration never fails its check.  From any database
    whose jobs have been processed at most once, and with a price twenty units
    of which the buyer can pay, the twenty checkouts succeed; and however four
    workers, other workers and other checkouts interleave, with crashes of the
    others, once all four have returned no job has been processed twice, the
    job of each of the twenty orders is done, processed exactly once, and the
    script exits with 0 if it took less than two seconds. *)
Theorem workers_pass (envs : nat → env) d product buyer d' pr t :
  db_ok d → map_Forall (λ _, job_sound) (job_queue d) → workers_prepare next d = (product, buyer, d') →
  products d' !! product = Some pr → 20 * p_price pr < 100000000 → int8 product = true → int8 buyer = true →
  (∀ i j, i ≠ j → outbox_id (envs i) ≠ outbox_id (envs j)) → (∀ i, outbox d !! outbox_id (envs i) = None) →
  ∃ orderIds t' d2, enqueue envs buyer product JOBS 0 no_fault t d' = (Ok orderIds, t', d2) ∧ length orderIds = JOBS ∧
  ∀ s elapsed, rtc pool_step (Pool d2 workers) s → all_returned s →
    (∀ id, id ∈ orderIds → ∃ k j, job_queue (pl_db s) !! k = Some j ∧ pretty (j_order_id j) = id ∧
       j_status j = job_done ∧ j_processed j = 1 ∧ is_Some (j_worker j)) ∧
    (elapsed < 2000 → workers_exit elapsed (pl_db s) = 0).
Proof.
  intros Hok Hj Hprep Hp Hprice Hp8 Hb8 Hdist Hnew.
  assert (Hs : stocked envs product buyer (p_price pr) 0 d') by (eapply prepare_stocked; eauto).
  destruct (enqueue_run envs product buyer (p_price pr) Hdist Hp8 Hb8 Hprice JOBS 0 d' t ltac:(done) Hs)
    as (ids & t' & d2 & Hrun & [Hok2 Hj2 _ _ _] & _ & Hlen & Hjobs).
  exists ids, t', d2. split; [exact Hrun|]. split; [exact Hlen|]. intros s elapsed Hr Hall.
  pose proof (idle_inv d2 workers Hok2 Hj2 workers_idle) as Hinv. pose proof (pi_sound _ (pool_steps_inv _ _ Hr Hinv)) as Hsound.
  split.
  - intros id (k & j & Hk & <-)%Hjobs. destruct (returned_done _ s "w1" k j Hr Hinv) as (j' & Hj' & Hsame & Hd).
    + cbn. intros Hw. by apply workers_idle in Hw.
    + apply Hall. unfold worker_names. apply list_elem_of_fmap. exists O. split; [done|]. apply elem_of_seq. unfold WORKERS. lia.
    + done.
    + exists k, j'. specialize (Hsound k j' Hj'). unfold job_sound in Hsound. rewrite Hd in Hsound. rewrite Hsame. tauto.
  - intros He. unfold workers_exit. rewrite (sound_once _ Hsound). cbn [Z.ltb Z.compare orb].
    by rewrite (proj2 (Z.leb_gt _ _)) by (unfold JOBS, WORK_MS; lia).
Qed.
End passes.

(** ** A run *)

Section workers_witness.
#[local] Existing Instance fix_text.
#[local] Existing Instance fix_text_laws.
#[local] Existing Instance fix_events.

Inductive move := Claim (w : string) | Finish (w : string) | Stop (w : string).
Definition fire (m : move) (s : pool) : option pool :=
  let 'Pool d ws := s in
  match m with
  | Claim w =>
      match ws !! w, (select_job (Worker.held ws) d).1 with
      | Some Idle, Ok (id :: _) => Some (Pool d (<[w := Holding id]> ws))
      | _, _ => None
      end
  | Finish w =>
      match ws !! w with
      | Some (Holding id) =>
          match finish_job w id d with (Ok _, d') => Some (Pool d' (<[w := Idle]> ws)) | _ => None end
      | _ => None
      end
  | Stop w =>
      match ws !! w, (select_job (Worker.held ws) d).1, (count_new d).1 with
      | Some Idle, Ok [], Ok O => Some (Pool d (<[w := Stopped]> ws))
      | _, _, _ => None
      end
  end.
Lemma fire_step m s s' : fire m s = Some s' → pool_step s s'.
Proof.
  destruct s as [d ws], m as [w|w|w]; cbn [fire]; intros Hf; repeat case_match; simplify_eq.
  - by eapply step_claim.
  - by eapply step_finish; [|match goal with u : unit |- _ => destruct u end].
  - by eapply step_stop.
Qed.
Definition play (l : list move) (s : pool) : option pool := foldl (λ o m, o ≫= fire m) (Some s) l.
Lemma play_steps l s s' : play l s = Some s' → rtc pool_step s s'.
Proof.
  revert s'. unfold play. induction l as [|m l IH] using rev_ind; intros s'; [by intros [= <-]|]. rewrite foldl_snoc.
  intros (s1 & Hs1 & Hm)%bind_Some. eapply rtc_r; [by apply IH|by eapply fire_step].
Qed.

(** All four claim a job, then all four finish, five times over. *)
Definition shift : list move := (Claim <$> worker_names) ++ (Finish <$> worker_names).
Definition day : list move := shift ++ shift ++ shift ++ shift ++ shift ++ (Stop <$> worker_names).

Definition demo_shop : Z * Z * db := workers_prepare fresh_id fix_db.
Definition filled : result (list string) * nat * db := enqueue crowd_env demo_shop.1.2 demo_shop.1.1 JOBS 0 no_fault 0%nat demo_shop.2.
Definition closing (o : option pool) : bool :=
  match o with Some s => bool_decide (Forall (λ w, pl_workers s !! w = Some Stopped) worker_names) | None => false end.

Lemma workers_pass_witness : ∃ orderIds s, filled.1.1 = Ok orderIds ∧ length orderIds = 20%nat ∧ rtc pool_step (Pool filled.2 workers) s ∧
  workers_exit 600 (pl_db s) = 0.
Proof.
  assert (Hsplit : ∀ o, closing o = true → ∃ s, o = Some s ∧ all_returned s).
  { intros [s|] Hc; [|discriminate Hc]. exists s. split; [reflexivity|]. apply bool_decide_eq_true in Hc.
    intros w Hw. rewrite Forall_forall in Hc. by apply Hc. }
  destruct (Hsplit (play day (Pool filled.2 workers)) ltac:(vm_compute; reflexivity)) as (s & Hplay & Hall).
  apply play_steps in Hplay.
  destruct (products demo_shop.2 !! demo_shop.1.1) as [pr|] eqn:Hp; [|vm_compute in Hp; discriminate Hp].
  destruct (workers_pass fresh_id fresh_id_ok crowd_env fix_db demo_shop.1.1 demo_shop.1.2 demo_shop.2 pr 0%nat) as (ids & t' & d2 & Hrun & Hlen & Hend).
  - exact fix_db_ok.
  - apply map_Forall_empty.
  - reflexivity.
  - exact Hp.
  - vm_compute in Hp. injection Hp as <-. reflexivity.
  - vm_compute. reflexivity.
  - vm_compute. reflexivity.
  - intros i j Hij Heq. cbn in Heq. apply (inj pretty) in Heq. apply Hij. lia.
  - intros i. reflexivity.
  - change (filled = (Ok ids, t', d2)) in Hrun. exists ids, s. rewrite Hrun in Hplay |- *.
    split; [reflexivity|]. split; [exact Hlen|]. split; [exact Hplay|]. by apply (Hend s 600 Hplay Hall).
Defined.
End workers_witness.
