(* ===== verification/MqDemos.v ===== *)
(** The demonstrations of publication, redelivery, dead-lettering and of the whole
    path from the HTTP request to the effect (src/demo-publish.ts,
    src/demo-duplicate.ts with src/messaging/consumer-process.ts,
    src/demo-dlq.ts, src/demo-outbox.ts), with the consumer and, in the last, the
    relay at work beside the script. *)
From stdpp Require Import pretty sorting.
From S2P Require Import Prelude JsNumber JsText Events Schema Sql Fixtures Checkout Publisher Relay Consumer Pipeline Async Limits Http OrdersApi Oversell Mq OutboxDemos.
#[local] Open Scope Z_scope.

Section demos.
Context `{PgText, EventLib, Amqp} (next : gset Z → Z).
Context (acts pauses : nat → list agent) (naps : nat → list (list agent)) (clock : nat → Z) (uuid : nat → string).
Notation io := (async mq_world).
#[local] Notation waitFor := (waitFor naps).
#[local] Notation sleep := (sleep pauses).

Definition consumer_stats (w : mq_world) : ConsumerStats := default no_statistics (w_consumer w).
Definition send_message (m : message) : io unit := act (λ w, set_mq (mq_publish m (w_mq w)) w).

(** ** src/demo-publish.ts *)

Definition EVENTS : nat := 5.
(** src/messaging/config.ts *)
Definition PREFETCH : Z := 10.

Fixpoint buy_each (envs : nat → env) (buyer product : Z) (n i : nat) : io unit :=
  match n with
  | O => mret tt
  | S n =>
      _ ← with_db (checkout (envs i) no_hook (Params (pretty buyer) (pretty product) 1 None));
      buy_each envs buyer product n (S i)
  end.
Definition order_unknown : message := Message "order.unknown" (Some (JObj [])) None None.

Definition demo_publish (envs : nat → env) : io (list string) :=
  _ ← resetState;
  product ← stmt (upsert_product next "MQ-DEMO" "Товар демо RabbitMQ" 1000);
  buyer ← stmt (upsert_buyer next "mq-demo@example.com" "Покупець демо RabbitMQ");
  _ ← startConsumer;
  _ ← buy_each envs buyer product EVENTS 0;
  published ← drain;
  _ ← send_message order_unknown;
  _ ← waitFor (n ← countEffects; mret (Z.of_nat EVENTS <=? n));
  _ ← waitFor (look (λ w, Z.of_nat EVENTS <=? acked (consumer_stats w)));
  _ ← sleep;
  work ← queueDepth WORK_QUEUE;
  dlq ← queueDepth DLQ;
  unroutable ← queueDepth UNROUTABLE_QUEUE;
  effect ← countEffects;
  s ← stats;
  _ ← close;
  mret (violated "published" (published =? EVENTS)%nat ++ violated "effect" (effect =? Z.of_nat EVENTS) ++
        violated "acked" (acked s =? Z.of_nat EVENTS) ++ violated "dlq" (dlq =? 0) ++ violated "work" (work =? 0) ++
        violated "unroutable" (unroutable =? 1) ++ violated "prefetch" ((1 <=? PREFETCH) && (PREFETCH <=? 2000))).

(** ** src/demo-duplicate.ts and src/messaging/consumer-process.ts *)

Definition is_effect (x : hook_event) : bool := match x with onEffect _ => true | _ => false end.
Definition is_recv (x : hook_event) : bool := match x with onRecv _ _ => true | _ => false end.
Definition is_acked (x : hook_event) : bool := match x with onAcked _ => true | _ => false end.

(** The consumer process: it takes the message, and is killed once it reported
    the effect, in the gap before the ack; its messages to the parent. *)
Definition consumer_process : io (list hook_event) := λ σ t w,
  let w := s_others σ t w in
  match ready (w_mq w) WORK_QUEUE with
  | [] => (Err timed_out, S t, w)
  | (msg, redelivered) :: _ =>
      let '(h, t', d) := Consumer.handle false msg redelivered no_statistics (s_fault σ) t (w_db w) in
      let w := set_mq (mq_consume None (w_mq w)) (set_db d w) in
      (if existsb is_effect (h_trace h) then Ok (h_trace h) else Err timed_out, t', w)
  end.

Definition duplicate_event (now : Z) : order_placed_event :=
  buildOrderPlaced now (OrderPlacedData "dup-demo-1" "u-dup" "p-dup" (num_of_Z 1) (num_of_Z 100)).
Definition occurrences (f : hook_event → bool) (l : list hook_event) : Z := Z.of_nat (length (filter (λ x, f x = true) l)).

Definition demo_duplicate (now : Z) : io (list string) :=
  _ ← resetState;
  _ ← send_message (order_placed_message (duplicate_event now));
  seen ← consumer_process;
  _ ← startConsumer;
  _ ← waitFor (look (λ w, 1 <=? acked (consumer_stats w)));
  s ← stats;
  effect ← countEffects;
  work ← queueDepth WORK_QUEUE;
  dlq ← queueDepth DLQ;
  _ ← close;
  mret (violated "acked before kill" (occurrences is_acked seen =? 0) ++
        violated "deliveries" (2 <=? occurrences is_recv seen + delivered s) ++ violated "effect" (effect =? 1) ++
        violated "skipped" (skipped s =? 1) ++ violated "work" (work =? 0)).

(** ** src/demo-dlq.ts *)

Definition REASONS : list string := ["rejected"; "expired"; "maxlen"; "delivery_limit"].
(** A body that is not JSON. *)
Definition poison : message := Message ROUTING_KEY_ORDER_PLACED None (Some "poison-1") (Some "order.placed").

(** [ch.get(DLQ)], the header, and [ch.reject(m, true)], which puts it back. *)
Definition death_reason : io string :=
  ask (λ w, match ready (w_mq w) DLQ with [] => "" | _ => default "" (first_death_reason (w_mq w)) end).

Definition demo_dlq : io (list string) :=
  _ ← resetState;
  _ ← startConsumer;
  _ ← send_message poison;
  _ ← waitFor (n ← queueDepth DLQ; mret (n =? 1));
  _ ← sleep;
  reason ← death_reason;
  _ ← sleep;
  work ← queueDepth WORK_QUEUE;
  dlq ← queueDepth DLQ;
  effect ← countEffects;
  _ ← close;
  mret (violated "work" (work =? 0) ++ violated "dlq" (dlq =? 1) ++
        violated "dlq-reason" (bool_decide (reason ∈ REASONS)) ++ violated "effect" (effect =? 0)).

(** ** src/demo-outbox.ts *)

Definition demo_key (now : Z) : string := "demo-outbox-" +:+ pretty now.
Definition demo_post (now buyer product : Z) : http_request :=
  HttpRequest "POST" "/orders" (Some (demo_key now))
    (Some (JObj [("buyer_id", JStr (pretty buyer)); ("product_id", JStr (pretty product)); ("quantity", JNum (num_of_Z 1))])).
Definition order_id_of (r : http_response) : option string := jstr (rs_body r) "order_id".
Definition replay_header (r : http_response) : bool := bool_decide (("idempotent-replayed", "true") ∈ rs_headers r).

Definition demo_outbox (e1 e2 : env) (now : Z) : io (list string) :=
  ids ← prepareWorld next "happy"; let '(product, buyer) := ids in
  _ ← startConsumer;
  r1 ← with_db (createOrdersApi e1 (demo_post now buyer product));
  r2 ← with_db (createOrdersApi e2 (demo_post now buyer product));
  rows ← countOutbox;
  done ← countPublished;
  _ ← start_relaying;
  _ ← waitFor (n ← countPublished; s ← stats; mret ((1 <=? n) && (1 <=? acked s)));
  _ ← sleep;
  _ ← stop_relaying;
  orders ← countOrders buyer;
  outbox ← countOutbox;
  published ← countPublished;
  effect ← countEffects;
  processed ← countProcessed;
  _ ← close;
  mret (violated "status1" (rs_status r1 =? 201) ++ violated "status2" ((rs_status r2 =? 200) && replay_header r2) ++
        violated "same order" (bool_decide (order_id_of r1 = order_id_of r2)) ++ violated "orders" (orders =? 1) ++
        violated "outbox" (outbox =? 1) ++ violated "unpublished_before_relay" (rows - done =? 1) ++
        violated "published" (published =? 1) ++ violated "effect" (effect =? 1) ++ violated "processed" (processed =? 1)).
End demos.

(** ** Poison *)

Section dead_letter.
Context `{PgText, EventLib, Amqp, !PgTextLaws, !EventLibLaws, !AmqpLaws}.
Context (acts pauses : nat → list agent) (naps : nat → list (list agent)) (clock : nat → Z) (uuid : nat → string).
#[local] Notation gives := (gives acts clock uuid).

(** The poison in the work queue, or rejected and dead-lettered. *)
Record poisoned (D : db) (w : mq_world) : Prop := {
  po_db : w_db w = D;
  po_consumer : w_consumer w ≠ None;
  po_relaying : w_relaying w = false;
  po_where : (ready (w_mq w) WORK_QUEUE = [(poison, false)] ∧ ready (w_mq w) DLQ = []) ∨
    (ready (w_mq w) WORK_QUEUE = [] ∧ ready (w_mq w) DLQ = [(poison, false)] ∧ first_death_reason (w_mq w) = Some "rejected");
}.
Definition buried (D : db) (w : mq_world) : Prop := poisoned D w ∧ ready (w_mq w) WORK_QUEUE = [].

Lemma buried_dlq D w : buried D w → ready (w_mq w) DLQ = [(poison, false)] ∧ first_death_reason (w_mq w) = Some "rejected".
Proof. intros [[_ _ _ [[He _]|(_ & Hd & Hr)]] Hw]; [by rewrite Hw in He|done]. Qed.

Lemma poison_turn D a w : poisoned D w →
  poisoned D (turn a w) ∧ (waiting (turn a w) ≤ waiting w)%nat ∧ (a.1 = Consuming → waiting (turn a w) = 0%nat).
Proof.
  intros [Hdb Hc Hr Hw]. destruct a as [[] n]; unfold turn; cbn [fst snd].
  - destruct (w_consumer w) as [s|] eqn:Hs; [|done]. destruct Hw as [[Hq Hd]|(Hq & Hd & Hy)].
    + rewrite Hq. cbn [Consumer.handle]. unfold waiting. cbn.
      pose proof (λ q, mq_rejected (w_mq w) poison false [] q Hq) as Hrej. split; [split; cbn; try done|].
      * right. rewrite !Hrej, decide_True, decide_False, Hd by done. split; [done|]. split; [done|].
        apply mq_reason; [by rewrite Hq|done].
      * rewrite Hrej, decide_True by done. cbn. split; [lia|done].
    + rewrite Hq. split; [split; [done|by rewrite Hs|done|by right]|]. unfold waiting. rewrite Hq. done.
  - rewrite Hr. split; [by split|done].
  - split; [by split|]. done.
Qed.

Lemma poisoned_stable D : stable (poisoned D).
Proof. intros a w Hw. apply (poison_turn D a w Hw). Qed.
Lemma buried_stable D : stable (buried D).
Proof.
  intros a w [Hw He]. destruct (poison_turn D a w Hw) as (Hp & Hle & _). split; [done|]. apply length_zero_iff_nil.
  unfold waiting in Hle. rewrite He in Hle. cbn in Hle. lia.
Qed.

Lemma poison_awaited D : awaited acts clock uuid (poisoned D) waiting (λ _, Consuming) (n ← queueDepth DLQ; mret (n =? 1)) (buried D).
Proof.
  split.
  - apply poisoned_stable.
  - intros a w Hw. apply (poison_turn D a w Hw).
  - intros a w Hw Hne Ha. destruct (poison_turn D a w Hw) as (_ & _ & Hz). rewrite Hz by done. lia.
  - intros t w Hw. set (w1 := turns (acts t) w). assert (Hw1 : poisoned D w1) by (apply turns_stable; [apply poisoned_stable|done]).
    assert (Hle : (waiting w1 ≤ waiting w)%nat).
    { unfold w1, turns. clear w1 Hw1. revert w Hw. induction (acts t) as [|a l IH]; intros w Hw; [done|]. cbn [foldl].
      destruct (poison_turn D a w Hw) as (Hp & Hl & _). etrans; [by apply IH|done]. }
    exists (Z.of_nat (length (ready (w_mq w1) DLQ)) =? 1), (Datatypes.S t), w1. split; [done|]. split; [done|]. split; [done|].
    pose proof (po_where _ _ Hw1) as Hq. unfold waiting in Hle. destruct Hq as [[Hq Hd]|(Hq & Hd & Hy)].
    + rewrite Hq in Hle. rewrite Hd. split; [unfold waiting; cbn in Hle; lia|done].
    + rewrite Hd. split; [done|]. intros _. by split.
Qed.

Lemma gives_poison D : gives (flow D [] 0 false ∅) (send_message poison) (λ _, poisoned D).
Proof.
  apply gives_act; [apply flow_stable|]. intros w Hw. destruct (unpublished_reads _ _ _ Hw) as (Hdb & Hc & Hq & Hd).
  destruct Hw as [j Hf]. split; cbn; try done; [by rewrite Hc|apply Hf|]. left. rewrite !mq_published, Hq, Hd. done.
Qed.

(** demo:dlq exits with 0: a message that is not JSON ends in the dead-letter
    queue with a reason, once, and has no effect. *)
Theorem dlq_passes d w t : still d w → (∀ t, rounds 1 (naps t)) →
  assertInvariant (demo_dlq pauses naps (others acts clock uuid) t w).1.1 = 0.
Proof.
  intros Hw Hn. set (D := truncate_messaging d).
  assert (Hgives : gives (still d) (demo_dlq pauses naps) (λ bad _, bad = [])).
  { unfold demo_dlq. eapply gives_bind; [apply gives_reset|intros []]. eapply gives_bind; [apply gives_startConsumer|intros []].
    eapply gives_bind; [apply gives_poison|intros []].
    eapply (gives_bind _ _ _ _ _ (λ _, buried D)).
    { eapply gives_wait; [apply poison_awaited|apply Hn| |done]. intros w1 [_ _ _ [[Hq _]|(Hq & _)]]; unfold waiting; by rewrite Hq; cbn; lia. }
    intros []. eapply gives_bind; [apply gives_sleep, buried_stable|intros []].
    read_step "rejected"; [apply buried_stable|intros w1 Hw1; by destruct (buried_dlq _ _ Hw1) as [-> ->]|].
    eapply gives_bind; [apply gives_sleep, buried_stable|intros []].
    read_step 0; [apply buried_stable|intros w1 [_ Hq]; by rewrite Hq|].
    read_step 1; [apply buried_stable|intros w1 Hw1; by destruct (buried_dlq _ _ Hw1) as [-> _]|].
    read_step 0; [apply buried_stable|intros w1 [[Hdb _ _ _] _]; by rewrite Hdb|].
    eapply gives_bind; [apply (gives_act _ _ _ _ _ (λ _ _, True)); [apply buried_stable|done]|intros []]. by apply gives_ret. }
  destruct (Hgives t w Hw) as (bad & t' & w' & Hrun & ->). by rewrite Hrun.
Qed.
End dead_letter.

(** ** A consumer killed between the effect and the ack *)

Section duplicate.
Context `{PgText, EventLib, Amqp, !PgTextLaws, !EventLibLaws, !AmqpLaws}.
Context (acts pauses : nat → list agent) (naps : nat → list (list agent)) (clock : nat → Z) (uuid : nat → string).
#[local] Notation gives := (gives acts clock uuid).

Definition duplicate (now : Z) : announced := (duplicate_event now, eventIdFor "order.placed" "dup-demo-1", 10000).

Lemma duplicate_good now : 0 ≤ now < 253402300800000 → good (duplicate now).
Proof.
  intros Hnow. split; [split_and!; cbn; try done; [apply eventIdFor_uuid|by apply zod_datetime_iso]|].
  split; cbn; try done.
  apply uuid_in_canonical, uuid_of_digest_shape; [rewrite sha1_length; lia|apply sha1_bytes].
Qed.

(** The delivery of the killed process: the effect, no ack. *)
Lemma handle_killed x s t d : good x → processed_messages d = ∅ → order_receipts d = ∅ → ∃ h t',
  Consumer.handle false (order_placed_message x.1.1) false s no_fault t d = (h, t', (digest (d, s) x).1) ∧
  existsb is_effect (h_trace h) = true ∧ occurrences is_recv (h_trace h) = 1 ∧ occurrences is_acked (h_trace h) = 0.
Proof.
  intros [Hv Hs] Hm Hr. destruct (apply_body_run x.1.1 x.1.2 x.2 (Datatypes.S t) d Hs) as [t' Hrun]. apply transaction_run in Hrun.
  unfold Consumer.handle. change (m_content (order_placed_message x.1.1)) with (Some (event_json x.1.1)). cbn [mbind option_bind].
  rewrite (parse_event_json _ Hv). change (transaction (apply_body x.1.1)) with (applyOrderPlaced x.1.1) in Hrun. rewrite Hrun.
  pose proof (eo_applied _ _ _ _ _ (digest_first x d s Hm Hr)) as [Ha _]. unfold digest in *. cbn [fst snd] in *.
  destruct (apply_spec x.1.1 x.1.2 x.2 d) as [[] d']; cbn in *; [|lia]. do 2 eexists. split; [reflexivity|]. split_and!; reflexivity.
Qed.

Lemma gives_killed x D : good x → processed_messages D = ∅ → order_receipts D = ∅ →
  gives (λ w, still D w ∧ ready (w_mq w) WORK_QUEUE = [(order_placed_message x.1.1, false)] ∧ ready (w_mq w) DLQ = [] ∧ ready (w_mq w) UNROUTABLE_QUEUE = [])
    consumer_process
    (λ seen w, (occurrences is_recv seen = 1 ∧ occurrences is_acked seen = 0) ∧ still (digest (D, no_statistics) x).1 w ∧
       ready (w_mq w) WORK_QUEUE = [(order_placed_message x.1.1, true)] ∧ ready (w_mq w) DLQ = [] ∧ ready (w_mq w) UNROUTABLE_QUEUE = []).
Proof.
  intros Hg Hm Hr t w (Hw & Hq & Hd & Hu). assert (turns (acts t) w = w) as Hsame.
  { unfold turns. induction (acts t) as [|a l IH]; [done|]. cbn [foldl]. by rewrite (still_turn D). }
  unfold consumer_process. cbn [s_others others s_fault]. rewrite Hsame, Hq, (st_db _ _ Hw).
  destruct (handle_killed x no_statistics t D Hg Hm Hr) as (h & t' & -> & He & Hrecv & Hack). rewrite He.
  do 3 eexists. split; [reflexivity|]. split; [done|]. destruct Hw as [_ Hc Hrel Hl]. split; [by split|]. cbn.
  destruct (mq_returned (w_mq w) None _ [] (or_introl eq_refl) Hq) as [Hback Hother]. rewrite (Hother DLQ), (Hother UNROUTABLE_QUEUE) by done.
  split; [by apply Permutation_singleton_r in Hback|done].
Qed.

(** demo:duplicate exits with 0.  The first consumer dies between the effect and
    the ack; the broker delivers the message again, the second consumer
    recognises it and acknowledges it: two deliveries, one effect, an empty
    queue. *)
Theorem duplicate_passes now d w t : still d w → (∀ t, rounds 1 (naps t)) → 0 ≤ now < 253402300800000 →
  assertInvariant (demo_duplicate naps now (others acts clock uuid) t w).1.1 = 0.
Proof.
  intros Hw Hn Hnow. set (D := truncate_messaging d). set (x := duplicate now). pose proof (duplicate_good now Hnow) as Hg. fold x in Hg.
  set (D1 := (digest (D, no_statistics) x).1). pose proof (digest_first x D no_statistics eq_refl eq_refl) as [Hm1 Hr1 _]. fold D1 in Hm1, Hr1.
  assert (Hagain : digested [x] D1 = (D1, Stats 1 0 1 1 0)).
  { unfold digested. cbn [foldl]. rewrite digest_again by (rewrite Hm1; by apply elem_of_singleton). done. }
  assert (Hgives : gives (still d) (demo_duplicate naps now) (λ bad _, bad = [])).
  { unfold demo_duplicate. eapply gives_bind; [apply gives_reset|intros []].
    eapply gives_bind; [apply (gives_act _ _ _ _ _ (λ _ w1, still D w1 ∧ ready (w_mq w1) WORK_QUEUE = [(order_placed_message x.1.1, false)] ∧
      ready (w_mq w1) DLQ = [] ∧ ready (w_mq w1) UNROUTABLE_QUEUE = [])); [apply cleared_stable|]|intros []].
    { intros w1 [[Hdb Hc Hr Hl] (Hq & Hd & Hu)]. split; [by split|]. cbn. rewrite !mq_published, Hq, Hd, Hu. done. }
    eapply gives_bind; [by apply gives_killed|intros seen]. apply gives_pure. intros [Hrecv Hack].
    eapply (gives_bind _ _ _ _ _ (λ _, flow D1 [x] 0 false ∅)).
    { apply gives_act; [intros a w1 [Hs1 ?]; by rewrite (still_turn D1)|]. intros w1 ([Hdb Hc Hr Hl] & Hq & Hd & Hu). exists 0%nat.
      split; cbn; try done; [lia|by constructor|by rewrite Hq|by rewrite Hu|by rewrite Hl]. }
    intros []. assert (Hst : stable (flowing D1 [x] 0 false ∅ 1)) by apply (drained_stable D1 [x]).
    eapply gives_bind; [apply (gives_counted acts naps clock uuid D1 [x] 0 1 acked); [by right|done|done]|intros []].
    eapply gives_bind; [apply (gives_looked _ _ _ _ _ (Stats 1 0 1 1 0))|intros s; apply gives_pure; intros ->].
    { intros w1 Hf. rewrite (fl_stats _ _ _ _ _ _ _ Hf). change (take _ [x]) with [x]. by rewrite Hagain. }
    read_step 1; [apply Hst|intros w1 Hf; rewrite (fl_db _ _ _ _ _ _ _ Hf); change (take _ [x]) with [x]; rewrite Hagain; cbn; by rewrite Hr1, map_size_singleton|].
    read_step 0; [apply Hst|intros w1 Hf; pose proof (fl_work _ _ _ _ _ _ _ Hf) as Hq; cbn in Hq; by apply fmap_nil_inv in Hq as ->|].
    read_step 0; [apply Hst|intros w1 Hf; by rewrite (fl_dlq _ _ _ _ _ _ _ Hf)|].
    eapply gives_bind; [apply (gives_act _ _ _ _ _ (λ _ _, True)); [apply Hst|done]|intros []].
    apply gives_ret. intros _ _. by rewrite Hrecv, Hack. }
  destruct (Hgives t w Hw) as (bad & t' & w' & Hrun & ->). by rewrite Hrun.
Qed.
End duplicate.

(** ** The whole path *)

Section path.
Context `{PgText, EventLib, Amqp, !PgTextLaws, !EventLibLaws, !AmqpLaws} (next : gset Z → Z) (next_fresh : ∀ X, next X ∉ X).
Context (acts pauses : nat → list agent) (naps : nat → list (list agent)) (clock : nat → Z) (uuid : nat → string).
#[local] Notation gives := (gives acts clock uuid).

(** A printed number is short and visible. *)
Lemma go_bound k x s : (x < 10 ^ N.of_nat k)%N → Forall visible (bytes_of s) →
  Forall visible (bytes_of (pretty_N_go x s)) ∧ js_length (pretty_N_go x s) ≤ Z.of_nat k + js_length s.
Proof.
  revert x s. induction k as [|k IH]; intros x s Hx Hs.
  { assert (x = 0%N) as -> by (change (10 ^ N.of_nat 0)%N with 1%N in Hx; lia). rewrite pretty_N_go_0. split; [done|lia]. }
  destruct (decide (x = 0%N)) as [->|Hne]; [rewrite pretty_N_go_0; split; [done|lia]|]. rewrite pretty_N_go_step by lia.
  assert (Hc : visible (byte_of (pretty_N_char (x mod 10))) ∧ utf16_units (pretty_N_char (x mod 10)) = 1).
  { unfold pretty_N_char. repeat case_match; by split. }
  destruct (IH (x / 10)%N (String (pretty_N_char (x mod 10)) s)) as [Hv Hl].
  - apply N.Div0.div_lt_upper_bound. rewrite Nat2N.inj_succ, N.pow_succ_r' in Hx. lia.
  - constructor; [apply Hc|done].
  - split; [done|]. change (js_length (String (pretty_N_char (x mod 10)) s)) with (utf16_units (pretty_N_char (x mod 10)) + js_length s) in Hl.
    rewrite (proj2 Hc) in Hl. lia.
Qed.

Lemma demo_key_usable now url body : 0 ≤ now < 253402300800000 →
  usable_key (HttpRequest "POST" url (Some (demo_key now)) body) = Some (demo_key now).
Proof.
  intros Hnow. unfold usable_key, demo_key. cbn [hr_key mbind option_bind].
  assert (Hp : Forall visible (bytes_of (pretty now)) ∧ js_length (pretty now) ≤ 15).
  { destruct now as [|n|n]; [by split; [repeat constructor|]| |lia]. change (pretty (Z.pos n)) with (pretty_N_go (N.pos n) "").
    destruct (go_bound 15 (N.pos n) "") as [Hv Hl]; [|constructor|by split]. change (10 ^ N.of_nat 15)%N with 1000000000000000%N. lia. }
  destruct Hp as [Hv Hl]. set (s := pretty now) in *.
  assert (Hb : ∃ l, bytes_of ("demo-outbox-" +:+ s) = 100 :: l ∧ Forall visible (100 :: l)).
  { eexists. split; [reflexivity|]. repeat (constructor; [done|]). exact Hv. }
  assert (Hlen : js_length ("demo-outbox-" +:+ s) = 12 + js_length s).
  { unfold js_length. change (sumZ utf16_units (String.list_ascii_of_string ("demo-outbox-" +:+ s))) with
      (1+(1+(1+(1+(1+(1+(1+(1+(1+(1+(1+(1+ sumZ utf16_units (String.list_ascii_of_string s))))))))))))). lia. }
  destruct Hb as (l & Hb & Hvis). rewrite Hb, js_trim_visible by done. rewrite bool_decide_eq_false_2 by done. rewrite Hlen.
  unfold MAX_KEY_LENGTH. by rewrite (proj2 (Z.ltb_ge _ _)) by lia.
Qed.

(** The request of the demonstration asks for a checkout of one unit. *)
Lemma demo_post_asks now buyer product : 0 ≤ now < 253402300800000 →
  asks_for (demo_post now buyer product) = Some (Params (pretty buyer) (pretty product) 1 (Some (demo_key now))).
Proof.
  intros Hnow. unfold asks_for. rewrite option_guard_True by done. 
  assert (usable_key (demo_post now buyer product) = Some (demo_key now)) as -> by (by apply demo_key_usable). cbn [mbind option_bind].
  assert (Hne : ∀ z : Z, nonempty (pretty z) = true).
  { intros z. unfold nonempty. apply negb_true_iff, String.eqb_neq. destruct z as [|n|n]; [done|apply pretty_N_nonempty|done]. }
  unfold demo_post. cbn [hr_body]. unfold BodySchema_parse. cbn [mbind option_bind].
  change (jstr _ "buyer_id") with (Some (pretty buyer)). change (jstr _ "product_id") with (Some (pretty product)). cbn [mbind option_bind].
  rewrite !Hne, !option_guard_True by done. reflexivity.
Qed.

(** The relay and the consumer at work: nothing published yet, or published once. *)
Section working.
Context (D : db) (id : string) (r : outbox_row) (x : announced).
Context (Hout : outbox D = {[id := r]}) (Hnew : ob_published_at r = None) (Hroom : 0 ≤ ob_attempts r < 2147483647)
  (Hmsg : row_message r = Ok (body x)) (Hgood : good x) (Hm : processed_messages D = ∅) (Hr : order_receipts D = ∅).

Definition sent (j : nat) (rel : bool) (w : mq_world) : Prop := ∃ now, flowing (relayed_at now id D) [x] 0 rel ∅ j w.
Definition working (w : mq_world) : Prop := flow D [] 0 true ∅ w ∨ ∃ j, sent j true w.
Definition to_do (w : mq_world) : nat := (2 * size (backlog (w_db w)) + waiting w)%nat.

Lemma backlog_outbox d d' : outbox d = outbox d' → backlog d = backlog d'.
Proof. unfold backlog, candidates. by intros ->. Qed.

Lemma backlog_new : size (backlog D) = 1%nat.
Proof. rewrite backlog_size. unfold candidates. rewrite Hout, map_to_list_singleton, filter_cons_True, filter_nil; [done|]. unfold unpublished. cbn. by rewrite Hnew. Qed.
Lemma backlog_sent now : size (backlog (relayed_at now id D)) = 0%nat.
Proof.
  rewrite backlog_size. unfold candidates. rewrite (relayed_outbox now id r D Hout), map_to_list_singleton, filter_cons_False, filter_nil; [done|].
  by intros [[=] _].
Qed.

Lemma new_to_do w : flow D [] 0 true ∅ w → to_do w = 2%nat.
Proof.
  intros [j Hf]. unfold to_do. rewrite (backlog_outbox _ D), backlog_new, (flowing_waiting _ _ _ _ _ _ _ Hf); [done|].
  by rewrite (fl_db _ _ _ _ _ _ _ Hf), digested_outbox.
Qed.
Lemma sent_to_do j rel w : sent j rel w → to_do w = (1 - j)%nat.
Proof.
  intros [now Hf]. unfold to_do. rewrite (backlog_outbox _ (relayed_at now id D)), backlog_sent, (flowing_waiting _ _ _ _ _ _ _ Hf); [cbn; lia|].
  by rewrite (fl_db _ _ _ _ _ _ _ Hf), digested_outbox.
Qed.

Lemma working_relay now t w : working w → ∃ p t' w',
  relay_pass_in (λ _, None) now no_fault t w = (Ok p, t', w') ∧
  (flow D [] 0 true ∅ w → ∃ j, sent j true w') ∧ (∀ j, sent j true w → w' = w).
Proof.
  assert (Hidle : ∀ j, sent j true w → ∃ t', relay_pass_in (λ _, None) now no_fault t w = (Ok (Pass 0 0 None), t', w)).
  { intros j [now' Hf]. apply relay_pass_idle. apply (batch_done _ _ id (attempted r (Some now'))); [|by left].
    rewrite (fl_db _ _ _ _ _ _ _ Hf), digested_outbox. by apply relayed_outbox. }
  intros [Hw|[j Hw]].
  - destruct Hw as [j Hf]. destruct (relay_flowing D [] 0 true j w [x] now t Hf (batch_ready D id r x Hout Hnew Hroom Hmsg Hgood _ eq_refl)) as (t' & w' & Hrun & Hf').
    rewrite (batch_single D ∅ id r) in Hf' by (done || apply not_elem_of_empty).
    do 3 eexists. split; [exact Hrun|]. split; [intros _; exists j, now; exact Hf'|].
    intros j' Hs. destruct (Hidle j' Hs) as [t2 Hrun2]. rewrite Hrun in Hrun2. by injection Hrun2.
  - destruct (Hidle j Hw) as [t' Hrun]. do 3 eexists. split; [exact Hrun|]. split; [|done]. intros Hf%new_to_do.
    rewrite (sent_to_do _ _ _ Hw) in Hf. lia.
Qed.

Lemma working_turn a w : working w → working (turn a w) ∧ (to_do (turn a w) ≤ to_do w)%nat ∧
  (a.1 = Relaying → to_do w = 2%nat → (to_do (turn a w) < 2)%nat) ∧ (a.1 = Consuming → to_do w = 1%nat → to_do (turn a w) = 0%nat).
Proof.
  intros Hw. destruct a as [[] n]; cbn [fst].
  - destruct Hw as [Hf|[j Hs]].
    + pose proof Hf as [j Hf1]. destruct (flow_consume _ _ _ _ _ _ _ n Hf1) as (j' & Hf' & _). assert (flow D [] 0 true ∅ (turn (Consuming, n) w)) as Hf2 by (by exists j').
      rewrite (new_to_do _ Hf), (new_to_do _ Hf2). split; [by left|]. split; [done|]. by split.
    + destruct Hs as [now Hf]. destruct (flow_consume _ _ _ _ _ _ _ n Hf) as (j' & Hf' & Hj & Hj').
      assert (Hs : sent j true w) by (by exists now). assert (Hs' : sent j' true (turn (Consuming, n) w)) by (by exists now).
      rewrite (sent_to_do _ _ _ Hs), (sent_to_do _ _ _ Hs'). split; [right; by exists j'|]. split; [lia|]. split; [done|].
      intros _ H1'. cbn in Hj'. specialize (Hj' ltac:(lia)). lia.
  - assert (Hrel : w_relaying w = true) by (destruct Hw as [[j Hf]|[j [now Hf]]]; apply Hf).
    unfold turn. cbn [fst snd]. rewrite Hrel. destruct (working_relay n 0%nat w Hw) as (p & t' & w' & -> & Hnew' & Hold). cbn [snd].
    destruct Hw as [Hf|[j Hs]].
    + destruct (Hnew' Hf) as [j Hs]. rewrite (new_to_do _ Hf), (sent_to_do _ _ _ Hs). split; [right; by exists j|]. split; [lia|]. split; [lia|done].
    + rewrite (Hold j Hs). split; [right; by exists j|]. split; [done|]. rewrite (sent_to_do _ _ _ Hs). split; [lia|done].
  - unfold turn. cbn [fst snd]. assert (Hlock : ∀ E S j, flowing S E 0 true ∅ j w → flowing S E 0 true ∅ j (set_locked ∅ w)).
    { intros E S j Hf. destruct Hf. split; done || apply empty_subseteq. }
    split; [destruct Hw as [[j Hf]|[j [now Hf]]]; [left; exists j; by apply Hlock|right; exists j, now; by apply Hlock]|]. done.
Qed.

Lemma working_stable : stable working.
Proof. intros a w Hw. apply (working_turn a w Hw). Qed.
Lemma sent_stable rel : stable (sent 1 rel).
Proof.
  intros a w Hs. destruct rel.
  - assert (Hw : working w) by (right; by exists 1%nat). destruct (working_turn a w Hw) as ([Hf|[j Hj]] & Hle & _);
      rewrite (sent_to_do _ _ _ Hs) in Hle; [rewrite (new_to_do _ Hf) in Hle; lia|].
    rewrite (sent_to_do _ _ _ Hj) in Hle. pose proof Hj as [now Hf]. pose proof (fl_le _ _ _ _ _ _ _ Hf) as Hj1. cbn in Hj1.
    by replace 1%nat with j by lia.
  - destruct Hs as [now Hf]. exists now. by apply (drained_stable _ [x]).
Qed.

Lemma working_turns l w : working w → (to_do (turns l w) ≤ to_do w)%nat.
Proof.
  unfold turns. revert w. induction l as [|a l IH]; intros w Hw; [done|]. cbn [foldl].
  destruct (working_turn a w Hw) as (Hw' & Hle & _). etrans; [by apply IH|done].
Qed.

(** What the wait reads. *)
Lemma working_reads w : working w → ∃ s, w_consumer w = Some s ∧
  ((1 <=? published_rows (w_db w)) && (1 <=? acked s) = true ↔ to_do w = 0%nat).
Proof.
  intros [[j Hf]|[j [now Hf]]]; destruct (flowing_counts _ _ _ _ _ _ _ Hf) as (s & Hs & _ & Ha); exists s; (split; [done|]).
  - rewrite (new_to_do w) by (by exists j). rewrite (published_single _ id r), Hnew; [done|].
    by rewrite (fl_db _ _ _ _ _ _ _ Hf), digested_outbox.
  - rewrite (sent_to_do j true) by (by exists now). rewrite (published_single _ id (attempted r (Some now))).
    2:{ rewrite (fl_db _ _ _ _ _ _ _ Hf), digested_outbox. by apply relayed_outbox. }
    cbn [ob_published_at attempted]. rewrite Ha. destruct j; cbn; [done|]. split; [lia|]. intros _. apply Z.leb_le. lia.
Qed.

Lemma done_sent w : working w → to_do w = 0%nat → sent 1 true w.
Proof.
  intros [Hf|[j Hs]] Hz; [rewrite (new_to_do _ Hf) in Hz; lia|]. rewrite (sent_to_do _ _ _ Hs) in Hz.
  pose proof Hs as [now Hf]. pose proof (fl_le _ _ _ _ _ _ _ Hf) as Hj. cbn in Hj. by replace 1%nat with j by lia.
Qed.

Lemma working_awaited : awaited acts clock uuid working to_do (λ n, if (n =? 2)%nat then Relaying else Consuming)
  (n ← countPublished; s ← stats; mret ((1 <=? n) && (1 <=? acked s))) (sent 1 true).
Proof.
  split.
  - apply working_stable.
  - intros a w Hw. apply (working_turn a w Hw).
  - intros a w Hw Hne Ha. destruct (working_turn a w Hw) as (_ & _ & H2' & H1').
    assert (to_do w = 2 ∨ to_do w = 1)%nat as [He|He]; [|rewrite He in Ha; cbn in Ha; rewrite He; auto..].
    { destruct Hw as [Hf|[j Hs]]; [left; by apply new_to_do|right]. rewrite (sent_to_do _ _ _ Hs) in *. lia. }
    rewrite (H1' Ha He). lia.
  - intros t w Hw. set (w1 := turns (acts t) w). assert (Hw1 : working w1) by (apply turns_stable; [apply working_stable|done]).
    destruct (working_reads w1 Hw1) as (s & Hs & Hiff). pose proof (working_turns (acts t) w Hw) as Hle. fold w1 in Hle.
    exists ((1 <=? published_rows (w_db w1)) && (1 <=? acked s)), (Datatypes.S t), w1. split; [|split; [done|split; [done|split]]].
    + unfold countPublished, ask, stats, look, roundtrip, mbind, io_bind. cbn -[turns published_rows]. fold w1. by rewrite Hs.
    + intros Hz. apply Hiff. lia.
    + intros Hb. apply done_sent; [done|]. by apply Hiff.
Qed.
(** What the script reads at the end. *)
Lemma sent_reads rel w : sent 1 rel w → size (outbox (w_db w)) = 1%nat ∧ published_rows (w_db w) = 1 ∧
  size (order_receipts (w_db w)) = 1%nat ∧ size (processed_messages (w_db w)) = 1%nat ∧ orders (w_db w) = orders D.
Proof.
  intros [now Hf]. rewrite (fl_db _ _ _ _ _ _ _ Hf). change (take 1 [x]) with [x].
  pose proof (digest_first x (relayed_at now id D) no_statistics Hm Hr) as [H1' H2' _].
  rewrite (published_single _ id (attempted r (Some now))) by (rewrite digested_outbox; by apply relayed_outbox).
  rewrite digested_outbox, (relayed_outbox now id r D Hout), map_size_singleton. unfold digested. cbn [foldl].
  destruct (digest_frame [x] (relayed_at now id D) no_statistics) as (X & Y & HE). cbn [foldl] in HE.
  rewrite H1', H2', map_size_singleton, size_singleton, HE. done.
Qed.
End working.

(** Two requests with one key: the order, and its replay. *)
Lemma two_posts e1 e2 stamp product buyer D pr u : can_buy e1 (Params (pretty buyer) (pretty product) 1 (Some (demo_key stamp))) product buyer D pr u →
  outbox_id e1 ≠ outbox_id e2 → outbox D = ∅ → 0 ≤ stamp < 253402300800000 →
  let p := Params (pretty buyer) (pretty product) 1 (Some (demo_key stamp)) in
  let D1 := purchase e1 p product buyer pr u D in
  let post := demo_post stamp buyer product in let id := pretty (seq_orders D + 1) in ∃ m m',
  (∀ t, ∃ t', createOrdersApi e1 post no_fault t D = (Ok (checkout_answer post (CheckoutSuccess id m false)), t', D1)) ∧
  (∀ t, ∃ t', createOrdersApi e2 post no_fault t D1 = (Ok (checkout_answer post (CheckoutSuccess id m' true)), t', D1)).
Proof.
  intros Hbuy Hne Hout Hstamp p D1 post id. pose proof (demo_post_asks stamp buyer product Hstamp) as Hasks. fold p post in Hasks.
  destruct (checkout_sale e1 p product buyer D pr u Hbuy) as (_ & Hrun & _).
  exists (num_mul (num_of_cents DEMO_PRICE) (num_of_Z 1)), (num_of_cents (p_price pr * 1)). split; intros t.
  - destruct (Hrun t) as [t' Hr]. exists t'. by rewrite (api_run e1 post p _ _ _ _ _ _ Hasks Hr).
  - pose proof Hbuy as [Hok Hob Hq [Hpid Hbid] (Hp & Hprice & Hst) [Hu Hbal] Hnew Hseq Hdate].
    assert (Hreq : request_ok p product buyer) by by split.
    assert (Hok1 : db_ok D1).
    { unfold D1. apply purchase_ok; try done. destruct (affordable_amount (u_balance u) (p_price pr) 1) as (y & _ & Ha & _ & Hge);
        [apply (ok_products _ Hok _ _ Hp)|lia|apply (ok_users _ Hok _ _ Hu)|]. cbn [quantity p]. rewrite Ha. apply Hge. rewrite Hprice. lia. }
    destruct (checkout_runs e2 p product buyer D1 t Hok1 Hreq) as [t' Hr].
    { unfold D1, purchase. cbn [outbox]. rewrite Hout, lookup_insert_ne by done. apply lookup_empty. }
    assert (Hspec : checkout_spec e2 p product buyer D1 = (CheckoutSuccess id (num_of_cents (p_price pr * 1)) true, D1)).
    { unfold checkout_spec. assert (replay_of p D1 = Some (seq_orders D + 1, OrderRow buyer (u_email u) paid (p_price pr * 1) (now e1))) as ->; [|done].
      assert (Hkeys : idempotency_keys D1 = <[demo_key stamp := Some (seq_orders D + 1)]> (idempotency_keys D)) by reflexivity.
      assert (Hord : orders D1 = <[seq_orders D + 1 := OrderRow buyer (u_email u) paid (p_price pr * 1) (now e1)]> (orders D)) by reflexivity.
      change (replay_of p D1) with (oid ← mjoin (idempotency_keys D1 !! demo_key stamp); o ← orders D1 !! oid; Some (oid, o)).
      rewrite Hkeys, lookup_insert_eq. cbn [mjoin option_join mbind option_bind]. by rewrite Hord, lookup_insert_eq. }
    rewrite Hspec in Hr. exists t'. by rewrite (api_run e2 post p _ _ _ _ _ _ Hasks Hr).
Qed.

(** The relay starts. *)
Lemma gives_start_relaying D : gives (flow D [] 0 false ∅) start_relaying (λ _, flow D [] 0 true ∅).
Proof. intros t w [j Hf]. do 3 eexists. split; [reflexivity|]. exists j. by destruct Hf. Qed.

Lemma gives_stop_relaying D id x : stable (sent D id x 1 true) → gives (sent D id x 1 true) stop_relaying (λ _, sent D id x 1 false).
Proof. intros Hst. apply gives_act; [exact Hst|]. intros w [stamp Hf]. exists stamp. by destruct Hf. Qed.

(** C12: demo:outbox exits with 0: two HTTP requests with one key make one order and
    one row (201, then 200 with the replay header and the same id), the
    background relay publishes it, the consumer applies it, and at the end there
    are one order, one published row and one effect, whatever the interleaving
    of relay and consumer. *)
Theorem outbox_passes e1 e2 stamp d w t product buyer D : db_ok d → still d w → (∀ t, rounds 2 (naps t)) →
  prepared next "happy" d = (product, buyer, D) → int8 product = true → int8 buyer = true → int8 (seq_orders D + 1) = true →
  0 ≤ date e1 < 253402300800000 → 0 ≤ stamp < 253402300800000 → outbox_id e1 ≠ outbox_id e2 →
  assertInvariant (demo_outbox next pauses naps e1 e2 stamp (others acts clock uuid) t w).1.1 = 0.
Proof.
  intros Hok Hw Hrounds Hprep Hp8 Hb8 Hs8 Hdate Hstamp Hne.
  destruct (prepared_fresh next next_fresh _ _ _ _ _ Hok Hprep) as [Hfresh Hnone].
  destruct (fresh_can_buy e1 (Some (demo_key stamp)) product buyer DEMO_STOCK D Hfresh) as (pr & u & _ & Hbuy); [done..|].
  destruct (two_posts e1 e2 stamp product buyer D pr u Hbuy Hne (fs_outbox _ _ _ _ Hfresh) Hstamp) as (m & m' & Hrun1 & Hrun2).
  set (p := Params _ _ _ _) in *. destruct (checkout_sale e1 p product buyer D pr u Hbuy) as (Hgood & _ & _).
  pose proof (sale_outbox e1 p product buyer D pr u Hbuy) as Hout. rewrite (fs_outbox _ _ _ _ Hfresh), insert_empty in Hout.
  set (D1 := purchase e1 p product buyer pr u D) in *. set (x := sale e1 p D) in *. set (r := sale_row e1 p D) in *.
  assert (Hm1 : processed_messages D1 = ∅) by apply Hfresh. assert (Hr1 : order_receipts D1 = ∅) by apply Hfresh.
  assert (Hone : size (filter (λ y : Z * order_row, o_buyer_id y.2 = buyer) (orders D1)) = 1%nat).
  { unfold D1, purchase. cbn [orders]. rewrite map_filter_insert_True by done.
    replace (filter _ (orders D)) with (∅ : gmap Z order_row); [by rewrite insert_empty, map_size_singleton|]. symmetry.
    apply map_empty. intros i. apply map_lookup_filter_None. right. intros o Ho Heq. exact (Hnone i o Ho Heq). }
  pose proof (λ rel w1, sent_reads D1 (outbox_id e1) r x Hout Hm1 Hr1 rel w1) as Hreads.
  assert (Hst : ∀ rel, stable (sent D1 (outbox_id e1) x 1 rel)) by (intros rel; by apply (sent_stable D1 (outbox_id e1) r x)).
  assert (Hgives : gives (still d) (demo_outbox next pauses naps e1 e2 stamp) (λ bad _, bad = [])).
  { unfold demo_outbox. eapply gives_bind; [apply gives_prepare|intros ids]. rewrite Hprep. apply gives_pure. intros ->. cbn [fst snd].
    eapply gives_bind; [apply gives_startConsumer|intros []].
    eapply gives_bind; [by apply (gives_unpublished _ _ _ D D1)|intros r1]. apply gives_pure. intros ->.
    eapply gives_bind; [by apply (gives_unpublished _ _ _ D1 D1)|intros r2]. apply gives_pure. intros ->.
    read_step 1; [apply flow_stable|intros w1 Hw1; rewrite (flow_unpublished _ _ _ _ _ Hw1), Hout; by rewrite map_size_singleton|].
    read_step 0; [apply flow_stable|intros w1 Hw1; rewrite (flow_unpublished _ _ _ _ _ Hw1); by apply (published_single _ (outbox_id e1) r)|].
    eapply gives_bind; [apply gives_start_relaying|intros []].
    eapply (gives_bind _ _ _ _ _ (λ _, sent D1 (outbox_id e1) x 1 true)).
    { eapply (gives_weaken _ _ _ _ (working D1 (outbox_id e1) x) _ _ (λ _, sent D1 (outbox_id e1) x 1 true)); [|by left|done].
      eapply gives_wait; [by apply (working_awaited D1 (outbox_id e1) r x)|apply Hrounds| |done].
      intros w1 [Hf|[j Hj]]; [by rewrite (new_to_do D1 (outbox_id e1) r Hout eq_refl _ Hf)|rewrite (sent_to_do D1 (outbox_id e1) r x Hout _ _ _ Hj); lia]. }
    intros []. eapply gives_bind; [apply gives_sleep, Hst|intros []].
    eapply gives_bind; [apply gives_stop_relaying, Hst|intros []].
    read_step 1; [apply Hst|intros w1 Hw1; destruct (Hreads _ _ Hw1) as (_ & _ & _ & _ & ->); by rewrite Hone|].
    read_step 1; [apply Hst|intros w1 Hw1; by destruct (Hreads _ _ Hw1) as (-> & _)|].
    read_step 1; [apply Hst|intros w1 Hw1; by destruct (Hreads _ _ Hw1) as (_ & -> & _)|].
    read_step 1; [apply Hst|intros w1 Hw1; by destruct (Hreads _ _ Hw1) as (_ & _ & -> & _)|].
    read_step 1; [apply Hst|intros w1 Hw1; by destruct (Hreads _ _ Hw1) as (_ & _ & _ & -> & _)|].
    eapply gives_bind; [apply (gives_act _ _ _ _ _ (λ _ _, True)); [apply Hst|done]|intros []].
    apply gives_ret. intros _ _. rewrite (bool_decide_eq_true_2 (order_id_of _ = order_id_of _)) by reflexivity.
    assert (replay_header (checkout_answer (demo_post stamp buyer product) (CheckoutSuccess (pretty (seq_orders D + 1)) m' true)) = true) as ->;
      [|reflexivity]. apply bool_decide_eq_true_2. cbn. list_elem. }
  destruct (Hgives t w Hw) as (bad & t' & w' & Hrunw & ->). by rewrite Hrunw.
Qed.
End path.

(** ** Five purchases *)

Section publish.
Context `{PgText, EventLib, Amqp, !PgTextLaws, !EventLibLaws, !AmqpLaws} (next : gset Z → Z) (next_fresh : ∀ X, next X ∉ X).
Context (acts pauses : nat → list agent) (naps : nat → list (list agent)) (clock : nat → Z) (uuid : nat → string).
#[local] Notation gives := (gives acts clock uuid).

(** Events of different orders are all applied. *)
Definition unseen (D : db) (x : announced) : Prop :=
  (x.1.2, CONSUMER_NAME) ∉ processed_messages D ∧ receipt_conflict x.1.2 (od_orderId (ev_data x.1.1)) D = false.
Definition apart (x y : announced) : Prop := x.1.2 ≠ y.1.2 ∧ od_orderId (ev_data x.1.1) ≠ od_orderId (ev_data y.1.1).

Lemma digest_unseen D s x : unseen D x →
  (digest (D, s) x).1 = set_receipts <[x.1.2 := receipt_of x.1.1 x.2]> (set_processed (λ m, {[(x.1.2, CONSUMER_NAME)]} ∪ m) D).
Proof.
  intros [Hm Hc]. unfold digest, apply_spec. cbn [fst snd]. rewrite decide_False by done.
  assert (receipt_conflict x.1.2 (od_orderId (ev_data x.1.1)) (set_processed (λ m, {[(x.1.2, CONSUMER_NAME)]} ∪ m) D) = false) as -> by exact Hc.
  done.
Qed.

Lemma unseen_digest D s x y : unseen D x → unseen D y → apart x y → unseen (digest (D, s) x).1 y.
Proof.
  intros Hx [Hm Hc] [Hi Ho]. rewrite digest_unseen by done. split; cbn.
  - rewrite elem_of_union, elem_of_singleton. intros [[= He]|?]; [by symmetry in He|done].
  - apply bool_decide_eq_false_2. apply bool_decide_eq_false in Hc. cbn. intros [[r Hl]|(i & r & Hl & Hr)].
    + rewrite lookup_insert_ne in Hl by done. apply Hc. left. by exists r.
    + rewrite lookup_insert in Hl. case_decide; [injection Hl as <-; by cbn in Hr|]. apply Hc. right. by exists i, r.
Qed.

Lemma digest_distinct l D s : ForallOrdPairs apart l → Forall (unseen D) l →
  size (order_receipts (foldl digest (D, s) l).1) = (size (order_receipts D) + length l)%nat.
Proof.
  intros Hl. revert D s. induction Hl as [|x l Hx Hl IH]; intros D s Hu; [cbn; lia|]. apply Forall_cons in Hu as [Hux Hu]. cbn [foldl].
  pose proof (digest_unseen D s x Hux) as Hd. destruct (digest (D, s) x) as [D1 s1] eqn:Hdig. cbn [fst] in Hd.
  assert (Hu1 : Forall (unseen D1) l).
  { apply Forall_forall. intros y Hy. rewrite Forall_forall in Hx, Hu. pose proof (unseen_digest D s x y Hux (Hu y Hy) (Hx y Hy)) as Hn.
    by rewrite Hdig in Hn. }
  rewrite IH by done. rewrite Hd. cbn. rewrite map_size_insert_None; [lia|].
  destruct Hux as [_ Hc]. apply bool_decide_eq_false in Hc. apply eq_None_not_Some. intros Hs. apply Hc. by left.
Qed.

(** The shop after [i] purchases: [ys] are the rows and their events. *)
Record bought (envs : nat → env) (seq0 product buyer : Z) (i : nat) (ys : list (string * outbox_row * announced)) (D : db) : Prop := {
  bt_ok : db_ok D;
  bt_length : length ys = i;
  bt_outbox : outbox D = list_to_map ys.*1;
  bt_rows : ∀ k y, ys !! k = Some y → y.1.1 = outbox_id (envs k) ∧ ob_published_at y.1.2 = None ∧ ob_attempts y.1.2 = 0 ∧
    ob_payload y.1.2 ≠ JNull ∧ row_message y.1.2 = Ok (body y.2) ∧ good y.2 ∧
    y.2.1.2 = event_id (seq0 + 1 + Z.of_nat k) ∧ od_orderId (ev_data y.2.1.1) = pretty (seq0 + 1 + Z.of_nat k);
  bt_processed : processed_messages D = ∅;
  bt_receipts : order_receipts D = ∅;
  bt_seq : seq_orders D = seq0 + Z.of_nat i;
  bt_product : ∃ pr, products D !! product = Some pr ∧ p_price pr = DEMO_PRICE ∧ p_stock pr = 1000 - Z.of_nat i;
  bt_buyer : ∃ u, users D !! buyer = Some u ∧ u_balance u = 100000000 - DEMO_PRICE * Z.of_nat i;
}.

Lemma bought_ids envs seq0 product buyer i ys D : (∀ j k, j ≠ k → outbox_id (envs j) ≠ outbox_id (envs k)) →
  bought envs seq0 product buyer i ys D → NoDup ys.*1.*1 ∧ outbox_id (envs i) ∉ ys.*1.*1.
Proof.
  intros Hdist Hb. assert (Hk : ∀ k id, ys.*1.*1 !! k = Some id → id = outbox_id (envs k) ∧ (k < i)%nat).
  { intros k id. rewrite !list_lookup_fmap. intros Hl. destruct (ys !! k) as [y|] eqn:Hy; [|done]. injection Hl as <-.
    split; [by apply (bt_rows _ _ _ _ _ _ _ Hb)|]. rewrite <-(bt_length _ _ _ _ _ _ _ Hb). by eapply lookup_lt_Some. }
  split.
  - apply NoDup_alt. intros j k id [-> _]%Hk [He _]%Hk. destruct (decide (j = k)); [done|]. by destruct (Hdist j k).
  - intros [k [He Hlt]%Hk]%list_elem_of_lookup. apply (Hdist i k); [lia|done].
Qed.

Lemma bought_step envs seq0 product buyer i ys D : (∀ j k, j ≠ k → outbox_id (envs j) ≠ outbox_id (envs k)) →
  int8 product = true → int8 buyer = true → int8 (seq0 + 1 + Z.of_nat i) = true → 0 ≤ date (envs i) < 253402300800000 → (i < 1000)%nat →
  bought envs seq0 product buyer i ys D → ∃ r D' y,
  (∀ t, ∃ t', checkout (envs i) no_hook (Params (pretty buyer) (pretty product) 1 None) no_fault t D = (Ok r, t', D')) ∧
  bought envs seq0 product buyer (Datatypes.S i) (ys ++ [y]) D'.
Proof.
  intros Hdist Hp8 Hb8 Hs8 Hdate Hi Hb. destruct (bought_ids _ _ _ _ _ _ _ Hdist Hb) as [Hnd Hnew].
  pose proof Hb as [Hok Hlen Hout Hrows Hm Hr Hseq (pr & Hp & Hprice & Hst) (u & Hu & Hbal)].
  set (p := Params (pretty buyer) (pretty product) 1 None).
  assert (Hbuy : can_buy (envs i) p product buyer D pr u).
  { split; cbn; try done.
    - rewrite Hout. by apply not_elem_of_list_to_map_1.
    - by split; apply bigint_in_out.
    - split; [done|]. split; [done|lia].
    - split; [done|]. rewrite Hbal. unfold DEMO_PRICE. lia.
    - rewrite Hseq. by replace (seq0 + Z.of_nat i + 1) with (seq0 + 1 + Z.of_nat i) by lia. }
  destruct (checkout_sale (envs i) p product buyer D pr u Hbuy) as (Hgood & Hrun & _).
  eexists _, _, (outbox_id (envs i), sale_row (envs i) p D, sale (envs i) p D). split; [exact Hrun|].
  assert (Hseq1 : seq_orders D + 1 = seq0 + 1 + Z.of_nat i) by lia. split.
  - apply purchase_ok; try done; [cbn; lia|]. destruct (affordable_amount (u_balance u) (p_price pr) 1) as (x & _ & Ha & _ & Hge);
      [apply (ok_products _ Hok _ _ Hp)|lia|apply (ok_users _ Hok _ _ Hu)|]. cbn [quantity p]. rewrite Ha. apply Hge. rewrite Hprice, Hbal. unfold DEMO_PRICE. lia.
  - rewrite length_app, Hlen. cbn. lia.
  - rewrite (sale_outbox _ _ _ _ _ _ _ Hbuy), Hout, fmap_app. cbn. by rewrite list_to_map_snoc.
  - intros k y Hy. apply lookup_app_Some in Hy as [Hy|[Hge Hy]]; [by apply Hrows|]. rewrite Hlen in *.
    apply list_lookup_singleton_Some in Hy as [Hk <-]. assert (k = i) as -> by lia. cbn. rewrite <-Hseq1. split_and!; try done; apply Hgood.
  - done.
  - done.
  - unfold purchase. cbn [seq_orders]. lia.
  - unfold purchase. cbn [products]. rewrite lookup_insert_eq. eexists. split; [done|]. cbn. split; [done|lia].
  - unfold purchase. cbn [users]. rewrite lookup_insert_eq. eexists. split; [done|]. cbn. unfold DEMO_PRICE in *. lia.
Qed.

(** The purchases of the script. *)
Lemma gives_buy_each envs seq0 product buyer n i ys D : (∀ j k, j ≠ k → outbox_id (envs j) ≠ outbox_id (envs k)) →
  int8 product = true → int8 buyer = true → (i + n ≤ 1000)%nat →
  (∀ k, (k < i + n)%nat → int8 (seq0 + 1 + Z.of_nat k) = true ∧ 0 ≤ date (envs k) < 253402300800000) →
  bought envs seq0 product buyer i ys D →
  gives (flow D [] 0 false ∅) (buy_each envs buyer product n i)
    (λ _ w, ∃ zD : list (string * outbox_row * announced) * db, bought envs seq0 product buyer (i + n) zD.1 zD.2 ∧ flow zD.2 [] 0 false ∅ w).
Proof.
  intros Hdist Hp8 Hb8. revert i ys D. induction n as [|n IH]; intros i ys D Hle Hk Hb.
  - apply gives_ret. intros w Hw. exists (ys, D). rewrite Nat.add_0_r. by split.
  - destruct (Hk i) as [Hs8 Hdate]; [lia|].
    destruct (bought_step envs seq0 product buyer i ys D Hdist Hp8 Hb8 Hs8 Hdate) as (r & D' & y & Hrun & Hb'); [lia|done|].
    cbn [buy_each]. eapply gives_bind; [by apply (gives_unpublished _ _ _ D D')|intros res]. apply gives_pure. intros ->.
    rewrite <-Nat.add_succ_comm. apply (IH _ (ys ++ [y])); [lia| |done]. intros k Hlt. apply Hk. lia.
Qed.

(** What the relay claims then. *)
Lemma bought_batch envs seq0 product buyer i ys D : (∀ j k, j ≠ k → outbox_id (envs j) ≠ outbox_id (envs k)) → (i ≤ BATCH)%nat →
  bought envs seq0 product buyer i ys D → batch BATCH ∅ D ≡ₚ ys.*1.
Proof.
  intros Hdist Hi Hb. destruct (bought_ids _ _ _ _ _ _ _ Hdist Hb) as [Hnd _].
  assert (Hc : candidates ∅ D ≡ₚ ys.*1).
  { unfold candidates. rewrite (bt_outbox _ _ _ _ _ _ _ Hb).
    rewrite (map_to_list_to_map ys.*1) by done. assert (Hall : Forall (λ x : string * outbox_row, unpublished x.2 = true ∧ x.1 ∉ (∅ : gset string)) ys.*1); [apply Forall_forall|].
    2: { clear -Hall. induction Hall as [|x l Hx Hl IH]; [done|]. rewrite filter_cons_True by done. by rewrite IH. }
    intros [id r] [y [-> [k Hy]%list_elem_of_lookup]]%list_elem_of_fmap. destruct (bt_rows _ _ _ _ _ _ _ Hb k y Hy) as (_ & Hp & _).
    unfold unpublished. rewrite Hp. split; [done|apply not_elem_of_empty]. }
  unfold batch. rewrite take_ge; [by rewrite merge_sort_Permutation|].
  rewrite merge_sort_Permutation, Hc, length_fmap, (bt_length _ _ _ _ _ _ _ Hb). done.
Qed.

Lemma bought_announces envs seq0 product buyer i ys D : (∀ j k, j ≠ k → outbox_id (envs j) ≠ outbox_id (envs k)) → (i ≤ BATCH)%nat →
  bought envs seq0 product buyer i ys D → ∃ xs, xs ≡ₚ ys.*2 ∧ batch_announces D xs.
Proof.
  intros Hdist Hi Hb. destruct (Permutation_map_inv _ _ (bought_batch _ _ _ _ _ _ _ Hdist Hi Hb)) as (zs & Hz & Hp).
  assert (Hall : ∀ z, z ∈ zs → row_message z.1.2 = Ok (body z.2) ∧ good z.2).
  { intros z Hin. rewrite <-Hp in Hin. apply list_elem_of_lookup in Hin as [k Hk].
    by destruct (bt_rows _ _ _ _ _ _ _ Hb k z Hk) as (_ & _ & _ & _ & ? & ? & _). }
  exists zs.*2. split; [by rewrite Hp|]. split; [|split].
  - intros id r Hl Hn. rewrite (bt_outbox _ _ _ _ _ _ _ Hb) in Hl. apply elem_of_list_to_map_2, list_elem_of_fmap in Hl as (y & He & Hy).
    apply list_elem_of_lookup in Hy as [k Hk]. destruct (bt_rows _ _ _ _ _ _ _ Hb k y Hk) as (_ & _ & Ha & Hpay & _). rewrite <-He in *. cbn in *.
    rewrite Ha. split; [done|lia].
  - apply Forall_fmap, Forall_forall. intros z Hin. by apply Hall.
  - rewrite Hz. clear -Hall. induction zs as [|z zs IH]; [constructor|]. cbn. constructor; [apply Hall; list_elem|].
    apply IH. intros y Hy. apply Hall. by apply elem_of_cons; right.
Qed.

(** Nothing is left after a pass that published every row. *)
Lemma marked_idle now D D' : (∀ id r, outbox D !! id = Some r → ob_published_at r = None → id ∈ (batch BATCH ∅ D).*1) →
  outbox D' = mark_all now (batch BATCH ∅ D).*1 (outbox D) → batch BATCH ∅ D' = [].
Proof.
  intros Hall Ho. unfold batch at 1. assert (candidates ∅ D' = []) as ->; [|reflexivity].
  apply elem_of_nil_inv. intros [id r] (Hl & Hp & _)%candidates_elem. rewrite Ho, mark_all_lookup in Hl.
  destruct (outbox D !! id) as [r'|] eqn:Hr; [|done]. cbn in Hl. injection Hl as <-. case_decide as Hd; [done|]. by apply Hd, (Hall id r').
Qed.

Lemma gives_drain envs seq0 product buyer i ys D : (∀ j k, j ≠ k → outbox_id (envs j) ≠ outbox_id (envs k)) → (0 < i ≤ BATCH)%nat →
  bought envs seq0 product buyer i ys D →
  gives (flow D [] 0 false ∅) drain (λ n w, n = i ∧ ∃ now xs, xs ≡ₚ ys.*2 ∧ flow (set_outbox (mark_all now (batch BATCH ∅ D).*1) D) xs 0 false ∅ w).
Proof.
  intros Hdist Hi Hb t w Hw. destruct (bought_announces _ _ _ _ _ _ _ Hdist (proj2 Hi) Hb) as (xs & Hxs & Hann).
  assert (Hlen : length xs = i) by (by rewrite Hxs, length_fmap, (bt_length _ _ _ _ _ _ _ Hb)).
  destruct (bought_ids _ _ _ _ _ _ _ Hdist Hb) as [Hnd _].
  assert (Hsize : size (outbox D) = i).
  { by rewrite (bt_outbox _ _ _ _ _ _ _ Hb), map_size_list_to_map, length_fmap, (bt_length _ _ _ _ _ _ _ Hb). }
  unfold drain. rewrite (flow_unpublished _ _ _ _ _ Hw), Hsize. destruct i as [|i]; [lia|]. cbn [drain_from].
  assert (flow D [] 0 false ∅ (turns (acts t) w)) as [j Hf] by (by apply turns_stable; [apply flow_stable|]).
  destruct (relay_flowing D [] 0 false j _ xs (clock t) t Hf Hann) as (t1 & w1 & Hrun & Hf1).
  set (D1 := set_outbox _ D) in Hf1. cbn [app] in Hf1.
  assert (flow D1 xs 0 false ∅ (turns (acts t1) w1)) as Hw2 by (by apply turns_stable; [apply flow_stable|exists j]).
  destruct (relay_pass_idle (λ _, None) (clock t1) t1 (turns (acts t1) w1)) as [t2 Hidle].
  { assert (w_locked (turns (acts t1) w1) = ∅) as -> by (destruct Hw2 as [j2 Hf2]; apply (anti_symm (⊆)); [apply Hf2|apply empty_subseteq]).
    apply (marked_idle (clock t) D); [|by rewrite (flow_outbox _ _ _ _ _ Hw2)]. intros id r Hl _.
    rewrite (bought_batch _ _ _ _ _ _ _ Hdist (proj2 Hi) Hb). rewrite (bt_outbox _ _ _ _ _ _ _ Hb) in Hl.
    apply elem_of_list_to_map_2 in Hl. by apply (list_elem_of_fmap_2 fst) in Hl. }
  exists (Datatypes.S i), t2, (turns (acts t1) w1). split.
  - erewrite io_bind_run; [|exact Hrun]. cbn [error published claimed]. rewrite Hlen. cbn [Nat.eqb Nat.add].
    erewrite io_bind_run; [|exact Hidle]. cbn [error published claimed Nat.eqb]. by rewrite Nat.add_0_r.
  - split; [done|]. by exists (clock t), xs.
Qed.

(** A message of a key without a binding: the alternate exchange keeps it. *)
Lemma gives_unknown D E : gives (flow D E 0 false ∅) (send_message order_unknown) (λ _, flow D E 1 false ∅).
Proof.
  apply gives_act; [apply flow_stable|]. intros w [j [Hle Hg Hdb Hst Hw Hd Hu Hr Hl]]. exists j.
  assert (Ha : ∀ q, ready (mq_publish order_unknown (w_mq w)) q = ready (w_mq w) q ++ arrives EXCHANGE "order.unknown" q order_unknown)
    by (intros q; apply mq_published).
  split; cbn [w_db w_mq w_consumer w_relaying w_locked set_mq]; try done; rewrite Ha.
  - change (arrives _ _ _ _) with (@nil (message * bool)). by rewrite app_nil_r.
  - by rewrite Hd.
  - rewrite length_app, Hu. reflexivity.
Qed.

Lemma apart_ordered l : NoDup ((λ x : announced, x.1.2) <$> l) → NoDup ((λ x : announced, od_orderId (ev_data x.1.1)) <$> l) →
  ForallOrdPairs apart l.
Proof.
  induction l as [|x l IH]; [constructor|]. rewrite !fmap_cons, !NoDup_cons. intros [Hx Hl] [Hx' Hl']. constructor; [|by apply IH].
  apply Forall_forall. intros y Hy. split; intros He; [apply Hx|apply Hx']; apply list_elem_of_fmap; by exists y.
Qed.

Lemma bought_apart envs seq0 product buyer i ys D xs :
  (∀ j k, (j < i)%nat → (k < i)%nat → event_id (seq0 + 1 + Z.of_nat j) = event_id (seq0 + 1 + Z.of_nat k) → j = k) →
  bought envs seq0 product buyer i ys D → xs ≡ₚ ys.*2 → ForallOrdPairs apart xs.
Proof.
  intros Hcoll Hb Hxs.
  assert (Hrow : ∀ k x, ys.*2 !! k = Some x → (k < i)%nat ∧ x.1.2 = event_id (seq0 + 1 + Z.of_nat k) ∧ od_orderId (ev_data x.1.1) = pretty (seq0 + 1 + Z.of_nat k)).
  { intros k x Hk. rewrite list_lookup_fmap in Hk. destruct (ys !! k) as [y|] eqn:Hy; [|done]. injection Hk as <-.
    destruct (bt_rows _ _ _ _ _ _ _ Hb k y Hy) as (_ & _ & _ & _ & _ & _ & ? & ?). split; [|done].
    rewrite <-(bt_length _ _ _ _ _ _ _ Hb). by eapply lookup_lt_Some. }
  apply apart_ordered; rewrite Hxs; apply NoDup_alt; intros j k z (x & -> & Hj)%list_lookup_fmap_Some (y & He & Hk)%list_lookup_fmap_Some;
    destruct (Hrow _ _ Hj) as (? & Hi1 & Ho1), (Hrow _ _ Hk) as (? & Hi2 & Ho2).
  - apply Hcoll; [done..|]. congruence.
  - rewrite Ho1, Ho2 in He. apply pretty_Z_inj in He. lia.
Qed.

(** The effects of events of different orders. *)
Lemma drained_effects D E U r L w : ForallOrdPairs apart E → processed_messages D = ∅ → order_receipts D = ∅ →
  flowing D E U r L (length E) w → size (order_receipts (w_db w)) = length E.
Proof.
  intros Hap Hm Hr Hf. rewrite (fl_db _ _ _ _ _ _ _ Hf), firstn_all. unfold digested. rewrite digest_distinct; [|done|].
  - by rewrite Hr, map_size_empty.
  - apply Forall_forall. intros x _. split; [rewrite Hm; apply not_elem_of_empty|].
    apply bool_decide_eq_false_2. rewrite Hr. intros [[? Hl]|(? & ? & Hl & _)]; by rewrite lookup_empty in Hl.
Qed.

Lemma gives_effects D E U n : ForallOrdPairs apart E → processed_messages D = ∅ → order_receipts D = ∅ → (∀ t, rounds n (naps t)) → (length E ≤ n)%nat →
  gives (flow D E U false ∅) (waitFor naps (m ← countEffects; mret (Z.of_nat (length E) <=? m))) (λ _, flow D E U false ∅).
Proof.
  intros Hap Hm Hr Hn Hle. apply (gives_flow acts naps clock uuid D E U ∅ _ (λ w, Z.of_nat (length E) <=? Z.of_nat (size (order_receipts (w_db w)))) n);
    [done|done|apply observes_ask| |done].
  intros w Hf. rewrite (drained_effects _ _ _ _ _ _ Hap Hm Hr Hf). lia.
Qed.

Lemma bought_start envs d product D1 buyer D : db_ok d → upsert_product next "MQ-DEMO" "Товар демо RabbitMQ" 1000 (truncate_messaging d) = (product, D1) →
  upsert_buyer next "mq-demo@example.com" "Покупець демо RabbitMQ" D1 = (buyer, D) → bought envs (seq_orders D) product buyer 0 [] D.
Proof.
  intros Hok Hp Hb.
  apply (upsert_product_ok next next_fresh) in Hp as (pr & Hok1 & -> & ? & ?); [|by apply truncate_ok|done|done].
  apply (upsert_buyer_ok next next_fresh) in Hb as (u & Hok2 & -> & ?); [|done]. split; cbn; try done.
  - lia.
  - exists pr. rewrite lookup_insert_eq. split_and!; [done|done|lia].
  - exists u. rewrite lookup_insert_eq. split; [done|]. unfold DEMO_PRICE. lia.
Qed.

(** What the script reads in the end. *)
Record all_applied (E : list announced) (w : mq_world) : Prop := {
  al_effects : size (order_receipts (w_db w)) = length E;
  al_acked : acked (consumer_stats w) = Z.of_nat (length E);
  al_work : ready (w_mq w) WORK_QUEUE = [];
  al_dlq : ready (w_mq w) DLQ = [];
  al_unroutable : length (ready (w_mq w) UNROUTABLE_QUEUE) = 1%nat;
}.

Lemma drained_reads D E L w : ForallOrdPairs apart E → processed_messages D = ∅ → order_receipts D = ∅ →
  flowing D E 1 false L (length E) w → all_applied E w.
Proof.
  intros Hap Hm Hr Hf. split; [by eapply drained_effects| | |apply Hf|apply Hf].
  - destruct (flowing_counts _ _ _ _ _ _ _ Hf) as (s & Hs & _ & Ha). unfold consumer_stats. by rewrite Hs, <-Ha.
  - pose proof (fl_work _ _ _ _ _ _ _ Hf) as Hq. rewrite drop_all in Hq. by apply fmap_nil_inv in Hq.
Qed.

(** demo:publish exits with 0.  Five checkouts are announced by the relay and
    applied once each, in whatever order the batch and the deliveries take; the
    message without a binding ends in the queue of the alternate exchange. *)
Theorem publish_passes envs d w t product D1 buyer D : db_ok d → still d w → (∀ t, rounds EVENTS (naps t)) →
  upsert_product next "MQ-DEMO" "Товар демо RabbitMQ" 1000 (truncate_messaging d) = (product, D1) →
  upsert_buyer next "mq-demo@example.com" "Покупець демо RabbitMQ" D1 = (buyer, D) → int8 product = true → int8 buyer = true →
  (∀ j k, j ≠ k → outbox_id (envs j) ≠ outbox_id (envs k)) →
  (∀ k, (k < EVENTS)%nat → int8 (seq_orders D + 1 + Z.of_nat k) = true ∧ 0 ≤ date (envs k) < 253402300800000) →
  (∀ j k, (j < EVENTS)%nat → (k < EVENTS)%nat →
    event_id (seq_orders D + 1 + Z.of_nat j) = event_id (seq_orders D + 1 + Z.of_nat k) → j = k) →
  assertInvariant (demo_publish next pauses naps envs (others acts clock uuid) t w).1.1 = 0.
Proof.
  intros Hok Hw Hn Hp Hb Hp8 Hb8 Hdist Hk Hcoll. pose proof (bought_start envs _ _ _ _ _ Hok Hp Hb) as Hstart.
  assert (Hgives : gives (still d) (demo_publish next pauses naps envs) (λ bad _, bad = [])).
  { unfold demo_publish. eapply gives_bind; [apply gives_reset|intros []].
    eapply gives_bind; [apply gives_cleared|intros ?]. apply gives_pure. intros ->. rewrite Hp. cbn [fst snd].
    eapply gives_bind; [apply gives_cleared|intros ?]. apply gives_pure. intros ->. rewrite Hb. cbn [fst snd].
    eapply gives_bind; [apply gives_startConsumer|intros []].
    eapply gives_bind; [by apply (gives_buy_each envs (seq_orders D) product buyer EVENTS 0 [] D); [done..|unfold EVENTS; lia| |]|intros []].
    apply gives_exists. intros [ys D2]. cbn [fst snd]. apply gives_pure. intros Hbt.
    eapply gives_bind; [apply (gives_drain envs (seq_orders D) product buyer EVENTS ys D2 Hdist); [unfold EVENTS, BATCH; lia|exact Hbt]|intros n]. apply gives_pure. intros ->.
    apply gives_exists. intros now. apply gives_exists. intros xs. apply gives_pure. intros Hxs.
    pose proof (bought_apart _ _ _ _ _ _ _ xs Hcoll Hbt Hxs) as Hap.
    assert (Hlen : length xs = EVENTS) by (by rewrite Hxs, length_fmap, (bt_length _ _ _ _ _ _ _ Hbt)).
    set (D3 := set_outbox _ D2). assert (Hm : processed_messages D3 = ∅) by apply Hbt. assert (Hr : order_receipts D3 = ∅) by apply Hbt.
    assert (Hst : stable (flowing D3 xs 1 false ∅ (length xs))) by apply drained_stable.
    assert (Hreads : ∀ w, flowing D3 xs 1 false ∅ (length xs) w → all_applied xs w) by (intros w1; by apply drained_reads).
    eapply gives_bind; [apply gives_unknown|intros []]. rewrite <-Hlen in Hn |- *.
    eapply gives_bind; [by eapply (gives_effects D3 xs 1)|intros []].
    eapply gives_bind; [by apply (gives_counted acts naps clock uuid D3 xs 1 (length xs) acked); [right| |]|intros []].
    eapply gives_bind; [apply gives_sleep, Hst|intros []].
    read_step 0; [apply Hst|intros w1 Hf; by rewrite (al_work _ _ (Hreads _ Hf))|].
    read_step 0; [apply Hst|intros w1 Hf; by rewrite (al_dlq _ _ (Hreads _ Hf))|].
    read_step 1; [apply Hst|intros w1 Hf; by rewrite (al_unroutable _ _ (Hreads _ Hf))|].
    read_step (Z.of_nat (length xs)); [apply Hst|intros w1 Hf; by rewrite (al_effects _ _ (Hreads _ Hf))|].
    eapply gives_bind; [apply (gives_look _ _ _ _ _ (λ s w1, acked s = Z.of_nat (length xs) ∧ flowing D3 xs 1 false ∅ (length xs) w1)); intros w1 Hf;
      split; [apply (al_acked _ _ (Hreads _ Hf))|done]|intros s]. apply gives_pure. intros Hack.
    eapply gives_bind; [apply (gives_act _ _ _ _ _ (λ _ _, True)); [apply Hst|done]|intros []].
    apply gives_ret. intros _ _. by rewrite Hack, Nat.eqb_refl, Z.eqb_refl. }
  destruct (Hgives t w Hw) as (bad & t' & w' & Hrun & ->). by rewrite Hrun.
Qed.
End publish.

(** ** Runs *)

Section mq_witnesses.
#[local] Existing Instance fix_text.
#[local] Existing Instance fix_text_laws.
#[local] Existing Instance fix_events.
#[local] Existing Instance fix_events_laws.
#[local] Existing Instance fix_amqp.
#[local] Existing Instance fix_amqp_laws.

(** Digests that tell texts by their ends. *)
Definition fix_digests : EventLib :=
  {| sha1 := λ s, take 20 (reverse (bytes_of s) ++ replicate 20 0); zod_uuid := uuid_shape; zod_datetime := λ _, true |}.
Lemma fix_digests_laws : @EventLibLaws fix_digests.
Proof.
  split; intros; cbn; try done.
  - rewrite length_take, length_app. cbn [length]. lia.
  - apply (Forall_take _ 20 (reverse (bytes_of s) ++ replicate 20 0)), Forall_app_2; [|by apply Forall_replicate].
    apply Forall_forall. intros b Hb. rewrite elem_of_reverse in Hb. revert b Hb. apply Forall_forall, bytes_of_bound.
Qed.

Definition buy_envs (k : nat) : env := buy_env (Z.of_nat k).

Lemma buy_envs_apart j k : j ≠ k → outbox_id (buy_envs j) ≠ outbox_id (buy_envs k).
Proof. intros Hne He. cbn in He. apply pretty_Z_inj in He. lia. Qed.

Lemma dlq_passes_witness :
  assertInvariant (demo_dlq busy_acts busy_naps (others busy_acts tick ids) 0%nat (fix_world fix_db)).1.1 = 0.
Proof.
  apply (dlq_passes busy_acts busy_acts busy_naps tick ids fix_db (fix_world fix_db) 0%nat); [exact fix_still|apply busy_naps_rounds; lia].
Defined.

Lemma duplicate_passes_witness :
  assertInvariant (demo_duplicate busy_naps 1000 (others busy_acts tick ids) 0%nat (fix_world fix_db)).1.1 = 0.
Proof.
  apply (duplicate_passes busy_acts busy_naps tick ids 1000 fix_db (fix_world fix_db) 0%nat);
    [exact fix_still|apply busy_naps_rounds; lia|lia].
Defined.

Lemma outbox_passes_witness :
  assertInvariant (demo_outbox fresh_id busy_acts busy_naps (buy_envs 0) (buy_envs 1) 1000 (others busy_acts tick ids) 0%nat (fix_world fix_db)).1.1 = 0.
Proof.
  eapply (outbox_passes fresh_id fresh_id_ok busy_acts busy_acts busy_naps tick ids (buy_envs 0) (buy_envs 1) 1000 fix_db (fix_world fix_db) 0%nat);
    [exact fix_db_ok|exact fix_still|apply busy_naps_rounds; lia|vm_compute; reflexivity|reflexivity|reflexivity|reflexivity|
     vm_compute; split; congruence|lia|apply buy_envs_apart; lia].
Defined.

Lemma publish_passes_witness :
  assertInvariant (@demo_publish _ fix_digests _ fresh_id busy_acts busy_naps buy_envs (@others _ fix_digests _ busy_acts tick ids) 0%nat (fix_world fix_db)).1.1 = 0.
Proof.
  eapply (@publish_passes _ fix_digests _ _ fix_digests_laws _ fresh_id fresh_id_ok busy_acts busy_acts busy_naps tick ids buy_envs fix_db (fix_world fix_db) 0%nat);
    [exact fix_db_ok|exact fix_still|apply busy_naps_rounds; unfold EVENTS; lia|vm_compute; reflexivity|vm_compute; reflexivity|reflexivity|reflexivity|
     exact buy_envs_apart| |].
  - unfold EVENTS. intros k Hk. split; [do 5 (destruct k as [|k]; [reflexivity|]); lia|]. vm_compute. split; congruence.
  - unfold EVENTS. intros j k Hj Hk. do 5 (destruct j as [|j]; [do 5 (destruct k as [|k]; [vm_compute; intros He; congruence|]); lia|]). lia.
Defined.
End mq_witnesses.
