(* ===== verification/RedisDemos.v ===== *)
(** The demonstrations of the shared rate limit and of the browser session, run
    against the modelled limiter, session store and middleware on one Redis
    (src/redis/demo-lib.ts, src/demo-ratelimit.ts, src/demo-session.ts). *)
From stdpp Require Import pretty.
From S2P Require Import Prelude JsNumber JsText Events Schema Sql Async Http Redis RedisSim RateLimit Session.
#[local] Open Scope Z_scope.

(** ** src/redis/demo-lib.ts *)

(** [expect]: the messages of the broken invariants. *)
Definition expect (cond : bool) (msg : string) : list string := if cond then [] else [msg].
(** [run]: the exit code. *)
Definition run (r : result (list string)) : Z := match r with Ok [] => 0 | _ => 1 end.

(** ** src/demo-ratelimit.ts *)

Section ratelimit.
Context `{Redis}.
Notation io := (async redis).

Definition LIMIT : Z := 5.
Definition WINDOW_MS : Z := 10000.
Definition TOTAL : nat := 14.
(** [new RateLimiter(redis, { limit: LIMIT, windowMs: WINDOW_MS })]; each pod
    has its own connection to the one Redis. *)
Definition pod_options : RateLimitOptions := RateLimitOptionsOf LIMIT WINDOW_MS None None.
Definition ok_response : http_response := HttpResponse 200 [] (JStr "ok").
(** A request to a pod: its server answers [ok] whenever the middleware calls
    [next], with an error or without. *)
Definition pod (client : string) : io http_response :=
  r ← rateLimitMiddleware pod_options client;
  mret (match r with Respond r => r | Next | NextError _ => ok_response end).
Definition pods (client : string) : list (io http_response) := [pod client; pod client].

Record tally := Tally { t_allowed : Z; t_blocked : Z; t_last : option http_response }.
Fixpoint requests (ps : list (io http_response)) (n i : nat) (acc : tally) : io tally :=
  match n with
  | O => mret acc
  | S n =>
      res ← nth (i mod length ps) ps (mret ok_response);
      requests ps n (S i)
        (if rs_status res =? 429 then Tally (t_allowed acc) (t_blocked acc + 1) (Some res)
         else Tally (t_allowed acc + 1) (t_blocked acc) (t_last acc))
  end.

Definition demo_ratelimit (client : string) : io (list string) :=
  t ← requests (pods client) TOTAL 0 (Tally 0 0 None);
  _ ← roundtrip (cmd_del ("rl:" +:+ client));
  mret (expect ((t_allowed t =? LIMIT) && (t_blocked t =? Z.of_nat TOTAL - LIMIT)) "allowed, blocked").
End ratelimit.

Section shared_limit.
Context `{RedisLaws}.
#[local] Notation win := (rl_windowMs pod_options).
#[local] Notation lim := (rl_limit pod_options).
#[local] Notation key := (rl_key pod_options).

(** What the rest of the world does between two requests: time passes, others
    use other keys, and the ten seconds are not over. *)
Definition meanwhile (client : string) (deadline : Z) (s s' : redis) : Prop :=
  (∀ log, history pod_options s log → history pod_options s' log) ∧
  dom (zset_at (key client) (view s')) ⊆ dom (zset_at (key client) (view s)) ∧
  now_ms (view s) ≤ now_ms (view s') ∧ (now_ms (view s) < deadline → now_ms (view s') < deadline).

(** After [k] requests of the client. *)
Definition counted (σ : asched redis) (client : string) (start : Z) (k : nat) (t : nat) (s : redis) : Prop := ∃ log,
  history pod_options s log ∧ length (log_of log client) = (k `min` 5)%nat ∧
  Forall (λ x, start ≤ x) (log_of log client) ∧ start ≤ now_ms (view s) < start + win ∧
  ∀ m, m ∈ dom (zset_at (key client) (view s)) → ∃ t', (t' < t)%nat ∧ m = s_uuid σ t'.

Lemma recent_all now l : (∀ x, x ∈ l → now - win < x) → recent win now l = l.
Proof.
  induction l as [|x l IH]; intros Hl; [done|]. unfold recent in *. rewrite filter_cons_True by (apply Hl; left).
  f_equal. apply IH. intros y Hy. apply Hl. by right.
Qed.

(** The members of the set after a check are old ones and the new one. *)
Lemma script_members c m s log r s' : window_inv pod_options s log → m ∉ dom (zset_at (key c) (view s)) →
  SLIDING_WINDOW_LUA (key c) win lim m s = (r, s') →
  (∀ x, x ∈ dom (zset_at (key c) (view s')) → x = m ∨ x ∈ dom (zset_at (key c) (view s))) ∧ now_ms (view s') = now_ms (view s).
Proof.
  intros Hi Hm Hrun. assert (Hpos : Forall (λ x, 0 ≤ x) (scores (zset_at (key c) (view s)))).
  { eapply Forall_impl; [apply (wi_scores _ _ _ Hi c)|]. cbn. lia. }
  assert (Hsub : ∀ x, x ∈ dom (purged pod_options (key c) s) → x ∈ dom (zset_at (key c) (view s))).
  { intros x [v [Hx _]%map_lookup_filter_Some]%elem_of_dom. apply elem_of_dom. by exists v. }
  destruct (script_run pod_options (key c) m s eq_refl (wi_type _ _ _ Hi c) Hpos Hm) as [(_ & s1 & Hr & Hv)|(_ & s1 & r' & Hr & Hv & _)];
    rewrite Hrun in Hr; injection Hr as -> ->; rewrite Hv; (split; [|done]).
  - intros x. unfold zset_at at 1. rewrite put_ttl_eq, put_zset_eq, bool_decide_eq_false_2 by apply insert_non_empty. cbn.
    rewrite dom_insert, elem_of_union, elem_of_singleton. intros [->|Hx]; auto.
  - intros x. rewrite zset_at_put. auto.
Qed.

Lemma pod_step σ client start k t s : (∀ t s, s_fault σ t = None ∧ meanwhile client (start + win) s (s_others σ t s)) →
  (∀ t t', s_uuid σ t = s_uuid σ t' → t = t') → counted σ client start k t s → ∃ res t' s',
  pod client σ t s = (Ok res, t', s') ∧ (rs_status res =? 429) = negb (k <? 5)%nat ∧ counted σ client start (S k) t' s'.
Proof.
  intros Hσ Huuid (log & Hh & Hlen & Hlog & Hnow & Hdom). destruct (Hσ t s) as [Hf (Hkeep & Hsub & Hmono & Hdead)].
  set (s0 := s_others σ t s) in *. apply Hkeep in Hh.
  assert (Hm : s_uuid σ t ∉ dom (zset_at (key client) (view s0))).
  { intros Hin. destruct (Hdom _ (Hsub _ Hin)) as (t' & Hlt & He). apply Huuid in He. lia. }
  pose proof (history_inv pod_options _ _ eq_refl Hh) as Hi.
  destruct (script_answer pod_options s0 log client _ eq_refl eq_refl Hi Hm) as [s1 Hr].
  assert (Hrec : recent win (now_ms (view s0)) (log_of log client) = log_of log client).
  { apply recent_all. rewrite Forall_forall in Hlog. intros x Hx. specialize (Hlog x Hx). cbn in Hlog. specialize (Hdead (proj2 Hnow)). lia. }
  unfold reference in Hr. rewrite Hrec, Hlen in Hr. cbv zeta in Hr.
  pose proof (history_check pod_options s0 s1 log client _ _ Hh Hm Hr) as Hh1.
  destruct (script_members client _ s0 log _ _ Hi Hm Hr) as [Hmem Hsame].
  eexists _, (S t), s1. split; [|split].
  - unfold pod, rateLimitMiddleware, check, io_try, mbind, io_bind, randomUUID, roundtrip. rewrite Hf. fold s0. rewrite Hr. reflexivity.
  - cbn [rl_limit pod_options]. unfold LIMIT. destruct (Nat.ltb_spec k 5); [rewrite (proj2 (Z.ltb_lt _ _)) by lia|rewrite (proj2 (Z.ltb_ge _ _)) by lia]; reflexivity.
  - eexists. split; [exact Hh1|]. cbn [rl_limit pod_options]. unfold LIMIT.
    assert (Hd : start ≤ now_ms (view s1) < start + win) by (rewrite Hsame; specialize (Hdead (proj2 Hnow)); lia).
    assert (Hmem' : ∀ m, m ∈ dom (zset_at (key client) (view s1)) → ∃ t', (t' < S t)%nat ∧ m = s_uuid σ t').
    { intros m [->|Hx]%Hmem; [exists t; split; [lia|done]|]. destruct (Hdom _ (Hsub _ Hx)) as (t' & ? & ?). exists t'. split; [lia|done]. }
    destruct (Z.ltb_spec (Z.of_nat (k `min` 5)) 5) as [Hlt|Hge]; cbn [record].
    + assert (Hl : log_of (<[client := now_ms (view s0) :: log_of log client]> log) client = now_ms (view s0) :: log_of log client)
        by (unfold log_of; by rewrite lookup_insert_eq).
      rewrite Hl. cbn [length]. split_and!; [rewrite Hlen; lia|constructor; [lia|done]|lia|lia|done].
    + split_and!; [|done|lia|lia|done]. rewrite Hlen. lia.
Qed.

Lemma requests_run σ client start : (∀ t s, s_fault σ t = None ∧ meanwhile client (start + win) s (s_others σ t s)) →
  (∀ t t', s_uuid σ t = s_uuid σ t' → t = t') → ∀ n k t s acc, counted σ client start k t s →
  ∃ last t' s', requests (pods client) n k acc σ t s =
    (Ok (Tally (t_allowed acc + Z.of_nat ((n + k) `min` 5 - k `min` 5)) (t_blocked acc + Z.of_nat (n + k `min` 5 - (n + k) `min` 5)) last), t', s').
Proof.
  intros Hσ Huuid n. induction n as [|n IH]; intros k t s acc Hc.
  - exists (t_last acc), t, s. cbn [requests]. rewrite Nat.add_0_l, !Nat.sub_diag, !Z.add_0_r. by destruct acc.
  - destruct (pod_step σ client start k t s Hσ Huuid Hc) as (res & t1 & s1 & Hrun & Hst & Hc1).
    assert (Hnth : nth (k mod length (pods client)) (pods client) (mret ok_response) = pod client).
    { pose proof (Nat.mod_upper_bound k 2 ltac:(done)). cbn [pods length]. destruct (k mod 2)%nat as [|[|]]; [done..|lia]. }
    cbn [requests]. rewrite Hnth. rewrite (io_bind_run _ _ _ _ _ _ _ _ Hrun), Hst.
    destruct (IH (S k) t1 s1 (if negb (k <? 5)%nat then Tally (t_allowed acc) (t_blocked acc + 1) (Some res) else Tally (t_allowed acc + 1) (t_blocked acc) (t_last acc)) Hc1)
      as (last & t' & s' & ->). exists last, t', s'. do 4 f_equal; destruct (Nat.ltb_spec k 5); cbn; lia.
Qed.

(** demo:ratelimit exits with 0.  Fourteen requests of a new client within the
    window, alternating between two pods that share only Redis, with time
    passing and other clients at work in between: five are allowed, the other
    nine get 429. *)
Theorem ratelimit_passes σ client t s log : history pod_options s log → log !! client = None → r_keys (view s) !! key client = None →
  (∀ t' s', s_fault σ t' = None ∧ meanwhile client (now_ms (view s) + win) s' (s_others σ t' s')) → (∀ t t', s_uuid σ t = s_uuid σ t' → t = t') →
  run (demo_ratelimit client σ t s).1.1 = 0.
Proof.
  intros Hh Hnone Hkey Hσ Huuid. assert (Hc : counted σ client (now_ms (view s)) 0 t s).
  { exists log. unfold log_of. rewrite Hnone. split_and!; try done; [cbn; unfold WINDOW_MS; lia|].
    unfold zset_at. rewrite Hkey, dom_empty_L. by intros m ?%not_elem_of_empty. }
  destruct (requests_run σ client _ Hσ Huuid TOTAL 0 t s (Tally 0 0 None) Hc) as (last & t1 & s1 & Hrun).
  unfold demo_ratelimit. rewrite (io_bind_run _ _ _ _ _ _ _ _ Hrun).
  destruct (del_law ("rl:" +:+ client) (s_others σ t1 s1)) as (n & s2 & Hdel & _).
  unfold mbind, io_bind, roundtrip. rewrite (proj1 (Hσ t1 s)), Hdel. reflexivity.
Qed.
End shared_limit.

(** ** src/demo-session.ts *)

(** PTTL, in milliseconds, and EXISTS. *)
Class RedisInspect `{Redis} := {
  cmd_pttl : string → redis → Z;
  cmd_exists : string → redis → Z;
}.
Class RedisInspectLaws `{RedisLaws, !RedisInspect} := {
  pttl_law k s : cmd_pttl k s = match r_keys (view s) !! k with
    | None => -2 | Some (_, None) => -1 | Some (_, Some e) => e - now_ms (view s) end;
  exists_law k s : cmd_exists k s = match r_keys (view s) !! k with None => 0 | Some _ => 1 end;
}.

Section session.
Context `{Redis, !RedisInspect}.
(** The data of a session here: the number of visits, once there is one. *)
Context (stringify : option Z → string) (parse : string → result (option (option Z))).
Context (random_bytes : nat → list Z) (pauses : nat → redis → redis).
Notation io := (async redis).

Definition TTL_SEC : Z := 20.
Definition demo_store : SessionStore := SessionStoreOf TTL_SEC "sess:".

(** The handler of the server: the sid and the visits of its answer, and the
    Set-Cookie header.  It keeps nothing between requests, so that a restarted
    server is the same function. *)
Definition count_visit (cookie : option string) : io (string * Z * option string) :=
  x ← sessionMiddleware stringify parse None random_bytes demo_store cookie;
  let '(session, set) := x in
  let visits := default 0 (rq_data session) + 1 in
  _ ← save stringify demo_store (rq_id session) (Some visits);
  mret (rq_id session, visits, set).

(** [set.split(';')[0]] *)
Definition cookie_pair (set : string) : string :=
  match js_split 59 (bytes_of set) with p :: _ => text_of p | [] => "" end.
(** A request of the client that holds [cookie]. *)
Definition hit (cookie : string) : io (string * Z * string) :=
  x ← count_visit (truthy (Some cookie));
  let '(sid, visits, set) := x in
  mret (sid, visits, match truthy set with Some set => cookie_pair set | None => cookie end).

Definition pause : io unit := λ σ t w, (Ok tt, S t, pauses t w).
Definition pttl (k : string) : io Z := roundtrip (λ s, (Ok (cmd_pttl k s), s)).

Definition demo_session : io (list string) :=
  first ← hit ""; let '(sid1, _, cookie) := first in
  let key := "sess:" +:+ sid1 in
  _ ← pttl key;
  _ ← pause;
  ttlBefore ← pttl key;
  second ← hit cookie; let '(sid2, _, cookie) := second in
  ttlAfter ← pttl key;
  afterRestart ← hit cookie; let '(sid3, visits, cookie) := afterRestart in
  fourth ← hit cookie; let '(sid4, _, _) := fourth in
  let requests := length [sid1; sid2; sid3; sid4] in
  let sids : gset string := list_to_set [sid1; sid2; sid3; sid4] in
  inRedis ← roundtrip (λ s, (Ok (cmd_exists key s =? 1), s));
  _ ← roundtrip (cmd_del key);
  mret (expect (visits =? 3) "visits" ++
        expect ((size sids =? 1)%nat && inRedis && (ttlBefore <? ttlAfter) && (3 <=? requests)%nat) "session").
End session.

Section rolling.
Context `{RedisInspectLaws}.
Context (stringify : option Z → string) (parse : string → result (option (option Z))) (Hjson : ∀ d, parse (stringify d) = Ok (Some d)).
Context (random_bytes : nat → list Z) (Hrandom : ∀ t, length (random_bytes t) = 24%nat ∧ Forall is_byte (random_bytes t)).
Context (pauses : nat → redis → redis).
#[local] Notation key := (session_key demo_store).

(** Time passes, at least [lo] and at most [hi] ms; nobody else writes a session. *)
Definition drift (lo hi : Z) (v v' : rview) : Prop :=
  now_ms v + lo ≤ now_ms v' ≤ now_ms v + hi ∧
  ∀ sid x e, r_keys v !! key sid = Some (x, Some e) → now_ms v' < e → r_keys v' !! key sid = Some (x, Some e).
(** A run without faults in which a command takes at most 100 ms, the sleep
    two to three seconds, and the server has room. *)
Record prompt (σ : asched redis) : Prop := {
  pr_fault : ∀ t, s_fault σ t = None;
  pr_others : ∀ t s, drift 0 100 (view s) (view (s_others σ t s));
  pr_pause : ∀ t s, drift 2000 3000 (view s) (view (pauses t s));
  pr_room : ∀ k x ms s, (cmd_set k x ms s).1 = Ok tt;
}.

(** A session with [n] visits, used between [lo] and [hi] ms ago. *)
Definition used (sid : string) (n lo hi : Z) (s : redis) : Prop := ∃ last,
  r_keys (view s) !! key sid = Some (RString (stringify (Some n)), Some (last + 20000)) ∧ last + lo ≤ now_ms (view s) ≤ last + hi.

Lemma used_drift sid n lo hi l h s s' : used sid n lo hi s → drift l h (view s) (view s') → hi + h < 20000 → used sid n (lo + l) (hi + h) s'.
Proof. intros (last & Hk & Hn) [Ht Hd] Hlt. exists last. split; [apply Hd; [done|lia]|lia]. Qed.

(** A SET of session data. *)
Lemma set_used σ sid n t s : prompt σ → ∃ s', save stringify demo_store sid (Some n) σ t s = (Ok tt, S t, s') ∧ used sid n 0 0 s'.
Proof.
  intros Hσ. unfold save, roundtrip. rewrite (pr_fault _ Hσ). set (s0 := s_others σ t s).
  destruct (set_law (key sid) (stringify (Some n)) (ttl_ms demo_store) s0 eq_refl) as [(s1 & Hr & Hv)|(e & s1 & Hr & _)].
  - rewrite Hr. exists s1. split; [done|]. exists (now_ms (view s0)).
    assert (now_ms (view s1) = now_ms (view s0)) as -> by by rewrite Hv. split; [|lia]. rewrite Hv. cbn. by rewrite lookup_insert_eq.
  - pose proof (pr_room _ Hσ (key sid) (stringify (Some n)) (ttl_ms demo_store) s0) as Hroom. by rewrite Hr in Hroom.
Qed.
Lemma create_run σ t s : prompt σ → ∃ s', create stringify random_bytes demo_store None σ t s = (Ok (to_base64url (random_bytes t)), S t, s').
Proof.
  intros Hσ. unfold create, mbind, io_bind, roundtrip. rewrite (pr_fault _ Hσ).
  pose proof (pr_room _ Hσ (key (to_base64url (random_bytes t))) (stringify None) (ttl_ms demo_store) (s_others σ t s)) as Hroom.
  destruct (cmd_set _ _ _ _) as [r s1]. cbn in Hroom. subst r. by exists s1.
Qed.

(** What the client sends back is the cookie the server reads. *)
Definition cookie_of (sid : string) : string := SESSION_COOKIE +:+ "=" +:+ sid.
Definition plain (sid : string) : Prop := Forall (λ c, visible c ∧ c ≠ 59 ∧ c ≠ 61) (bytes_of sid).

Lemma cookie_back sid : plain sid → cookie_pair (set_cookie sid) = cookie_of sid.
Proof.
  intros Hp. unfold cookie_pair, set_cookie.
  assert (bytes_of (SESSION_COOKIE +:+ "=" +:+ sid +:+ "; HttpOnly; Path=/; SameSite=Lax") =
    bytes_of (cookie_of sid) ++ 59 :: bytes_of " HttpOnly; Path=/; SameSite=Lax") as ->.
  { unfold cookie_of. rewrite !bytes_of_app. done. }
  rewrite js_split_app; [apply text_of_bytes|]. unfold cookie_of. rewrite !bytes_of_app, !elem_of_app.
  assert (Hlit : 59 ∉ bytes_of SESSION_COOKIE ∧ 59 ∉ bytes_of "=") by (apply (bool_decide_unpack _); vm_compute; exact Logic.I).
  intros [Hin|[Hin|Hin]]; [by apply Hlit in Hin|by apply Hlit in Hin|]. unfold plain in Hp. rewrite Forall_forall in Hp. by destruct (Hp 59 Hin) as (_ & ? & _).
Qed.

Lemma cookie_read sid : plain sid → readCookie (truthy (Some (cookie_of sid))) SESSION_COOKIE = Some sid.
Proof.
  intros Hp. change (truthy (Some (cookie_of sid))) with (Some (cookie_of sid)). rewrite <-(read_header [] sid) by done.
  unfold cookie_header. cbn [foldr]. by rewrite text_of_bytes.
Qed.

#[local] Notation hit := (hit stringify parse random_bytes).

Lemma sid_plain t : plain (to_base64url (random_bytes t)).
Proof. apply base64url_visible, Hrandom. Qed.
Lemma sid_some t : truthy (Some (to_base64url (random_bytes t))) = Some (to_base64url (random_bytes t)).
Proof.
  destruct (Hrandom t) as [Hl _]. destruct (random_bytes t) as [|a [|b [|c l]]]; done.
Qed.

(** The first request of a client. *)
Lemma first_hit σ t s : prompt σ → let sid := to_base64url (random_bytes t) in ∃ t' s',
  hit "" σ t s = (Ok (sid, 1, cookie_of sid), t', s') ∧ used sid 1 0 0 s'.
Proof.
  intros Hσ sid. destruct (create_run σ t s Hσ) as [s1 Hc]. fold sid in Hc. destruct (set_used σ sid 1 (S t) s1 Hσ) as (s2 & Hs & Hu).
  exists (S (S t)), s2. split; [|done]. unfold RedisDemos.hit, count_visit. change (truthy (Some "")) with (@None string).
  erewrite io_bind_run.
  2: { erewrite io_bind_run.
       2: { unfold sessionMiddleware. change (truthy (readCookie None SESSION_COOKIE)) with (@None string). cbv zeta.
            erewrite io_bind_run; [|reflexivity]. cbv iota beta. erewrite io_bind_run; [|exact Hc]. reflexivity. }
       cbv iota beta. cbn [rq_id rq_data]. erewrite io_bind_run; [|exact Hs]. reflexivity. }
  cbv iota beta. change (truthy (Some (set_cookie sid))) with (Some (set_cookie sid)). cbv iota. by rewrite cookie_back by apply sid_plain.
Qed.

(** A request with the cookie of a session used less than its TTL ago. *)
Lemma next_hit σ t s sid n hi : prompt σ → plain sid → truthy (Some sid) = Some sid → used sid n 0 hi s → hi + 200 < 20000 → ∃ t' s',
  hit (cookie_of sid) σ t s = (Ok (sid, n + 1, cookie_of sid), t', s') ∧ used sid (n + 1) 0 0 s'.
Proof.
  intros Hσ Hp Htr Hu Hlt. assert (Hu0 : used sid n (0 + 0) (hi + 100) (s_others σ t s)) by (apply (used_drift _ _ _ _ _ _ s); [done|by apply pr_others|lia]).
  destruct Hu0 as (last & Hk & _).
  destruct (touch_run parse demo_store eq_refl σ t s sid _ _ (pr_fault _ Hσ t) Hk) as (s1 & Ht & _). rewrite Hjson in Ht.
  destruct (set_used σ sid (n + 1) (S t) s1 Hσ) as (s2 & Hs & Hu2).
  exists (S (S t)), s2. split; [|done]. unfold RedisDemos.hit, count_visit. change (truthy (Some (cookie_of sid))) with (Some (cookie_of sid)).
  erewrite io_bind_run.
  2: { erewrite io_bind_run.
       2: { unfold sessionMiddleware. change (Some (cookie_of sid)) with (truthy (Some (cookie_of sid))). rewrite cookie_read, Htr by done. cbv zeta.
            erewrite io_bind_run; [|exact Ht]. reflexivity. }
       cbv iota beta. cbn [rq_id rq_data default from_option id]. erewrite io_bind_run; [|exact Hs]. reflexivity. }
  reflexivity.
Qed.

Lemma pttl_run σ t s sid n lo hi : prompt σ → used sid n lo hi s → hi + 100 < 20000 → ∃ a s',
  pttl (key sid) σ t s = (Ok a, S t, s') ∧ 20000 - (hi + 100) ≤ a ≤ 20000 - lo ∧ used sid n lo (hi + 100) s'.
Proof.
  intros Hσ Hu Hlt. assert (Hu0 : used sid n (lo + 0) (hi + 100) (s_others σ t s)) by (apply (used_drift _ _ _ _ _ _ s); [done|by apply pr_others|lia]).
  rewrite Z.add_0_r in Hu0. exists (cmd_pttl (key sid) (s_others σ t s)), (s_others σ t s). unfold pttl, roundtrip. rewrite (pr_fault _ Hσ).
  split; [done|]. split; [|done]. destruct Hu0 as (last & Hk & Hn). rewrite pttl_law, Hk. lia.
Qed.

Lemma one_session (sid : string) : size (list_to_set [sid; sid; sid; sid] : gset string) = 1%nat.
Proof. cbn. by rewrite union_empty_r_L, !union_idemp_L, size_singleton. Qed.

(** demo:session exits with 0.  Four requests of one client, with a pause before
    the second and a restart of the server before the third, are one session of
    three visits at the third and a TTL that the second request renewed. *)
Theorem session_passes σ t s : prompt σ → run (demo_session stringify parse random_bytes pauses σ t s).1.1 = 0.
Proof.
  intros Hσ. set (sid := to_base64url (random_bytes t)). pose proof (sid_plain t) as Hp. pose proof (sid_some t) as Htr. fold sid in Hp, Htr.
  destruct (first_hit σ t s Hσ) as (t1 & s1 & Hr1 & Hu1). fold sid in Hr1, Hu1.
  destruct (pttl_run σ t1 s1 sid 1 0 0 Hσ Hu1 eq_refl) as (a & s2 & Hr2 & _ & Hu2).
  assert (Hu3 : used sid 1 2000 3100 (pauses (S t1) s2)) by (apply (used_drift _ _ 0 100 2000 3000 s2); [done|by apply (pr_pause σ)|done]).
  destruct (pttl_run σ (S (S t1)) _ sid 1 2000 3100 Hσ Hu3 eq_refl) as (before & s4 & Hr4 & Hbefore & Hu4).
  assert (Hu4' : used sid 1 0 3200 s4) by (destruct Hu4 as (last & Hk & Hn); exists last; split; [done|lia]).
  destruct (next_hit σ (S (S (S t1))) s4 sid 1 3200 Hσ Hp Htr Hu4' eq_refl) as (t5 & s5 & Hr5 & Hu5).
  destruct (pttl_run σ t5 s5 sid 2 0 0 Hσ Hu5 eq_refl) as (after & s6 & Hr6 & Hafter & Hu6).
  destruct (next_hit σ (S t5) s6 sid 2 100 Hσ Hp Htr Hu6 eq_refl) as (t7 & s7 & Hr7 & Hu7).
  destruct (next_hit σ t7 s7 sid 3 0 Hσ Hp Htr Hu7 eq_refl) as (t8 & s8 & Hr8 & Hu8).
  assert (Hu9 : used sid 4 (0 + 0) (0 + 100) (s_others σ t8 s8)) by (apply (used_drift _ _ _ _ _ _ s8); [done|by apply pr_others|done]).
  unfold demo_session. rewrite (io_bind_run _ _ _ _ _ _ _ _ Hr1). cbv iota beta zeta. change ("sess:" +:+ sid) with (key sid).
  rewrite (io_bind_run _ _ _ _ _ _ _ _ Hr2). erewrite io_bind_run; [|reflexivity]. rewrite (io_bind_run _ _ _ _ _ _ _ _ Hr4).
  rewrite (io_bind_run _ _ _ _ _ _ _ _ Hr5). cbv iota beta zeta. rewrite (io_bind_run _ _ _ _ _ _ _ _ Hr6).
  rewrite (io_bind_run _ _ _ _ _ _ _ _ Hr7). cbv iota beta zeta. rewrite (io_bind_run _ _ _ _ _ _ _ _ Hr8). cbv iota beta zeta.
  destruct Hu9 as (last & Hk & _). destruct (del_law (key sid) (s_others σ (S t8) (s_others σ t8 s8))) as (n & s10 & Hdel & _).
  unfold mbind, io_bind, roundtrip. rewrite !(pr_fault _ Hσ), Hdel, exists_law, Hk, one_session. cbn [fst].
  assert ((before <? after) = true) as -> by lia. reflexivity.
Qed.
End rolling.

(** ** Runs *)

#[local] Existing Instance sim_redis.
#[local] Existing Instance sim_redis_laws.

(** A millisecond passes, while it is before [deadline]; expired keys go. *)
Definition pass_time (deadline : Z) (v : rview) : rview :=
  if now_ms v + 1 <? deadline then
    RView (r_now v + 1000) (filter (λ x, from_option (λ e, now_ms v + 1 <=? e) true x.2.2 = true) (r_keys v))
  else v.
Definition busy_pods : asched rview := Schedule no_fault (λ _, pass_time 15000) (λ _, 0) (λ t, pretty (Z.of_nat t)).

Lemma now_plus v n k : now_ms (RView (r_now v + 1000 * n) k) = now_ms v + n.
Proof. unfold now_ms. cbn. rewrite (Z.mul_comm 1000), Z.div_add; lia. Qed.

Lemma pass_time_elapse deadline v : pass_time deadline v = v ∨ elapse v (pass_time deadline v).
Proof.
  unfold pass_time. destruct (now_ms v + 1 <? deadline); [right|by left]. split_and!; [cbn; lia|intros k x Hx|intros k x Hx He]; cbn in *.
  - apply map_lookup_filter_Some in Hx as [Hx Hf]. split; [done|]. intros e He. cbn in Hf. rewrite He in Hf. cbn in Hf.
    rewrite (now_plus v 1). lia.
  - apply map_lookup_filter_Some. split; [done|]. cbn. destruct x.2 as [e|] eqn:Hxe; [|done]. cbn. specialize (He e eq_refl). rewrite (now_plus v 1) in He. lia.
Qed.

Lemma pass_time_meanwhile client deadline v : meanwhile (H := sim_redis) client deadline v (pass_time deadline v).
Proof.
  split_and!.
  - intros log Hh. destruct (pass_time_elapse deadline v) as [->|He]; [done|]. by apply (history_elapse (H := sim_redis) _ v).
  - unfold pass_time. destruct (_ <? _); [|done]. unfold zset_at. cbn. destruct (filter _ (r_keys v) !! _) as [x|] eqn:Hx.
    + apply map_lookup_filter_Some in Hx as [-> _]. done.
    + rewrite dom_empty_L. apply empty_subseteq.
  - unfold pass_time. destruct (_ <? _); [|lia]. cbn [view sim_redis_laws]. rewrite (now_plus v 1). lia.
  - unfold pass_time. destruct (Z.ltb_spec (now_ms v + 1) deadline); [|done]. intros _. cbn [view sim_redis_laws]. rewrite (now_plus v 1). lia.
Qed.

Lemma ratelimit_passes_witness : run (demo_ratelimit (H := sim_redis) "demo-1" busy_pods 0%nat (sim_start 5000)).1.1 = 0.
Proof.
  apply (ratelimit_passes (H := sim_redis) busy_pods "demo-1" 0%nat (sim_start 5000) ∅).
  - by apply history_start.
  - reflexivity.
  - reflexivity.
  - intros t s. split; [reflexivity|]. apply pass_time_meanwhile.
  - intros t t' He. cbn in He. apply pretty_Z_inj in He. lia.
Defined.

(** A number of visits as so many marks behind its sign. *)
Definition marks (n : nat) : string := text_of (replicate n 120).
Definition sim_visits (d : option Z) : string :=
  match d with None => "" | Some n => String (Ascii.ascii_of_N (if n <? 0 then 45 else 43)) (marks (Z.to_nat (Z.abs n))) end.
Definition sim_count (s : string) : result (option (option Z)) :=
  match s with
  | EmptyString => Ok (Some None)
  | String c s => Ok (Some (Some (if Ascii.eqb c (Ascii.ascii_of_N 45) then - Z.of_nat (String.length s) else Z.of_nat (String.length s))))
  end.
Lemma marks_length n : String.length (marks n) = n.
Proof. induction n as [|n IH]; [done|]. change (S (String.length (marks n)) = S n). by rewrite IH. Qed.
Lemma sim_visits_count d : sim_count (sim_visits d) = Ok (Some d).
Proof.
  destruct d as [n|]; [|done]. unfold sim_visits. set (k := Z.to_nat (Z.abs n)). pose proof (marks_length k) as Hk.
  destruct (Z.ltb_spec n 0); unfold sim_count; cbv iota beta; rewrite Hk; vm_compute Ascii.eqb; do 3 f_equal; lia.
Qed.

Definition sim_inspect : RedisInspect (H := sim_redis) := {|
  cmd_pttl := λ k v, match r_keys v !! k with None => -2 | Some (_, None) => -1 | Some (_, Some e) => e - now_ms v end;
  cmd_exists := λ k v, match r_keys v !! k with None => 0 | Some _ => 1 end;
|}.
Lemma sim_inspect_laws : RedisInspectLaws (H1 := sim_inspect).
Proof. split; done. Qed.

Definition drawn (t : nat) : list Z := repeat (Z.of_nat t mod 256) 24.
Lemma drawn_bytes t : length (drawn t) = 24%nat ∧ Forall is_byte (drawn t).
Proof.
  split; [apply repeat_length|]. apply Forall_forall. intros b Hb. apply list_elem_of_In, repeat_spec in Hb as ->. apply Z.mod_pos_bound. lia.
Qed.
(** Each command takes a millisecond, the sleep two and a half seconds. *)
Definition busy_visits : asched rview := Schedule no_fault (λ _ v, RView (r_now v + 1000) (r_keys v)) (λ _, 0) (λ _, "").
Definition long_pause (t : nat) (v : rview) : rview := RView (r_now v + 2500000) (r_keys v).

Lemma session_passes_witness :
  run (demo_session (H := sim_redis) (H0 := sim_inspect) sim_visits sim_count drawn long_pause busy_visits 0%nat (sim_start 5000)).1.1 = 0.
Proof.
  apply (session_passes (H := sim_redis) (H1 := sim_inspect) (H2 := sim_inspect_laws) sim_visits sim_count sim_visits_count drawn drawn_bytes).
  split; [done|..|done].
  - intros t s. split; [cbn [view sim_redis_laws s_others busy_visits]; rewrite (now_plus s 1); lia|done].
  - intros t s. split; [cbn [view sim_redis_laws]; unfold long_pause; rewrite (now_plus s 2500); lia|done].
Defined.
