(* ===== verification/Report.v ===== *)
(** The revenue report (src/report.ts) on the tables [products] and
    [order_items]: what the aggregate query returns and what the table prints.

    [ORDER BY revenue DESC] leaves the order of equal revenues open; the model
    keeps them as they come. *)
From stdpp Require Import pretty sorting.
From Stdlib Require Import QArith Lqa.
From S2P Require Import Prelude JsNumber Events Schema Sql Fixtures Checkout.
#[local] Open Scope Z_scope.

(** ** [toFixed(2)] *)

Definition two_digits (n : Z) : string := (if n <? 10 then "0" else "") +:+ pretty n.
(** A number of hundredths as text. *)
Definition money (c : Z) : string :=
  (if c <? 0 then "-" else "") +:+ pretty (Z.abs c / 100) +:+ "." +:+ two_digits (Z.abs c mod 100).
(** The nearest number of hundredths, half away from zero; numbers from 10^21
    on and the special values print as [String] prints them ([None]). *)
Definition toFixed2 (x : num) : option string :=
  match x with
  | Fin m e => let '(a, d) := frac m e in if Z.abs a <? 10 ^ 21 * d then Some (money (round_haz (100 * a) d)) else None
  | _ => None
  end.

Example fixed_examples : toFixed2 (num_of_cents 1299) = Some "12.99" ∧ toFixed2 (num_of_Z 7) = Some "7.00" ∧
  toFixed2 (num_of_cents 105) = Some "1.05" ∧ toFixed2 (Fin 9 (-3)) = Some "1.13" ∧ toFixed2 (Fin (-1) (-1)) = Some "-0.50".
Proof. vm_compute. done. Qed.

(** ** The query *)

(** A row of the result: [units] a bigint, [revenue] a numeric in hundredths. *)
Record RevenueRow := RevenueRowOf { rv_id : Z; rv_sku : string; rv_name : string; rv_units : Z; rv_revenue : Z }.

Definition item_revenue (i : order_item_row) : Z := oi_quantity i * oi_unit_price i.
Definition items (d : db) : list order_item_row := (map_to_list (order_items d)).*2.
(** The rows the INNER JOIN finds for a product. *)
Definition items_of (id : Z) (l : list order_item_row) : list order_item_row := filter (λ i, oi_product_id i = id) l.
Definition group (d : db) (x : Z * product_row) : option RevenueRow :=
  match items_of x.1 (items d) with
  | [] => None
  | l => Some (RevenueRowOf x.1 (p_sku x.2) (p_name x.2) (sumZ oi_quantity l) (sumZ item_revenue l))
  end.
Definition earns_more (a b : RevenueRow) : Prop := rv_revenue b ≤ rv_revenue a.
#[export] Instance earns_more_dec : RelDecision earns_more.
Proof. unfold RelDecision, earns_more. intros a b. apply _. Defined.
#[export] Instance earns_more_trans : Transitive earns_more.
Proof. intros a b c. unfold earns_more. lia. Qed.
#[export] Instance earns_more_total : Total earns_more.
Proof. intros a b. unfold earns_more. lia. Qed.
Definition getRawMany (d : db) : result (list RevenueRow) * db :=
  (Ok (merge_sort earns_more (omap (group d) (map_to_list (products d)))), d).

(** ** The report *)

(** A line of the printed table. *)
Record report_line := ReportLine { ln_sku : string; ln_name : string; ln_units : num; ln_revenue : option string }.
Definition line_of (r : RevenueRow) : report_line :=
  ReportLine (rv_sku r) (rv_name r) (num_of_Z (rv_units r)) (toFixed2 (num_of_cents (rv_revenue r))).
Definition report : sql (list report_line) :=
  rows ← query getRawMany;
  mret (line_of <$> rows).

(** ** Facts *)

(** A sum of hundredths survives [Number] and [toFixed(2)]. *)
Lemma toFixed2_cents c : 0 ≤ c < 2 ^ 50 → toFixed2 (num_of_cents c) = Some (money c).
Proof.
  intros Hc. destruct (decide (c = 0)) as [->|Hc0]; [vm_compute; reflexivity|].
  destruct (rnd_Q c 100) as (m & e & Hr & Hm & Hb); [lia|lia|rewrite !frQ_le_iff by lia; lia|].
  unfold num_of_cents. rewrite Hr. unfold toFixed2. unfold numQ in Hb. pose proof (frac_pos m e) as Hd.
  destruct (frac m e) as [a d]. cbn [snd] in Hd.
  assert (Hfin : (frQ c 100 - (1 # 400) <= frQ a d <= frQ c 100 + (1 # 400))%Q).
  { assert (HX : (1 # 100 <= frQ c 100 <= 11258999068427 # 1)%Q) by (unfold frQ, Qle; simpl; lia).
    unfold ulpQ in *. lra. }
  destruct Hfin as [Hlo Hhi]. unfold frQ, Qle, Qplus, Qminus, Qopp in Hlo, Hhi. cbn -[Z.mul Z.pow Z.to_pos] in Hlo, Hhi.
  change (Z.to_pos 100) with 100%positive in Hlo, Hhi. rewrite ?Pos2Z.inj_mul, !Z2Pos.id in Hlo, Hhi by lia.
  rewrite (proj2 (Z.ltb_lt _ _)) by nia. f_equal. f_equal. apply round_haz_near; [done|]. nia.
Qed.

Lemma sumZ_nonneg {A} (f : A → Z) l : (∀ x, x ∈ l → 0 ≤ f x) → 0 ≤ sumZ f l.
Proof.
  induction l as [|x l IH]; intros Hl; [done|]. change (sumZ f (x :: l)) with (f x + sumZ f l).
  pose proof (Hl x ltac:(left)). assert (0 ≤ sumZ f l) by (apply IH; intros; apply Hl; by right). lia.
Qed.

(** Grouping by product loses no row and counts none twice. *)
Lemma sum_groups (f : order_item_row → Z) ids l : NoDup ids → (∀ i, i ∈ l → oi_product_id i ∈ ids) →
  sumZ (λ id, sumZ f (items_of id l)) ids = sumZ f l.
Proof.
  intros Hnd. induction l as [|i l IH]; intros Hin.
  { clear. induction ids as [|id ids IH]; [done|]. cbn. exact IH. }
  change (sumZ f (i :: l)) with (f i + sumZ f l). rewrite <-IH by (intros j Hj; apply Hin; by right).
  specialize (Hin i ltac:(left)). clear IH. induction Hnd as [|id ids Hid Hnd IH]; [by apply elem_of_nil in Hin|].
  cbn [sumZ foldr]. fold (sumZ (λ id, sumZ f (items_of id (i :: l))) ids) (sumZ (λ id, sumZ f (items_of id l)) ids).
  unfold items_of at 1. rewrite filter_cons. case_decide as He.
  - subst id. change (sumZ f (i :: ?x)) with (f i + sumZ f x).
    rewrite (sumZ_ext (λ id, sumZ f (items_of id (i :: l))) (λ id, sumZ f (items_of id l))); [unfold items_of; lia|].
    intros id Hid'. unfold items_of. rewrite filter_cons_False; [done|]. intros <-. done.
  - apply elem_of_cons in Hin as [Hin|Hin]; [by symmetry in Hin|]. rewrite IH by done. unfold items_of. lia.
Qed.

Lemma group_some d x r : group d x = Some r → rv_id r = x.1 ∧ rv_sku r = p_sku x.2 ∧ rv_name r = p_name x.2 ∧
  rv_units r = sumZ oi_quantity (items_of x.1 (items d)) ∧ rv_revenue r = sumZ item_revenue (items_of x.1 (items d)) ∧ items_of x.1 (items d) ≠ [].
Proof. unfold group. destruct (items_of x.1 (items d)) as [|i l]; [done|]. by intros [= <-]. Qed.
Lemma group_none d x : group d x = None → items_of x.1 (items d) = [].
Proof. unfold group. by destruct (items_of x.1 (items d)). Qed.

Lemma group_cons d x l : omap (group d) (x :: l) = match group d x with Some r => r :: omap (group d) l | None => omap (group d) l end.
Proof. done. Qed.

Lemma grouped_sum d (g : RevenueRow → Z) f l : (∀ x r, group d x = Some r → g r = sumZ f (items_of x.1 (items d))) →
  sumZ g (omap (group d) l) = sumZ (λ id, sumZ f (items_of id (items d))) l.*1.
Proof.
  intros Hg. induction l as [|x l IH]; [done|]. rewrite group_cons, fmap_cons. cbn [sumZ foldr]. unfold sumZ in *. cbn [foldr].
  rewrite <-IH. destruct (group d x) as [r|] eqn:Hx; [cbn [foldr]; by rewrite (Hg _ _ Hx)|by rewrite (group_none _ _ Hx)].
Qed.

Lemma grouped_ids d l : NoDup l.*1 → NoDup (rv_id <$> omap (group d) l).
Proof.
  induction l as [|x l IH]; [constructor|]. rewrite fmap_cons, NoDup_cons, group_cons. intros [Hx Hl].
  destruct (group d x) as [r|] eqn:Hr; [|by apply IH]. rewrite fmap_cons, NoDup_cons. split; [|by apply IH].
  intros (r' & He & (y & Hy & Hr')%list_elem_of_omap)%list_elem_of_fmap. apply Hx.
  apply group_some in Hr as (Hid & _). apply group_some in Hr' as (Hid' & _). rewrite <-Hid, He, Hid'. by apply list_elem_of_fmap_2.
Qed.

Lemma items_known d i : db_ok d → i ∈ items d → item_ok d i ∧ oi_product_id i ∈ (map_to_list (products d)).*1.
Proof.
  intros Hok ([k j] & -> & Hin%elem_of_map_to_list)%list_elem_of_fmap. pose proof (ok_items _ Hok k j Hin) as Hi. split; [done|].
  destruct Hi as (_ & _ & _ & _ & [p Hp]). apply list_elem_of_fmap. exists (oi_product_id j, p). split; [done|]. by apply elem_of_map_to_list.
Qed.

(** A part of a sum of non-negative terms. *)
Lemma items_of_le d f id : (∀ i, i ∈ items d → 0 ≤ f i) → 0 ≤ sumZ f (items_of id (items d)) ≤ sumZ f (items d).
Proof.
  unfold items_of. induction (items d) as [|i l IH]; intros Hf; [done|]. pose proof (Hf i ltac:(left)).
  assert (0 ≤ sumZ f (filter (λ i, oi_product_id i = id) l) ≤ sumZ f l) by (apply IH; intros; apply Hf; by right).
  rewrite filter_cons. change (sumZ f (i :: l)) with (f i + sumZ f l). case_decide; [|lia].
  change (sumZ f (i :: ?x)) with (f i + sumZ f x). lia.
Qed.

(** The report is exact.  Without faults it lists every product that was sold,
    once, best sellers first, with its own sku and name, the exact number of
    units, and the exact revenue as text, in spite of the way over binary64;
    and the lines add up to all order items: none is lost or counted twice. *)
Theorem report_exact d t : db_ok d → sumZ item_revenue (items d) < 2 ^ 50 → sumZ oi_quantity (items d) < 2 ^ 53 → ∃ rows t',
  report no_fault t d = (Ok (line_of <$> rows), t', d) ∧ StronglySorted earns_more rows ∧
  NoDup (rv_id <$> rows) ∧ (∀ id, id ∈ rv_id <$> rows ↔ ∃ i, i ∈ items d ∧ oi_product_id i = id) ∧
  (∀ r, r ∈ rows → ∃ p, products d !! rv_id r = Some p ∧ ln_sku (line_of r) = p_sku p ∧ ln_name (line_of r) = p_name p ∧
     num_to_Z (ln_units (line_of r)) = Some (sumZ oi_quantity (items_of (rv_id r) (items d))) ∧
     ln_revenue (line_of r) = Some (money (sumZ item_revenue (items_of (rv_id r) (items d))))) ∧
  sumZ rv_revenue rows = sumZ item_revenue (items d) ∧ sumZ rv_units rows = sumZ oi_quantity (items d).
Proof.
  intros Hok Hrev Hunits. set (P := map_to_list (products d)). set (rows := merge_sort earns_more (omap (group d) P)).
  assert (Hperm : rows ≡ₚ omap (group d) P) by apply merge_sort_Permutation.
  assert (Hids : NoDup P.*1) by apply NoDup_fst_map_to_list.
  assert (Hknown : ∀ i, i ∈ items d → oi_product_id i ∈ P.*1) by (intros i Hi; by apply items_known).
  assert (Hpos : ∀ i, i ∈ items d → 0 ≤ oi_quantity i ∧ 0 ≤ item_revenue i).
  { intros i Hi. destruct (items_known d i Hok Hi) as [(Hq & _ & Hp & _) _]. unfold item_revenue. split; [lia|nia]. }
  assert (Hrow : ∀ r, r ∈ rows → ∃ x, x ∈ P ∧ group d x = Some r) by (intros r; rewrite Hperm, list_elem_of_omap; done).
  exists rows. eexists. split; [|split; [|split; [|split; [|split; [|split]]]]].
  - unfold report. erewrite bind_run; [|by apply query_run]. reflexivity.
  - apply (StronglySorted_merge_sort earns_more).
  - rewrite Hperm. by apply grouped_ids.
  - intros id. rewrite Hperm. split.
    + intros (r & -> & (x & Hx & Hr)%list_elem_of_omap)%list_elem_of_fmap. apply group_some in Hr as (-> & _ & _ & _ & _ & Hne).
      destruct (items_of x.1 (items d)) as [|i l] eqn:Hl; [done|]. exists i.
      assert (i ∈ items_of x.1 (items d)) as [? ?]%list_elem_of_filter by (rewrite Hl; left). done.
    + intros (i & Hi & <-). pose proof (Hknown i Hi) as (x & Hx & HP)%list_elem_of_fmap. destruct (group d x) as [r|] eqn:Hr.
      * apply list_elem_of_fmap. exists r. split; [rewrite Hx; symmetry; by apply group_some in Hr as [? _]|]. apply list_elem_of_omap. eauto.
      * apply group_none in Hr. assert (i ∈ items_of x.1 (items d)) as Hin by (apply list_elem_of_filter; done). rewrite Hr in Hin. by apply elem_of_nil in Hin.
  - intros r Hr. destruct (Hrow r Hr) as ([id p] & Hx & Hg). apply elem_of_map_to_list in Hx.
    apply group_some in Hg as (-> & Hs & Hn & Hu & Hv & _). cbn in *. exists p. split_and!; [done..| |].
    + rewrite Hu. apply rnd_int_exact. pose proof (items_of_le d oi_quantity id (λ i Hi, proj1 (Hpos i Hi))). lia.
    + rewrite Hv. apply toFixed2_cents. pose proof (items_of_le d item_revenue id (λ i Hi, proj2 (Hpos i Hi))). lia.
  - rewrite (sumZ_Permutation _ _ _ Hperm), (grouped_sum d _ item_revenue) by (intros x r Hg%group_some; tauto). by apply sum_groups.
  - rewrite (sumZ_Permutation _ _ _ Hperm), (grouped_sum d _ oi_quantity) by (intros x r Hg%group_some; tauto). by apply sum_groups.
Qed.

(** ** A report *)

(** After one purchase of two keyboards for 12.99 each. *)
Lemma report_exact_witness : ∃ rows t', report no_fault 0%nat after_retry = (Ok (line_of <$> rows), t', after_retry) ∧
  sumZ rv_revenue rows = 2598 ∧ sumZ rv_units rows = 2.
Proof.
  destruct (report_exact after_retry 0%nat) as (rows & t' & Hrun & _ & _ & _ & _ & Hrev & Hunits).
  - exact (proj1 (runs_ok _ _ _ two_attempts fix_db_ok)).
  - vm_compute. reflexivity.
  - vm_compute. reflexivity.
  - exists rows, t'. split; [exact Hrun|]. rewrite Hrev, Hunits. split; vm_compute; reflexivity.
Defined.
