(* ===== verification/NPlusOne.v ===== *)
(** The logger that counts statements (src/query-count-logger.ts) and the naive
    walk over orders, items and products that it measures (src/demo-nplus1.ts). *)
From stdpp Require Import pretty.
From S2P Require Import Prelude JsNumber Schema Sql Fixtures Checkout Oversell Seed Report.
#[local] Open Scope Z_scope.

(** ** src/query-count-logger.ts *)

Record QueryCountLogger := Logger { count : nat; echo : bool }.
Definition new_logger : QueryCountLogger := Logger 0 false.
Definition reset (l : QueryCountLogger) : QueryCountLogger := Logger 0 (echo l).
(** Only messages of the type [query] count. *)
Definition writeLog (types : list string) (l : QueryCountLogger) : QueryCountLogger :=
  foldl (λ l type, if String.eqb type "query" then Logger (S (count l)) (echo l) else l) l types.

(** ** src/demo-nplus1.ts *)

(** Code on a data source that logs to the counter. *)
Definition logged (A : Type) : Type := QueryCountLogger → sql (A * QueryCountLogger).
#[export] Instance logged_ret : MRet logged := λ A a l, mret (a, l).
#[export] Instance logged_bind : MBind logged := λ A B f m l, x ← m l; f x.1 x.2.
(** One statement: the driver logs it once. *)
Definition stmt {A} (f : db → result A * db) : logged A := λ l, a ← query f; mret (a, writeLog ["query"] l).
Definition logger_reset : logged unit := λ l, mret (tt, reset l).
Definition logger_count : logged nat := λ l, mret (count l, l).

Section demo.
Context (next : gset Z → Z) (clock : nat → Z).

Definition Date_now : logged Z := λ l φ t d, (Ok (clock t, l), t, d).

(** [manager.save(User, ...)] and [manager.save(Product, ...)] inside the open
    transaction: one INSERT; [email] and [sku] are unique. *)
Definition insert_user (email fullName : string) (d : db) : result (Z * user_row) * db :=
  if bool_decide (map_Exists (λ _ u, u_email u = email) (users d)) then (Err (PgError "23505"), d) else
  let u := UserRow email fullName 100000000 None customer in
  (Ok (next (dom (users d)), u), set_users <[next (dom (users d)) := u]> d).
Definition insert_product (sku name : string) (price : Z) (d : db) : result Z * db :=
  if bool_decide (map_Exists (λ _ p, p_sku p = sku) (products d)) then (Err (PgError "23505"), d) else
  (Ok (next (dom (products d))), set_products <[next (dom (products d)) := ProductRow sku name (100 * price) true 0]> d).

Fixpoint make_orders (buyer : Z * user_row) (product : Z) (n : nat) : logged (list Z) :=
  match n with
  | O => mret []
  | S n =>
      now ← Date_now;
      order ← stmt (insert_seed_order buyer.1 (u_email buyer.2) paid (num_of_Z 10) now);
      _ ← stmt (insert_seed_item order product 1 (num_of_Z 10));
      ids ← make_orders buyer product n;
      mret (order :: ids)
  end.
Definition email_of (tag : string) (now : Z) : string := "nplus1-" +:+ tag +:+ "-" +:+ pretty now +:+ "@example.com".
Definition sku_of (tag : string) (now : Z) : string := "NPLUS1-" +:+ tag +:+ "-" +:+ pretty now.
Definition makeDataset (ordersCount : nat) (tag : string) : logged (list Z) :=
  now ← Date_now;
  buyer ← stmt (insert_user (email_of tag now) ("Demo Buyer " +:+ tag));
  now ← Date_now;
  product ← stmt (insert_product (sku_of tag now) ("Demo product " +:+ tag) 10);
  make_orders buyer product ordersCount.

(** [findBy({ id: In(orderIds) })], [findBy({ order: { id } })], [findOneBy({ id })] *)
Definition find_orders (ids : list Z) (d : db) : result (list Z) * db :=
  (Ok ((filter (λ p : Z * order_row, p.1 ∈ ids) (map_to_list (orders d))).*1), d).
Definition find_items (order : Z) (d : db) : result (list order_item_row) * db :=
  (Ok (filter (λ i, oi_order_id i = order) (items d)), d).
Definition find_product (id : Z) (d : db) : result (option product_row) * db := (Ok (products d !! id), d).

Fixpoint walk_items (l : list order_item_row) : logged unit :=
  match l with
  | [] => mret tt
  | item :: l => _ ← stmt (find_product (oi_product_id item)); walk_items l
  end.
Fixpoint walk_orders (l : list Z) : logged unit :=
  match l with
  | [] => mret tt
  | order :: l => its ← stmt (find_items order); _ ← walk_items its; walk_orders l
  end.
Definition measureNaive (orderIds : list Z) : logged nat :=
  _ ← logger_reset;
  found ← stmt (find_orders orderIds);
  _ ← walk_orders found;
  logger_count.

(** The two data sets and the naive measurements, in the transaction that is
    rolled back in the end. *)
Definition measure_both : logged (nat * nat) :=
  small ← makeDataset 5 "small";
  big ← makeDataset 40 "big";
  naiveSmall ← measureNaive small;
  naiveBig ← measureNaive big;
  mret (naiveSmall, naiveBig).
Definition demo_nplus1 : sql (nat * nat) := transaction (x ← measure_both new_logger; mret (Rollback x.1)).
End demo.

(** ** What the naive walk costs *)

(** A run without faults. *)
Definition goes {A} (m : logged A) (l : QueryCountLogger) (d : db) (a : A) (l' : QueryCountLogger) (d' : db) : Prop :=
  ∀ t, ∃ t', m l no_fault t d = (Ok (a, l'), t', d').

Lemma goes_ret {A} (a : A) l d : goes (mret a) l d a l d.
Proof. intros t. by exists t. Qed.
Lemma goes_bind {A B} (m : logged A) (f : A → logged B) l d a l1 d1 b l2 d2 :
  goes m l d a l1 d1 → goes (f a) l1 d1 b l2 d2 → goes (m ≫= f) l d b l2 d2.
Proof.
  intros Hm Hf t. destruct (Hm t) as [t1 H1]. destruct (Hf t1) as [t2 H2]. exists t2.
  unfold mbind, logged_bind. by rewrite (bind_run _ _ _ _ _ _ _ _ H1).
Qed.
Lemma goes_stmt {A} (f : db → result A * db) l d a d' : f d = (Ok a, d') → goes (stmt f) l d a (Logger (S (count l)) (echo l)) d'.
Proof. intros Hf t. eexists. unfold stmt. by erewrite bind_run by (by apply query_run). Qed.
Lemma goes_reset l d : goes logger_reset l d tt (reset l) d.
Proof. intros t. by exists t. Qed.
Lemma goes_count l d : goes logger_count l d (count l) l d.
Proof. intros t. by exists t. Qed.

Definition items_in (order : Z) (d : db) : list order_item_row := filter (λ i, oi_order_id i = order) (items d).
Definition cost (order : Z) (d : db) : nat := S (length (items_in order d)).

Lemma goes_items its l d : goes (walk_items its) l d tt (Logger (count l + length its) (echo l)) d.
Proof.
  revert l. induction its as [|it its IH]; intros l; cbn [walk_items length].
  - rewrite Nat.add_0_r. destruct l. apply goes_ret.
  - eapply goes_bind; [by apply goes_stmt|]. rewrite Nat.add_succ_r, <-Nat.add_succ_l. apply (IH (Logger (S (count l)) (echo l))).
Qed.
Lemma goes_orders ids l d : goes (walk_orders ids) l d tt (Logger (count l + sum_list ((λ o, cost o d) <$> ids)) (echo l)) d.
Proof.
  revert l. induction ids as [|o ids IH]; intros l; cbn [walk_orders fmap list_fmap sum_list].
  - rewrite Nat.add_0_r. destruct l. apply goes_ret.
  - eapply goes_bind; [by apply goes_stmt|]. eapply goes_bind; [apply goes_items|]. cbn [count echo].
    replace (count l + (cost o d + sum_list ((λ o, cost o d) <$> ids)))%nat
      with (S (count l) + length (items_in o d) + sum_list ((λ o, cost o d) <$> ids))%nat by (unfold cost; lia).
    apply (IH (Logger (S (count l) + length (items_in o d)) (echo l))).
Qed.

(** One statement for the list, one for each order and one for each item. *)
Lemma goes_naive ids l d : NoDup ids → (∀ id, id ∈ ids → is_Some (orders d !! id)) →
  goes (measureNaive ids) l d (S (sum_list ((λ o, cost o d) <$> ids))) (Logger (S (sum_list ((λ o, cost o d) <$> ids))) (echo l)) d.
Proof.
  intros Hnd Hin. unfold measureNaive. eapply goes_bind; [apply goes_reset|]. eapply goes_bind; [by apply goes_stmt|]. cbn [count echo reset].
  set (found := (filter _ _).*1). assert (Hperm : found ≡ₚ ids).
  { apply NoDup_Permutation; [|done|].
    - unfold found. apply NoDup_fmap_fst; [|apply NoDup_filter, NoDup_map_to_list].
      intros x y1 y2 [_ H1]%list_elem_of_filter [_ H2]%list_elem_of_filter. apply elem_of_map_to_list in H1, H2. congruence.
    - intros id. unfold found. rewrite list_elem_of_fmap. split.
      + intros ([i o] & -> & [Hi _]%list_elem_of_filter). done.
      + intros Hi. destruct (Hin id Hi) as [o Ho]. exists (id, o). split; [done|]. apply list_elem_of_filter. split; [done|by apply elem_of_map_to_list]. }
  assert (Hsum : sum_list ((λ o, cost o d) <$> found) = sum_list ((λ o, cost o d) <$> ids)) by (by rewrite Hperm).
  eapply goes_bind; [apply goes_orders|]. rewrite Hsum. apply goes_count.
Qed.

(** ** The data sets *)

(** The identity sequences are past every row, and items belong to orders. *)
Record linked (d : db) : Prop := {
  lk_orders : ∀ i, is_Some (orders d !! i) → i ≤ seq_orders d;
  lk_items : ∀ i, is_Some (order_items d !! i) → i ≤ seq_items d;
  lk_order : ∀ k i, order_items d !! k = Some i → is_Some (orders d !! oi_order_id i);
}.
(** New orders with one item each; the others keep theirs. *)
Record grown (d d' : db) (ids : list Z) : Prop := {
  gr_linked : linked d';
  gr_seq : seq_orders d ≤ seq_orders d';
  gr_old : ∀ o, o ≤ seq_orders d → cost o d' = cost o d ∧ (is_Some (orders d !! o) → is_Some (orders d' !! o));
  gr_once : NoDup ids;
  gr_new : ∀ o, o ∈ ids → seq_orders d < o ≤ seq_orders d' ∧ is_Some (orders d' !! o) ∧ cost o d' = 2%nat;
}.

Lemma grown_nil d d' : linked d → orders d' = orders d → order_items d' = order_items d → seq_orders d' = seq_orders d →
  seq_items d' = seq_items d → grown d d' [].
Proof.
  intros [H1 H2 H3] Ho Hi Hs Hs'. split; [split; by rewrite ?Ho, ?Hi, ?Hs, ?Hs'|lia| |constructor|by intros o ?%elem_of_nil].
  intros o _. split; [|by rewrite Ho]. unfold cost, items_in, items. by rewrite Hi.
Qed.
Lemma grown_trans d d1 d2 ids1 ids2 : grown d d1 ids1 → grown d1 d2 ids2 → grown d d2 (ids1 ++ ids2).
Proof.
  intros [L1 S1 O1 N1 W1] [L2 S2 O2 N2 W2]. split; [done|lia| | |].
  - intros o Ho. destruct (O1 o Ho) as [C1 K1], (O2 o ltac:(lia)) as [C2 K2]. split; [congruence|auto].
  - apply NoDup_app. split_and!; [done| |done]. intros o Ho1 Ho2. apply W1 in Ho1. apply W2 in Ho2. lia.
  - intros o [Ho|Ho]%elem_of_app.
    + destruct (W1 o Ho) as (Hlt & Hs & Hc). destruct (O2 o ltac:(lia)) as [C2 K2]. split; [lia|]. split; [auto|congruence].
    + destruct (W2 o Ho) as (Hlt & Hs & Hc). split; [lia|done].
Qed.

Definition order_and_item (b : Z) (email : string) (product now : Z) (d : db) : db :=
  set_order_items <[seq_items d + 1 := OrderItemRow (seq_orders d + 1) product 1 1000]> (seq_items d + 1)
    (set_orders <[seq_orders d + 1 := OrderRow b email paid 1000 now]> (seq_orders d + 1) d).

Lemma insert_cost b email product now d o : linked d →
  cost o (order_and_item b email product now d) = (if decide (o = (seq_orders d + 1)%Z) then S (cost o d) else cost o d).
Proof.
  intros Hl. unfold cost, items_in, items, order_and_item. cbn.
  assert (Hfree : order_items d !! (seq_items d + 1) = None) by (apply eq_None_not_Some; intros Hx%(lk_items _ Hl); lia).
  rewrite (map_to_list_insert _ _ _ Hfree), fmap_cons, filter_cons. cbn. case_decide; case_decide; first [done|congruence].
Qed.

Lemma grown_order b email product now d : linked d → grown d (order_and_item b email product now d) [seq_orders d + 1].
Proof.
  intros Hl. pose proof Hl as [H1 H2 H3]. split; [split|cbn; lia| |apply NoDup_singleton|].
  - cbn. by apply insert_seq.
  - cbn. by apply insert_seq.
  - cbn. intros k i Hk. apply lookup_insert_Some in Hk as [[_ <-]|[_ Hk]]; [by rewrite lookup_insert_eq|]. apply is_Some_insert. eauto.
  - intros o Ho. rewrite insert_cost by done. rewrite decide_False by lia. split; [done|]. cbn. apply is_Some_insert.
  - intros o ->%list_elem_of_singleton. rewrite insert_cost by done. rewrite decide_True by done. cbn.
    rewrite lookup_insert_eq. split; [lia|]. split; [done|]. unfold cost, items_in. f_equal. f_equal.
    rewrite filter_none; [done|]. intros i Hi%list_elem_of_fmap Heq. destruct Hi as ([k i'] & -> & Hi%elem_of_map_to_list).
    cbn in Heq. apply H3 in Hi. rewrite Heq in Hi. apply H1 in Hi. lia.
Qed.

Section runs.
Context (next : gset Z → Z) (next_fresh : ∀ X, next X ∉ X) (clock : nat → Z).

Lemma make_orders_run b u product pr n l d t : linked d → users d !! b = Some u → products d !! product = Some pr →
  ∃ ids l' t' d', make_orders clock (b, u) product n l no_fault t d = (Ok (ids, l'), t', d') ∧
    grown d d' ids ∧ users d' = users d ∧ products d' = products d ∧ length ids = n.
Proof.
  revert l d t. induction n as [|n IH]; intros l d t Hl Hu Hp.
  { exists [], l, t, d. split_and!; try done. by apply grown_nil. }
  set (d1 := order_and_item b (u_email u) product (clock t) d).
  pose proof (grown_order b (u_email u) product (clock t) d Hl) as Hg.
  destruct (IH (writeLog ["query"] (writeLog ["query"] l)) d1 (S (S t)) (gr_linked _ _ _ Hg) Hu Hp) as (ids & l' & t' & d' & Hrun & Hg' & Hu' & Hp' & Hlen).
  exists (seq_orders d + 1 :: ids), l', t', d'. split_and!; [|by apply (grown_trans d d1 d' [_] ids)|done|done|cbn; by rewrite Hlen].
  cbn [make_orders]. unfold mbind, logged_bind. erewrite bind_run by done. cbn [fst snd]. unfold stmt.
  erewrite bind_run; [|erewrite bind_run; [done|apply query_run]; unfold insert_seed_order; cbn [fst snd]; by rewrite Hu].
  cbn [fst snd]. erewrite bind_run.
  2: { erewrite bind_run; [done|]. apply query_run. unfold insert_seed_item. cbn. rewrite lookup_insert_eq, Hp. reflexivity. }
  cbn [fst snd]. rewrite (bind_run _ _ _ _ _ _ _ _ Hrun). done.
Qed.

(** Nobody has an address or a product of the script's. *)
Record free_names (tags : list string) (d : db) : Prop := {
  fn_users : ∀ tag i u now, tag ∈ tags → users d !! i = Some u → u_email u ≠ email_of tag now;
  fn_products : ∀ tag i p now, tag ∈ tags → products d !! i = Some p → p_sku p ≠ sku_of tag now;
}.

Lemma dataset_run n tag tags l d t : linked d → free_names (tag :: tags) d →
  (∀ tag' now now', tag' ∈ tags → email_of tag now ≠ email_of tag' now' ∧ sku_of tag now ≠ sku_of tag' now') →
  ∃ ids l' t' d', makeDataset next clock n tag l no_fault t d = (Ok (ids, l'), t', d') ∧ grown d d' ids ∧ free_names tags d' ∧ length ids = n.
Proof.
  intros Hl [Hfu Hfp] Hother.
  set (u := UserRow (email_of tag (clock t)) ("Demo Buyer " +:+ tag) 100000000 None customer).
  set (b := next (dom (users d))). set (d1 := set_users <[b := u]> d).
  set (pr := ProductRow (sku_of tag (clock (S t))) ("Demo product " +:+ tag) 1000 true 0).
  set (p := next (dom (products d))). set (d2 := set_products <[p := pr]> d1).
  assert (Hg : grown d d2 []) by (by apply grown_nil).
  destruct (make_orders_run b u p pr n (writeLog ["query"] (writeLog ["query"] l)) d2 (S (S t)) (gr_linked _ _ _ Hg))
    as (ids & l' & t' & d' & Hrun & Hg' & Hu' & Hp' & Hlen); [apply lookup_insert_eq|apply lookup_insert_eq|].
  exists ids, l', t', d'. split_and!; [|by apply (grown_trans d d2 d' [] ids)| |done].
  - unfold makeDataset, mbind, logged_bind. erewrite bind_run by done. cbn [fst snd]. unfold stmt.
    erewrite bind_run; [|erewrite bind_run; [done|apply query_run]; unfold insert_user].
    2: { rewrite bool_decide_eq_false_2; [reflexivity|]. intros (i & x & Hi & Hx). by eapply (Hfu tag i x (clock t)); [left|..]. }
    cbn [fst snd]. erewrite bind_run by done. cbn [fst snd].
    erewrite bind_run; [|erewrite bind_run; [done|apply query_run]; unfold insert_product].
    2: { rewrite bool_decide_eq_false_2; [reflexivity|]. intros (i & x & Hi & Hx). by eapply (Hfp tag i x (clock (S t))); [left|..]. }
    exact Hrun.
  - split; intros tag' i x now Htag Hx; [rewrite Hu' in Hx|rewrite Hp' in Hx]; cbn in Hx;
      apply lookup_insert_Some in Hx as [[_ <-]|[_ Hx]]; [by apply Hother|eapply Hfu; [by right|done]|by apply Hother|eapply Hfp; [by right|done]].
Qed.

Lemma costs_two ids d : (∀ o, o ∈ ids → cost o d = 2%nat) → sum_list ((λ o, cost o d) <$> ids) = (2 * length ids)%nat.
Proof.
  induction ids as [|o ids IH]; intros Ho; [done|].
  change (cost o d + sum_list ((λ o, cost o d) <$> ids) = 2 * S (length ids))%nat.
  rewrite IH by (intros x Hx; apply Ho; by right). rewrite (Ho o) by left. lia.
Qed.

(** The cost of the naive walk grows with the data.  Over a data set of [n]
    orders of one item each the walk sends [1 + 2n] statements, by the count of
    the logger: 11 for the five orders, 81 for the forty; and the script leaves
    every row of the database as it was. *)
Theorem naive_grows d t : linked d → free_names ["small"; "big"] d →
  ∃ t' d', demo_nplus1 next clock no_fault t d = (Ok (11%nat, 81%nat), t', d') ∧ same_rows d d'.
Proof.
  intros Hl Hf.
  destruct (dataset_run 5 "small" ["big"] new_logger d (S t) Hl Hf) as (small & l1 & t1 & d1 & R1 & G1 & F1 & L1).
  { intros tag' now now' ->%list_elem_of_singleton. by split. }
  destruct (dataset_run 40 "big" [] l1 d1 t1 (gr_linked _ _ _ G1) F1) as (big & l2 & t2 & d2 & R2 & G2 & _ & L2).
  { by intros tag' now now' ?%elem_of_nil. }
  assert (Hsmall : ∀ o, o ∈ small → is_Some (orders d2 !! o) ∧ cost o d2 = 2%nat).
  { intros o Ho. destruct (gr_new _ _ _ G1 o Ho) as (Hlt & Hs & Hc). destruct (gr_old _ _ _ G2 o (proj2 Hlt)) as [C K].
    split; [auto|congruence]. }
  assert (Hbig : ∀ o, o ∈ big → is_Some (orders d2 !! o) ∧ cost o d2 = 2%nat) by (intros o Ho; apply (gr_new _ _ _ G2 o Ho)).
  destruct (goes_naive small l2 d2 (gr_once _ _ _ G1) (λ o Ho, proj1 (Hsmall o Ho)) t2) as [t3 R3].
  rewrite (costs_two small) in R3 by (intros o Ho; apply Hsmall, Ho). rewrite L1 in R3.
  destruct (goes_naive big (Logger 11 (echo l2)) d2 (gr_once _ _ _ G2) (λ o Ho, proj1 (Hbig o Ho)) t3) as [t4 R4].
  rewrite (costs_two big) in R4 by (intros o Ho; apply Hbig, Ho). rewrite L2 in R4.
  do 2 eexists. split; [|apply (rollback_same d d2)]. unfold demo_nplus1, transaction. cbn [no_fault].
  erewrite bind_run.
  2: { unfold measure_both, mbind, logged_bind. erewrite bind_run by exact R1. erewrite bind_run by exact R2.
       erewrite bind_run by exact R3. erewrite bind_run by exact R4. reflexivity. }
  reflexivity.
Qed.
End runs.

(** ** A run *)

Lemma naive_grows_witness : ∃ t' d', demo_nplus1 fresh_id (λ t, 1767225600000 + Z.of_nat t) no_fault 0%nat fix_db = (Ok (11%nat, 81%nat), t', d') ∧
  same_rows fix_db d'.
Proof.
  apply (naive_grows fresh_id (λ t, 1767225600000 + Z.of_nat t)).
  - destruct fix_db_ok. split; [assumption|assumption|]. intros k i Hk. by destruct (ok_items k i Hk) as (_ & _ & _ & Ho & _).
  - split; intros tag i x now Ht Hx Heq; unfold fix_db in Hx; cbn [users products set_users set_products] in Hx;
      apply lookup_insert_Some in Hx as [[_ <-]|[_ Hx]]; try discriminate Hx;
      apply elem_of_cons in Ht as [->| ->%list_elem_of_singleton]; discriminate Heq.
Defined.
