(* ===== verification/CdnDemo.v ===== *)
(** The deployment demonstration (src/demo-cdn.ts) with the clean-up of
    src/files/demo-lib.ts: assets published under the hash of their content,
    served by the edge, the closed bucket behind it. *)
From S2P Require Import Prelude JsNumber JsText Schema Sql Async Storage Cdn.
#[local] Open Scope Z_scope.

(** ** The store *)

Class Bucket := {
  store : Type;
  b_get : string → string → store → result origin_object;
  (** bucket, key, body, ContentType, CacheControl *)
  b_put : string → string → list Z → string → string → store → result unit * store;
  (** HeadObject: its CacheControl *)
  b_head : string → string → store → result (option string);
  (** ListObjectsV2 of a prefix: the keys of a page *)
  b_list : string → string → store → list string;
  b_delete : string → list string → store → store;
  (** ListMultipartUploads: keys and upload ids *)
  b_uploads : string → store → list (string * string);
  b_abort : string → string → string → store → store;
  (** the status of an anonymous GET of an object's own URL *)
  b_anonymous : string → string → store → Z;
}.

Definition under (prefix key : string) : Prop := is_Some (JsText.strip_prefix (bytes_of prefix) (bytes_of key)).
#[export] Instance under_dec prefix key : Decision (under prefix key).
Proof. unfold under. apply _. Defined.

(** Documented behaviour: objects by key, a page of a listing that is empty only
    when nothing is under the prefix, a bucket closed to the public. *)
Class BucketLaws `{Bucket} := {
  objects : string → store → gmap string origin_object;
  get_law b k s o : objects b s !! k = Some o → b_get b k s = Ok o;
  put_law b k body ct cc s : ∃ s' etag, b_put b k body ct cc s = (Ok tt, s') ∧
    objects b s' = <[k := OriginObject body (Some cc) (Some ct) etag]> (objects b s);
  head_law b k s o : objects b s !! k = Some o → b_head b k s = Ok (oo_CacheControl o);
  list_law b p s : Forall (λ k, under p k ∧ is_Some (objects b s !! k)) (b_list b p s) ∧
    (b_list b p s = [] → ∀ k, under p k → objects b s !! k = None);
  delete_law b ks s : objects b (b_delete b ks s) = filter (λ x : string * origin_object, x.1 ∉ ks) (objects b s);
  abort_law b k u s : objects b (b_abort b k u s) = objects b s;
  closed_law b k s : b_anonymous b k s = 403;
}.

Section demo.
Context `{Bucket} (sha256_hex : list Z → list Z) (bucket : string).
Notation edge := (edge (store := store)).
Notation io := (async edge).

Definition on_store {A} (f : store → A * store) : io A :=
  roundtrip (λ w, let '(a, s) := f (e_store w) in (Ok a, Edge (e_cache w) (e_origin w) s)).

(** ** src/files/demo-lib.ts *)

Definition expect (key : string) (actual : Z) (allowed : list Z) : list string :=
  if bool_decide (actual ∈ allowed) then [] else [key].
Definition invariant (name : string) (ok : bool) : list string := if ok then [] else [name].
Definition bool_Z (b : bool) : Z := if b then 1 else 0.

(** The loop of [wipe] over one prefix; [false] is a loop that has not ended. *)
Fixpoint wipe_prefix (fuel : nat) (prefix : string) : io bool :=
  match fuel with
  | O => mret false
  | S fuel =>
      l ← on_store (λ s, (b_list bucket prefix s, s));
      match l with
      | [] => mret true
      | _ => _ ← on_store (λ s, (tt, b_delete bucket l s)); wipe_prefix fuel prefix
      end
  end.
Fixpoint abort_all (l : list (string * string)) : io unit :=
  match l with
  | [] => mret tt
  | u :: l => _ ← on_store (λ s, (tt, b_abort bucket u.1 u.2 s)); abort_all l
  end.
Fixpoint wipe_prefixes (fuel : nat) (prefixes : list string) : io bool :=
  match prefixes with
  | [] => mret true
  | p :: ps => ended ← wipe_prefix fuel p; if ended : bool then wipe_prefixes fuel ps else mret false
  end.
Definition wipe (fuel : nat) (prefixes : list string) : io unit :=
  ended ← wipe_prefixes fuel prefixes;
  if ended : bool then (l ← on_store (λ s, (b_uploads bucket s, s)); abort_all l)
  else io_throw (JsError "the wipe does not end").

(** The exit code of [run] for a script without the API. *)
Definition run (r : result (list string)) : Z := match r with Ok [] => 0 | _ => 1 end.

(** ** src/demo-cdn.ts *)

Definition body1 : list Z := bytes_of "body{color:#111}/* v1 */".
Definition body2 : list Z := bytes_of "body{color:#222}/* v2 */".

Definition via (key : string) : io edge_response := handle b_get bucket "GET" (Some ("/" +:+ key)).
Definition publish (body : list Z) : io string := publishAsset b_put sha256_hex bucket "app.css" body "text/css".
Definition x_cache (r : edge_response) : option string :=
  snd <$> (head (filter (λ h : string * string, h.1 = "X-Cache") (er_headers r))).
Definition is_hit (r : edge_response) : bool := bool_decide (x_cache r = Some "HIT").

Definition deploy : io (list string) :=
  v1 ← publish body1;
  cc ← roundtrip (λ w, (b_head bucket v1 (e_store w), w));
  let c1 := invariant "Cache-Control" (bool_decide (cc = Some IMMUTABLE)) in
  direct ← on_store (λ s, (b_anonymous bucket v1 s, s));
  miss ← via v1;
  hit ← via v1;
  uploads ← via "uploads/x";
  v2 ← publish body2;
  new ← via v2;
  old ← via v1;
  mret (c1 ++ expect "direct" direct [403] ++
    expect "edge-miss" (er_status miss) [200] ++ invariant "MISS" (bool_decide (x_cache miss = Some "MISS")) ++
    expect "edge-hit" (er_status hit) [200] ++ expect "cache-hit" (bool_Z (is_hit hit)) [1] ++
    invariant "uploads" (er_status uploads =? 403) ++
    expect "new-name" (bool_Z (negb (String.eqb v2 v1))) [1] ++ expect "new-url" (er_status new) [200] ++
    expect "content-changed" (bool_Z (bool_decide (er_body new ≠ er_body hit))) [1] ++ invariant "old" (is_hit old)).

(** [startEdge]: an empty cache in front of the store. *)
Definition startEdge : io unit := λ σ t w, (Ok tt, t, Edge ∅ 0 (e_store w)).
Definition demo_cdn (fuel : nat) : io (list string) :=
  _ ← wipe fuel [ASSET_PREFIX];
  _ ← startEdge;
  r ← io_try deploy;
  _ ← wipe fuel [ASSET_PREFIX];
  io_lift r.
End demo.

(** ** Keys of assets *)

Lemma decode_plain l fuel : 37 ∉ l → (length l < fuel)%nat → decode_uri fuel l = Some l.
Proof.
  revert fuel. induction l as [|c l IH]; intros fuel Hl Hf; (destruct fuel as [|fuel]; [cbn in Hf; lia|]); [done|].
  apply not_elem_of_cons in Hl as [Hc Hl]. cbn in Hf. specialize (IH fuel Hl ltac:(lia)).
  destruct (decide (c = 37)) as [->|Hne]; [done|].
  assert (decode_uri (S fuel) (c :: l) = cons c <$> decode_uri fuel l) as ->; [|by rewrite IH].
  destruct c as [|p|p]; [done| |done]. do 6 (destruct p as [p|p|]; try done).
Qed.

Lemma asset_key_plain key : 37 ∉ bytes_of key → 63 ∉ bytes_of key → asset_key (Some ("/" +:+ key)) = Some key.
Proof.
  intros H37 H63. unfold asset_key. change (bytes_of (default "/" (Some ("/" +:+ key)))) with (47 :: bytes_of key).
  rewrite js_split_plain by (apply not_elem_of_cons; by split). unfold decodeURIComponent.
  rewrite decode_plain; [|apply not_elem_of_cons; by split|lia]. exact (f_equal Some (text_of_bytes key)).
Qed.

Definition no_dots (l : list Z) : Prop := includes [46; 46] l = false.
Lemma no_dots_at l1 l : take 2 l1 ≠ [46; 46] → l1 ≠ [] → tail l1 = l → no_dots l → no_dots l1.
Proof.
  intros Ht Hne <- Hl. destruct l1 as [|c l1]; [done|]. unfold no_dots in *. cbn [includes tail] in *. rewrite Hl.
  rewrite bool_decide_eq_false_2; [done|]. unfold JsText.strip_prefix. change (length [46; 46]) with 2%nat.
  rewrite bool_decide_eq_false_2 by done. by intros [? [=]].
Qed.
Lemma no_dots_cons c l : c ≠ 46 → no_dots l → no_dots (c :: l).
Proof. intros Hc. apply no_dots_at; [|done|done]. cbn. intros [= ->]. done. Qed.
Lemma no_dots_dot c l : c ≠ 46 → no_dots (c :: l) → no_dots (46 :: c :: l).
Proof. intros Hc. apply no_dots_at; [|done|done]. cbn. intros [= ->]. done. Qed.
Lemma no_dots_app a l : Forall (λ c, c ≠ 46) a → no_dots l → no_dots (a ++ l).
Proof. induction 1; [done|]. intros Hl. apply no_dots_cons; auto. Qed.

Section names.
Context (sha256_hex : list Z → list Z).
(** Sixty-four hexadecimal digits. *)
Definition hex_digit (c : Z) : Prop := 48 ≤ c ≤ 57 ∨ 97 ≤ c ≤ 102.
#[export] Instance hex_digit_dec c : Decision (hex_digit c).
Proof. unfold hex_digit. apply _. Defined.
Context (Hsha : ∀ b, length (sha256_hex b) = 64%nat ∧ Forall hex_digit (sha256_hex b)).

Definition asset_bytes (body : list Z) : list Z := bytes_of "assets/app." ++ take 8 (sha256_hex body) ++ bytes_of ".css".

Lemma hash_plain body : Forall (λ c, hex_digit c ∧ c ≠ 37 ∧ c ≠ 63 ∧ c ≠ 46 ∧ 0 ≤ c < 256) (take 8 (sha256_hex body)).
Proof. apply Forall_take. eapply Forall_impl; [apply Hsha|]. unfold hex_digit. cbn. intros c Hc. lia. Qed.

Lemma hashed_bytes body : bytes_of (hashedKey sha256_hex "app.css" body) = asset_bytes body.
Proof.
  unfold hashedKey. change (text_of (bytes_of "assets/app." ++ take 8 (sha256_hex body) ++ bytes_of ".css")) with (text_of (asset_bytes body)) || idtac.
  replace (let '(stem, ext) := _ in _) with (text_of (asset_bytes body)) by reflexivity.
  apply bytes_text. unfold asset_bytes. apply Forall_app. split; [apply bytes_of_bound|]. apply Forall_app. split; [|apply bytes_of_bound].
  eapply Forall_impl; [apply hash_plain|]. cbn. tauto.
Qed.

Lemma hashed_key body : asset_key (Some ("/" +:+ hashedKey sha256_hex "app.css" body)) = Some (hashedKey sha256_hex "app.css" body).
Proof.
  pose proof (hash_plain body) as Hh. rewrite Forall_forall in Hh.
  apply asset_key_plain; rewrite hashed_bytes; unfold asset_bytes; rewrite !elem_of_app; intros [Hin|[Hin|Hin]];
    try (by apply Hh in Hin as (_ & ? & ? & _)); revert Hin; apply (bool_decide_unpack _); vm_compute; exact Logic.I.
Qed.

Lemma hashed_public body : public_key (hashedKey sha256_hex "app.css" body) = true ∧ under ASSET_PREFIX (hashedKey sha256_hex "app.css" body).
Proof.
  assert (Hu : under ASSET_PREFIX (hashedKey sha256_hex "app.css" body)) by (unfold under; rewrite hashed_bytes; by eexists).
  split; [|done]. unfold public_key. rewrite (bool_decide_eq_true_2 _ Hu). cbn [andb]. rewrite hashed_bytes.
  change (bytes_of "..") with [46; 46]. enough (no_dots (asset_bytes body)) as -> by done. unfold asset_bytes.
  change (bytes_of "assets/app.") with (bytes_of "assets/app" ++ [46]). rewrite <-app_assoc.
  apply no_dots_app; [apply (bool_decide_unpack _); vm_compute; exact Logic.I|].
  pose proof (hash_plain body) as Hh. pose proof (proj1 (Hsha body)) as Hlen.
  destruct (sha256_hex body) as [|c l]; [done|]. cbn [take] in *. inversion_clear Hh as [|? ? Hc Hl]. cbn [app].
  assert (Hrest : no_dots (c :: take 7 l ++ bytes_of ".css")).
  { apply no_dots_cons; [tauto|]. apply no_dots_app; [|done]. eapply Forall_impl; [exact Hl|]. cbn. tauto. }
  apply no_dots_dot; [tauto|exact Hrest].
Qed.

Lemma hashed_apart b b' : take 8 (sha256_hex b) ≠ take 8 (sha256_hex b') → hashedKey sha256_hex "app.css" b ≠ hashedKey sha256_hex "app.css" b'.
Proof.
  intros Hne Heq. apply (f_equal bytes_of) in Heq. rewrite !hashed_bytes in Heq. unfold asset_bytes in Heq.
  apply app_inv_head, app_inv_tail in Heq. done.
Qed.
End names.

(** ** Runs *)

Section runs.
Context `{BucketLaws} (sha256_hex : list Z → list Z) (bucket : string) (σ : asched (edge (store := store))).
Notation edge := (edge (store := store)).
Notation objs w := (objects bucket (e_store w)).

(** The edge has a port of its own, and nobody else touches the bucket's
    objects meanwhile. *)
Definition undisturbed : Prop := (∀ t, s_fault σ t = None) ∧
  ∀ t w, e_cache (s_others σ t w) = e_cache w ∧ objs (s_others σ t w) = objs w.
Context (Hσ : undisturbed).

Lemma on_store_run {A} (f : store → A * store) t w : ∃ w', let s := e_store (s_others σ t w) in
  on_store f σ t w = (Ok (f s).1, S t, w') ∧ e_cache w' = e_cache w ∧ objs w' = objects bucket (f s).2 ∧ objects bucket s = objs w.
Proof.
  destruct Hσ as [Hf Ho]. destruct (Ho t w) as [Hc Hb]. cbv zeta. unfold on_store, roundtrip. rewrite Hf.
  destruct (f _) as [a s]. eexists. split; [reflexivity|]. cbn. by rewrite Hc, Hb.
Qed.

(** *** The clean-up *)

Definition doomed (prefix : string) (m : gmap string origin_object) : gmap string origin_object := filter (λ x, under prefix x.1) m.
Definition spared (prefix : string) (m : gmap string origin_object) : gmap string origin_object := filter (λ x, ¬ under prefix x.1) m.

Lemma spared_filter prefix (ks : list string) m : Forall (under prefix) ks →
  spared prefix (filter (λ x : string * origin_object, x.1 ∉ ks) m) = spared prefix m.
Proof.
  intros Hks. rewrite Forall_forall in Hks. unfold spared. apply map_eq. intros k. apply option_eq. intros o.
  rewrite !map_lookup_filter_Some. cbn. split; [tauto|]. intros [Hk Hn]. split_and!; [done|intros Hin; by apply Hn, Hks|done].
Qed.
Lemma wipe_prefix_run prefix n t w : (size (doomed prefix (objs w)) ≤ n)%nat → ∃ t' w',
  wipe_prefix bucket (S n) prefix σ t w = (Ok true, t', w') ∧ e_cache w' = e_cache w ∧ objs w' = spared prefix (objs w).
Proof.
  revert t w. induction n as [n IH] using lt_wf_ind. intros t w Hn. cbn [wipe_prefix].
  destruct (on_store_run (λ s, (b_list bucket prefix s, s)) t w) as (w1 & Hr & Hc & Ho & Hs). cbn [fst snd] in *.
  rewrite (io_bind_run _ _ _ _ _ _ _ _ Hr). destruct (list_law bucket prefix (e_store (s_others σ t w))) as [Hin Hnil].
  rewrite Hs in Hin, Hnil. destruct (b_list _ _ _) as [|k ks].
  { exists (S t), w1. split; [done|]. split; [done|]. rewrite Ho, Hs. unfold spared. symmetry. apply map_filter_id.
    intros k o Hk Hu. cbn in Hu. by rewrite (Hnil eq_refl k Hu) in Hk. }
  destruct (on_store_run (λ s, (tt, b_delete bucket (k :: ks) s)) (S t) w1) as (w2 & Hr2 & Hc2 & Ho2 & Hs2). cbn [fst snd] in *.
  rewrite (io_bind_run _ _ _ _ _ _ _ _ Hr2). rewrite delete_law, Hs2, Ho, Hs in Ho2.
  apply Forall_and in Hin as [Hin Hex]. inversion Hin as [|? ? Hk _]; subst. inversion Hex as [|? ? [o Hok] _]; subst.
  assert (Hlt : (size (doomed prefix (objs w2)) < size (doomed prefix (objs w)))%nat).
  { apply map_subset_size, map_subset_alt. rewrite Ho2. split.
    - apply map_subseteq_spec. intros j x. unfold doomed. rewrite !map_lookup_filter_Some. tauto.
    - exists k. unfold doomed. split; [|exists o; by apply map_lookup_filter_Some].
      apply map_lookup_filter_None. left. apply map_lookup_filter_None. right. intros x _ Hx. apply Hx. by left. }
  destruct n as [|n]; [lia|]. destruct (IH n ltac:(lia) (S (S t)) w2 ltac:(lia)) as (t' & w' & Hr' & Hc' & Ho').
  exists t', w'. split; [exact Hr'|]. split; [congruence|]. rewrite Ho', Ho2. by apply spared_filter.
Qed.

Lemma abort_all_run l t w : ∃ t' w', abort_all bucket l σ t w = (Ok tt, t', w') ∧ e_cache w' = e_cache w ∧ objs w' = objs w.
Proof.
  revert t w. induction l as [|u l IH]; intros t w; [by exists t, w|]. cbn [abort_all].
  destruct (on_store_run (λ s, (tt, b_abort bucket u.1 u.2 s)) t w) as (w1 & Hr & Hc & Ho & Hs). cbn [fst snd] in *.
  rewrite (io_bind_run _ _ _ _ _ _ _ _ Hr). destruct (IH (S t) w1) as (t' & w' & Hr' & Hc' & Ho'). exists t', w'.
  split; [exact Hr'|]. rewrite abort_law, Hs in Ho. split; congruence.
Qed.

(** The wipe ends and leaves nothing under the prefix and everything else. *)
Lemma wipe_run prefix n t w : (size (objs w) ≤ n)%nat → ∃ t' w',
  wipe bucket (S n) [prefix] σ t w = (Ok tt, t', w') ∧ e_cache w' = e_cache w ∧ objs w' = spared prefix (objs w).
Proof.
  intros Hn. destruct (wipe_prefix_run prefix n t w) as (t1 & w1 & H1 & Hc1 & Ho1).
  { etrans; [|exact Hn]. apply map_subseteq_size, map_filter_subseteq. }
  destruct (on_store_run (λ s, (b_uploads bucket s, s)) t1 w1) as (w2 & H2 & Hc2 & Ho2 & Hs2). cbn [fst snd] in *.
  destruct (abort_all_run (b_uploads bucket (e_store (s_others σ t1 w1))) (S t1) w2) as (t' & w' & H3 & Hc3 & Ho3).
  exists t', w'. split; [|split; congruence]. unfold wipe. cbn [wipe_prefixes].
  assert (Hw : (ended ← wipe_prefix bucket (S n) prefix; if ended : bool then mret true else mret false) σ t w = (Ok true, t1, w1)).
  { by rewrite (io_bind_run _ _ _ _ _ _ _ _ H1). }
  rewrite (io_bind_run _ _ _ _ _ _ _ _ Hw). by rewrite (io_bind_run _ _ _ _ _ _ _ _ H2).
Qed.

(** *** The edge *)

(** The script takes less than the year an asset may be kept. *)
Definition within_year (T0 : Z) : Prop := 0 ≤ T0 ∧ T0 + 2 * 31536000000 < 2 ^ 53 ∧ ∀ t, T0 ≤ s_clock σ t < T0 + 31536000000.
Context (T0 : Z) (Hclock : within_year T0).
Notation via := (via bucket).

Definition immutable (o : origin_object) : Prop := oo_CacheControl o = Some IMMUTABLE.
Definition kept (k : string) (o : origin_object) (w : edge) : Prop := ∃ now, T0 ≤ now < T0 + 31536000000 ∧ e_cache w !! k = Some (entry_of now o).

Lemma publish_run body t w : ∃ w' etag, publish sha256_hex bucket body σ t w = (Ok (hashedKey sha256_hex "app.css" body), S t, w') ∧
  e_cache w' = e_cache w ∧ objs w' = <[hashedKey sha256_hex "app.css" body := OriginObject body (Some IMMUTABLE) (Some "text/css") etag]> (objs w).
Proof.
  destruct Hσ as [Hf Ho]. destruct (Ho t w) as [Hc Hb]. unfold publish, publishAsset.
  destruct (put_law bucket (hashedKey sha256_hex "app.css" body) body "text/css" IMMUTABLE (e_store (s_others σ t w))) as (s' & etag & Hp & Hs).
  do 2 eexists. split.
  - erewrite io_bind_run; [reflexivity|]. unfold roundtrip. rewrite Hf, Hp. reflexivity.
  - cbn. by rewrite Hc, Hs, Hb.
Qed.

Lemma entry_alive now o t : immutable o → T0 ≤ now < T0 + 31536000000 → num_le_Z (en_expires (entry_of now o)) (s_clock σ t) = false.
Proof.
  intros Ho Hnow. destruct Hclock as (H0' & Hb & Hc). specialize (Hc t).
  rewrite (num_le_Z_int _ (now + 31536000 * 1000)); [apply Z.leb_gt; lia|].
  apply entry_expires; [rewrite Ho; by vm_compute|lia..].
Qed.

Lemma via_hit k o t w : asset_key (Some ("/" +:+ k)) = Some k → public_key k = true → immutable o → kept k o w →
  ∃ now, via k σ t w = (Ok (serve_entry (entry_of now o) "HIT"), t, w).
Proof.
  intros Hk Hp Ho (now & Hnow & Hc). exists now. unfold CdnDemo.via, handle. rewrite Hk, Hp. cbn [String.eqb Ascii.eqb Bool.eqb negb orb].
  unfold mbind, io_bind, io_date, sync, lookup_fresh. rewrite Hc, entry_alive by done. reflexivity.
Qed.

Lemma via_miss k o t w : asset_key (Some ("/" +:+ k)) = Some k → public_key k = true → immutable o → e_cache w !! k = None → objs w !! k = Some o →
  ∃ now w', via k σ t w = (Ok (serve_entry (entry_of now o) "MISS"), S t, w') ∧ T0 ≤ now < T0 + 31536000000 ∧
    e_cache w' = <[k := entry_of now o]> (e_cache w) ∧ objs w' = objs w.
Proof.
  intros Hk Hp Ho Hc Hobj. destruct Hσ as [Hf Hoth]. destruct Hclock as (_ & _ & Hcl).
  set (w1 := Edge (e_cache w) (e_origin w + 1) (e_store w)). destruct (Hoth t w1) as [Hc1 Hb1]. cbn in Hc1, Hb1.
  assert (Hget : b_get bucket k (e_store (s_others σ t w1)) = Ok o) by (apply get_law; by rewrite Hb1).
  exists (s_clock σ (S t)). eexists. split.
  - unfold CdnDemo.via, handle. rewrite Hk, Hp. cbn [String.eqb Ascii.eqb Bool.eqb negb orb].
    unfold mbind, io_bind, io_date, io_try, sync, lookup_fresh, roundtrip. rewrite Hc, Hf. fold w1. rewrite Hget. cbn [entry_of en_cc].
    rewrite Ho. change (num_positive (ttlSec (default "" (Some IMMUTABLE)))) with true. cbv iota. reflexivity.
  - cbn. split; [apply Hcl|]. split; [|exact Hb1]. rewrite Hc1. unfold entry_of. by rewrite Ho.
Qed.

Lemma x_cache_served h x : x_cache (serve_entry h x) = Some x.
Proof. unfold x_cache, serve_entry. cbn [er_headers]. by destruct (truthy (en_etag h)). Qed.

Lemma via_uploads t w : via "uploads/x" σ t w = (Ok (empty_response 403), t, w).
Proof. reflexivity. Qed.

(** *** The deployment *)

Context (Hsha : ∀ b, length (sha256_hex b) = 64%nat ∧ Forall hex_digit (sha256_hex b)).
Context (Hapart : take 8 (sha256_hex body1) ≠ take 8 (sha256_hex body2)).

Lemma deploy_run t w : e_cache w = ∅ → ∃ t' w', deploy sha256_hex bucket σ t w = (Ok [], t', w') ∧ ∃ o1 o2,
  objs w' = <[hashedKey sha256_hex "app.css" body2 := o2]> (<[hashedKey sha256_hex "app.css" body1 := o1]> (objs w)).
Proof.
  intros Hempty. set (v1 := hashedKey sha256_hex "app.css" body1). set (v2 := hashedKey sha256_hex "app.css" body2).
  assert (Hne : v2 ≠ v1) by (intros Heq; by apply (hashed_apart sha256_hex Hsha body1 body2 Hapart)).
  pose proof (hashed_key sha256_hex Hsha body1) as K1. pose proof (hashed_key sha256_hex Hsha body2) as K2.
  destruct (hashed_public sha256_hex Hsha body1) as [P1 U1]. destruct (hashed_public sha256_hex Hsha body2) as [P2 U2].
  destruct (publish_run body1 t w) as (w1 & e1 & R1 & C1 & O1). fold v1 in R1, O1, K1, P1, U1. fold v2 in K2, P2, U2.
  set (o1 := OriginObject body1 (Some IMMUTABLE) (Some "text/css") e1) in *. set (t1 := S t) in *.
  assert (Hhead : (roundtrip (λ w, (b_head bucket v1 (e_store w), w)) : async edge _) σ t1 w1 = (Ok (Some IMMUTABLE), S t1, s_others σ t1 w1)).
  { destruct Hσ as [Hf Ho]. destruct (Ho t1 w1) as [_ Hb]. unfold roundtrip. rewrite Hf, (head_law _ _ _ o1); [done|]. by rewrite Hb, O1, lookup_insert_eq. }
  destruct (proj2 Hσ t1 w1) as [C1' O1']. rewrite O1 in O1'. rewrite C1, Hempty in C1'.
  destruct (on_store_run (λ s, (b_anonymous bucket v1 s, s)) (S t1) (s_others σ t1 w1)) as (w2 & R2 & C2 & O2 & S2). cbn [fst snd] in *.
  rewrite closed_law in R2. rewrite S2, O1' in O2. rewrite C1' in C2.
  destruct (via_miss v1 o1 (S (S t1)) w2 K1 P1 eq_refl) as (n3 & w3 & R3 & N3 & C3 & O3); [by rewrite C2|by rewrite O2, lookup_insert_eq|].
  rewrite C2 in C3. rewrite O2 in O3. assert (Kp3 : kept v1 o1 w3) by (exists n3; by rewrite C3, lookup_insert_eq).
  destruct (via_hit v1 o1 (S (S (S t1))) w3 K1 P1 eq_refl Kp3) as [n4 R4].
  destruct (publish_run body2 (S (S (S t1))) w3) as (w5 & e2 & R5 & C5 & O5). fold v2 in R5, O5.
  set (o2 := OriginObject body2 (Some IMMUTABLE) (Some "text/css") e2) in *. rewrite C3 in C5. rewrite O3 in O5.
  destruct (via_miss v2 o2 (S (S (S (S t1)))) w5 K2 P2 eq_refl) as (n6 & w6 & R6 & N6 & C6 & O6);
    [by rewrite C5, lookup_insert_ne, lookup_empty|by rewrite O5, lookup_insert_eq|].
  assert (Kp6 : kept v1 o1 w6) by (exists n3; by rewrite C6, C5, lookup_insert_ne, lookup_insert_eq).
  destruct (via_hit v1 o1 (S (S (S (S (S t1))))) w6 K1 P1 eq_refl Kp6) as [n7 R7].
  exists (S (S (S (S (S t1))))), w6. split.
  - unfold deploy. rewrite (io_bind_run _ _ _ _ _ _ _ _ R1), (io_bind_run _ _ _ _ _ _ _ _ Hhead), (io_bind_run _ _ _ _ _ _ _ _ R2),
      (io_bind_run _ _ _ _ _ _ _ _ R3), (io_bind_run _ _ _ _ _ _ _ _ R4), (io_bind_run _ _ _ _ _ _ _ _ (via_uploads _ _)),
      (io_bind_run _ _ _ _ _ _ _ _ R5), (io_bind_run _ _ _ _ _ _ _ _ R6), (io_bind_run _ _ _ _ _ _ _ _ R7).
    unfold is_hit. rewrite !x_cache_served. destruct (String.eqb_spec v2 v1); [done|]. reflexivity.
  - exists o1, o2. by rewrite O6, O5.
Qed.

Lemma spared_insert prefix k o m : under prefix k → spared prefix (<[k := o]> m) = spared prefix m.
Proof. intros Hk. apply map_filter_insert_not. intros o'. cbn. tauto. Qed.
Lemma spared_spared prefix m : spared prefix (spared prefix m) = spared prefix m.
Proof. unfold spared. rewrite map_filter_filter. apply map_filter_ext. tauto. Qed.
Lemma size_insert_le k (o : origin_object) (m : gmap string origin_object) : (size (<[k := o]> m) ≤ S (size m))%nat.
Proof. rewrite map_size_insert. destruct (m !! k); cbn; lia. Qed.

(** The deployment demonstration passes.  From any bucket and whatever else is in
    it, with a hash that tells the two versions apart, and within a year: the
    wipes end, the edge serves the first version from the origin once and then
    itself, nothing private, the second version under its own name at once, and
    the first still from the cache without any invalidation; the script exits
    with 0 and leaves under [assets/] nothing and elsewhere what was there. *)
Theorem demo_cdn_passes n t w : (size (objs w) + 2 ≤ n)%nat → ∃ t' w',
  demo_cdn sha256_hex bucket (S n) σ t w = (Ok [], t', w') ∧ run (Ok []) = 0 ∧ objs w' = spared ASSET_PREFIX (objs w).
Proof.
  intros Hn. destruct (wipe_run ASSET_PREFIX n t w ltac:(lia)) as (t1 & w1 & R1 & _ & O1).
  pose (fresh_edge := Edge (∅ : gmap string Entry) 0 (e_store w1)).
  destruct (deploy_run t1 fresh_edge eq_refl) as (t2 & w2 & R2 & o1 & o2 & O2). cbn [e_store fresh_edge] in O2. rewrite O1 in O2.
  assert (Hsize : (size (objs w2) ≤ n)%nat).
  { rewrite O2. etrans; [apply size_insert_le|]. etrans; [apply le_n_S, size_insert_le|]. etrans; [|exact Hn].
    pose proof (map_subseteq_size (spared ASSET_PREFIX (objs w)) (objs w) (map_filter_subseteq _ _)). lia. }
  destruct (wipe_run ASSET_PREFIX n t2 w2 Hsize) as (t3 & w3 & R3 & _ & O3). exists t3, w3. split; [|split; [done|]].
  - assert (Hstart : startEdge σ t1 w1 = (Ok tt, t1, fresh_edge)) by done.
    assert (Htry : io_try (deploy sha256_hex bucket) σ t1 fresh_edge = (Ok (Ok []), t2, w2)) by (unfold io_try; by rewrite R2).
    unfold demo_cdn. by rewrite (io_bind_run _ _ _ _ _ _ _ _ R1), (io_bind_run _ _ _ _ _ _ _ _ Hstart), (io_bind_run _ _ _ _ _ _ _ _ Htry),
      (io_bind_run _ _ _ _ _ _ _ _ R3).
  - rewrite O3, O2, !spared_insert by apply (hashed_public sha256_hex Hsha). apply spared_spared.
Qed.
End runs.

(** ** A run *)

(** One bucket, with pages of one key. *)
Definition sim_bucket : Bucket := {|
  store := gmap string origin_object;
  b_get := λ _, shelf_get "";
  b_put := λ _ k body ct cc s, (Ok tt, <[k := OriginObject body (Some cc) (Some ct) (Some "e")]> s);
  b_head := λ _ k s, match s !! k with Some o => Ok (oo_CacheControl o) | None => Err (SdkError (Some "NotFound") None None (Some 404)) end;
  b_list := λ _ p s, take 1 (filter (under p) (map_to_list s).*1);
  b_delete := λ _ ks s, filter (λ x : string * origin_object, x.1 ∉ ks) s;
  b_uploads := λ _ _, [("uploads/1/x.jpg", "u1")];
  b_abort := λ _ _ _ s, s;
  b_anonymous := λ _ _ _, 403;
|}.
Lemma sim_bucket_laws : @BucketLaws sim_bucket.
Proof.
  unshelve econstructor; [exact (λ _ s, s)|..]; cbn; try done.
  - intros b k s o Hk. unfold shelf_get. exact (f_equal (λ x : option origin_object, match x with Some o => Ok o | None => Err (SdkError (Some "NoSuchKey") None None (Some 404)) end) Hk).
  - intros b k body ct cc s. eauto.
  - intros b k s o ->. done.
  - intros b p s. split.
    + apply Forall_take, Forall_forall. intros k [Hu ([k' o] & -> & Ho%elem_of_map_to_list)%list_elem_of_fmap]%list_elem_of_filter. eauto.
    + intros Hnil k Hu. apply eq_None_not_Some. intros [o Ho].
      assert (Hin : k ∈ filter (under p) (map_to_list s).*1).
      { apply list_elem_of_filter. split; [done|]. apply list_elem_of_fmap. exists (k, o). split; [done|by apply elem_of_map_to_list]. }
      destruct (filter _ _); [by apply elem_of_nil in Hin|done].
Defined.

(** The digests of the two versions. *)
Definition css_sha256 (b : list Z) : list Z :=
  bytes_of (if decide (b = body1) then "ad4fd9223784b0215bdc392d654842e45a38f2c3a220f3716be79ea31e4507b7"
            else "17a600a871e51652275f5c7f88ce0eb0206d1b56fd12bfe38c4bf3253e71976e").
Definition old_asset : origin_object := OriginObject [1] None None None.
Definition full_bucket : edge (store := gmap string origin_object) :=
  Edge ∅ 0 {["assets/old.css" := old_asset; "assets/older.css" := old_asset; "uploads/1/x.jpg" := old_asset]}.
Definition deploy_sched : asched (edge (store := gmap string origin_object)) :=
  Schedule no_fault (λ _ w, w) (λ t, 1767225600000 + Z.of_nat (t mod 60) * 1000) (λ _, "").

Lemma demo_cdn_passes_witness : ∃ t' w', demo_cdn (H := sim_bucket) css_sha256 "files" 6 deploy_sched 0%nat full_bucket = (Ok [], t', w') ∧
  run (Ok []) = 0 ∧ e_store w' = {["uploads/1/x.jpg" := old_asset]}.
Proof.
  destruct (demo_cdn_passes (H := sim_bucket) (H0 := sim_bucket_laws) css_sha256 "files" deploy_sched) with 1767225600000 5%nat 0%nat full_bucket
    as (t' & w' & Hrun & Hexit & Hobj).
  - split; [reflexivity|]. intros t w. split; reflexivity.
  - split; [discriminate|]. split; [reflexivity|]. intros t. cbn [s_clock deploy_sched].
    pose proof (Nat.mod_upper_bound t 60 ltac:(discriminate)). lia.
  - intros b. unfold css_sha256. destruct (decide (b = body1)); (split; [vm_compute; reflexivity|]);
      apply (bool_decide_unpack _); vm_compute; exact Logic.I.
  - vm_compute. discriminate.
  - vm_compute. repeat constructor.
  - exists t', w'. split; [exact Hrun|]. split; [exact Hexit|]. change (e_store w' = spared ASSET_PREFIX (e_store full_bucket)) in Hobj.
    rewrite Hobj. vm_compute. reflexivity.
Defined.
